(* ===== verification/_CoqProject ===== *)
-Q . S2P
Prelude.v
GoStrings.v
Json.v
JsonProofs.v
Msg.v
MsgProofs.v
Wire.v
WireSpec.v
Auth.v
Router.v
RouterSpec.v
Pool.v
PoolProofs.v
PoolSpec.v
Bufio.v
Control.v
ControlWriter.v
ControlWriterSpec.v
ProxyRegister.v
ProxyRegisterSpec.v
Server.v
ServerProofs.v
ServerStats.v
ServerRefine.v
ServerSpec.v
Teardown.v
Registry.v
RegistrySpec.v
Aes.v
Streams.v
Crypto.v
Wrap.v
WrapSpec.v
Http.v
BufferPool.v
Proxy.v
Transport.v
TransportSpec.v
ProxySpec.v
Strconv.v
Config.v
Mux.v
Main.v
MainSpec.v
System.v
SystemSpec.v
