(* ===== verification/Prelude.v ===== *)
(** * drps: a verification development

    drps is the server of a reverse tunnel: [frpc] clients open a control
    stream, register HTTP proxies and deliver work connections; HTTP requests
    are routed by domain and path to a proxy and carried over a work
    connection. This library models the server's own logic (Go, under
    [src/internal] and [src/cmd/drps]) and proves what it promises. This file
    is the prelude: it holds what the components share.

    ** Parts and files

    - [msg] ([src/internal/msg/msg.go]): [Json] and [JsonProofs] (the part of
      encoding/json that is used), [Msg] and [MsgProofs] (the ten messages,
      their field tables, [Marshal], [Unmarshal], [TypeOf], [typeTo]), [Wire]
      ([WriteMsg], [ReadMsg] with pooled buffers), [WireSpec].
    - [auth] ([src/internal/auth/auth.go]): [Auth], with MD5 written out.
    - [router] ([src/internal/router/router.go]): [Router] (operations and
      well-formedness), [RouterSpec] (an abstract table and the refinement).
    - [pool] ([src/internal/pool/pool.go]): [Pool] (goroutines as program
      counters, one step per atomic action), [PoolProofs], [PoolSpec].
    - registry ([src/internal/pool/registry.go] and the callbacks
      [OnWorkConn] and [OnControlClose] of [src/cmd/drps/main.go]):
      [Registry], [RegistrySpec].
    - control sessions ([src/internal/server]): [Control] ([stats.go],
      [control_manager.go]), [Bufio] (the buffered writer and the interfaces
      [Writer] and [WriterSpec]), [ControlWriter] and [ControlWriterSpec]
      ([control_writer.go]), [ProxyRegister] and [ProxyRegisterSpec]
      ([proxy_register.go]), [Server] ([handle.go], [util.go]: every goroutine
      of every session and every call of [ReqWorkConnFunc], interleaved),
      [ServerProofs] (its invariants), [ServerStats] (the counters),
      [ServerRefine] (each session is a control writer), [ServerSpec]
      (authentication, routes of a session), [Teardown].
    - [crypto] ([src/internal/crypto]): [Aes] (AES and its CFB mode, checked
      against the published vectors), [Streams] (the interfaces [Reader] and
      [ReaderSpec]; sequences of reads and writes; reads under a deadline),
      [Crypto] ([DeriveKey], the encrypting writer and reader, the flushing
      compressor).
    - [wrap] ([src/internal/wrap/wrap.go]): [Wrap], [WrapSpec].
    - [proxy] ([src/internal/proxy/proxy.go]): [Http] (headers, [http.Error],
      base64 and basic authentication), [Proxy] ([ServeHTTP], the hooks of the
      reverse proxy, [dialWorkConn]), [Transport] (requests, dials and the
      connections that carry requests, as a state machine), [TransportSpec],
      [ProxySpec], [BufferPool] (the copy buffers).
    - [config] ([src/internal/config/config.go]): [Strconv] (number syntax
      and the flag parser), [Config] ([Load]).
    - process ([src/cmd/drps/main.go], [src/internal/server/metrics.go]):
      [Mux] ([buildHTTPMux] over a model of [http.ServeMux], which matches the
      segments of the escaped path), [Main]
      ([buildServerStack], the yamux configuration, the accept loops, [main],
      the metrics), [MainSpec]; [System] and [SystemSpec]: the sessions, the
      registry and the HTTP side running together.
    - [GoStrings]: the functions of package strings that are used.

    ** How state and operations correspond

    A Go struct is a record, an operation under a lock or an operation on an
    atomic variable or a channel is one atomic action. Code that runs on one
    goroutine without sharing is a function. Code whose correctness depends on
    interleaving is a list of program counters with a function giving the next
    actions of a goroutine ([Pool.thread_step], [ControlWriter.wstep],
    [Server.main_step], [Server.call_step]); [Pool.step],
    [ControlWriter.wsys_step] and [Server.gstep] interleave them, and an
    execution is a labelled sequence of steps ([exec] below). Schedules
    ([Pool.run_sched], [ControlWriter.wsched_run], [Server.gsched_run],
    [System.dsched_run]) make the step relations executable. Shared objects
    are references into a heap: the channels of sessions ([Control]) and the
    pools ([Registry]). The HTTP side is a function on events
    ([Transport.pstep], [Transport.prun]). [System.dstep] composes it with
    [Server.gstep] and the registry: one router and one registry are shared,
    and the callbacks of [buildServerStack] are part of the steps. A dial is
    the three calls of [dialWorkConn], each a step of its own with the others
    in between: looking the pool up, taking a connection ([PGet] of
    [System.dphase]), [Wrap] ([PWrap]), which is the function of [Wrap] on the
    connection taken and may fail or never return;
    [SystemSpec.dialWorkConn_steps] shows that [dialWorkConn] is these steps
    without interruption.

    Connections are values of a type with a class: [Writer] and [Reader] give
    the operations, [WriterSpec] and [ReaderSpec] the laws, and
    [Crypto.SnappyWriter], [Crypto.SnappyReader] stand for the compression
    library. The theorems hold for every instance; the witnesses use the
    instances in memory.

    ** What the theorems show

    - Routing: the router answers every sequence of calls as an unordered
      table of routes would; lookups give the longest prefix; [Add] and
      [Remove] do exactly what they say, errors included.
    - Messages: what is written is read back, message by message; [ReadMsg]
      takes exactly one frame of bounded length.
    - Pools: no refill demand is lost or duplicated, one worker at a time,
      termination of the worker when the callback returns, conservation of
      connections, nothing left after [Close], and the one way to panic. The
      registry leaks no connection.
    - Control writer: signals and responses are conserved and in order, the
      byte stream is the concatenation of frames, nothing waits in the buffer
      past the flush timer, shutdown terminates.
    - Server: each session of the whole server behaves as the control writer in
      its environment; the refill counters balance; only clients with the
      token have sessions and routes; a session leaves no route behind when
      its proxies have at most one location.
    - Data path: encryption and the layers of [Wrap] are transparent, however
      the bytes are cut; a dial announces its proxy and closes what it took
      when it fails; a request needs its route's credentials and only travels
      on a connection dialed under its route's key.
    - Process: [Load] keeps the configuration in range, and the values reach
      yamux and the proxy within stated bounds; the mux hands exactly the
      external paths whose escaped form is clean to the proxy; a delivered
      work connection serves
      the routes of its run ID. In every execution of the whole process a
      request only travels on a connection delivered for a session opened with
      the token ([tunnel_sound]), a connection is in one place at a time
      ([conns_exclusive]), and a request can be given a connection: an idle
      one of its key, else one that waits in the pool and whose client does
      its part of [Wrap] ([request_gets_conn]).
    - Behaviours that contradict the comments or the intent, as theorems:
      [pool_put_close_race], [refused_proxy_leaks_route],
      [handleNewProxy_refuses], [reconnect_loses_entry],
      [reply_blocks_forever], [inflight_never_drains], [late_work_conn_kept],
      [dial_keys_collide], [dial_waits_for_peer], [host_with_port_not_found],
      [conversions_exact], [flags_unchecked].

    ** Bounds and fuel

    Integers are [Z]; the 64-bit counters wrap ([wrap64], [add64]) and are
    compared modulo 2^64 ([eqm]) where they may wrap. The parser and the
    printer of JSON take fuel from the length of their input
    ([Json.parse], [Json.escape_n], [Json.digits]), which [JsonProofs] shows
    to be enough for what the program prints; the loop of [bufio.Writer.Write]
    needs two rounds ([buf_loop_two]); [ReadAll] reads as many messages as
    asked. Loops that read from a connection are bounded by the bytes they
    want: every round of [Streams.readLoop] obtains at least one, or ends it ([readLoop_fuel]).
    [Main.acceptStreams] makes as many calls as asked. Nothing else has fuel:
    goroutines are step relations, and the termination of the control writer
    and of the refill worker are theorems.

    ** What is not modelled

    Sockets, TLS, yamux, the goroutines of the HTTP server and time itself: a
    connection is an instance of a class or an identity, reads are inputs that
    may fail at any time, and a timer may fire at any time once armed. A
    deadline acts on reads only: a read that would wait for ever returns a
    timeout when one is set ([Streams.by_deadline]); writes do not wait.
    PBKDF2 is a parameter and the snappy format a pair of classes. Of
    [http.Transport] only what decides which connection carries which request
    is modelled: idle connections per key, the most recent one first, dials
    and the requests that wait for them, a request served by another
    connection while its dial goes on, the retry of a request whose reused
    connection broke, closing; the bytes of HTTP messages and the upgrade to
    h2c are not. [http.ServeMux] is modelled for patterns without methods,
    hosts and wildcards; the [Location] of a redirect is left out. The metrics
    endpoint ends with the snapshot it encodes. The pool's callback
    [requestFn] is a call that returns in [Pool]; where it can wait for ever
    is [Server.call_step].
    The AES handshake is an input of the login step of [Server]; [Crypto] has
    the streams themselves. In [System] a [Get] that finds a connection is one
    step, and so are [GetOrCreate] and [Put] in [OnWorkConn]; the
    interleavings inside [Get], [Put] and [Close] are in [Pool]. The bytes on
    a work connection after its dial are not part of [System]: [WrapSpec] has
    them. Logging is left out.
    [handleNewProxy] runs as one action of the server although it takes the
    router's lock once per route. The test framework and the compatibility
    tooling under [src/test] start processes and compare recorded responses;
    they are not part of the server. *)

From stdpp Require Export base tactics list list_numbers option gmap strings numbers relations sorting.
From Stdlib Require Export ZArith Lia Bool.

Set Default Proof Using "Type".
#[global] Arguments String.append : simpl nomatch.
#[global] Open Scope string_scope.
#[global] Open Scope list_scope.
#[global] Open Scope Z_scope.

(** ** Results of fallible Go functions

    A Go function returning [(T, error)] is a function into [result T];
    the error is the text of the Go [error] value. *)

Inductive result (A : Type) : Type :=
  | Ok (a : A)
  | Err (e : string).
Arguments Ok {A} _.
Arguments Err {A} _.

Definition is_ok {A} (r : result A) : bool :=
  match r with Ok _ => true | Err _ => false end.

Definition result_bind {A B} (r : result A) (f : A -> result B) : result B :=
  match r with Ok a => f a | Err e => Err e end.

Definition result_of_option {A} (e : string) (o : option A) : result A :=
  match o with Some a => Ok a | None => Err e end.

Declare Scope go_scope.
Delimit Scope go_scope with go.
Notation "'try' x <- e ; f" := (result_bind e (fun x => f))
  (at level 100, x binder, e at next level, f at level 200, right associativity) : go_scope.

Lemma result_bind_ok {A B} (r : result A) (f : A -> result B) b :
  result_bind r f = Ok b -> exists a, r = Ok a /\ f a = Ok b.
Proof. destruct r; simpl; [eauto | discriminate]. Qed.

(** ** Machine integers

    [int] and [int64] are 64-bit two's complement values: a [Z] in
    [[-2^63, 2^63)], the result of every addition reduced by [wrap64]. *)

Definition two63 : Z := 9223372036854775808.
Definition two64 : Z := 18446744073709551616.

Definition wrap64 (z : Z) : Z := (z + two63) mod two64 - two63.

Definition int64_ok (z : Z) : Prop := - two63 <= z < two63.

(** [atomic.Int64.Add]. *)
Definition add64 (x n : Z) : Z := wrap64 (x + n).

Lemma wrap64_range z : int64_ok (wrap64 z).
Proof.
  unfold int64_ok, wrap64. pose proof (Z.mod_pos_bound (z + two63) two64).
  unfold two63, two64 in *. lia.
Qed.

Lemma wrap64_id z : int64_ok z -> wrap64 z = z.
Proof.
  unfold int64_ok, wrap64. intros. rewrite Z.mod_small; unfold two63, two64 in *; lia.
Qed.

Lemma wrap64_add_wrap x y : wrap64 (wrap64 x + y) = wrap64 (x + y).
Proof.
  unfold wrap64.
  replace ((x + two63) mod two64 - two63 + y + two63)
    with ((x + two63) mod two64 + y) by lia.
  rewrite Zplus_mod_idemp_l. do 2 f_equal. lia.
Qed.

Lemma wrap64_add_wrap_r x y : wrap64 (x + wrap64 y) = wrap64 (x + y).
Proof. rewrite Z.add_comm, wrap64_add_wrap. f_equal. lia. Qed.

Lemma wrap64_wrap x : wrap64 (wrap64 x) = wrap64 x.
Proof. apply wrap64_id, wrap64_range. Qed.

(** Equality of 64-bit counters, that is modulo 2^64: coarser than equality of
    the integers they count, and a congruence for [+] and [-]. *)
Definition eqm (x y : Z) : Prop := wrap64 x = wrap64 y.
Infix "=64" := eqm (at level 70) : Z_scope.

#[export] Instance eqm_equiv : Equivalence eqm.
Proof. split; unfold eqm; red; congruence. Qed.

#[export] Instance eqm_add_proper : Proper (eqm ==> eqm ==> eqm) Z.add.
Proof.
  unfold eqm. intros x x' Hx y y' Hy.
  by rewrite <- (wrap64_add_wrap x y), Hx, wrap64_add_wrap, <- wrap64_add_wrap_r, Hy, wrap64_add_wrap_r.
Qed.

#[export] Instance eqm_sub_proper : Proper (eqm ==> eqm ==> eqm) Z.sub.
Proof.
  assert (forall y y', y =64 y' -> - y =64 - y') as Hopp.
  { unfold eqm, wrap64. intros y y' E. f_equal.
    assert ((y + two63) mod two64 = (y' + two63) mod two64) as E' by lia.
    rewrite !Z.mod_eq in E' by done. 
    replace (- y + two63) with (- y' + two63 + (((y' + two63) / two64) - ((y + two63) / two64)) * two64) by lia.
    by rewrite Z.mod_add. }
  intros x x' Hx y y' Hy. unfold Z.sub. by rewrite Hx, (Hopp _ _ Hy).
Qed.

Lemma add64_eqm x n : add64 x n =64 x + n.
Proof. apply wrap64_wrap. Qed.

Lemma eqm_shift x y x' y' : x =64 y -> x' - y' = x - y -> x' =64 y'.
Proof. intros E Hd. replace x' with (x + (y' - y)) by lia. rewrite E. by replace (y + (y' - y)) with y' by lia. Qed.

Lemma eqm_shift2 x y u v x' y' : x =64 y -> u =64 v -> x' - y' = (x - y) + (u - v) -> x' =64 y'.
Proof.
  intros E1 E2 Hd. apply (eqm_shift (x + u) (y + v)); [by rewrite E1, E2 | lia].
Qed.

(** ** Automation *)

(** Split every [match]/[if] of the goal and of the hypotheses, closing the
    contradictory branches. *)
Ltac cases :=
  repeat (match goal with
          | |- context [match ?x with _ => _ end] => destruct x eqn:?
          | H : context [match ?x with _ => _ end] |- _ => destruct x eqn:?
          end; simplify_eq/=; try done).

Create HintDb drp.
Create Rewrite HintDb drp.
#[export] Hint Resolve wrap64_range : drp.
#[export] Hint Rewrite wrap64_add_wrap wrap64_add_wrap_r wrap64_wrap : drp.

(** ** Sums over the elements of a list *)

Definition sum_with {A} (f : A -> Z) (l : list A) : Z := foldr (fun x s => f x + s) 0 l.

Section sum_with.
Context {A : Type} (f : A -> Z).

Lemma sum_with_app l1 l2 : sum_with f (l1 ++ l2) = sum_with f l1 + sum_with f l2.
Proof. induction l1; simpl; lia. Qed.

Lemma sum_with_insert l i x y :
  l !! i = Some x -> sum_with f (<[i:=y]> l) = sum_with f l - f x + f y.
Proof.
  revert i; induction l as [|z l IH]; intros [|i] H; simplify_eq/=; [lia|].
  rewrite (IH i) by done. lia.
Qed.

Lemma sum_with_Forall_nonneg l : Forall (fun x => 0 <= f x) l -> 0 <= sum_with f l.
Proof. induction 1; simpl; lia. Qed.

Lemma sum_with_Forall_lookup_le l i x :
  Forall (fun x => 0 <= f x) l -> l !! i = Some x -> f x <= sum_with f l.
Proof.
  intros Hf. revert i; induction Hf as [|y l Hy Hl IH]; intros [|i] H; simplify_eq/=.
  - pose proof (sum_with_Forall_nonneg l Hl). lia.
  - specialize (IH _ H). lia.
Qed.

Lemma sum_with_nonneg l : (forall x, 0 <= f x) -> 0 <= sum_with f l.
Proof. intros. by apply sum_with_Forall_nonneg, Forall_true. Qed.

Lemma sum_with_lookup_le l i x :
  (forall x, 0 <= f x) -> l !! i = Some x -> f x <= sum_with f l.
Proof. intros. eapply sum_with_Forall_lookup_le; [by apply Forall_true | done]. Qed.

Lemma sum_with_zero l : (forall x, x ∈ l -> f x = 0) -> sum_with f l = 0.
Proof.
  induction l as [|x l IH]; intros H; simpl; [done|].
  rewrite (H x), IH; [done| |]; set_solver.
Qed.

Lemma sum_with_alter l i (u : A -> A) : (forall x, f (u x) = f x) -> sum_with f (alter u i l) = sum_with f l.
Proof.
  intros Hu. revert i; induction l as [|x l IH]; intros [|i]; simpl; [done..| |].
  - by rewrite Hu.
  - f_equal. apply IH.
Qed.

Lemma sum_with_perm l1 l2 : l1 ≡ₚ l2 -> sum_with f l1 = sum_with f l2.
Proof. induction 1; simpl; lia. Qed.
End sum_with.
#[export] Hint Rewrite @sum_with_app : drp.

(** ** [alter] on lists *)

Lemma list_alter_Some {A} (f : A -> A) (l : list A) i x :
  l !! i = Some x -> alter f i l = <[i := f x]> l.
Proof.
  revert i; induction l as [|y l IH]; intros [|i] E; simplify_eq/=; [done|]. f_equal. by apply IH.
Qed.

Lemma list_alter_None {A} (f : A -> A) (l : list A) i : l !! i = None -> alter f i l = l.
Proof. revert i; induction l as [|y l IH]; intros [|i] E; simplify_eq/=; [done..|]. f_equal. by apply IH. Qed.

(** ** Collecting over a trace *)

Lemma bind_snoc {A B} (f : A -> list B) l x : (l ++ [x]) ≫= f = (l ≫= f) ++ f x.
Proof. rewrite bind_app. simpl. by rewrite app_nil_r. Qed.
#[export] Hint Rewrite @bind_snoc @existsb_app : drp.

Lemma bind_insert_perm {A B} (f : A -> list B) l i x y :
  l !! i = Some x -> f x ++ (<[i := y]> l ≫= f) ≡ₚ f y ++ (l ≫= f).
Proof.
  revert i; induction l as [|z l IH]; intros [|i] E; simplify_eq/=.
  - by rewrite Permutation_app_swap_app.
  - by rewrite Permutation_app_swap_app, (IH i E), Permutation_app_swap_app.
Qed.

Lemma bind_insert_same {A B} (f : A -> list B) l i x y :
  l !! i = Some x -> f y = f x -> <[i := y]> l ≫= f = l ≫= f.
Proof. revert i; induction l as [|z l IH]; intros [|i] E Ef; simplify_eq/=; [by rewrite Ef|]. by rewrite (IH i). Qed.

(** ** Labelled executions

    An execution of a step relation [step s l s'] is a list of labels. *)

Section exec.
Context {S L : Type} (step : S -> L -> S -> Prop).

Inductive exec : S -> list L -> S -> Prop :=
  | exec_nil s : exec s [] s
  | exec_cons s l s' tr s'' : step s l s' -> exec s' tr s'' -> exec s (l :: tr) s''.

Lemma exec_one s l s' : step s l s' -> exec s [l] s'.
Proof. intros. econstructor; [done | constructor]. Qed.

Lemma exec_app s tr s' tr' s'' : exec s tr s' -> exec s' tr' s'' -> exec s (tr ++ tr') s''.
Proof. induction 1; simpl; [done|]. intros. econstructor; eauto. Qed.

Lemma exec_app_inv s tr1 tr2 s'' :
  exec s (tr1 ++ tr2) s'' -> exists s', exec s tr1 s' /\ exec s' tr2 s''.
Proof.
  revert s; induction tr1 as [|l tr1 IH]; intros s H; simpl in *.
  - exists s. split; [constructor | done].
  - inv H. destruct (IH _ ltac:(eassumption)) as (s1 & ? & ?).
    exists s1. split; [econstructor|]; eauto.
Qed.

(** Rule induction for a property of the trace read so far and the state
    it leads to. *)
Lemma exec_invariant (P : list L -> S -> Prop) s0 :
  P [] s0 ->
  (forall tr s l s', exec s0 tr s -> P tr s -> step s l s' -> P (tr ++ [l]) s') ->
  forall tr s, exec s0 tr s -> P tr s.
Proof.
  intros H0 Hstep tr. induction tr as [|l tr IH] using rev_ind; intros s H.
  - inv H. done.
  - apply exec_app_inv in H as (s' & H1 & H2). inv H2.
    match goal with H : exec _ [] _ |- _ => inv H end. eauto.
Qed.
End exec.
#[export] Hint Constructors exec : drp.
