(* ===== verification/GoStrings.v ===== *)
(** * The parts of Go's [strings], [strconv] and [fmt] the program uses

    A Go [string] is a sequence of bytes: Rocq's [string], each [ascii] one
    byte; [len s] is [String.length s]. *)

From S2P Require Import Prelude.
From Stdlib Require Export Ascii.
From Stdlib Require String.

(** [strings.HasPrefix(s, p)]. *)
Fixpoint HasPrefix (s p : string) {struct p} : bool :=
  match p, s with
  | EmptyString, _ => true
  | String c p', String c' s' => Ascii.eqb c c' && HasPrefix s' p'
  | String _ _, EmptyString => false
  end.

(** [s[n:]] for [n <= len s]. *)
Fixpoint string_drop (n : nat) (s : string) : string :=
  match n, s with
  | O, _ => s
  | S n', String _ s' => string_drop n' s'
  | S _, EmptyString => EmptyString
  end.

(** The text before and after the first occurrence of a one-byte
    separator. *)
Fixpoint Cut (s : string) (sep : ascii) : option (string * string) :=
  match s with
  | EmptyString => None
  | String c s' =>
      if Ascii.eqb c sep then Some (EmptyString, s')
      else match Cut s' sep with
           | Some (a, b) => Some (String c a, b)
           | None => None
           end
  end.

(** [strings.SplitN(s, sep, n)] for [n >= 0] and a one-byte separator. *)
Fixpoint SplitN (s : string) (sep : ascii) (n : nat) : list string :=
  match n with
  | O => []
  | S O => [s]
  | S n' => match Cut s sep with
            | Some (a, b) => a :: SplitN b sep n'
            | None => [s]
            end
  end.

Definition slen (s : string) : Z := Z.of_nat (String.length s).

Lemma HasPrefix_spec s p : HasPrefix s p = true <-> exists t, s = p +:+ t.
Proof.
  revert s; induction p as [|c p IH]; intros s; simpl.
  - split; [by exists s | by destruct s].
  - destruct s as [|c' s]; [split; [done | by intros [t ?]]|].
    rewrite andb_true_iff, Ascii.eqb_eq, IH. split.
    + intros [-> [t ->]]. by exists t.
    + intros [t Ht]. simpl in Ht. injection Ht as -> ->. split; [done | by exists t].
Qed.

Lemma HasPrefix_refl_app p t : HasPrefix (p +:+ t) p = true.
Proof. apply HasPrefix_spec. by exists t. Qed.

Lemma string_length_app s t : String.length (s +:+ t) = (String.length s + String.length t)%nat.
Proof. induction s; simpl; congruence. Qed.

Lemma HasPrefix_length s p : HasPrefix s p = true -> slen p <= slen s.
Proof.
  intros [t ->]%HasPrefix_spec. unfold slen. rewrite string_length_app. lia.
Qed.

(** Two prefixes of one string that have the same length are equal. *)
Lemma HasPrefix_inj s p q :
  HasPrefix s p = true -> HasPrefix s q = true -> slen p = slen q -> p = q.
Proof.
  unfold slen. rewrite !HasPrefix_spec. intros [t ->] [t' Ht] Hl%Nat2Z.inj.
  revert q t' Ht Hl. induction p as [|c p IH]; intros [|c' q] t' Ht Hl; simplify_eq/=;
    [done|]. f_equal. eauto.
Qed.

Lemma Cut_spec s sep a b : Cut s sep = Some (a, b) -> s = a +:+ String sep b.
Proof.
  revert a b; induction s as [|c s IH]; intros a b H; simplify_eq/=.
  destruct (Ascii.eqb_spec c sep); simplify_eq/=; [done|].
  destruct (Cut s sep) as [[a' b']|]; simplify_eq/=. f_equal. auto.
Qed.

(** The part before the separator does not contain it. *)
Lemma Cut_unique s sep a b :
  Cut a sep = None -> s = a +:+ String sep b -> Cut s sep = Some (a, b).
Proof.
  intros Ha ->. revert Ha. induction a as [|c a IH]; simpl.
  - by rewrite Ascii.eqb_refl.
  - destruct (Ascii.eqb_spec c sep); [done|].
    destruct (Cut a sep) as [[]|]; [done|]. intros. by rewrite IH.
Qed.
