(* ===== verification/Json.v ===== *)
(** * The part of [encoding/json] the wire protocol uses

    [json.Marshal] of strings, integers, booleans, string maps and string
    slices, and the parser behind [json.Unmarshal], as Go's standard library
    defines them: HTML-safe string escaping with invalid UTF-8 replaced by
    U+FFFD, surrogate pairs, the strict number grammar, white space. The
    result of parsing is a [json] value; [Msg] decodes it into the structs. *)

From S2P Require Import Prelude GoStrings.

(** ** Bytes and UTF-8 *)

Definition code (c : ascii) : Z := Z.of_N (N_of_ascii c).
Definition chr (z : Z) : ascii := ascii_of_N (Z.to_N z).

Definition in_range (lo hi z : Z) : bool := (lo <=? z) && (z <=? hi).
Definition is_cont (c : ascii) : bool := in_range 128 191 (code c).

(** [utf8.DecodeRuneInString]: the bytes of the first rune and the rest, or
    [None] where Go answers [(RuneError, 1)] (or the string is empty). *)
Definition next_rune (s : string) : option (string * string) :=
  match s with
  | EmptyString => None
  | String a s1 =>
      let x := code a in
      if x <? 128 then Some (String a "", s1)
      else
        match s1 with
        | EmptyString => None
        | String b s2 =>
            if in_range 194 223 x then
              if is_cont b then Some (String a (String b ""), s2) else None
            else
              match s2 with
              | EmptyString => None
              | String c s3 =>
                  if in_range 224 239 x then
                    let lo := if x =? 224 then 160 else 128 in
                    let hi := if x =? 237 then 159 else 191 in
                    if in_range lo hi (code b) && is_cont c
                    then Some (String a (String b (String c "")), s3) else None
                  else
                    match s3 with
                    | EmptyString => None
                    | String d s4 =>
                        let lo := if x =? 240 then 144 else 128 in
                        let hi := if x =? 244 then 143 else 191 in
                        if in_range 240 244 x && in_range lo hi (code b) && is_cont c && is_cont d
                        then Some (String a (String b (String c (String d ""))), s4) else None
                    end
              end
        end
  end.

Definition RuneError : string :=
  String (chr 239) (String (chr 191) (String (chr 189) "")).

(** [utf8.AppendRune]; surrogates and out-of-range runes become U+FFFD. *)
Definition encodeRune (r : Z) : string :=
  if in_range 0 127 r then String (chr r) ""
  else if in_range 128 2047 r then
    String (chr (192 + r / 64)) (String (chr (128 + r mod 64)) "")
  else if in_range 55296 57343 r || (1114111 <? r) || (r <? 0) then RuneError
  else if r <? 65536 then
    String (chr (224 + r / 4096))
      (String (chr (128 + r / 64 mod 64)) (String (chr (128 + r mod 64)) ""))
  else
    String (chr (240 + r / 262144))
      (String (chr (128 + r / 4096 mod 64))
         (String (chr (128 + r / 64 mod 64)) (String (chr (128 + r mod 64)) ""))).

(** A string is valid UTF-8 when it is a sequence of runes. *)
Inductive valid_utf8 : string -> Prop :=
  | valid_nil : valid_utf8 ""
  | valid_cons q s : next_rune q = Some (q, "") -> valid_utf8 s -> valid_utf8 (q +:+ s).

Fixpoint valid_utf8_n (n : nat) (s : string) : bool :=
  match s, n with
  | EmptyString, _ => true
  | _, O => false
  | _, S n' => match next_rune s with Some (_, rest) => valid_utf8_n n' rest | None => false end
  end.

(** [utf8.ValidString]. *)
Definition ValidString (s : string) : bool := valid_utf8_n (String.length s) s.

(** ** Writing *)

Definition hex_digit (z : Z) : ascii := chr (if z <? 10 then 48 + z else 87 + z).

Definition quote : ascii := chr 34.
Definition backslash : ascii := chr 92.

(** Bytes below 128 that are written as they are. *)
Definition htmlSafe (c : ascii) : bool :=
  let x := code c in
  (32 <=? x) && (x <? 128) && negb (existsb (Z.eqb x) [34; 92; 60; 62; 38]).

(** The escape of a byte below 128 that is not safe. *)
Definition escapeByte (c : ascii) : string :=
  let x := code c in
  String backslash
    (if x =? 92 then String backslash ""
     else if x =? 34 then String quote ""
     else if x =? 8 then "b"
     else if x =? 12 then "f"
     else if x =? 10 then "n"
     else if x =? 13 then "r"
     else if x =? 9 then "t"
     else "u00" +:+ String (hex_digit (x / 16)) (String (hex_digit (x mod 16)) "")).

Definition u2028 : string := String (chr 226) (String (chr 128) (String (chr 168) "")).
Definition u2029 : string := String (chr 226) (String (chr 128) (String (chr 169) "")).

Definition escapeRune (q : string) : string :=
  if String.eqb q u2028 then String backslash "u2028"
  else if String.eqb q u2029 then String backslash "u2029"
  else match q with
       | String c EmptyString => if htmlSafe c then q else escapeByte c
       | _ => q
       end.

(** The text between the quotes. *)
Fixpoint escape_n (n : nat) (s : string) : string :=
  match n, s with
  | S n', String c s' =>
      match next_rune s with
      | Some (q, rest) => escapeRune q +:+ escape_n n' rest
      | None => String backslash "ufffd" +:+ escape_n n' s'
      end
  | _, _ => ""
  end.

Definition quoteString (s : string) : string :=
  String quote (escape_n (String.length s) s +:+ String quote "").

(** [strconv.AppendInt(v, 10)]. *)
Definition digit (z : Z) : ascii := chr (48 + z).

Fixpoint digits_n (n : nat) (z : Z) : string :=
  match n with
  | O => ""
  | S n' => if z <? 10 then String (digit z) ""
            else digits_n n' (z / 10) +:+ String (digit (z mod 10)) ""
  end.

Definition digits (z : Z) : string := digits_n (S (Z.to_nat (Z.log2 z))) z.

Definition itoa (z : Z) : string :=
  if z <? 0 then String "-" (digits (- z)) else digits z.

(** ** Values *)

Inductive json :=
  | JNull
  | JBool (b : bool)
  | JNum (lit : string)
  | JStr (s : string)
  | JArr (l : list json)
  | JObj (l : list (string * json)).

(** Comma-separated texts. *)
Fixpoint commas (l : list string) : string :=
  match l with
  | [] => ""
  | [x] => x
  | x :: l' => x +:+ "," +:+ commas l'
  end.

(** The compact form [json.Marshal] writes. *)
Fixpoint print (j : json) : string :=
  match j with
  | JNull => "null"
  | JBool b => if b then "true" else "false"
  | JNum lit => lit
  | JStr s => quoteString s
  | JArr l => "[" +:+ commas (List.map print l) +:+ "]"
  | JObj l => "{" +:+ commas (List.map (fun kv => quoteString (fst kv) +:+ ":" +:+ print (snd kv)) l)
              +:+ "}"
  end.

(** ** Reading *)

Definition is_space (c : ascii) : bool := existsb (Z.eqb (code c)) [32; 9; 10; 13].

Fixpoint skip_ws (s : string) : string :=
  match s with
  | String c s' => if is_space c then skip_ws s' else s
  | EmptyString => s
  end.

Definition hex_value (c : ascii) : option Z :=
  let x := code c in
  if in_range 48 57 x then Some (x - 48)
  else if in_range 97 102 x then Some (x - 87)
  else if in_range 65 70 x then Some (x - 55)
  else None.

(** [getu4]: four hexadecimal digits. *)
Definition hex4 (s : string) : option (Z * string) :=
  match s with
  | String a (String b (String c (String d s'))) =>
      match hex_value a, hex_value b, hex_value c, hex_value d with
      | Some x, Some y, Some z, Some w => Some (x * 4096 + y * 256 + z * 16 + w, s')
      | _, _, _, _ => None
      end
  | _ => None
  end.

Definition is_high (r : Z) : bool := in_range 55296 56319 r.
Definition is_low (r : Z) : bool := in_range 56320 57343 r.

(** The rune of an escape [\uXXXX], a surrogate pair read together; an
    unpaired surrogate is U+FFFD. *)
Definition unescape_u (s : string) : option (string * string) :=
  match hex4 s with
  | Some (r, s1) =>
      if is_high r || is_low r then
        match s1 with
        | String b (String u s2) =>
            if (code b =? 92) && (code u =? 117) then
              match hex4 s2 with
              | Some (r2, s3) =>
                  if is_high r && is_low r2
                  then Some (encodeRune ((r - 55296) * 1024 + (r2 - 56320) + 65536), s3)
                  else Some (RuneError, s1)
              | None => Some (RuneError, s1)
              end
            else Some (RuneError, s1)
        | _ => Some (RuneError, s1)
        end
      else Some (encodeRune r, s1)
  | None => None
  end.

(** One element of a string literal: the bytes it stands for and the rest. *)
Definition unescape1 (s : string) : option (string * string) :=
  match s with
  | EmptyString => None
  | String c s' =>
      let x := code c in
      if x =? 92 then
        match s' with
        | EmptyString => None
        | String e s'' =>
            let y := code e in
            if y =? 117 then unescape_u s''
            else if existsb (Z.eqb y) [34; 92; 47] then Some (String e "", s'')
            else if y =? 98 then Some (String (chr 8) "", s'')
            else if y =? 102 then Some (String (chr 12) "", s'')
            else if y =? 110 then Some (String (chr 10) "", s'')
            else if y =? 114 then Some (String (chr 13) "", s'')
            else if y =? 116 then Some (String (chr 9) "", s'')
            else None
        end
      else if x <? 32 then None
      else match next_rune s with
           | Some (q, rest) => Some (q, rest)
           | None => Some (RuneError, s')
           end
  end.

(** A string literal, after its opening quote. *)
Fixpoint read_string (n : nat) (s : string) : option (string * string) :=
  match n, s with
  | S n', String c s' =>
      if code c =? 34 then Some ("", s')
      else
        match unescape1 s with
        | Some (q, rest) =>
            match read_string n' rest with
            | Some (t, rest') => Some (q +:+ t, rest')
            | None => None
            end
        | None => None
        end
  | _, _ => None
  end.

Definition is_digit (c : ascii) : bool := in_range 48 57 (code c).

Fixpoint span_digits (s : string) : string * string :=
  match s with
  | String c s' =>
      if is_digit c then let '(d, r) := span_digits s' in (String c d, r) else ("", s)
  | EmptyString => ("", s)
  end.

(** One digit or more. *)
Definition digits1 (s : string) : option (string * string) :=
  match span_digits s with
  | (EmptyString, _) => None
  | dr => Some dr
  end.

(** The integer part: 0, or digits that do not start with 0. *)
Definition read_int_part (s : string) : option (string * string) :=
  match s with
  | String c s' => if code c =? 48 then Some (String c "", s') else digits1 s
  | EmptyString => None
  end.

Definition read_frac (s : string) : option (string * string) :=
  match s with
  | String c s' =>
      if code c =? 46 then
        match digits1 s' with Some (d, r) => Some (String c d, r) | None => None end
      else Some ("", s)
  | EmptyString => Some ("", s)
  end.

Definition read_exp (s : string) : option (string * string) :=
  match s with
  | String c s' =>
      if (code c =? 101) || (code c =? 69) then
        let '(sign, s'') :=
          match s' with
          | String g r => if (code g =? 43) || (code g =? 45) then (String g "", r) else ("", s')
          | EmptyString => ("", s')
          end in
        match digits1 s'' with Some (d, r) => Some (String c (sign +:+ d), r) | None => None end
      else Some ("", s)
  | EmptyString => Some ("", s)
  end.

Definition read_unsigned (s : string) : option (string * string) :=
  match read_int_part s with
  | Some (i, s1) =>
      match read_frac s1 with
      | Some (fr, s2) =>
          match read_exp s2 with
          | Some (ex, s3) => Some (i +:+ fr +:+ ex, s3)
          | None => None
          end
      | None => None
      end
  | None => None
  end.

Definition read_number (s : string) : option (string * string) :=
  match s with
  | String c s' =>
      if code c =? 45 then
        match read_unsigned s' with Some (l, r) => Some (String c l, r) | None => None end
      else read_unsigned s
  | EmptyString => None
  end.

Definition strip_prefix (p s : string) : option string :=
  if HasPrefix s p then Some (string_drop (String.length p) s) else None.

(** The character [c], after white space. *)
Definition expect (c : ascii) (s : string) : option string :=
  match skip_ws s with
  | String c' s' => if Ascii.eqb c' c then Some s' else None
  | EmptyString => None
  end.

(** Values, array elements (after the bracket) and object members (after the
    brace); [n] bounds the nesting of calls. *)
Fixpoint read_value (n : nat) (s0 : string) {struct n} : option (json * string) :=
  match n with
  | O => None
  | S n' =>
      let s := skip_ws s0 in
      match s with
      | EmptyString => None
      | String c r =>
          let x := code c in
          if x =? 34 then
            match read_string (S (String.length r)) r with
            | Some (t, r') => Some (JStr t, r')
            | None => None
            end
          else if x =? 91 then
            match expect "]" r with
            | Some r' => Some (JArr [], r')
            | None => match read_elems n' r with Some (l, r') => Some (JArr l, r') | None => None end
            end
          else if x =? 123 then
            match expect "}" r with
            | Some r' => Some (JObj [], r')
            | None => match read_members n' r with Some (l, r') => Some (JObj l, r') | None => None end
            end
          else if x =? 110 then
            match strip_prefix "null" s with Some r' => Some (JNull, r') | None => None end
          else if x =? 116 then
            match strip_prefix "true" s with Some r' => Some (JBool true, r') | None => None end
          else if x =? 102 then
            match strip_prefix "false" s with Some r' => Some (JBool false, r') | None => None end
          else
            match read_number s with Some (l, r') => Some (JNum l, r') | None => None end
      end
  end
with read_elems (n : nat) (s : string) {struct n} : option (list json * string) :=
  match n with
  | O => None
  | S n' =>
      match read_value n' s with
      | Some (j, r) =>
          match expect "," r with
          | Some r' => match read_elems n' r' with Some (l, r'') => Some (j :: l, r'') | None => None end
          | None => match expect "]" r with Some r' => Some ([j], r') | None => None end
          end
      | None => None
      end
  end
with read_members (n : nat) (s : string) {struct n} : option (list (string * json) * string) :=
  match n with
  | O => None
  | S n' =>
      match expect quote s with
      | Some r0 =>
          match read_string (S (String.length r0)) r0 with
          | Some (k, r1) =>
              match expect ":" r1 with
              | Some r2 =>
                  match read_value n' r2 with
                  | Some (j, r) =>
                      match expect "," r with
                      | Some r' =>
                          match read_members n' r' with
                          | Some (l, r'') => Some ((k, j) :: l, r'')
                          | None => None
                          end
                      | None => match expect "}" r with Some r' => Some ([(k, j)], r') | None => None end
                      end
                  | None => None
                  end
              | None => None
              end
          | None => None
          end
      | None => None
      end
  end.

(** A whole document. Every level of nesting and every element reads at least
    one byte, so the fuel is never what ends a parse. *)
Definition parse (s : string) : option json :=
  match read_value (S (2 * String.length s)) s with
  | Some (j, r) => if String.eqb (skip_ws r) "" then Some j else None
  | None => None
  end.

(** [strconv.ParseInt(lit, 10, 64)] and [strconv.ParseUint(lit, 10, 64)], on
    the literals of the number grammar. *)
Fixpoint digits_value (acc : Z) (s : string) : option Z :=
  match s with
  | EmptyString => Some acc
  | String c s' => if is_digit c then digits_value (10 * acc + (code c - 48)) s' else None
  end.

Definition parseUint (lit : string) : option Z :=
  match lit with
  | EmptyString => None
  | _ => match digits_value 0 lit with
         | Some z => if z <? two64 then Some z else None
         | None => None
         end
  end.

Definition parseInt (lit : string) : option Z :=
  match lit with
  | EmptyString => None
  | String c s =>
      let neg := code c =? 45 in
      match (if neg then s else lit) with
      | EmptyString => None
      | ds => match digits_value 0 ds with
              | Some z => let v := if neg then - z else z in
                          if (- two63 <=? v) && (v <? two63) then Some v else None
              | None => None
              end
      end
  end.

