(* ===== verification/JsonProofs.v ===== *)
(** * Reading back what was written

    [parse] is a left inverse of [print] on the values the messages are made
    of: strings of valid UTF-8, canonical integers, booleans, arrays and
    objects of these. *)

From S2P Require Import Prelude GoStrings Json.

Arguments next_rune : simpl never.
Arguments code : simpl never.
Arguments chr : simpl never.

(** Every byte, one by one. *)
Ltac each_byte c := destruct c as [[] [] [] [] [] [] [] []].

Lemma append_assoc (a b c : string) : (a +:+ b) +:+ c = a +:+ (b +:+ c).
Proof. induction a; simpl; [done|]. by rewrite IHa. Qed.

Lemma append_empty (a : string) : a +:+ "" = a.
Proof. induction a; simpl; [done|]. by rewrite IHa. Qed.

(** ** Runes *)

Lemma next_rune_app q t : next_rune q = Some (q, "") -> next_rune (q +:+ t) = Some (q, t).
Proof.
  unfold next_rune. destruct q as [|a [|b [|c [|d [|e q]]]]]; simpl; intros H;
    repeat case_match; simplify_eq/=; done.
Qed.

Lemma next_rune_split s q r :
  next_rune s = Some (q, r) -> s = q +:+ r /\ next_rune q = Some (q, "").
Proof.
  unfold next_rune. destruct s as [|a s]; [done|].
  destruct (code a <? 128) eqn:E1; [intros; simplify_eq; by rewrite E1|].
  destruct s as [|b s]; [done|].
  destruct (in_range 194 223 (code a)) eqn:E2.
  { destruct (is_cont b) eqn:E3; intros; simplify_eq. by rewrite E1, E2, E3. }
  destruct s as [|c s]; [done|].
  destruct (in_range 224 239 (code a)) eqn:E3.
  { match goal with |- context [if ?x then _ else _] => destruct x eqn:E4 end;
      intros; simplify_eq. by rewrite E1, E2, E3, E4. }
  destruct s as [|d s]; [done|].
  match goal with |- context [if ?x then Some _ else _] => destruct x eqn:E4 end;
    intros; simplify_eq. by rewrite E1, E2, E3, E4.
Qed.

Lemma next_rune_nonempty q t : next_rune q = Some (q, t) -> (0 < String.length q)%nat.
Proof. destruct q; [done|]. simpl. lia. Qed.

(** A rune is one byte below 128, or starts with a byte of at least 194. *)
Lemma next_rune_shape q :
  next_rune q = Some (q, "") ->
  (exists c, q = String c "" /\ code c < 128) \/
  (exists a b q', q = String a (String b q') /\ 128 <= code a).
Proof.
  unfold next_rune. destruct q as [|a q]; [done|].
  destruct (Z.ltb_spec (code a) 128); intros Hq.
  - left. simplify_eq. eauto.
  - right. destruct q as [|b q]; [done|]. eauto.
Qed.

Lemma escapeRune_multi a b q' : 
  next_rune (String a (String b q')) = Some (String a (String b q'), "") ->
  (escapeRune (String a (String b q')) = String a (String b q')) \/
  String a (String b q') = u2028 \/ String a (String b q') = u2029.
Proof.
  intros H. unfold escapeRune.
  destruct (String.eqb_spec (String a (String b q')) u2028); [auto|].
  destruct (String.eqb_spec (String a (String b q')) u2029); auto.
Qed.

Lemma unescape_safe c t :
  code c < 128 -> unescape1 (escapeRune (String c "") +:+ t) = Some (String c "", t).
Proof. intros H. each_byte c; try reflexivity; vm_compute in H; discriminate. Qed.

Lemma head_safe c t :
  code c < 128 ->
  match escapeRune (String c "") +:+ t with String h _ => code h <> 34 | EmptyString => False end.
Proof. intros H. each_byte c; try (vm_compute; discriminate); vm_compute in H; discriminate. Qed.

(** One written rune reads back as itself. *)
Lemma unescape1_escapeRune q t :
  next_rune q = Some (q, "") -> unescape1 (escapeRune q +:+ t) = Some (q, t).
Proof.
  intros Hq. destruct (next_rune_shape q Hq) as [(c & -> & Hc) | (a & b & q' & -> & Ha)].
  - by apply unescape_safe.
  - destruct (escapeRune_multi a b q' Hq) as [-> | [-> | ->]]; [|reflexivity..].
    pose proof (next_rune_app _ t Hq) as Hn. simpl in *. unfold unescape1.
    destruct (Z.eqb_spec (code a) 92); [lia|]. destruct (Z.ltb_spec (code a) 32); [lia|].
    by rewrite Hn.
Qed.

Lemma escapeRune_head q t :
  next_rune q = Some (q, "") ->
  exists h r, escapeRune q +:+ t = String h r /\ code h <> 34.
Proof.
  intros Hq. destruct (next_rune_shape q Hq) as [(c & -> & Hc) | (a & b & q' & -> & Ha)].
  - pose proof (head_safe c t Hc) as H. destruct (escapeRune _ +:+ t); [done|]. eauto.
  - destruct (escapeRune_multi a b q' Hq) as [-> | [-> | ->]].
    + eexists _, _. split; [reflexivity|]. lia.
    + eexists _, _. split; [reflexivity|]. by vm_compute.
    + eexists _, _. split; [reflexivity|]. by vm_compute.
Qed.

(** ** Strings *)

Lemma escape_n_cons n q s :
  next_rune q = Some (q, "") ->
  escape_n (S n) (q +:+ s) = escapeRune q +:+ escape_n n s.
Proof.
  intros Hq. pose proof (next_rune_app q s Hq) as Hn.
  destruct q as [|c q]; [done|]. simpl in *. by rewrite Hn.
Qed.

Lemma read_string_escape s : valid_utf8 s ->
  forall n m t, (String.length s <= m)%nat -> (String.length (escape_n m s) < n)%nat ->
  read_string n (escape_n m s +:+ String quote t) = Some (s, t).
Proof.
  induction 1 as [|q s Hq Hs IH]; intros n m t Hm Hn.
  - destruct n as [|n]; [lia|]. by destruct m.
  - pose proof (next_rune_nonempty _ _ Hq) as Hpos. rewrite string_length_app in Hm.
    destruct m as [|m]; [lia|]. rewrite escape_n_cons in * by done.
    rewrite string_length_app in Hn. destruct n as [|n]; [lia|].
    rewrite append_assoc.
    destruct (escapeRune_head q (escape_n m s +:+ String quote t) Hq) as (h & r & E & Hh).
    pose proof (unescape1_escapeRune q (escape_n m s +:+ String quote t) Hq) as Hu.
    assert (0 < String.length (escapeRune q))%nat as Hlen.
    { destruct (escapeRune_head q "" Hq) as (h' & r' & E' & _).
      apply (f_equal String.length) in E'. rewrite append_empty in E'. rewrite E'. simpl. lia. }
    rewrite E in *. cbn [read_string].
    destruct (Z.eqb_spec (code h) 34); [done|]. rewrite Hu.
    rewrite (IH n m) by lia. done.
Qed.

Lemma read_string_quoteString s t n :
  valid_utf8 s -> (String.length (quoteString s) <= n)%nat ->
  exists r, quoteString s +:+ t = String quote r /\ read_string n r = Some (s, t).
Proof.
  intros Hv Hn. unfold quoteString in *. simpl in *. eexists. split; [done|].
  rewrite append_assoc. simpl. apply read_string_escape; [done..|].
  rewrite string_length_app in Hn. simpl in Hn. lia.
Qed.

Lemma valid_utf8_n_spec n s : valid_utf8_n n s = true -> valid_utf8 s.
Proof.
  revert s; induction n as [|n IH]; intros [|c s] H; simpl in H; try done; [constructor..|].
  destruct (next_rune (String c s)) as [[q r]|] eqn:E; [|done].
  apply next_rune_split in E as [-> Hq]. constructor; auto.
Qed.

Lemma ValidString_valid s : ValidString s = true -> valid_utf8 s.
Proof. apply valid_utf8_n_spec. Qed.

(** ** Numbers *)

(** The text after a number does not continue it. *)
Definition ends_number (t : string) : bool :=
  match t with
  | EmptyString => true
  | String c _ => negb (is_digit c || existsb (Z.eqb (code c)) [46; 101; 69])
  end.

Fixpoint all_digits (s : string) : bool :=
  match s with EmptyString => true | String c s' => is_digit c && all_digits s' end.

Lemma digit_is_digit z : 0 <= z < 10 -> is_digit (digit z) = true /\ code (digit z) = 48 + z.
Proof.
  intros H. assert (z = 0 \/ z = 1 \/ z = 2 \/ z = 3 \/ z = 4 \/ z = 5 \/ z = 6 \/ z = 7 \/ z = 8 \/ z = 9)
    as Hz by lia.
  repeat destruct Hz as [->|Hz]; try (split; reflexivity). subst. split; reflexivity.
Qed.

Lemma digits_value_app acc s t z :
  digits_value acc s = Some z -> digits_value acc (s +:+ t) = digits_value z t.
Proof.
  revert acc; induction s as [|c s IH]; intros acc H; simpl in *; [by simplify_eq|].
  destruct (is_digit c); [auto|done].
Qed.

Lemma all_digits_app s t : all_digits (s +:+ t) = all_digits s && all_digits t.
Proof. induction s; simpl; [done|]. by rewrite IHs, andb_assoc. Qed.

Lemma digits_n_spec n z :
  0 <= z -> (Z.to_nat (Z.log2 z) < n)%nat ->
  digits_value 0 (digits_n n z) = Some z /\ all_digits (digits_n n z) = true /\
  (0 < z -> exists c s, digits_n n z = String c s /\ code c <> 48).
Proof.
  revert z; induction n as [|n IH]; intros z Hz Hn; [lia|]. simpl.
  destruct (Z.ltb_spec z 10).
  - destruct (digit_is_digit z ltac:(lia)) as [Hd Hc]. simpl. rewrite Hd, Hc.
    split; [f_equal; lia|]. split; [done|]. intros. eexists _, _. split; [done|]. lia.
  - pose proof (Z.div_lt z 10 ltac:(lia) ltac:(lia)).
    assert (1 <= z / 10) by (apply Z.div_le_lower_bound; lia).
    assert (Z.log2 (z / 10) < Z.log2 z) as Hlog.
    { assert (Z.log2 (2 * (z / 10)) <= Z.log2 z).
      { apply Z.log2_le_mono. pose proof (Z.mul_div_le z 10 ltac:(lia)). lia. }
      rewrite Z.log2_double in * by lia. lia. }
    pose proof (Z.log2_nonneg (z / 10)).
    destruct (IH (z / 10)) as (Hv & Ha & Hh); [lia..|].
    destruct (digit_is_digit (z mod 10)) as [Hd Hc]; [apply Z.mod_pos_bound; lia|].
    rewrite (digits_value_app 0 _ _ _ Hv), all_digits_app, Ha. simpl. rewrite Hd, Hc. simpl.
    split; [f_equal; pose proof (Z.div_mod z 10 ltac:(lia)); lia|]. split; [done|].
    intros _. destruct Hh as (c & s & -> & Hne); [lia|]. simpl. eauto.
Qed.

Lemma digits_spec z :
  0 <= z ->
  digits_value 0 (digits z) = Some z /\ all_digits (digits z) = true /\
  (0 < z -> exists c s, digits z = String c s /\ code c <> 48).
Proof. intros. apply digits_n_spec; [done|]. lia. Qed.

Lemma span_digits_app s t :
  all_digits s = true -> ends_number t = true -> span_digits (s +:+ t) = (s, t).
Proof.
  intros Hs Ht. induction s as [|c s IH]; simpl in *.
  - destruct t as [|c t]; simpl in *; [done|]. by destruct (is_digit c).
  - apply andb_true_iff in Hs as [-> Hs]. by rewrite IH.
Qed.

Lemma ends_frac t : ends_number t = true -> read_frac t = Some ("", t).
Proof.
  unfold ends_number, read_frac. destruct t as [|c t]; [done|].
  destruct (Z.eqb_spec (code c) 46) as [E|]; [|done]. rewrite E. by destruct (is_digit c).
Qed.

Lemma ends_exp t : ends_number t = true -> read_exp t = Some ("", t).
Proof.
  unfold ends_number, read_exp. destruct t as [|c t]; [done|].
  rewrite negb_true_iff, orb_false_iff. intros [_ H]. simpl in H.
  rewrite !orb_false_iff in H. destruct H as (_ & -> & -> & _). done.
Qed.

Lemma read_unsigned_digits z t :
  0 <= z -> ends_number t = true -> read_unsigned (digits z +:+ t) = Some (digits z, t).
Proof.
  intros Hz Ht. unfold read_unsigned.
  assert (read_int_part (digits z +:+ t) = Some (digits z, t)) as ->.
  { destruct (Z.eq_dec z 0) as [->|]; [reflexivity|].
    destruct (digits_spec z Hz) as (_ & Ha & Hh). destruct Hh as (c & s & E & Hc); [lia|].
    pose proof (span_digits_app (digits z) t Ha Ht) as Hs. rewrite E in *. simpl in *.
    destruct (Z.eqb_spec (code c) 48); [done|]. unfold digits1. simpl. by rewrite Hs. }
  rewrite ends_frac, ends_exp by done. simpl. by rewrite append_empty.
Qed.

Lemma digits_head z : 0 <= z -> exists c s, digits z = String c s /\ is_digit c = true.
Proof.
  intros Hz. destruct (digits_spec z Hz) as (Hv & Ha & Hh).
  destruct (Z.eq_dec z 0) as [->|]; [eexists _, _; split; reflexivity|].
  destruct Hh as (c & s & E & _); [lia|]. rewrite E in Ha. simpl in Ha.
  apply andb_true_iff in Ha as [? _]. eauto.
Qed.

Lemma read_number_itoa z t :
  ends_number t = true -> read_number (itoa z +:+ t) = Some (itoa z, t).
Proof.
  intros Ht. unfold itoa. destruct (Z.ltb_spec z 0).
  - simpl. by rewrite read_unsigned_digits by (done || lia).
  - pose proof (read_unsigned_digits z t ltac:(lia) Ht) as Hr.
    destruct (digits_head z ltac:(lia)) as (c & s & E & Hd). rewrite E in *. simpl in *.
    destruct (Z.eqb_spec (code c) 45) as [Ec|]; [|done].
    unfold is_digit in Hd. by rewrite Ec in Hd.
Qed.

Lemma parseInt_itoa z : int64_ok z -> parseInt (itoa z) = Some z.
Proof.
  intros Hz. unfold itoa, int64_ok in *. destruct (Z.ltb_spec z 0).
  - destruct (digits_spec (- z)) as (Hv & _); [lia|].
    destruct (digits_head (- z) ltac:(lia)) as (c & s & E & _).
    unfold parseInt. cbv zeta. change (code "-" =? 45) with true. rewrite E in *. cbv iota.
    rewrite Hv, Z.opp_involutive.
    rewrite (proj2 (Z.leb_le _ _)), (proj2 (Z.ltb_lt _ _)) by lia. done.
  - destruct (digits_spec z ltac:(lia)) as (Hv & _).
    destruct (digits_head z ltac:(lia)) as (c & s & E & Hd). rewrite E in *.
    unfold parseInt. cbv zeta.
    destruct (Z.eqb_spec (code c) 45) as [Ec|]; [unfold is_digit in Hd; by rewrite Ec in Hd|].
    cbv iota. rewrite Hv, (proj2 (Z.leb_le _ _)), (proj2 (Z.ltb_lt _ _)) by lia. done.
Qed.

Lemma parseUint_itoa z : 0 <= z < two64 -> parseUint (itoa z) = Some z.
Proof.
  intros Hz. unfold itoa. destruct (Z.ltb_spec z 0); [lia|].
  destruct (digits_spec z ltac:(lia)) as (Hv & _).
  destruct (digits_head z ltac:(lia)) as (c & s & E & _). rewrite E in *.
  unfold parseUint. cbv iota.
  rewrite Hv, (proj2 (Z.ltb_lt _ _)) by lia. done.
Qed.

(** ** Values *)

(** Induction over values, through the lists inside them. *)
Section json_ind.
Context (P : json -> Prop)
  (Hnull : P JNull) (Hbool : forall b, P (JBool b)) (Hnum : forall l, P (JNum l))
  (Hstr : forall s, P (JStr s)) (Harr : forall l, Forall P l -> P (JArr l))
  (Hobj : forall l, Forall (fun kv => P (snd kv)) l -> P (JObj l)).

Fixpoint json_nested_ind (j : json) : P j :=
  match j with
  | JNull => Hnull
  | JBool b => Hbool b
  | JNum l => Hnum l
  | JStr s => Hstr s
  | JArr l =>
      Harr l ((fix go l := match l return Forall P l with
                           | [] => @Forall_nil_2 _ _
                           | j :: l' => @Forall_cons_2 _ _ _ _ (json_nested_ind j) (go l')
                           end) l)
  | JObj l =>
      Hobj l ((fix go l := match l return Forall (fun kv => P (snd kv)) l with
                           | [] => @Forall_nil_2 _ _
                           | (k, j) :: l' =>
                               @Forall_cons_2 _ (fun kv => P (snd kv)) (k, j) l' (json_nested_ind j) (go l')
                           end) l)
  end.
End json_ind.

(** Values as [json.Marshal] writes them. *)
Fixpoint canonical (j : json) : Prop :=
  match j with
  | JNull | JBool _ => True
  | JNum lit => exists z, lit = itoa z
  | JStr s => valid_utf8 s
  | JArr l => fold_right (fun j P => canonical j /\ P) True l
  | JObj l => fold_right (fun kv P => (valid_utf8 (fst kv) /\ canonical (snd kv)) /\ P) True l
  end.

Definition member (kv : string * json) : string :=
  quoteString (fst kv) +:+ ":" +:+ print (snd kv).

Lemma print_JArr l : print (JArr l) = "[" +:+ commas (List.map print l) +:+ "]".
Proof. done. Qed.
Lemma print_JObj l : print (JObj l) = "{" +:+ commas (List.map member l) +:+ "}".
Proof. done. Qed.

Lemma commas_cons x y l : commas (x :: y :: l) = x +:+ "," +:+ commas (y :: l).
Proof. done. Qed.

(** The first byte of a printed value: neither a space nor a closing bracket. *)
Definition opens (s : string) : Prop :=
  exists c r, s = String c r /\ is_space c = false /\ code c <> 93 /\ code c <> 125.

Lemma opens_app s t : opens s -> opens (s +:+ t).
Proof. intros (c & r & -> & H). exists c, (r +:+ t). done. Qed.

Lemma digit_opens c : is_digit c = true -> is_space c = false /\ code c <> 93 /\ code c <> 125.
Proof.
  unfold is_digit, is_space, in_range. intros [?%Z.leb_le ?%Z.leb_le]%andb_true_iff.
  split; [|lia]. simpl. rewrite !(proj2 (Z.eqb_neq _ _)) by lia. done.
Qed.

Lemma itoa_opens z : opens (itoa z).
Proof.
  unfold itoa. destruct (Z.ltb_spec z 0).
  - exists "-"%char, (digits (- z)). split; [done|]. split; [done|]. split; vm_compute; discriminate.
  - destruct (digits_head z) as (c & s & -> & Hd); [lia|]. exists c, s. split; [done|].
    by apply digit_opens.
Qed.

Lemma print_opens j : canonical j -> opens (print j).
Proof.
  destruct j as [|[]|lit|s|l|l]; intros Hc;
    try (eexists _, _; split; [reflexivity|]; repeat split; vm_compute; congruence).
  destruct Hc as [z ->]. apply itoa_opens.
Qed.

Lemma opens_skip_ws s : opens s -> skip_ws s = s.
Proof. intros (c & r & -> & H & _). simpl. by rewrite H. Qed.

Lemma expect_here c t : is_space c = false -> expect c (String c t) = Some t.
Proof. intros H. unfold expect. simpl. by rewrite H, Ascii.eqb_refl. Qed.

Lemma expect_other c c' t : is_space c' = false -> c' <> c -> expect c (String c' t) = None.
Proof.
  intros H Hne. unfold expect. simpl. rewrite H. by destruct (Ascii.eqb_spec c' c).
Qed.

Lemma opens_expect c s : opens s -> code c = 93 \/ code c = 125 -> expect c s = None.
Proof.
  intros (c' & r & -> & H & H1 & H2) Hc. apply expect_other; [done|]. intros ->. lia.
Qed.

Lemma length_commas_cons x y l :
  String.length (commas (x :: y :: l)) = (String.length x + 1 + String.length (commas (y :: l)))%nat.
Proof. rewrite commas_cons, !string_length_app. simpl. lia. Qed.

(** What is read back from a printed value, given enough fuel. *)
Definition reads (j : json) : Prop :=
  forall n t, (2 * String.length (print j) <= n)%nat -> ends_number t = true ->
    read_value n (print j +:+ t) = Some (j, t).

Lemma read_value_eq n s :
  read_value (S n) s =
  match skip_ws s with
  | EmptyString => None
  | String c r =>
      if code c =? 34 then
        match read_string (S (String.length r)) r with
        | Some (t, r') => Some (JStr t, r') | None => None end
      else if code c =? 91 then
        match expect "]" r with
        | Some r' => Some (JArr [], r')
        | None => match read_elems n r with Some (l, r') => Some (JArr l, r') | None => None end
        end
      else if code c =? 123 then
        match expect "}" r with
        | Some r' => Some (JObj [], r')
        | None => match read_members n r with Some (l, r') => Some (JObj l, r') | None => None end
        end
      else if code c =? 110 then
        match strip_prefix "null" (String c r) with Some r' => Some (JNull, r') | None => None end
      else if code c =? 116 then
        match strip_prefix "true" (String c r) with Some r' => Some (JBool true, r') | None => None end
      else if code c =? 102 then
        match strip_prefix "false" (String c r) with Some r' => Some (JBool false, r') | None => None end
      else match read_number (String c r) with Some (l, r') => Some (JNum l, r') | None => None end
  end.
Proof. cbn [read_value]. by destruct (skip_ws s). Qed.

Lemma read_value_arr n r :
  read_value (S n) ("[" +:+ r) =
  match expect "]" r with
  | Some r' => Some (JArr [], r')
  | None => match read_elems n r with Some (l, r') => Some (JArr l, r') | None => None end
  end.
Proof. reflexivity. Qed.

Lemma read_value_obj n r :
  read_value (S n) ("{" +:+ r) =
  match expect "}" r with
  | Some r' => Some (JObj [], r')
  | None => match read_members n r with Some (l, r') => Some (JObj l, r') | None => None end
  end.
Proof. reflexivity. Qed.

Lemma reads_str s : valid_utf8 s -> reads (JStr s).
Proof.
  intros Hv n t Hn _. change (print (JStr s)) with (quoteString s) in *.
  destruct n as [|n]; [unfold quoteString in Hn; simpl in Hn; lia|].
  destruct (read_string_quoteString s t (String.length (quoteString s +:+ t)) Hv) as (r & E & Hr);
    [rewrite string_length_app; lia|].
  rewrite read_value_eq, E. rewrite E in Hr.
  change (String.length (String quote r)) with (S (String.length r)) in Hr. change (skip_ws (String quote r)) with (String quote r).
  change (code quote =? 34) with true. cbv iota. by rewrite Hr.
Qed.

Lemma reads_num z : reads (JNum (itoa z)).
Proof.
  intros n t Hn Ht. change (print (JNum (itoa z))) with (itoa z) in *.
  pose proof (read_number_itoa z t Ht) as Hr.
  pose proof (opens_skip_ws _ (opens_app _ t (itoa_opens z))) as Hs.
  destruct n as [|n].
  { destruct (itoa_opens z) as (c & r & E & _). rewrite E in Hn. simpl in Hn. lia. }
  rewrite read_value_eq, Hs.
  assert (exists c r, itoa z = String c r /\ (code c = 45 \/ 48 <= code c <= 57)) as (c & r & E & Hc).
  { unfold itoa. destruct (Z.ltb_spec z 0); [eexists _, _; split; [done|]; left; done|].
    destruct (digits_head z) as (c & s & -> & Hd); [lia|]. eexists _, _. split; [done|]. right.
    unfold is_digit, in_range in Hd. apply andb_true_iff in Hd as [?%Z.leb_le ?%Z.leb_le]. lia. }
  rewrite E in *. simpl in Hr |- *. 
  rewrite !(proj2 (Z.eqb_neq _ _)) by lia. by rewrite Hr.
Qed.

Lemma reads_elems l : l <> [] ->
  Forall reads l -> Forall canonical l ->
  forall n t, (2 * String.length (commas (List.map print l)) + 1 <= n)%nat ->
  read_elems n (commas (List.map print l) +:+ String "]" t) = Some (l, t).
Proof.
  intros Hne Hr. induction Hr as [|j l Hj Hl IH]; [done|]. intros [Hcj Hcl]%Forall_cons n t Hn.
  destruct n as [|n]; [lia|]. cbn [read_elems List.map]. destruct l as [|j2 l].
  - cbn [List.map commas] in Hn |- *. rewrite (Hj n (String "]" t)) by (done || lia). reflexivity.
  - cbn [List.map] in *. rewrite length_commas_cons in Hn. rewrite commas_cons, !append_assoc.
    rewrite (Hj n) by (done || lia). cbn [String.append]. rewrite expect_here by done.
    rewrite IH by (done || lia). done.
Qed.

Lemma reads_members l : l <> [] ->
  Forall (fun kv => reads (snd kv)) l ->
  Forall (fun kv => valid_utf8 (fst kv) /\ canonical (snd kv)) l ->
  forall n t, (2 * String.length (commas (List.map member l)) + 1 <= n)%nat ->
  read_members n (commas (List.map member l) +:+ String "}" t) = Some (l, t).
Proof.
  intros Hne Hr. induction Hr as [|[k j] l Hj Hl IH]; [done|]. simpl in Hj.
  intros [[Hk Hcj] Hcl]%Forall_cons n t Hn. simpl in Hk, Hcj.
  assert (forall n u, (2 * String.length (member (k, j)) <= n)%nat -> ends_number u = true ->
    match expect quote (member (k, j) +:+ u) with
    | Some r0 =>
        match read_string (S (String.length r0)) r0 with
        | Some (k', r1) => match expect ":" r1 with
                           | Some r2 => k' = k /\ read_value n r2 = Some (j, u)
                           | None => False end
        | None => False end
    | None => False end) as Hm.
  { intros n' u Hn' Hu. unfold member in *. cbn [fst snd] in *. rewrite !append_assoc.
    destruct (read_string_quoteString k (":" +:+ print j +:+ u)
                (String.length (quoteString k +:+ ":" +:+ print j +:+ u)) Hk) as (r & E & Hrd);
      [rewrite string_length_app; lia|].
    rewrite E in *. rewrite expect_here by done.
    change (String.length (String quote r)) with (S (String.length r)) in Hrd. rewrite Hrd.
    cbn [String.append]. rewrite expect_here by done. split; [done|]. apply Hj; [|done].
    rewrite !string_length_app in Hn'. simpl in Hn'. lia. }
  destruct n as [|n]; [lia|]. cbn [read_members List.map]. destruct l as [|kv2 l].
  - cbn [List.map commas] in Hn |- *. specialize (Hm n (String "}" t) ltac:(lia) eq_refl).
    destruct (expect quote _) as [r0|]; [|done]. destruct (read_string _ r0) as [[k' r1]|]; [|done].
    destruct (expect ":" r1) as [r2|]; [|done]. destruct Hm as [-> ->]. reflexivity.
  - cbn [List.map] in *. rewrite length_commas_cons in Hn. rewrite commas_cons, !append_assoc.
    specialize (Hm n ("," +:+ commas (member kv2 :: List.map member l) +:+ String "}" t) ltac:(lia) eq_refl).
    destruct (expect quote _) as [r0|]; [|done]. destruct (read_string _ r0) as [[k' r1]|]; [|done].
    destruct (expect ":" r1) as [r2|]; [|done]. destruct Hm as [-> ->].
    cbn [String.append]. rewrite expect_here by done.
    rewrite IH by (done || lia). done.
Qed.

Lemma canonical_arr l : canonical (JArr l) <-> Forall canonical l.
Proof. simpl. induction l as [|j l IH]; simpl; [by split|]. by rewrite Forall_cons, IH. Qed.

Lemma canonical_obj l :
  canonical (JObj l) <-> Forall (fun kv => valid_utf8 (fst kv) /\ canonical (snd kv)) l.
Proof. simpl. induction l as [|j l IH]; simpl; [by split|]. by rewrite Forall_cons, IH. Qed.

Lemma member_opens kv : opens (member kv).
Proof.
  eexists quote, _. split; [reflexivity|]. split; [done|]. split; vm_compute; discriminate.
Qed.

Lemma commas_opens x l : opens x -> opens (commas (x :: l)).
Proof. destruct l; [done|]. rewrite commas_cons. apply opens_app. Qed.

Lemma read_print j : canonical j -> reads j.
Proof.
  induction j as [| [] | lit | s | l IH | l IH] using json_nested_ind; intros Hc.
  1-3: intros [|n] t Hn _; [simpl in Hn; lia|]; reflexivity.
  - destruct Hc as [z ->]. apply reads_num.
  - by apply reads_str.
  - rewrite canonical_arr in Hc. intros n t Hn _. rewrite print_JArr in *.
    rewrite !string_length_app in Hn. simpl in Hn. destruct n as [|n]; [lia|].
    rewrite !append_assoc, read_value_arr.
    destruct l as [|j l]; [reflexivity|].
    rewrite (opens_expect "]"); [| |by left].
    + change ("]" +:+ t) with (String "]" t). rewrite reads_elems; [done|done| |done|lia].
      rewrite !Forall_forall in *. auto.
    + apply opens_app, commas_opens, print_opens. by apply Forall_cons in Hc as [? _].
  - rewrite canonical_obj in Hc. intros n t Hn _. rewrite print_JObj in *.
    rewrite !string_length_app in Hn. simpl in Hn. destruct n as [|n]; [lia|].
    rewrite !append_assoc, read_value_obj.
    destruct l as [|j l]; [reflexivity|].
    rewrite (opens_expect "}"); [| |by right].
    + change ("}" +:+ t) with (String "}" t). rewrite reads_members; [done|done| |done|lia].
      rewrite !Forall_forall in *. intros kv Hin. apply IH; [done|]. by apply Hc.
    + apply opens_app, commas_opens, member_opens.
Qed.

Lemma parse_print j : canonical j -> parse (print j) = Some j.
Proof.
  intros Hc. unfold parse. pose proof (read_print j Hc (S (2 * String.length (print j))) "") as H.
  rewrite append_empty in H. rewrite H by (done || lia). done.
Qed.
