(* ===== verification/Msg.v ===== *)
(** * Protocol messages and their JSON form: [src/internal/msg/msg.go]

    The ten message structs, the type bytes, and [json.Marshal] /
    [json.Unmarshal] on the structs: a struct is its list of fields under
    their [json] names, every field tagged [omitempty]. A nil map or slice
    and an empty one are the same value: both are omitted when written, and
    the program only ranges over them and takes their length. *)

From S2P Require Import Prelude GoStrings Json.

Definition headerSize : Z := 9.
Definition MaxBodySize : Z := 10240.
Definition maxPooledBufSize : Z := 64 * 1024.

Record Login := mkLogin {
  lg_Version : string; lg_Hostname : string; lg_Os : string; lg_Arch : string;
  lg_User : string; lg_PrivilegeKey : string; lg_Timestamp : Z; lg_RunID : string;
  lg_ClientID : string; lg_Metas : gmap string string; lg_PoolCount : Z }.

Record LoginResp := mkLoginResp {
  lr_Version : string; lr_RunID : string; lr_Error : string }.

Record NewProxy := mkNewProxy {
  np_ProxyName : string; np_ProxyType : string; np_UseEncryption : bool; np_UseCompression : bool;
  np_BandwidthLimit : string; np_BandwidthLimitMode : string; np_Group : string;
  np_GroupKey : string; np_Metas : gmap string string; np_Annotations : gmap string string;
  np_CustomDomains : list string; np_SubDomain : string; np_Locations : list string;
  np_HTTPUser : string; np_HTTPPwd : string; np_HostHeaderRewrite : string;
  np_Headers : gmap string string; np_ResponseHeaders : gmap string string;
  np_RouteByHTTPUser : string }.

Record NewProxyResp := mkNewProxyResp {
  nr_ProxyName : string; nr_RemoteAddr : string; nr_Error : string }.

Record CloseProxy := mkCloseProxy { cp_ProxyName : string }.

Record ReqWorkConn := mkReqWorkConn { rw_Count : Z }.

Record NewWorkConn := mkNewWorkConn {
  nw_RunID : string; nw_PrivilegeKey : string; nw_Timestamp : Z }.

Record StartWorkConn := mkStartWorkConn {
  sw_ProxyName : string; sw_SrcAddr : string; sw_DstAddr : string;
  sw_SrcPort : Z; sw_DstPort : Z; sw_Error : string }.

Record Ping := mkPing { pi_PrivilegeKey : string; pi_Timestamp : Z }.

Record Pong := mkPong { po_Error : string }.

(** The types that implement the [Message] interface; its one method is
    unexported, so no other package can add one. *)
Inductive Message :=
  | MLogin (m : Login)
  | MLoginResp (m : LoginResp)
  | MNewProxy (m : NewProxy)
  | MNewProxyResp (m : NewProxyResp)
  | MCloseProxy (m : CloseProxy)
  | MReqWorkConn (m : ReqWorkConn)
  | MNewWorkConn (m : NewWorkConn)
  | MStartWorkConn (m : StartWorkConn)
  | MPing (m : Ping)
  | MPong (m : Pong).

Definition TypeOf (m : Message) : ascii :=
  match m with
  | MLogin _ => "o"
  | MLoginResp _ => "1"
  | MNewProxy _ => "p"
  | MNewProxyResp _ => "2"
  | MCloseProxy _ => "c"
  | MReqWorkConn _ => "r"
  | MNewWorkConn _ => "w"
  | MStartWorkConn _ => "s"
  | MPing _ => "h"
  | MPong _ => "4"
  end%char.

(** The zero value [typeTo] makes for a type byte. *)
Definition typeTo (b : ascii) : option Message :=
  if Ascii.eqb b "o" then Some (MLogin (mkLogin "" "" "" "" "" "" 0 "" "" ∅ 0))
  else if Ascii.eqb b "1" then Some (MLoginResp (mkLoginResp "" "" ""))
  else if Ascii.eqb b "p" then
    Some (MNewProxy (mkNewProxy "" "" false false "" "" "" "" ∅ ∅ [] "" [] "" "" "" ∅ ∅ ""))
  else if Ascii.eqb b "2" then Some (MNewProxyResp (mkNewProxyResp "" "" ""))
  else if Ascii.eqb b "c" then Some (MCloseProxy (mkCloseProxy ""))
  else if Ascii.eqb b "r" then Some (MReqWorkConn (mkReqWorkConn 0))
  else if Ascii.eqb b "w" then Some (MNewWorkConn (mkNewWorkConn "" "" 0))
  else if Ascii.eqb b "s" then Some (MStartWorkConn (mkStartWorkConn "" "" "" 0 0 ""))
  else if Ascii.eqb b "h" then Some (MPing (mkPing "" 0))
  else if Ascii.eqb b "4" then Some (MPong (mkPong ""))
  else None.

(** ** Structs as lists of fields *)

(** The value of a field, by its Go type. A slice is its backing array and its
    length: the decoder can expose what the array held before. *)
Inductive fval :=
  | FStr (s : string)
  | FInt (z : Z)
  | FUint16 (z : Z)
  | FBool (b : bool)
  | FMap (m : gmap string string)
  | FList (backing : list string) (len : nat).

Definition slice (l : list string) : fval := FList l (length l).

(** The fields under their [json] tags, in the order of the struct. *)
Definition fieldsOf (m : Message) : list (string * fval) :=
  match m with
  | MLogin m =>
      [("version", FStr (lg_Version m)); ("hostname", FStr (lg_Hostname m));
       ("os", FStr (lg_Os m)); ("arch", FStr (lg_Arch m)); ("user", FStr (lg_User m));
       ("privilege_key", FStr (lg_PrivilegeKey m)); ("timestamp", FInt (lg_Timestamp m));
       ("run_id", FStr (lg_RunID m)); ("client_id", FStr (lg_ClientID m));
       ("metas", FMap (lg_Metas m)); ("pool_count", FInt (lg_PoolCount m))]
  | MLoginResp m =>
      [("version", FStr (lr_Version m)); ("run_id", FStr (lr_RunID m)); ("error", FStr (lr_Error m))]
  | MNewProxy m =>
      [("proxy_name", FStr (np_ProxyName m)); ("proxy_type", FStr (np_ProxyType m));
       ("use_encryption", FBool (np_UseEncryption m));
       ("use_compression", FBool (np_UseCompression m));
       ("bandwidth_limit", FStr (np_BandwidthLimit m));
       ("bandwidth_limit_mode", FStr (np_BandwidthLimitMode m));
       ("group", FStr (np_Group m)); ("group_key", FStr (np_GroupKey m));
       ("metas", FMap (np_Metas m)); ("annotations", FMap (np_Annotations m));
       ("custom_domains", slice (np_CustomDomains m)); ("subdomain", FStr (np_SubDomain m));
       ("locations", slice (np_Locations m)); ("http_user", FStr (np_HTTPUser m));
       ("http_pwd", FStr (np_HTTPPwd m)); ("host_header_rewrite", FStr (np_HostHeaderRewrite m));
       ("headers", FMap (np_Headers m)); ("response_headers", FMap (np_ResponseHeaders m));
       ("route_by_http_user", FStr (np_RouteByHTTPUser m))]
  | MNewProxyResp m =>
      [("proxy_name", FStr (nr_ProxyName m)); ("remote_addr", FStr (nr_RemoteAddr m));
       ("error", FStr (nr_Error m))]
  | MCloseProxy m => [("proxy_name", FStr (cp_ProxyName m))]
  | MReqWorkConn m => [("count", FInt (rw_Count m))]
  | MNewWorkConn m =>
      [("run_id", FStr (nw_RunID m)); ("privilege_key", FStr (nw_PrivilegeKey m));
       ("timestamp", FInt (nw_Timestamp m))]
  | MStartWorkConn m =>
      [("proxy_name", FStr (sw_ProxyName m)); ("src_addr", FStr (sw_SrcAddr m));
       ("dst_addr", FStr (sw_DstAddr m)); ("src_port", FUint16 (sw_SrcPort m));
       ("dst_port", FUint16 (sw_DstPort m)); ("error", FStr (sw_Error m))]
  | MPing m => [("privilege_key", FStr (pi_PrivilegeKey m)); ("timestamp", FInt (pi_Timestamp m))]
  | MPong m => [("error", FStr (po_Error m))]
  end.

(** The struct of [m]'s type with the given field values. *)
Definition withFields (m : Message) (l : list fval) : Message :=
  match m, l with
  | MLogin _, [FStr a; FStr b; FStr c; FStr d; FStr e; FStr f; FInt g; FStr h; FStr i; FMap j; FInt k] =>
      MLogin (mkLogin a b c d e f g h i j k)
  | MLoginResp _, [FStr a; FStr b; FStr c] => MLoginResp (mkLoginResp a b c)
  | MNewProxy _, [FStr a; FStr b; FBool c; FBool d; FStr e; FStr f; FStr g; FStr h; FMap i; FMap j;
                  FList k kn; FStr l; FList m mn; FStr n; FStr o; FStr p; FMap q; FMap r; FStr s] =>
      MNewProxy (mkNewProxy a b c d e f g h i j (take kn k) l (take mn m) n o p q r s)
  | MNewProxyResp _, [FStr a; FStr b; FStr c] => MNewProxyResp (mkNewProxyResp a b c)
  | MCloseProxy _, [FStr a] => MCloseProxy (mkCloseProxy a)
  | MReqWorkConn _, [FInt a] => MReqWorkConn (mkReqWorkConn a)
  | MNewWorkConn _, [FStr a; FStr b; FInt c] => MNewWorkConn (mkNewWorkConn a b c)
  | MStartWorkConn _, [FStr a; FStr b; FStr c; FUint16 d; FUint16 e; FStr f] =>
      MStartWorkConn (mkStartWorkConn a b c d e f)
  | MPing _, [FStr a; FInt b] => MPing (mkPing a b)
  | MPong _, [FStr a] => MPong (mkPong a)
  | _, _ => m
  end.

(** ** Marshal *)

(** What [omitempty] omits. *)
Definition isEmptyValue (v : fval) : bool :=
  match v with
  | FStr s => String.eqb s ""
  | FInt z | FUint16 z => z =? 0
  | FBool b => negb b
  | FMap m => bool_decide (m = ∅)
  | FList _ n => Nat.eqb n 0
  end.

Definition key_le (a b : string * string) : Prop := String.leb (fst a) (fst b) = true.
#[export] Instance key_le_dec a b : Decision (key_le a b).
Proof. unfold key_le. apply _. Defined.

(** Maps are written with their keys in order. *)
Definition sortedPairs (m : gmap string string) : list (string * string) :=
  merge_sort key_le (map_to_list m).

Definition encodeValue (v : fval) : json :=
  match v with
  | FStr s => JStr s
  | FInt z | FUint16 z => JNum (itoa z)
  | FBool b => JBool b
  | FMap m => JObj (List.map (fun kv => (fst kv, JStr (snd kv))) (sortedPairs m))
  | FList l n => JArr (List.map JStr (take n l))
  end.

Definition encodeFields (fs : list (string * fval)) : list (string * json) :=
  List.map (fun kv => (fst kv, encodeValue (snd kv)))
    (List.filter (fun kv => negb (isEmptyValue (snd kv))) fs).

Definition Marshal (m : Message) : string := print (JObj (encodeFields (fieldsOf m))).

(** ** Unmarshal *)

(** [foldName]: upper case, with the two other runes that fold to ASCII
    letters (U+017F to S, U+212A to K). *)
Definition upper (c : ascii) : ascii :=
  if in_range 97 122 (code c) then chr (code c - 32) else c.

Fixpoint foldName_n (n : nat) (s : string) : string :=
  match n, s with
  | S n', String c s' =>
      match next_rune s with
      | Some (q, rest) =>
          (if String.eqb q (String (chr 197) (String (chr 191) "")) then "S"
           else if String.eqb q (String (chr 226) (String (chr 132) (String (chr 170) ""))) then "K"
           else match q with String a EmptyString => String (upper a) "" | _ => q end)
          +:+ foldName_n n' rest
      | None => RuneError +:+ foldName_n n' s'
      end
  | _, _ => ""
  end.

Definition foldName (s : string) : string := foldName_n (String.length s) s.

(** The field an object key names: the exact name first, else ignoring
    case. *)
Definition fieldIndex (fs : list (string * fval)) (key : string) : option nat :=
  match list_find (fun kv => fst kv = key) fs with
  | Some (i, _) => Some i
  | None =>
      match list_find (fun kv => foldName (fst kv) = foldName key) fs with
      | Some (i, _) => Some i
      | None => None
      end
  end.

Fixpoint decodeMap (m : gmap string string) (l : list (string * json)) : option (gmap string string) :=
  match l with
  | [] => Some m
  | (k, JStr v) :: l' => decodeMap (<[k := v]> m) l'
  | (k, JNull) :: l' => decodeMap (<[k := ""]> m) l'
  | _ :: _ => None
  end.

Fixpoint decodeElems (i : nat) (old : list string) (l : list json) : option (list string) :=
  match l with
  | [] => Some []
  | JStr v :: l' => option_map (cons v) (decodeElems (S i) old l')
  | JNull :: l' => option_map (cons (nth i old "")) (decodeElems (S i) old l')
  | _ :: _ => None
  end.

(** Storing a JSON value into a field that holds [cur]; [None] is the
    [UnmarshalTypeError] that makes [Unmarshal] fail. [null] sets maps and
    slices to nil and leaves the others. *)
Definition decodeInto (cur : fval) (j : json) : option fval :=
  match cur, j with
  | FMap _, JNull => Some (FMap ∅)
  | FList _ _, JNull => Some (FList [] 0)
  | _, JNull => Some cur
  | FStr _, JStr s => Some (FStr s)
  | FInt _, JNum lit => option_map FInt (parseInt lit)
  | FUint16 _, JNum lit =>
      match parseUint lit with
      | Some z => if z <? 65536 then Some (FUint16 z) else None
      | None => None
      end
  | FBool _, JBool b => Some (FBool b)
  | FMap m, JObj l => option_map FMap (decodeMap m l)
  | FList old _, JArr l =>
      match decodeElems 0 old l with
      | Some [] => Some (FList [] 0)
      | Some new => Some (FList (new ++ drop (length new) old) (length new))
      | None => None
      end
  | _, _ => None
  end.

(** The members of the object, in order; unknown keys are skipped. *)
Fixpoint decodeFields (fs : list (string * fval)) (l : list (string * json))
    : option (list (string * fval)) :=
  match l with
  | [] => Some fs
  | (k, j) :: l' =>
      match fieldIndex fs k with
      | None => decodeFields fs l'
      | Some i =>
          match fs !! i with
          | Some (name, cur) =>
              match decodeInto cur j with
              | Some v => decodeFields (<[i := (name, v)]> fs) l'
              | None => None
              end
          | None => None
          end
      end
  end.

(** [json.Unmarshal(body, msg)] into the struct [m]. The program drops the
    struct when it fails, so only success carries it. *)
Definition Unmarshal (body : string) (m : Message) : option Message :=
  match parse body with
  | Some JNull => Some m
  | Some (JObj l) =>
      match decodeFields (fieldsOf m) l with
      | Some fs => Some (withFields m (List.map snd fs))
      | None => None
      end
  | _ => None
  end.
