(* ===== verification/MsgProofs.v ===== *)
(** * Unmarshal after Marshal

    Decoding what was encoded gives every message back, when its strings are
    valid UTF-8 and its integers fit their Go types. *)

From S2P Require Import Prelude GoStrings Json JsonProofs Msg.

Definition value_ok (v : fval) : Prop :=
  match v with
  | FStr s => valid_utf8 s
  | FInt z => int64_ok z
  | FUint16 z => 0 <= z < 65536
  | FBool _ => True
  | FMap m => map_Forall (fun k v => valid_utf8 k /\ valid_utf8 v) m
  | FList l n => Forall valid_utf8 l /\ n = length l
  end.

Definition msg_ok (m : Message) : Prop := Forall (fun kv => value_ok (snd kv)) (fieldsOf m).

(** The same, decided. *)
Definition value_okb (v : fval) : bool :=
  match v with
  | FStr s => ValidString s
  | FInt z => (- two63 <=? z) && (z <? two63)
  | FUint16 z => (0 <=? z) && (z <? 65536)
  | FBool _ => true
  | FMap m => forallb (fun kv => ValidString (fst kv) && ValidString (snd kv)) (map_to_list m)
  | FList l n => forallb ValidString l && Nat.eqb n (length l)
  end.

Definition msg_okb (m : Message) : bool := forallb (fun kv => value_okb (snd kv)) (fieldsOf m).

Lemma value_okb_ok v : value_okb v = true -> value_ok v.
Proof.
  destruct v as [s|z|z|b|m|l n]; simpl; intros H.
  - by apply ValidString_valid.
  - apply andb_true_iff in H as [?%Z.leb_le ?%Z.ltb_lt]. done.
  - apply andb_true_iff in H as [?%Z.leb_le ?%Z.ltb_lt]. done.
  - done.
  - intros k v Hk. rewrite forallb_forall in H. apply elem_of_map_to_list, list_elem_of_In in Hk.
    specialize (H _ Hk). apply andb_true_iff in H as [? ?]. split; by apply ValidString_valid.
  - apply andb_true_iff in H as [H ->%Nat.eqb_eq]. split; [|done]. apply Forall_forall.
    intros s Hs. rewrite forallb_forall in H. by apply ValidString_valid, H, list_elem_of_In.
Qed.

Lemma msg_okb_ok m : msg_okb m = true -> msg_ok m.
Proof.
  unfold msg_okb. rewrite forallb_forall. intros H. apply Forall_forall. intros kv Hkv.
  by apply value_okb_ok, H, list_elem_of_In.
Qed.

(** The zero value of a field's type. *)
Definition zero_of (v : fval) : fval :=
  match v with
  | FStr _ => FStr ""
  | FInt _ => FInt 0
  | FUint16 _ => FUint16 0
  | FBool _ => FBool false
  | FMap _ => FMap ∅
  | FList _ _ => FList [] 0
  end.

Lemma isEmpty_zero v : value_ok v -> isEmptyValue v = true -> v = zero_of v.
Proof.
  destruct v as [s|z|z|[]|m|l n]; simpl; intros Hok H; try done.
  - by apply String.eqb_eq in H as ->.
  - apply Z.eqb_eq in H as ->. done.
  - apply Z.eqb_eq in H as ->. done.
  - apply bool_decide_eq_true in H as ->. done.
  - apply Nat.eqb_eq in H as ->. destruct Hok as [_ Hl]. by destruct l.
Qed.

(** *** Maps *)

Lemma sortedPairs_perm m : sortedPairs m ≡ₚ map_to_list m.
Proof. apply merge_sort_Permutation. Qed.

Lemma decodeMap_pairs l m :
  NoDup (fst <$> l) ->
  decodeMap m (List.map (fun kv => (fst kv, JStr (snd kv))) l) = Some (list_to_map l ∪ m).
Proof.
  revert m; induction l as [|[k v] l IH]; intros m Hnd; simpl.
  - by rewrite (left_id_L ∅ (∪)).
  - inversion_clear Hnd as [|? ? Hk Hnd']. rewrite IH by done. f_equal.
    rewrite <- insert_union_l, insert_union_r; [done|]. by apply not_elem_of_list_to_map.
Qed.

Lemma decodeMap_sorted m :
  decodeMap ∅ (List.map (fun kv => (fst kv, JStr (snd kv))) (sortedPairs m)) = Some m.
Proof.
  assert (NoDup (fst <$> sortedPairs m)) as Hnd.
  { rewrite sortedPairs_perm. apply NoDup_fst_map_to_list. }
  rewrite decodeMap_pairs by done. f_equal. rewrite (right_id_L ∅ (∪)).
  rewrite (list_to_map_proper (sortedPairs m) (map_to_list m)); [|done|apply sortedPairs_perm].
  apply list_to_map_to_list.
Qed.

(** *** Slices *)

Lemma decodeElems_strings i old l : decodeElems i old (List.map JStr l) = Some l.
Proof. revert i; induction l as [|s l IH]; intros i; simpl; [done|]. by rewrite IH. Qed.

(** *** One field *)

Lemma decodeInto_encode v :
  value_ok v -> isEmptyValue v = false -> decodeInto (zero_of v) (encodeValue v) = Some v.
Proof.
  destruct v as [s|z|z|b|m|l n]; simpl; intros Hok He.
  - done.
  - by rewrite parseInt_itoa.
  - rewrite parseUint_itoa by (unfold two64; lia). by rewrite (proj2 (Z.ltb_lt _ _)) by lia.
  - by destruct b.
  - by rewrite decodeMap_sorted.
  - destruct Hok as [_ ->]. rewrite firstn_all, decodeElems_strings.
    destruct l as [|s l]; [done|]. by rewrite drop_nil, app_nil_r.
Qed.

Lemma canonical_encode v : value_ok v -> canonical (encodeValue v).
Proof.
  destruct v as [s|z|z|b|m|l n]; intros Hok.
  - done.
  - by exists z.
  - by exists z.
  - done.
  - apply canonical_obj. apply Forall_forall. intros [k j] Hin.
    apply list_elem_of_In, in_map_iff in Hin as ([k' v'] & E & Hin). simplify_eq/=.
    apply list_elem_of_In in Hin. rewrite sortedPairs_perm in Hin.
    apply elem_of_map_to_list in Hin. by apply Hok in Hin.
  - apply canonical_arr. apply Forall_forall. intros j Hin.
    apply list_elem_of_In, in_map_iff in Hin as (s & <- & Hin).
    destruct Hok as [Hf _]. rewrite Forall_forall in Hf. apply Hf.
    apply list_elem_of_In in Hin. by eapply subseteq_take.
Qed.

(** *** All fields *)

Definition zero_fields (fs : list (string * fval)) : list (string * fval) :=
  List.map (fun kv => (fst kv, zero_of (snd kv))) fs.

Lemma fieldIndex_exact pre name v suf :
  NoDup (fst <$> pre ++ (name, v) :: suf) ->
  fieldIndex (pre ++ (name, v) :: suf) name = Some (length pre).
Proof.
  intros Hnd. unfold fieldIndex.
  assert (list_find (fun kv => fst kv = name) (pre ++ (name, v) :: suf)
          = Some (length pre, (name, v))) as ->; [|done].
  apply list_find_Some. split; [by apply list_lookup_middle|]. split; [done|].
  intros j [k w] Hj Hlt Hk. simpl in Hk. subst name.
  rewrite lookup_app_l in Hj by done. rewrite fmap_app in Hnd.
  apply NoDup_app in Hnd as (_ & Hd & _). apply (Hd k).
  - apply list_elem_of_fmap. exists (k, w). split; [done|]. apply list_elem_of_lookup. eauto.
  - simpl. left.
Qed.

Lemma decodeFields_encode fs pre :
  NoDup (fst <$> pre ++ fs) -> Forall (fun kv => value_ok (snd kv)) fs ->
  decodeFields (pre ++ zero_fields fs) (encodeFields fs) = Some (pre ++ fs).
Proof.
  revert pre; induction fs as [|[name v] fs IH]; intros pre Hnd Hok.
  - done.
  - apply Forall_cons in Hok as [Hv Hok]. simpl in Hv.
    assert (NoDup (fst <$> pre ++ (name, zero_of v) :: zero_fields fs)) as Hnd0.
    { assert (fst <$> pre ++ (name, zero_of v) :: zero_fields fs = fst <$> pre ++ (name, v) :: fs) as ->;
        [|done]. rewrite !fmap_app. simpl. do 2 f_equal. unfold zero_fields.
      clear. induction fs as [|[] fs IH]; simpl; [done|]. by f_equal. }
    assert (NoDup (fst <$> (pre ++ [(name, v)]) ++ fs)) as Hnd'
      by by rewrite <- app_assoc.
    specialize (IH (pre ++ [(name, v)]) Hnd' Hok). rewrite <- !app_assoc in IH.
    unfold encodeFields in *. simpl. destruct (isEmptyValue v) eqn:E; simpl.
    + rewrite <- (isEmpty_zero v Hv E). apply IH.
    + rewrite (fieldIndex_exact pre name (zero_of v)) by done.
      rewrite list_lookup_middle by done. rewrite decodeInto_encode by done.
      rewrite insert_app_r_alt, Nat.sub_diag by done. apply IH.
Qed.

Lemma withFields_fieldsOf m z :
  typeTo (TypeOf m) = Some z -> withFields z (List.map snd (fieldsOf m)) = m.
Proof.
  destruct m as [m|m|m|m|m|m|m|m|m|m]; intros H; injection H as <-; destruct m; simpl;
    rewrite ?firstn_all; done.
Qed.

Lemma fieldsOf_zero m z : typeTo (TypeOf m) = Some z -> fieldsOf z = zero_fields (fieldsOf m).
Proof. destruct m; intros H; injection H as <-; reflexivity. Qed.

Lemma fieldsOf_nodup m : NoDup (fst <$> fieldsOf m).
Proof. apply (bool_decide_unpack _). destruct m; vm_compute; exact I. Qed.

Lemma fieldsOf_ascii m : Forall (fun kv => valid_utf8 (fst kv)) (fieldsOf m).
Proof.
  eapply (Forall_impl (fun kv => ValidString (fst kv) = true)); [|intros; by apply ValidString_valid].
  destruct m; repeat (constructor; [vm_compute; reflexivity|]); constructor.
Qed.

Lemma canonical_fields m : msg_ok m -> canonical (JObj (encodeFields (fieldsOf m))).
Proof.
  intros Hok. apply canonical_obj, Forall_forall. intros [k j] Hin. unfold encodeFields in Hin.
  apply list_elem_of_In, in_map_iff in Hin as ([k' v] & E & Hin). simplify_eq/=.
  apply filter_In in Hin as [Hin%list_elem_of_In _]. pose proof (fieldsOf_ascii m) as Ha.
  unfold msg_ok in Hok. rewrite Forall_forall in Hok, Ha.
  split; [by apply (Ha _ Hin)|]. apply canonical_encode, (Hok _ Hin).
Qed.

Lemma Unmarshal_Marshal m z :
  msg_ok m -> typeTo (TypeOf m) = Some z -> Unmarshal (Marshal m) z = Some m.
Proof.
  intros Hok Hz. unfold Unmarshal, Marshal. rewrite parse_print by by apply canonical_fields.
  rewrite (fieldsOf_zero m z Hz).
  pose proof (decodeFields_encode (fieldsOf m) [] (fieldsOf_nodup m) Hok) as H. simpl in H.
  rewrite H. by rewrite withFields_fieldsOf.
Qed.

Lemma typeTo_TypeOf m : exists z, typeTo (TypeOf m) = Some z /\ TypeOf z = TypeOf m.
Proof. destruct m; eexists; split; reflexivity. Qed.
