(* ===== verification/Wire.v ===== *)
(** * The frp wire format: [WriteMsg] and [ReadMsg] of [src/internal/msg/msg.go]

    [type byte][8-byte big-endian length][JSON body]. Frames are built in
    buffers that come from a pool with whatever an earlier frame left in
    them, so the pooled buffer is an argument. *)

From S2P Require Import Prelude GoStrings Json JsonProofs Msg MsgProofs.

(** A [[]byte], and the bytes of a stream still to be read. *)
Definition bytes : Type := list ascii.

Definition bytes_of (s : string) : bytes := String.list_ascii_of_string s.
Definition string_of (l : bytes) : string := String.string_of_list_ascii l.

(** ** Big-endian integers *)

(** [binary.BigEndian.PutUint64] for [k = 8]. *)
Fixpoint putUint (k : nat) (v : Z) : bytes :=
  match k with
  | O => []
  | S k' => chr (Z.land (Z.shiftr v (8 * Z.of_nat k')) 255) :: putUint k' v
  end.

(** [binary.BigEndian.Uint64] of eight bytes. *)
Definition getUint (l : bytes) : Z := foldl (fun acc c => Z.lor (Z.shiftl acc 8) (code c)) 0 l.

(** [int64(u)]. *)
Definition toInt64 (u : Z) : Z := wrap64 u.

(** ** Pooled buffers *)

(** A buffer of [need] bytes: a fresh one, or the head of the pooled one. *)
Definition getBuf (pooled : bytes) (need : nat) : bytes :=
  if Nat.ltb (length pooled) need then replicate need (chr 0) else take need pooled.

(** [copy(buf[at:], src)] of a source that fits. *)
Definition blit (buf : bytes) (at_ : nat) (src : bytes) : bytes :=
  take at_ buf ++ src ++ drop (at_ + length src) buf.

(** ** Writing *)

(** The buffer [WriteMsg] passes to its single [w.Write]. *)
Definition frameInto (pooled : bytes) (m : Message) : bytes :=
  let body := bytes_of (Marshal m) in
  let buf := getBuf pooled (Z.to_nat headerSize + length body) in
  let buf := blit buf 0 [TypeOf m] in
  let buf := blit buf 1 (putUint 8 (Z.of_nat (length body))) in
  blit buf (Z.to_nat headerSize) body.

(** The frame of a message. *)
Definition frame (m : Message) : bytes :=
  let body := bytes_of (Marshal m) in
  TypeOf m :: putUint 8 (Z.of_nat (length body)) ++ body.

(** [WriteMsg(w, m)]: [w] takes the whole frame in one call, and its answer is
    the answer. *)
Definition WriteMsg {W} (write : W -> bytes -> W * option string) (pooled : bytes) (w : W) (m : Message)
    : W * option string :=
  write w (frameInto pooled m).

(** ** Reading *)

Inductive ReadErr :=
  | EOF
  | UnexpectedEOF
  | InvalidBodySize (length : Z)
  | UnknownType (b : ascii)
  | UnmarshalError.

(** [io.ReadFull] of [n] bytes from a stream that ends after [s]. *)
Definition ReadFull (n : nat) (s : bytes) : ReadErr + (bytes * bytes) :=
  if Nat.leb n (length s) then inr (take n s, drop n s)
  else match s with [] => inl EOF | _ => inl UnexpectedEOF end.

Definition ReadMsg (pooled s : bytes) : ReadErr + (Message * bytes) :=
  match ReadFull 1 s with
  | inl e => inl e
  | inr (typeBuf, s1) =>
      match ReadFull 8 s1 with
      | inl e => inl e
      | inr (lenBuf, s2) =>
          let length := toInt64 (getUint lenBuf) in
          if (length <? 0) || (MaxBodySize <? length) then inl (InvalidBodySize length)
          else
            let t := hd (chr 0) typeBuf in
            match typeTo t with
            | None => inl (UnknownType t)
            | Some zero =>
                let need := Z.to_nat length in
                match ReadFull need s2 with
                | inl e => inl e
                | inr (data, rest) =>
                    let body := blit (getBuf pooled need) 0 data in
                    match Unmarshal (string_of body) zero with
                    | None => inl UnmarshalError
                    | Some m => inr (m, rest)
                    end
                end
            end
      end
  end.

(** Reads messages until the first error. *)
Fixpoint ReadAll (n : nat) (pooled s : bytes) : list Message * ReadErr :=
  match n with
  | O => ([], EOF)
  | S n' =>
      match ReadMsg pooled s with
      | inl e => ([], e)
      | inr (m, rest) => let '(l, e) := ReadAll n' pooled rest in (m :: l, e)
      end
  end.

(** ** Lemmas *)

Lemma string_of_bytes_of s : string_of (bytes_of s) = s.
Proof. apply String.string_of_list_ascii_of_string. Qed.

Lemma length_bytes_of s : length (bytes_of s) = String.length s.
Proof. induction s; simpl; [done|]. by f_equal. Qed.

Lemma code_range c : 0 <= code c < 256.
Proof. unfold code. pose proof (N_ascii_bounded c). lia. Qed.

Lemma code_chr z : 0 <= z < 256 -> code (chr z) = z.
Proof. intros H. unfold code, chr. rewrite N_ascii_embedding by lia. lia. Qed.

Lemma bytes_of_inj a b : bytes_of a = bytes_of b -> a = b.
Proof. intros E. by rewrite <- (string_of_bytes_of a), E, string_of_bytes_of. Qed.

Lemma code_inj a b : code a = code b -> a = b.
Proof.
  unfold code. intros H%N2Z.inj. rewrite <- (ascii_N_embedding a), <- (ascii_N_embedding b).
  by rewrite H.
Qed.

Lemma length_putUint k v : length (putUint k v) = k.
Proof. induction k; simpl; [done|]. by f_equal. Qed.

Lemma lor_shift_add a b : 0 <= b < 256 -> Z.lor (Z.shiftl a 8) b = a * 256 + b.
Proof.
  intros Hb. rewrite Z.shiftl_mul_pow2 by lia. change (2 ^ 8) with 256.
  rewrite <- Z.add_lor_land.
  assert (Z.land (a * 256) b = 0) as ->; [|lia].
  apply Z.bits_inj'. intros n Hn. rewrite Z.land_spec, Z.bits_0.
  change 256 with (2 ^ 8). rewrite Z.mul_pow2_bits by lia.
  destruct (Z.ltb_spec n 8).
  - rewrite (Z.testbit_neg_r a) by lia. done.
  - assert (Z.testbit b n = false) as ->; [|apply andb_false_r].
    destruct (Z.eq_dec b 0) as [->|]; [apply Z.bits_0|].
    apply Z.bits_above_log2; [lia|]. apply Z.log2_lt_pow2; [lia|].
    assert (2 ^ 8 <= 2 ^ n) by (apply Z.pow_le_mono_r; lia). change (2 ^ 8) with 256 in *. lia.
Qed.

Lemma getUint_put acc k v :
  foldl (fun acc c => Z.lor (Z.shiftl acc 8) (code c)) acc (putUint k v)
  = acc * 256 ^ Z.of_nat k + v mod 256 ^ Z.of_nat k.
Proof.
  revert acc; induction k as [|k IH]; intros acc.
  - simpl. rewrite Z.mod_1_r. lia.
  - cbn [putUint foldl]. rewrite IH.
    change 255 with (Z.ones 8). rewrite Z.land_ones, Z.shiftr_div_pow2 by lia.
    change (2 ^ 8) with 256. rewrite Z.pow_mul_r by lia. change (2 ^ 8) with 256.
    pose proof (Z.mod_pos_bound (v / 256 ^ Z.of_nat k) 256 ltac:(lia)) as Hm.
    rewrite code_chr, lor_shift_add by done.
    rewrite Nat2Z.inj_succ, Z.pow_succ_r by lia.
    pose proof (Z.pow_pos_nonneg 256 (Z.of_nat k) ltac:(lia) ltac:(lia)).
    rewrite (Z.mul_comm 256), Z.rem_mul_r by lia. lia.
Qed.

Lemma getUint_putUint v : 0 <= v < two64 -> getUint (putUint 8 v) = v.
Proof.
  intros H. unfold getUint. rewrite getUint_put. change (256 ^ Z.of_nat 8) with two64.
  rewrite Z.mod_small by done. lia.
Qed.

Lemma length_getBuf pooled need : length (getBuf pooled need) = need.
Proof.
  unfold getBuf. destruct (Nat.ltb_spec (length pooled) need); [apply length_replicate|].
  rewrite length_take. lia.
Qed.

Lemma blit_all buf src : length buf = length src -> blit buf 0 src = src.
Proof. intros H. unfold blit. simpl. rewrite drop_ge by lia. apply app_nil_r. Qed.

(** The frame does not depend on what the pooled buffer held. *)
Lemma frameInto_frame pooled m : frameInto pooled m = frame m.
Proof.
  unfold frameInto, frame. cbv zeta. generalize (bytes_of (Marshal m)) as body. intros body.
  pose proof (length_getBuf pooled (Z.to_nat headerSize + length body)) as Hl.
  change (Z.to_nat headerSize) with 9%nat in *.
  destruct (getBuf pooled _) as [|b buf]; [done|]. cbn [length Nat.add] in Hl.
  pose proof (length_putUint 8 (Z.of_nat (length body))) as Hlen.
  revert Hlen. generalize (putUint 8 (Z.of_nat (length body))) as len. intros len Hlen.
  unfold blit. cbn [take drop app length Nat.add]. rewrite Hlen.
  change (1 + 8)%nat with 9%nat. cbn [take drop app]. f_equal.
  rewrite !drop_0, take_0. cbn [app].
  rewrite take_app_le, take_ge by lia. f_equal.
  rewrite drop_app_ge, Hlen by lia. rewrite drop_drop, drop_ge by lia. apply app_nil_r.
Qed.

Lemma ReadFull_app l s : ReadFull (length l) (l ++ s) = inr (l, s).
Proof.
  unfold ReadFull. rewrite (proj2 (Nat.leb_le _ _)) by (rewrite length_app; lia).
  by rewrite take_app_length, drop_app_length.
Qed.

Lemma ReadFull_ok n s d r : ReadFull n s = inr (d, r) -> s = d ++ r /\ length d = n.
Proof.
  unfold ReadFull. destruct (Nat.leb_spec n (length s)); [|by destruct s].
  intros; simplify_eq. rewrite take_drop, length_take. split; [done|lia].
Qed.

(** What [ReadMsg] does with a complete header. *)
Lemma ReadMsg_header pooled t len s :
  length len = 8%nat ->
  ReadMsg pooled (t :: len ++ s) =
  let n := toInt64 (getUint len) in
  if (n <? 0) || (MaxBodySize <? n) then inl (InvalidBodySize n)
  else match typeTo t with
       | None => inl (UnknownType t)
       | Some zero =>
           match ReadFull (Z.to_nat n) s with
           | inl e => inl e
           | inr (data, rest) =>
               match Unmarshal (string_of data) zero with
               | None => inl UnmarshalError
               | Some m => inr (m, rest)
               end
           end
       end.
Proof.
  intros Hl. unfold ReadMsg.
  change (ReadFull 1 (t :: len ++ s)) with (ReadFull (length [t]) ([t] ++ (len ++ s))).
  rewrite ReadFull_app. rewrite <- Hl at 1. rewrite ReadFull_app. cbv zeta. destruct (_ || _); [done|].
  cbn [hd]. destruct (typeTo t); [|done].
  destruct (ReadFull _ s) as [|[d r]] eqn:E; [done|].
  apply ReadFull_ok in E as [_ Hd]. rewrite blit_all; [done|]. by rewrite length_getBuf.
Qed.

(** A frame read back, for any body length. *)
Lemma ReadMsg_frame pooled m rest :
  msg_ok m ->
  let n := Z.of_nat (String.length (Marshal m)) in
  n < two63 ->
  ReadMsg pooled (frame m ++ rest) =
  if MaxBodySize <? n then inl (InvalidBodySize n) else inr (m, rest).
Proof.
  intros Hok n Hn. unfold frame. cbn [app]. rewrite <- app_assoc.
  assert (Z.of_nat (length (bytes_of (Marshal m))) = n) as Hlen by by rewrite length_bytes_of.
  rewrite ReadMsg_header by apply length_putUint. cbv zeta. rewrite Hlen.
  rewrite getUint_putUint by (unfold two63, two64 in *; lia).
  unfold toInt64. rewrite wrap64_id by (unfold int64_ok, two63 in *; lia).
  rewrite (proj2 (Z.ltb_ge n 0)) by lia. cbn [orb].
  destruct (MaxBodySize <? n); [done|].
  destruct (typeTo_TypeOf m) as (z & Hz & _). rewrite Hz.
  replace (Z.to_nat n) with (length (bytes_of (Marshal m))) by lia.
  rewrite ReadFull_app, string_of_bytes_of.
  by rewrite Unmarshal_Marshal.
Qed.
