(* ===== verification/WireSpec.v ===== *)
(** * What the wire format promises

    Round trips of single messages and of streams, independence from the
    pooled buffers, and the bounds [ReadMsg] enforces on what a peer sends. *)

From S2P Require Import Prelude GoStrings Json JsonProofs Msg MsgProofs Wire.

Lemma TypeOf_withFields m l : TypeOf (withFields m l) = TypeOf m.
Proof. destruct m; simpl; repeat case_match; done. Qed.

Lemma TypeOf_Unmarshal body z m : Unmarshal body z = Some m -> TypeOf m = TypeOf z.
Proof.
  unfold Unmarshal. intros H. repeat case_match; simplify_eq; try done. apply TypeOf_withFields.
Qed.

Lemma typeTo_inv t z : typeTo t = Some z -> TypeOf z = t.
Proof.
  unfold typeTo. intros H.
  repeat match type of H with
         | (if Ascii.eqb ?a ?b then _ else _) = _ => destruct (Ascii.eqb_spec a b); [simplify_eq; done|]
         end. done.
Qed.

(** The body of a frame fits what [ReadMsg] accepts. *)
Definition fits (m : Message) : Prop := Z.of_nat (String.length (Marshal m)) <= MaxBodySize.

Lemma ReadMsg_frame_fits pooled m rest :
  msg_ok m -> fits m -> ReadMsg pooled (frame m ++ rest) = inr (m, rest).
Proof.
  unfold fits. intros Hok Hf. rewrite ReadMsg_frame; [|done|unfold MaxBodySize, two63 in *; lia].
  by rewrite (proj2 (Z.ltb_ge _ _)).
Qed.

(** ** The properties *)

(** C13: Round trip of the wire format. A written message is read back as
    itself, whatever follows it on the stream and whatever the pooled buffers
    hold, when its body is at most [MaxBodySize] bytes; a longer body, which
    [WriteMsg] does not refuse, is refused by [ReadMsg]. (Strings are valid
    UTF-8 and integers fit their Go types.) *)
Theorem wire_roundtrip (pw pr : bytes) (m : Message) (rest : bytes)
    (Hok : msg_ok m) (Hlen : Z.of_nat (String.length (Marshal m)) < two63) :
  ReadMsg pr (frameInto pw m ++ rest) =
  if Z.of_nat (String.length (Marshal m)) <=? MaxBodySize then inr (m, rest)
  else inl (InvalidBodySize (Z.of_nat (String.length (Marshal m)))).
Proof.
  rewrite frameInto_frame, ReadMsg_frame by done. cbv zeta.
  rewrite Z.ltb_antisym. by destruct (_ <=? MaxBodySize).
Qed.

(** A stream of messages is read back message by message, in order, and
    ends in the clean [EOF] of a connection closed between messages. *)
Lemma wire_stream_roundtrip (pooled : bytes) (ms : list Message)
    (Hok : Forall msg_ok ms) (Hfit : Forall fits ms) :
  ReadAll (S (length ms)) pooled (concat (List.map frame ms)) = (ms, EOF).
Proof.
  induction Hok as [|m ms Hm Hms IH]; [done|]. apply Forall_cons in Hfit as [Hf Hfs].
  cbn [length List.map concat ReadAll]. rewrite ReadMsg_frame_fits by done.
  cbn [ReadAll] in IH. by rewrite (IH Hfs).
Qed.

(** [WriteMsg] makes one [Write] call with the whole frame (type byte,
    big-endian body length, body), and no byte of it comes from the pooled
    buffer. *)
Lemma WriteMsg_one_frame {W} (write : W -> bytes -> W * option string) (pooled : bytes) (w : W)
    (m : Message) :
  WriteMsg write pooled w m = write w (TypeOf m :: putUint 8 (slen (Marshal m)) ++ bytes_of (Marshal m)) /\
  length (frameInto pooled m) = (9 + String.length (Marshal m))%nat.
Proof.
  unfold WriteMsg. rewrite frameInto_frame. unfold frame, slen. rewrite length_bytes_of.
  split; [done|]. cbn [length]. rewrite length_app, length_putUint, length_bytes_of. done.
Qed.

(** C40: What [ReadMsg] accepts: on success it consumed exactly one frame, whose
    length field is between 0 and [MaxBodySize] and counts its body, and the
    message has the type of the type byte. A length outside the range is
    refused from the nine header bytes alone, before any of the body is read,
    and an unknown type byte is refused likewise. *)
Theorem ReadMsg_bounds (pooled s : bytes) :
  match ReadMsg pooled s with
  | inr (m, rest) =>
      exists len body, s = TypeOf m :: len ++ body ++ rest /\ length len = 8%nat /\
        toInt64 (getUint len) = Z.of_nat (length body) /\ Z.of_nat (length body) <= MaxBodySize
  | inl (InvalidBodySize n) =>
      (n < 0 \/ MaxBodySize < n) /\
      forall more, ReadMsg pooled (take 9 s ++ more) = inl (InvalidBodySize n)
  | inl (UnknownType t) =>
      typeTo t = None /\ forall more, ReadMsg pooled (take 9 s ++ more) = inl (UnknownType t)
  | inl (EOF | UnexpectedEOF | UnmarshalError) => True
  end.
Proof.
  destruct s as [|t s]; [done|].
  destruct (le_lt_dec 8 (length s)) as [Hl|Hl].
  - pose proof (take_drop 8 s) as E. set (len := take 8 s) in *. set (s' := drop 8 s) in *.
    assert (length len = 8%nat) as Hlen by (unfold len; rewrite length_take; lia).
    assert (take 9 (t :: s) = t :: len) as -> by done. rewrite <- E.
    rewrite ReadMsg_header by done. cbv zeta. set (n := toInt64 (getUint len)).
    destruct ((n <? 0) || (MaxBodySize <? n)) eqn:En.
    + split; [apply orb_true_iff in En as [?%Z.ltb_lt|?%Z.ltb_lt]; lia|].
      intros more. cbn [app]. rewrite ReadMsg_header by done. cbv zeta. fold n. by rewrite En.
    + destruct (typeTo t) as [z|] eqn:Ez.
      * destruct (ReadFull (Z.to_nat n) s') as [e|[d r]] eqn:Er.
        { unfold ReadFull in Er. destruct (Nat.leb _ _); [done|]. destruct s'; by simplify_eq. }
        destruct (Unmarshal (string_of d) z) as [m|] eqn:Eu; [|done].
        apply orb_false_iff in En as [?%Z.ltb_ge ?%Z.ltb_ge].
        apply ReadFull_ok in Er as [-> Hd].
        exists len, d. apply TypeOf_Unmarshal in Eu. rewrite Eu, (typeTo_inv t z Ez).
        repeat split; [done|unfold n in *; lia|lia].
      * split; [done|]. intros more. cbn [app]. rewrite ReadMsg_header by done. cbv zeta. fold n.
        by rewrite En, Ez.
  - unfold ReadMsg. change (ReadFull 1 (t :: s)) with (@inr ReadErr (bytes * bytes) ([t], s)).
    unfold ReadFull. rewrite (proj2 (Nat.leb_gt _ _)) by lia. by destruct s.
Qed.

(** ** Witnesses *)

Definition demo_msg : Message :=
  MNewProxy (mkNewProxy "web" "http" true false "" "" "" "" ∅ {["b" := "2"; "a" := "<1>"]}
               ["x.com"; "y.com"] "" ["/"] "" "" "" ∅ ∅ "").

Lemma wire_roundtrip_witness :
  slen (Marshal demo_msg) = 159 /\
  ReadMsg (replicate 300 "x"%char) (frameInto (replicate 5 "y"%char) demo_msg ++ ["z"%char])
  = inr (demo_msg, ["z"%char]).
Proof.
  split; [vm_compute; reflexivity|].
  rewrite (wire_roundtrip (replicate 5 "y"%char) (replicate 300 "x"%char) demo_msg ["z"%char]).
  - vm_compute. reflexivity.
  - apply msg_okb_ok. vm_compute. reflexivity.
  - vm_compute. reflexivity.
Defined.

Lemma wire_stream_roundtrip_witness :
  ReadAll 3 [] (concat (List.map frame [MPong (mkPong ""); MReqWorkConn (mkReqWorkConn 16)]))
  = ([MPong (mkPong ""); MReqWorkConn (mkReqWorkConn 16)], EOF).
Proof.
  apply (wire_stream_roundtrip [] [MPong (mkPong ""); MReqWorkConn (mkReqWorkConn 16)]).
  - constructor; [apply msg_okb_ok; vm_compute; reflexivity|].
    constructor; [apply msg_okb_ok; vm_compute; reflexivity|constructor].
  - constructor; [vm_compute; congruence|].
    constructor; [vm_compute; congruence|constructor].
Defined.
