(* ===== verification/Auth.v ===== *)
(** * Authentication keys: [src/internal/auth/auth.go]

    [BuildAuthKey] and [VerifyAuth], over MD5 ([crypto/md5], RFC 1321) and the
    constant-time comparison of [crypto/subtle]. *)

From S2P Require Import Prelude GoStrings Json JsonProofs Wire.

(** ** MD5 *)

Definition two32 : Z := 4294967296.
Definition add32 (a b : Z) : Z := (a + b) mod two32.
Definition rotl32 (x n : Z) : Z := Z.lor (Z.shiftl x n mod two32) (Z.shiftr x (32 - n)).
Definition not32 (x : Z) : Z := Z.lxor x (two32 - 1).

Definition md5_shifts : list Z :=
  concat [concat (replicate 4 [7; 12; 17; 22]); concat (replicate 4 [5; 9; 14; 20]);
          concat (replicate 4 [4; 11; 16; 23]); concat (replicate 4 [6; 10; 15; 21])].

Definition md5_table : list Z :=
  [3614090360; 3905402710; 606105819; 3250441966; 4118548399; 1200080426; 2821735955; 4249261313;
   1770035416; 2336552879; 4294925233; 2304563134; 1804603682; 4254626195; 2792965006; 1236535329;
   4129170786; 3225465664; 643717713; 3921069994; 3593408605; 38016083; 3634488961; 3889429448;
   568446438; 3275163606; 4107603335; 1163531501; 2850285829; 4243563512; 1735328473; 2368359562;
   4294588738; 2272392833; 1839030562; 4259657740; 2763975236; 1272893353; 4139469664; 3200236656;
   681279174; 3936430074; 3572445317; 76029189; 3654602809; 3873151461; 530742520; 3299628645;
   4096336452; 1126891415; 2878612391; 4237533241; 1700485571; 2399980690; 4293915773; 2240044497;
   1873313359; 4264355552; 2734768916; 1309151649; 4149444226; 3174756917; 718787259; 3951481745].

(** The mixing function and message index of step [i]. *)
Definition md5_mix (i : nat) (b c d : Z) : Z * nat :=
  match Nat.div i 16 with
  | 0%nat => (Z.lor (Z.land b c) (Z.land (not32 b) d), i)
  | 1%nat => (Z.lor (Z.land d b) (Z.land (not32 d) c), Nat.modulo (5 * i + 1) 16)
  | 2%nat => (Z.lxor (Z.lxor b c) d, Nat.modulo (3 * i + 5) 16)
  | _ => (Z.lxor c (Z.lor b (not32 d)), Nat.modulo (7 * i) 16)
  end.

Definition md5_state : Type := Z * Z * Z * Z.

Definition md5_step (words : list Z) (st : md5_state) (i : nat) : md5_state :=
  let '(a, b, c, d) := st in
  let '(f, g) := md5_mix i b c d in
  let f' := add32 (add32 f a) (add32 (nth i md5_table 0) (nth g words 0)) in
  (d, add32 b (rotl32 f' (nth i md5_shifts 0)), b, c).

Definition md5_block (st : md5_state) (words : list Z) : md5_state :=
  let '(a, b, c, d) := st in
  let '(a', b', c', d') := foldl (md5_step words) st (seq 0 64) in
  (add32 a a', add32 b b', add32 c c', add32 d d').

(** Little-endian words. *)
Fixpoint le_words (n : nat) (l : list Z) : list Z :=
  match n, l with
  | S n', a :: b :: c :: d :: l' => (a + 256 * b + 65536 * c + 16777216 * d) :: le_words n' l'
  | _, _ => []
  end.

Fixpoint le_bytes (n : nat) (v : Z) : list Z :=
  match n with O => [] | S n' => v mod 256 :: le_bytes n' (v / 256) end.

Definition md5_pad (l : list Z) : list Z :=
  let n := length l in
  let zeros := Nat.modulo (119 - Nat.modulo n 64) 64 in
  l ++ 128 :: replicate zeros 0 ++ le_bytes 8 (8 * Z.of_nat n).

Fixpoint md5_blocks (n : nat) (st : md5_state) (words : list Z) : md5_state :=
  match n with
  | O => st
  | S n' => md5_blocks n' (md5_block st (take 16 words)) (drop 16 words)
  end.

(** [md5.Sum]: sixteen bytes. *)
Definition md5_Sum (data : string) : list Z :=
  let padded := md5_pad (List.map code (bytes_of data)) in
  let words := le_words (length padded) padded in
  let '(a, b, c, d) :=
    md5_blocks (length padded / 64) (1732584193, 4023233417, 2562383102, 271733878) words in
  concat (List.map (le_bytes 4) [a; b; c; d]).

(** [fmt.Sprintf("%x", bytes)]. *)
Fixpoint hex (l : list Z) : string :=
  match l with
  | [] => ""
  | x :: l' => String (hex_digit (x / 16)) (String (hex_digit (x mod 16)) (hex l'))
  end.

(** ** The package *)

Definition BuildAuthKey (token : string) (timestamp : Z) : string :=
  let raw := token +:+ itoa timestamp in
  hex (md5_Sum raw).

(** [subtle.ConstantTimeCompare]: 0 at once for different lengths, else the
    bytes' differences or-ed together over the whole length. *)
Definition ConstantTimeCompare (x y : bytes) : Z :=
  if Nat.eqb (length x) (length y) then
    let v := foldl (fun v ab => Z.lor v (Z.lxor (code (fst ab)) (code (snd ab)))) 0 (combine x y) in
    if v =? 0 then 1 else 0
  else 0.

Definition VerifyAuth (serverToken : string) (timestamp : Z) (clientKey : string) : bool :=
  let expected := BuildAuthKey serverToken timestamp in
  ConstantTimeCompare (bytes_of expected) (bytes_of clientKey) =? 1.

(** ** Lemmas *)

Example md5_empty : hex (md5_Sum "") = "d41d8cd98f00b204e9800998ecf8427e".
Proof. vm_compute. reflexivity. Qed.

Example md5_alphabet :
  hex (md5_Sum "ABCDEFGHIJKLMNOPQRSTUVWXYZabcdefghijklmnopqrstuvwxyz0123456789")
  = "d174ab98d277d9f5a5611c2c9f419d9f".
Proof. vm_compute. reflexivity. Qed.

Lemma foldl_lor_zero l v :
  0 <= v ->
  foldl (fun v ab => Z.lor v (Z.lxor (code (fst ab)) (code (snd ab)))) v l = 0
  <-> v = 0 /\ Forall (fun ab => fst ab = snd ab) l.
Proof.
  revert v; induction l as [|[a b] l IH]; intros v Hv; simpl; [by split; [|intros []]|].
  pose proof (code_range a). pose proof (code_range b).
  assert (0 <= Z.lxor (code a) (code b)) by (by apply Z.lxor_nonneg; lia).
  rewrite IH by (by apply Z.lor_nonneg). rewrite Z.lor_eq_0_iff, Z.lxor_eq_0_iff, Forall_cons.
  simpl. split; [intros [[-> ?%code_inj] ?]; done | intros (-> & -> & ?); done].
Qed.

Lemma combine_equal {A} (x y : list A) :
  length x = length y -> Forall (fun ab => fst ab = snd ab) (combine x y) <-> x = y.
Proof.
  revert y; induction x as [|a x IH]; intros [|b y] Hl; simplify_eq/=; [by split; [|constructor]|].
  rewrite Forall_cons, IH by done. simpl. split; [intros [-> ->]; done | intros; by simplify_eq].
Qed.

Lemma ConstantTimeCompare_eq x y : ConstantTimeCompare x y = 1 <-> x = y.
Proof.
  unfold ConstantTimeCompare. destruct (Nat.eqb_spec (length x) (length y)) as [Hl|Hl].
  - pose proof (foldl_lor_zero (combine x y) 0 ltac:(lia)) as Hz.
    rewrite combine_equal in Hz by done.
    cbv zeta. case_match eqn:E.
    + apply Z.eqb_eq in E. split; [|done]. intros _. by apply Hz.
    + apply Z.eqb_neq in E. split; [done|]. intros ->. destruct E. by apply Hz.
  - split; [done|]. by intros ->.
Qed.

Lemma ConstantTimeCompare_01 x y : ConstantTimeCompare x y = 0 \/ ConstantTimeCompare x y = 1.
Proof. unfold ConstantTimeCompare. repeat case_match; auto. Qed.

Lemma length_le_bytes n v : length (le_bytes n v) = n.
Proof. revert v; induction n; intros v; simpl; [done|]. by f_equal. Qed.

Lemma length_hex l : String.length (hex l) = (2 * length l)%nat.
Proof. induction l as [|x l IH]; simpl; [done|]. lia. Qed.

Lemma VerifyAuth_own_key token ts : VerifyAuth token ts (BuildAuthKey token ts) = true.
Proof. unfold VerifyAuth. by rewrite Z.eqb_eq, ConstantTimeCompare_eq. Qed.

(** ** The properties *)

(** [VerifyAuth] accepts exactly the key [BuildAuthKey] computes for the
    server's token and the client's timestamp, although the comparison never
    stops at the first difference. *)
Lemma VerifyAuth_iff (token : string) (timestamp : Z) (key : string) :
  VerifyAuth token timestamp key = true <-> key = BuildAuthKey token timestamp.
Proof.
  unfold VerifyAuth. rewrite Z.eqb_eq, ConstantTimeCompare_eq. split.
  - intros H%bytes_of_inj. done.
  - by intros ->.
Qed.

(** Every authentication key is 32 characters long. *)
Lemma BuildAuthKey_length (token : string) (timestamp : Z) :
  String.length (BuildAuthKey token timestamp) = 32%nat.
Proof.
  unfold BuildAuthKey, md5_Sum. rewrite length_hex. cbv zeta.
  destruct (md5_blocks _ _ _) as [[[a b] c] d].
  cbn [List.map concat]. rewrite !length_app, !length_le_bytes. done.
Qed.
