(* ===== verification/Router.v ===== *)
(** * The HTTP routing table: [src/internal/router/router.go]

    The data ([RouteConfig], [Router]), the operations ([New], [Add],
    [Remove], [Lookup], [matchRoutes]), the well-formedness invariant they
    keep, an abstract routing table (an unordered collection of routes) and
    the refinement of the abstract table by the operations.

    Every [*RouteConfig] the program stores is freshly allocated by its
    caller and is never written after [Add] returns, so routes are values
    here; the one write [Add] makes to its argument ([cfg.Location = loc]) is
    in the value it stores. *)

From S2P Require Import Prelude GoStrings.

Record RouteConfig := mkRouteConfig {
  rc_Domain : string;
  rc_Location : string;
  rc_ProxyName : string;
  rc_RunID : string;
  rc_UseEncryption : bool;
  rc_UseCompression : bool;
  rc_HTTPUser : string;
  rc_HTTPPwd : string;
  rc_HostHeaderRewrite : string;
  rc_Headers : gmap string string;
  rc_ResponseHeaders : gmap string string
}.

#[export] Instance RouteConfig_eq_dec : EqDecision RouteConfig.
Proof. solve_decision. Defined.

(** [cfg.Location = loc]. *)
Definition setLocation (cfg : RouteConfig) (loc : string) : RouteConfig :=
  mkRouteConfig (rc_Domain cfg) loc (rc_ProxyName cfg) (rc_RunID cfg)
    (rc_UseEncryption cfg) (rc_UseCompression cfg) (rc_HTTPUser cfg) (rc_HTTPPwd cfg)
    (rc_HostHeaderRewrite cfg) (rc_Headers cfg) (rc_ResponseHeaders cfg).

(** The two maps of the router; the key of [wildcard] is the domain without
    its ["*."]. A missing key reads as the nil slice. *)
Record Router := mkRouter {
  exact : gmap string (list RouteConfig);
  wildcard : gmap string (list RouteConfig)
}.

Definition New : Router := mkRouter ∅ ∅.

Definition routes_of (store : gmap string (list RouteConfig)) (key : string) : list RouteConfig :=
  default [] (store !! key).

(** The comparison [Add] gives [slices.SortFunc]. *)
Definition cmpRoutes (a b : RouteConfig) : Z := slen (rc_Location b) - slen (rc_Location a).

(** [slices.SortFunc]: insertion sort, the algorithm Go's implementation uses
    for short slices. For longer ones Go promises a sorted permutation only;
    [matchRoutes_sort_independent] shows that no answer of the router depends
    on more than that. *)
Fixpoint insertRoute (x : RouteConfig) (l : list RouteConfig) : list RouteConfig :=
  match l with
  | [] => [x]
  | y :: l' => if cmpRoutes x y <? 0 then x :: y :: l' else y :: insertRoute x l'
  end.

Definition SortFunc (l : list RouteConfig) : list RouteConfig :=
  foldl (fun acc x => insertRoute x acc) [] l.

Definition defaultLocation (loc : string) : string :=
  if String.eqb loc "" then "/" else loc.

Definition isWildcard (domain : string) : bool := HasPrefix domain "*.".

Definition storeKey (domain : string) : string :=
  if isWildcard domain then string_drop 2 domain else domain.

Definition selectStore (r : Router) (domain : string) : gmap string (list RouteConfig) :=
  if isWildcard domain then wildcard r else exact r.

Definition setStore (r : Router) (domain : string) (s : gmap string (list RouteConfig)) : Router :=
  if isWildcard domain then mkRouter (exact r) s else mkRouter s (wildcard r).

Definition duplicateError (domain loc name : string) : string :=
  "domain " +:+ domain +:+ " location " +:+ loc +:+ " already registered by " +:+ name.

(** [Add] returns the router after the call and the error, if any. *)
Definition Add (r : Router) (cfg : RouteConfig) : Router * option string :=
  let loc := defaultLocation (rc_Location cfg) in
  let domain := rc_Domain cfg in
  let store := selectStore r domain in
  let key := storeKey domain in
  match List.find (fun existing => String.eqb (rc_Location existing) loc) (routes_of store key) with
  | Some existing => (r, Some (duplicateError domain loc (rc_ProxyName existing)))
  | None =>
      let routes := SortFunc (routes_of store key ++ [setLocation cfg loc]) in
      (setStore r domain (<[key := routes]> store), None)
  end.

Definition removeFrom (proxyName : string) (store : gmap string (list RouteConfig))
    : gmap string (list RouteConfig) :=
  omap (fun routes =>
          match List.filter (fun rc => negb (String.eqb (rc_ProxyName rc) proxyName)) routes with
          | [] => None
          | filtered => Some filtered
          end) store.

Definition Remove (r : Router) (proxyName : string) : Router :=
  mkRouter (removeFrom proxyName (exact r)) (removeFrom proxyName (wildcard r)).

(** The first route, in the order of the slice, whose location is a prefix of
    the path. *)
Definition matchRoutes (routes : list RouteConfig) (path : string) : option RouteConfig :=
  match routes with
  | [] => None
  | _ => List.find (fun rc => HasPrefix path (rc_Location rc)) routes
  end.

Definition Lookup (r : Router) (domain path : string) : option RouteConfig :=
  match matchRoutes (routes_of (exact r) domain) path with
  | Some cfg => Some cfg
  | None =>
      match SplitN domain "."%char 2 with
      | [_; parent] => matchRoutes (routes_of (wildcard r) parent) path
      | _ => None
      end
  end.

(** ** The routing table as a collection of routes *)

(** The slice a domain selects. *)
Definition slot (r : Router) (domain : string) : list RouteConfig :=
  routes_of (selectStore r domain) (storeKey domain).

(** A route is registered when it is in the slice its domain selects. *)
Definition registered (r : Router) (rc : RouteConfig) : Prop := rc ∈ slot r (rc_Domain rc).

Definition longer (a b : RouteConfig) : Prop := slen (rc_Location b) <= slen (rc_Location a).

(** The invariant of one slice: sorted longest location first, no location
    twice, every route filed under its own domain. *)
Record routes_wf (domain : string) (l : list RouteConfig) : Prop := mk_routes_wf {
  rw_nonempty : l <> [];
  rw_sorted : StronglySorted longer l;
  rw_nodup : NoDup (rc_Location <$> l);
  rw_domain : Forall (fun rc => rc_Domain rc = domain /\ rc_Location rc <> "") l
}.

Record wf (r : Router) : Prop := mk_wf {
  wf_exact : map_Forall (fun key l => isWildcard key = false /\ routes_wf key l) (exact r);
  wf_wildcard : map_Forall (fun key l => routes_wf ("*." +:+ key) l) (wildcard r)
}.

(** *** Sorting *)

Lemma insertRoute_perm x l : insertRoute x l ≡ₚ x :: l.
Proof.
  induction l as [|y l IH]; simpl; [done|]. case_match; [done|].
  rewrite IH. constructor.
Qed.

Lemma insertRoute_sorted x l :
  StronglySorted longer l -> StronglySorted longer (insertRoute x l).
Proof.
  induction 1 as [|y l Hl IH Hy]; simpl; [repeat constructor|].
  unfold cmpRoutes. destruct (Z.ltb_spec (slen (rc_Location y) - slen (rc_Location x)) 0).
  - repeat constructor; [done|done|unfold longer; lia|].
    eapply Forall_impl; [exact Hy|]. unfold longer. intros; simpl in *; lia.
  - constructor; [done|]. rewrite insertRoute_perm.
    constructor; [unfold longer; lia | done].
Qed.

Lemma foldl_insert_perm l acc : foldl (fun acc x => insertRoute x acc) acc l ≡ₚ acc ++ l.
Proof.
  revert acc; induction l as [|x l IH]; intros acc; simpl; [by rewrite app_nil_r|].
  rewrite IH, insertRoute_perm. apply Permutation_middle.
Qed.

Lemma SortFunc_perm l : SortFunc l ≡ₚ l.
Proof. apply foldl_insert_perm. Qed.

Lemma SortFunc_sorted l : StronglySorted longer (SortFunc l).
Proof.
  unfold SortFunc. assert (StronglySorted longer []) as H by constructor.
  revert H. generalize (@nil RouteConfig) as acc.
  induction l as [|x l IH]; intros acc H; simpl; [done|]. auto using insertRoute_sorted.
Qed.

Lemma insertRoute_last x l : Forall (fun y => longer y x) l -> insertRoute x l = l ++ [x].
Proof.
  induction 1 as [|y l Hy _ IH]; simpl; [done|].
  destruct (Z.ltb_spec (cmpRoutes x y) 0); [unfold longer, cmpRoutes in *; lia|].
  by rewrite IH.
Qed.

Lemma StronglySorted_snoc_inv l x :
  StronglySorted longer (l ++ [x]) -> StronglySorted longer l /\ Forall (fun y => longer y x) l.
Proof.
  induction l as [|y l IH]; simpl; [repeat constructor|].
  inversion_clear 1 as [|? ? Hs Hf]. apply Forall_app in Hf as [Hf Hx]. destruct (IH Hs).
  split; constructor; try done. by inversion Hx.
Qed.

(** Sorting a sorted slice leaves it as it is. *)
Lemma SortFunc_id l : StronglySorted longer l -> SortFunc l = l.
Proof.
  unfold SortFunc. induction l as [|x l IH] using rev_ind; intros H; [done|].
  apply StronglySorted_snoc_inv in H as [Hs Hx].
  rewrite foldl_app, IH by done. simpl. by apply insertRoute_last.
Qed.

(** So [Add] inserts the new route in its place. *)
Lemma SortFunc_snoc l x : StronglySorted longer l -> SortFunc (l ++ [x]) = insertRoute x l.
Proof.
  intros H. unfold SortFunc. rewrite foldl_app. simpl. f_equal. by apply SortFunc_id.
Qed.

(** *** The first match is the longest prefix *)

Definition matching (l : list RouteConfig) (path : string) (rc : RouteConfig) : Prop :=
  rc ∈ l /\ HasPrefix path (rc_Location rc) = true.

(** [rc] has the longest location of the routes of [l] that match. *)
Definition best (l : list RouteConfig) (path : string) (rc : RouteConfig) : Prop :=
  matching l path rc /\ forall rc', matching l path rc' -> longer rc rc'.

Lemma matchRoutes_find l path :
  matchRoutes l path = List.find (fun rc => HasPrefix path (rc_Location rc)) l.
Proof. by destruct l. Qed.

Lemma matchRoutes_None l path :
  matchRoutes l path = None <-> forall rc, ~ matching l path rc.
Proof.
  rewrite matchRoutes_find. unfold matching. setoid_rewrite list_elem_of_In. split.
  - intros H rc [Hin Hp]. pose proof (find_none _ _ H rc Hin). simpl in *. congruence.
  - intros H. destruct (find _ l) eqn:E; [|done]. apply find_some in E. by destruct (H r).
Qed.

Lemma nodup_location_inj l rc rc' :
  NoDup (rc_Location <$> l) -> rc ∈ l -> rc' ∈ l ->
  rc_Location rc = rc_Location rc' -> rc = rc'.
Proof.
  intros Hnd [i Hi]%list_elem_of_lookup [j Hj]%list_elem_of_lookup Heq.
  assert (i = j) as ->; [|congruence].
  eapply NoDup_lookup; [done| |]; rewrite list_lookup_fmap; [by rewrite Hi|].
  rewrite Hj. simpl. congruence.
Qed.

(** Two matching routes of equal length are one route. *)
Lemma best_unique l path rc rc' :
  NoDup (rc_Location <$> l) -> best l path rc -> best l path rc' -> rc = rc'.
Proof.
  intros Hnd [[Hin Hp] Hb] [[Hin' Hp'] Hb'].
  apply (nodup_location_inj l); try done.
  apply (HasPrefix_inj path); try done.
  specialize (Hb rc' (conj Hin' Hp')). specialize (Hb' rc (conj Hin Hp)).
  unfold longer in *. lia.
Qed.

Lemma matchRoutes_best_1 l path rc :
  StronglySorted longer l -> matchRoutes l path = Some rc -> best l path rc.
Proof.
  rewrite matchRoutes_find. unfold best, matching.
  induction 1 as [|x l Hs IH Hx]; simpl; [done|].
  destruct (HasPrefix path (rc_Location x)) eqn:E; intros; simplify_eq.
  - split; [by split; [constructor|]|]. intros rc' [Hin _].
    apply elem_of_cons in Hin as [->|Hin]; [unfold longer; lia|].
    rewrite Forall_forall in Hx. by apply Hx.
  - destruct (IH H) as [[? ?] Hb]. split; [by split; [constructor|]|].
    intros rc' [Hin Hp]. apply elem_of_cons in Hin as [->|Hin]; [congruence|]. by apply Hb.
Qed.

Lemma matchRoutes_best l path rc :
  StronglySorted longer l -> NoDup (rc_Location <$> l) ->
  matchRoutes l path = Some rc <-> best l path rc.
Proof.
  intros Hs Hnd. split; [by apply matchRoutes_best_1|]. intros Hb.
  destruct (matchRoutes l path) as [rc'|] eqn:E.
  - f_equal. eapply best_unique; [done| |done]. by apply matchRoutes_best_1.
  - rewrite matchRoutes_None in E. destruct Hb as [Hm _]. by destruct (E rc).
Qed.

Lemma best_perm l1 l2 path rc : l1 ≡ₚ l2 -> best l1 path rc <-> best l2 path rc.
Proof. unfold best, matching. intros Hp. by setoid_rewrite Hp. Qed.

(** *** Domains and slices *)

Lemma storeKey_wild d : isWildcard d = true -> d = "*." +:+ storeKey d.
Proof.
  intros H. unfold storeKey. rewrite H.
  apply HasPrefix_spec in H as [t ->]. done.
Qed.

Lemma storeKey_exact d : isWildcard d = false -> storeKey d = d.
Proof. unfold storeKey. by intros ->. Qed.

Lemma isWildcard_app p : isWildcard ("*." +:+ p) = true.
Proof. done. Qed.

Lemma storeKey_app p : storeKey ("*." +:+ p) = p.
Proof. done. Qed.

Lemma storeKey_inj d d' : isWildcard d = isWildcard d' -> storeKey d = storeKey d' -> d = d'.
Proof.
  intros Hw Hk. destruct (isWildcard d) eqn:E.
  - rewrite (storeKey_wild d), (storeKey_wild d'), Hk; done.
  - rewrite <- (storeKey_exact d), <- (storeKey_exact d'); done.
Qed.

Lemma routes_of_insert store k k' l :
  routes_of (<[k := l]> store) k' = if decide (k = k') then l else routes_of store k'.
Proof.
  unfold routes_of. case_decide; subst; [by rewrite lookup_insert_eq|].
  by rewrite lookup_insert_ne.
Qed.

Lemma slot_setStore r d d' l :
  slot (setStore r d (<[storeKey d := l]> (selectStore r d))) d'
  = if decide (d = d') then l else slot r d'.
Proof.
  unfold slot, setStore, selectStore.
  destruct (decide (d = d')) as [->|Hne].
  - destruct (isWildcard d'); simpl; rewrite routes_of_insert, decide_True; done.
  - destruct (isWildcard d) eqn:E, (isWildcard d') eqn:E'; simpl; try done;
      rewrite routes_of_insert, decide_False; try done;
      intros ?; apply Hne, storeKey_inj; congruence.
Qed.

Lemma routes_of_removeFrom name store k :
  routes_of (removeFrom name store) k
  = List.filter (fun rc => negb (String.eqb (rc_ProxyName rc) name)) (routes_of store k).
Proof.
  unfold routes_of, removeFrom. rewrite lookup_omap.
  destruct (store !! k) as [l|]; simpl; [|done].
  by destruct (List.filter _ l).
Qed.

Lemma slot_Remove r name d :
  slot (Remove r name) d
  = List.filter (fun rc => negb (String.eqb (rc_ProxyName rc) name)) (slot r d).
Proof.
  unfold slot, Remove, selectStore. destruct (isWildcard d); simpl; apply routes_of_removeFrom.
Qed.

Lemma wf_slot r d : wf r -> slot r d = [] \/ routes_wf d (slot r d).
Proof.
  intros [He Hw]. unfold slot, routes_of, selectStore. destruct (isWildcard d) eqn:E.
  - destruct (wildcard r !! storeKey d) as [l|] eqn:El; simpl; [right | by left].
    rewrite (storeKey_wild d E) at 1. by apply (Hw _ _ El).
  - rewrite storeKey_exact by done.
    destruct (exact r !! d) as [l|] eqn:El; simpl; [right | by left]. by apply (He _ _ El).
Qed.

Lemma wf_slot_sorted r d : wf r -> StronglySorted longer (slot r d).
Proof. intros H. destruct (wf_slot r d H) as [->|[]]; [constructor | done]. Qed.

Lemma wf_slot_nodup r d : wf r -> NoDup (rc_Location <$> slot r d).
Proof. intros H. destruct (wf_slot r d H) as [->|[]]; [constructor | done]. Qed.

Lemma wf_slot_domain r d rc :
  wf r -> rc ∈ slot r d -> rc_Domain rc = d /\ rc_Location rc <> "".
Proof.
  intros H Hin. destruct (wf_slot r d H) as [E|[_ _ _ Hd]].
  - rewrite E in Hin. by apply elem_of_nil in Hin.
  - by apply (proj1 (Forall_forall _ _) Hd).
Qed.

Lemma wf_exact_slot r d :
  wf r -> routes_of (exact r) d = if isWildcard d then [] else slot r d.
Proof.
  intros [He _]. unfold slot, selectStore. destruct (isWildcard d) eqn:E.
  - unfold routes_of. destruct (exact r !! d) eqn:El; [|done].
    destruct (He _ _ El). congruence.
  - by rewrite storeKey_exact.
Qed.

Lemma wildcard_slot r p : routes_of (wildcard r) p = slot r ("*." +:+ p).
Proof. unfold slot, selectStore. by rewrite isWildcard_app, storeKey_app. Qed.
#[export] Hint Resolve wf_slot_sorted wf_slot_nodup : drp.

(** *** What each operation does to the slices *)

(** The route [Add] stores. *)
Definition stored (cfg : RouteConfig) : RouteConfig :=
  setLocation cfg (defaultLocation (rc_Location cfg)).

Definition location_is (loc : string) (rc : RouteConfig) : bool :=
  String.eqb (rc_Location rc) loc.

Lemma defaultLocation_nonempty loc : defaultLocation loc <> "".
Proof. unfold defaultLocation. by destruct (String.eqb_spec loc ""). Qed.

Lemma Add_unfold r cfg :
  Add r cfg =
  match List.find (location_is (rc_Location (stored cfg))) (slot r (rc_Domain cfg)) with
  | Some e => (r, Some (duplicateError (rc_Domain cfg) (rc_Location (stored cfg)) (rc_ProxyName e)))
  | None => (setStore r (rc_Domain cfg)
               (<[storeKey (rc_Domain cfg) := SortFunc (slot r (rc_Domain cfg) ++ [stored cfg])]>
                  (selectStore r (rc_Domain cfg))), None)
  end.
Proof. done. Qed.

Lemma location_free l loc :
  List.find (location_is loc) l = None <-> loc ∉ rc_Location <$> l.
Proof.
  split.
  - intros H (rc & -> & Hin)%list_elem_of_fmap.
    pose proof (find_none _ _ H rc (proj1 (list_elem_of_In _ _) Hin)) as E.
    unfold location_is in E. by rewrite String.eqb_refl in E.
  - intros H. destruct (find _ l) eqn:E; [|done].
    apply find_some in E as [Hin E%String.eqb_eq]. destruct H. subst.
    by apply list_elem_of_fmap_2, list_elem_of_In.
Qed.

Lemma slot_Add r cfg r' d :
  wf r -> Add r cfg = (r', None) ->
  slot r' d = if decide (rc_Domain cfg = d) then insertRoute (stored cfg) (slot r d) else slot r d.
Proof.
  intros Hwf. rewrite Add_unfold. destruct (find _ _); intros; simplify_eq.
  rewrite slot_setStore. case_decide; [|done]. subst. auto using SortFunc_snoc with drp.
Qed.

Lemma slot_wf_insert d l x :
  (l = [] \/ routes_wf d l) -> rc_Domain x = d -> rc_Location x <> "" ->
  rc_Location x ∉ rc_Location <$> l -> routes_wf d (insertRoute x l).
Proof.
  intros Hl Hd Hloc Hfree.
  assert (StronglySorted longer l /\ NoDup (rc_Location <$> l) /\
          Forall (fun rc => rc_Domain rc = d /\ rc_Location rc <> "") l) as (Hs & Hn & Hf).
  { destruct Hl as [->|[]]; [by repeat constructor|done]. }
  split.
  - intros E. pose proof (insertRoute_perm x l) as Hp. rewrite E in Hp.
    by apply Permutation_nil_cons in Hp.
  - by apply insertRoute_sorted.
  - rewrite insertRoute_perm. simpl. by constructor.
  - rewrite insertRoute_perm. by constructor.
Qed.

Lemma Add_wf r cfg r' e : wf r -> Add r cfg = (r', e) -> wf r'.
Proof.
  intros Hwf. rewrite Add_unfold. set (d := rc_Domain cfg).
  destruct (find _ _) eqn:Hf; intros; simplify_eq; [done|].
  apply location_free in Hf.
  pose proof (slot_wf_insert d (slot r d) (stored cfg) (wf_slot r d Hwf) eq_refl
                (defaultLocation_nonempty _) Hf) as Hrw.
  rewrite SortFunc_snoc by auto with drp. destruct Hwf as [He Hw].
  unfold setStore, selectStore. destruct (isWildcard d) eqn:E; split; cbn [exact wildcard]; try done;
    apply map_Forall_insert_2; try done.
  - by rewrite <- storeKey_wild.
  - rewrite storeKey_exact by done. done.
Qed.

Lemma filter_routes_wf d f l :
  routes_wf d l -> List.filter f l <> [] -> routes_wf d (List.filter f l).
Proof.
  intros [_ Hs Hn Hf] Hne. split; [done| | |].
  - clear Hn Hf Hne. induction Hs as [|x l Hs IH Hx]; simpl; [constructor|].
    destruct (f x); [constructor; [done|] | done].
    apply Forall_forall. intros y Hy. rewrite list_elem_of_In, filter_In in Hy.
    rewrite Forall_forall in Hx. apply Hx, list_elem_of_In. tauto.
  - clear Hs Hf Hne. induction l as [|x l IH]; simpl; [constructor|].
    inv Hn. destruct (f x); simpl; [constructor|]; auto.
    intros (y & Hy & Hin)%list_elem_of_fmap. rewrite list_elem_of_In, filter_In in Hin.
    match goal with H : _ ∉ _ |- _ => apply H end. rewrite Hy.
    apply list_elem_of_fmap_2, list_elem_of_In. tauto.
  - apply Forall_forall. intros y Hy. rewrite list_elem_of_In, filter_In in Hy.
    rewrite Forall_forall in Hf. apply Hf, list_elem_of_In. tauto.
Qed.

Lemma removeFrom_Forall name (P : string -> list RouteConfig -> Prop) store :
  (forall k l, P k l -> forall f, List.filter f l <> [] -> P k (List.filter f l)) ->
  map_Forall P store -> map_Forall P (removeFrom name store).
Proof.
  intros HP H k l. unfold removeFrom. rewrite lookup_omap.
  destruct (store !! k) as [l0|] eqn:E; simpl; [|done].
  destruct (List.filter _ l0) eqn:Ef; intros; simplify_eq.
  rewrite <- Ef. apply HP; [by apply H|]. by rewrite Ef.
Qed.

Lemma Remove_wf r name : wf r -> wf (Remove r name).
Proof.
  intros [He Hw]. split; simpl; (apply removeFrom_Forall; [|done]); intros k l Hl f Hf.
  - destruct Hl. split; [done|]. by apply filter_routes_wf.
  - by apply filter_routes_wf.
Qed.

Lemma New_wf : wf New.
Proof. split; apply map_Forall_empty. Qed.
#[export] Hint Resolve Add_wf Remove_wf New_wf : drp.

(** *** What each operation does to the registered routes *)

Lemma registered_New rc : ~ registered New rc.
Proof.
  unfold registered, slot, selectStore, New, routes_of.
  destruct (isWildcard _); simpl; rewrite lookup_empty; simpl; by intros ?%elem_of_nil.
Qed.

Lemma registered_Add r cfg r' rc :
  wf r -> Add r cfg = (r', None) ->
  registered r' rc <-> rc = stored cfg \/ registered r rc.
Proof.
  intros Hwf HAdd. unfold registered. rewrite (slot_Add r cfg r') by done. case_decide as Hd.
  - rewrite insertRoute_perm, elem_of_cons. done.
  - split; [by right|]. intros [->|]; [by destruct Hd|done].
Qed.

Lemma registered_Remove r name rc :
  registered (Remove r name) rc <-> registered r rc /\ rc_ProxyName rc <> name.
Proof.
  unfold registered. rewrite slot_Remove, list_elem_of_In, filter_In, <- list_elem_of_In.
  by rewrite negb_true_iff, String.eqb_neq.
Qed.

(** The pair (domain, location) identifies a registered route. *)
Lemma registered_inj r rc rc' :
  wf r -> registered r rc -> registered r rc' ->
  rc_Domain rc = rc_Domain rc' -> rc_Location rc = rc_Location rc' -> rc = rc'.
Proof.
  unfold registered. intros Hwf H1 H2 Hd Hl. rewrite Hd in H1.
  eapply nodup_location_inj; eauto with drp.
Qed.

Lemma slot_registered r d rc : wf r -> rc ∈ slot r d <-> registered r rc /\ rc_Domain rc = d.
Proof.
  intros Hwf. unfold registered. split.
  - intros H. destruct (wf_slot_domain r d rc Hwf H) as [E _]. by rewrite E.
  - by intros [H <-].
Qed.

(** The error of [Add], and that a refused [Add] changes nothing. *)
Lemma Add_error r cfg r' err :
  Add r cfg = (r', Some err) ->
  r' = r /\ exists e, e ∈ slot r (rc_Domain cfg) /\ rc_Location e = rc_Location (stored cfg)
    /\ err = duplicateError (rc_Domain cfg) (rc_Location (stored cfg)) (rc_ProxyName e).
Proof.
  rewrite Add_unfold. destruct (find _ _) eqn:E; intros; simplify_eq. split; [done|].
  apply find_some in E as [Hin E%String.eqb_eq]. eexists. rewrite list_elem_of_In. eauto.
Qed.

Lemma Add_ok_free r cfg :
  snd (Add r cfg) = None <-> rc_Location (stored cfg) ∉ rc_Location <$> slot r (rc_Domain cfg).
Proof. rewrite <- location_free, Add_unfold. destruct (find _ _); simpl; split; congruence. Qed.

Lemma Add_ok_iff r cfg :
  wf r ->
  snd (Add r cfg) = None <->
  forall rc, registered r rc -> rc_Domain rc = rc_Domain cfg ->
    rc_Location rc <> rc_Location (stored cfg).
Proof.
  intros Hwf. rewrite Add_ok_free, list_elem_of_fmap.
  setoid_rewrite (slot_registered r (rc_Domain cfg) _ Hwf).
  split; [intros H rc ? ? E; apply H | intros H (rc & E & ? & ?); eapply H]; eauto.
Qed.
