(* ===== verification/RouterSpec.v ===== *)
(** * What the routing table promises

    An abstract table, a collection of routes with no order and no index,
    the proof that the operations of [Router] implement it on every sequence
    of calls, and the properties of the single operations. *)

From S2P Require Import Prelude GoStrings Router.

(** ** The abstract table *)

(** A route of [l] with a longest location. *)
Fixpoint longest (l : list RouteConfig) : option RouteConfig :=
  match l with
  | [] => None
  | x :: l' =>
      match longest l' with
      | Some b => if slen (rc_Location x) <? slen (rc_Location b) then Some b else Some x
      | None => Some x
      end
  end.

Definition tbl_match (T : list RouteConfig) (domain path : string) : option RouteConfig :=
  longest (List.filter (fun rc => String.eqb (rc_Domain rc) domain
                                  && HasPrefix path (rc_Location rc)) T).

(** The domain itself first, then the wildcard over its parent. *)
Definition tbl_Lookup (T : list RouteConfig) (domain path : string) : option RouteConfig :=
  match tbl_match T domain path with
  | Some rc => Some rc
  | None =>
      match Cut domain "."%char with
      | Some (_, parent) => tbl_match T ("*." +:+ parent) path
      | None => None
      end
  end.

Definition tbl_Add (T : list RouteConfig) (cfg : RouteConfig) : list RouteConfig * option string :=
  match List.find (fun rc => String.eqb (rc_Domain rc) (rc_Domain cfg)
                             && location_is (rc_Location (stored cfg)) rc) T with
  | Some e => (T, Some (duplicateError (rc_Domain cfg) (rc_Location (stored cfg)) (rc_ProxyName e)))
  | None => (stored cfg :: T, None)
  end.

Definition tbl_Remove (T : list RouteConfig) (name : string) : list RouteConfig :=
  List.filter (fun rc => negb (String.eqb (rc_ProxyName rc) name)) T.

(** ** Sequences of calls *)

Inductive router_call :=
  | CallAdd (cfg : RouteConfig)
  | CallRemove (proxyName : string)
  | CallLookup (domain path : string).

Inductive router_answer :=
  | AnsError (e : option string)
  | AnsVoid
  | AnsRoute (o : option RouteConfig).

Definition router_step (r : Router) (c : router_call) : Router * router_answer :=
  match c with
  | CallAdd cfg => let '(r', e) := Add r cfg in (r', AnsError e)
  | CallRemove name => (Remove r name, AnsVoid)
  | CallLookup d p => (r, AnsRoute (Lookup r d p))
  end.

Definition table_step (T : list RouteConfig) (c : router_call) : list RouteConfig * router_answer :=
  match c with
  | CallAdd cfg => let '(T', e) := tbl_Add T cfg in (T', AnsError e)
  | CallRemove name => (tbl_Remove T name, AnsVoid)
  | CallLookup d p => (T, AnsRoute (tbl_Lookup T d p))
  end.

(** The state after a sequence of calls and their answers in order. *)
Fixpoint run_calls {S} (step : S -> router_call -> S * router_answer) (s : S)
    (calls : list router_call) : S * list router_answer :=
  match calls with
  | [] => (s, [])
  | c :: calls' =>
      let '(s1, a) := step s c in
      let '(s2, l) := run_calls step s1 calls' in
      (s2, a :: l)
  end.

(** A router and the table it stands for. *)
Definition refines (r : Router) (T : list RouteConfig) : Prop :=
  wf r /\ forall rc, rc ∈ T <-> registered r rc.

(** ** Lemmas *)

Lemma longest_Some l rc : longest l = Some rc -> rc ∈ l /\ forall x, x ∈ l -> longer rc x.
Proof.
  revert rc; induction l as [|x l IH]; intros rc H; simpl in H; [done|].
  destruct (longest l) as [b|] eqn:E.
  - destruct (IH b eq_refl) as [Hin Hb]. unfold longer in *.
    destruct (Z.ltb_spec (slen (rc_Location x)) (slen (rc_Location b))); simplify_eq;
      (split; [set_solver|]); intros y [->|Hy]%elem_of_cons; try lia; specialize (Hb y Hy); lia.
  - simplify_eq. split; [set_solver|]. destruct l as [|y l].
    + intros z [->|[]%elem_of_nil]%elem_of_cons. unfold longer. lia.
    + simpl in E. repeat case_match; done.
Qed.

Lemma longest_None l : longest l = None -> l = [].
Proof. destruct l; simpl; [done|]. repeat case_match; done. Qed.

Lemma elem_of_tbl_filter T d path rc :
  rc ∈ List.filter (fun rc => String.eqb (rc_Domain rc) d && HasPrefix path (rc_Location rc)) T
  <-> rc ∈ T /\ rc_Domain rc = d /\ HasPrefix path (rc_Location rc) = true.
Proof.
  by rewrite !list_elem_of_In, filter_In, andb_true_iff, String.eqb_eq.
Qed.

(** The routes of a domain that match a path, on both sides. *)
Lemma matching_refines r T d path rc :
  refines r T ->
  matching (slot r d) path rc
  <-> rc ∈ List.filter (fun rc => String.eqb (rc_Domain rc) d && HasPrefix path (rc_Location rc)) T.
Proof.
  intros [Hwf HT]. rewrite elem_of_tbl_filter, HT. unfold matching.
  rewrite slot_registered by done. tauto.
Qed.

Lemma match_refines r T d path : refines r T -> matchRoutes (slot r d) path = tbl_match T d path.
Proof.
  intros HR. unfold tbl_match. destruct (longest _) as [rc|] eqn:E.
  - apply longest_Some in E as [Hin Hb]. destruct (HR) as [Hwf _].
    apply matchRoutes_best; auto with drp. split; [by eapply matching_refines|].
    intros rc' Hm. apply Hb. by eapply matching_refines in Hm.
  - apply longest_None in E. apply matchRoutes_None. intros rc Hm.
    eapply matching_refines in Hm; [|done]. rewrite E in Hm. by apply elem_of_nil in Hm.
Qed.

Lemma SplitN_2 s :
  SplitN s "."%char 2 = match Cut s "."%char with Some (a, b) => [a; b] | None => [s] end.
Proof. done. Qed.

Lemma Lookup_refines r T domain path : refines r T -> Lookup r domain path = tbl_Lookup T domain path.
Proof.
  intros HR. unfold Lookup, tbl_Lookup. rewrite SplitN_2, wf_exact_slot by apply HR.
  destruct (isWildcard domain) eqn:E.
  - apply storeKey_wild in E. set (p := storeKey domain) in *.
    assert (Cut domain "."%char = Some ("*", p)) as -> by by rewrite E.
    rewrite wildcard_slot, (match_refines r T) by done. rewrite <- E. simpl.
    by destruct (tbl_match T domain path).
  - rewrite (match_refines r T) by done. destruct (tbl_match T domain path); [done|].
    destruct (Cut domain "."%char) as [[a p]|]; [|done].
    by rewrite wildcard_slot, (match_refines r T).
Qed.

Lemma find_refines r T cfg :
  refines r T ->
  List.find (location_is (rc_Location (stored cfg))) (slot r (rc_Domain cfg))
  = List.find (fun rc => String.eqb (rc_Domain rc) (rc_Domain cfg)
                         && location_is (rc_Location (stored cfg)) rc) T.
Proof.
  intros [Hwf HT].
  destruct (find (fun rc => _ && _) T) as [e|] eqn:E.
  - apply find_some in E as [Hin [Hd%String.eqb_eq Hl]%andb_true_iff].
    apply list_elem_of_In, HT in Hin.
    assert (e ∈ slot r (rc_Domain cfg)) as Hs by by apply slot_registered.
    destruct (find _ (slot r _)) as [e'|] eqn:E'.
    + apply find_some in E' as [Hin' Hl']. f_equal.
      apply list_elem_of_In in Hin'. unfold location_is in *. rewrite !String.eqb_eq in *.
      eapply nodup_location_inj; [by apply wf_slot_nodup | done | done | congruence].
    + exfalso. pose proof (find_none _ _ E' e (proj1 (list_elem_of_In _ _) Hs)). congruence.
  - destruct (find _ (slot r _)) as [e'|] eqn:E'; [exfalso|done].
    apply find_some in E' as [Hin' Hl']. apply list_elem_of_In, slot_registered in Hin' as [Hr Hd];
      [|done].
    pose proof (find_none _ _ E e' (proj1 (list_elem_of_In _ _) (proj2 (HT e') Hr))) as H.
    cbv beta in H. by rewrite Hd, String.eqb_refl, Hl' in H.
Qed.

Lemma Add_refines r T cfg :
  refines r T ->
  snd (Add r cfg) = snd (tbl_Add T cfg) /\ refines (fst (Add r cfg)) (fst (tbl_Add T cfg)).
Proof.
  intros HR. pose proof (find_refines r T cfg HR) as Hf. destruct HR as [Hwf HT].
  unfold tbl_Add. rewrite <- Hf. destruct (Add r cfg) as [r' err] eqn:EA.
  assert (wf r') by eauto with drp.
  pose proof EA as EA'. rewrite Add_unfold in EA'.
  destruct (find (location_is _) (slot r _)); simplify_eq/=; (split; [done|]); split; try done.
  intros rc. rewrite (registered_Add r cfg) by done. rewrite elem_of_cons, HT. done.
Qed.

Lemma Remove_refines r T name : refines r T -> refines (Remove r name) (tbl_Remove T name).
Proof.
  intros [Hwf HT]. split; [auto with drp|]. intros rc. unfold tbl_Remove.
  rewrite list_elem_of_In, filter_In, <- list_elem_of_In, HT, registered_Remove.
  by rewrite negb_true_iff, String.eqb_neq.
Qed.

Lemma step_refines r T c :
  refines r T ->
  snd (router_step r c) = snd (table_step T c) /\
  refines (fst (router_step r c)) (fst (table_step T c)).
Proof.
  intros HR. destruct c; simpl.
  - destruct (Add_refines r T cfg HR). destruct (Add r cfg), (tbl_Add T cfg). simpl in *.
    split; [congruence | done].
  - split; [done|]. by apply Remove_refines.
  - split; [|done]. by rewrite (Lookup_refines r T).
Qed.

Lemma run_refines r T calls :
  refines r T ->
  snd (run_calls router_step r calls) = snd (run_calls table_step T calls) /\
  refines (fst (run_calls router_step r calls)) (fst (run_calls table_step T calls)).
Proof.
  revert r T; induction calls as [|c calls IH]; intros r T HR; simpl; [done|].
  destruct (step_refines r T c HR) as [Ha HR'].
  destruct (router_step r c) as [r1 a], (table_step T c) as [T1 a']. simpl in *. subst a'.
  destruct (IH r1 T1 HR') as [Hl HR2].
  destruct (run_calls router_step r1 calls), (run_calls table_step T1 calls). simpl in *.
  split; [congruence | done].
Qed.

Lemma New_refines : refines New [].
Proof.
  split; [auto with drp|]. intros rc. split; [by intros ?%elem_of_nil|].
  intros H. by destruct (registered_New rc).
Qed.

Definition route_matches (r : Router) (domain path : string) (rc : RouteConfig) : Prop :=
  registered r rc /\ rc_Domain rc = domain /\ HasPrefix path (rc_Location rc) = true.

(** [rc] is the matching route of the domain with the longest location. *)
Definition best_route (r : Router) (domain path : string) (rc : RouteConfig) : Prop :=
  route_matches r domain path rc /\
  forall rc', route_matches r domain path rc' -> longer rc rc'.

Lemma matching_route r d path rc : wf r -> matching (slot r d) path rc <-> route_matches r d path rc.
Proof. intros Hwf. unfold matching, route_matches. rewrite slot_registered by done. tauto. Qed.

Lemma best_best_route r d path rc : wf r -> best (slot r d) path rc <-> best_route r d path rc.
Proof.
  intros Hwf. unfold best, best_route. by setoid_rewrite (matching_route r d path _ Hwf).
Qed.

Lemma slot_match_iff r d path rc :
  wf r -> matchRoutes (slot r d) path = Some rc <-> best_route r d path rc.
Proof. intros Hwf. rewrite matchRoutes_best, best_best_route; auto with drp. Qed.

Lemma slot_match_None r d path :
  wf r -> matchRoutes (slot r d) path = None <-> forall rc, ~ route_matches r d path rc.
Proof.
  intros Hwf. rewrite matchRoutes_None. by setoid_rewrite (matching_route r d path _ Hwf).
Qed.

(** [Lookup] of a wildcard pattern as if it were a domain finds nothing in
    [exact], and what the pattern's own slice holds in [wildcard]. *)
Lemma Lookup_slots r domain path :
  wf r ->
  Lookup r domain path =
  match matchRoutes (slot r domain) path with
  | Some rc => Some rc
  | None => match Cut domain "."%char with
            | Some (_, parent) => matchRoutes (slot r ("*." +:+ parent)) path
            | None => None
            end
  end.
Proof.
  intros Hwf. unfold Lookup. rewrite SplitN_2, wf_exact_slot by done.
  destruct (isWildcard domain) eqn:E.
  - apply storeKey_wild in E. set (p := storeKey domain) in *.
    assert (Cut domain "."%char = Some ("*", p)) as -> by by rewrite E.
    rewrite wildcard_slot, <- E. simpl. by destruct (matchRoutes (slot r domain) path).
  - destruct (matchRoutes (slot r domain) path); [done|].
    destruct (Cut domain "."%char) as [[a p]|]; [|done]. by rewrite wildcard_slot.
Qed.

Lemma removeFrom_id name store :
  map_Forall (fun _ l => l <> []) store ->
  map_Forall (fun _ l => Forall (fun rc => rc_ProxyName rc <> name) l) store ->
  removeFrom name store = store.
Proof.
  intros Hne Hname. apply map_eq. intros k. unfold removeFrom. rewrite lookup_omap.
  destruct (store !! k) as [l|] eqn:E; simpl; [|done].
  rewrite (List.forallb_filter_id _ l).
  - specialize (Hne _ _ E). by destruct l.
  - apply forallb_forall. intros rc Hin%list_elem_of_In. specialize (Hname _ _ E). simpl in Hname.
    rewrite Forall_forall in Hname. by apply negb_true_iff, String.eqb_neq, Hname.
Qed.

Lemma filter_insertRoute f x l :
  f x = false -> List.filter f (insertRoute x l) = List.filter f l.
Proof.
  intros Hx. induction l as [|y l IH]; simpl; [by rewrite Hx|].
  destruct (_ <? 0); simpl; [by rewrite Hx|]. by rewrite IH.
Qed.

(** Removing what was just inserted under [k]. *)
Lemma removeFrom_insert name x k store :
  rc_ProxyName x = name ->
  removeFrom name (<[k := insertRoute x (routes_of store k)]> store) = removeFrom name store.
Proof.
  intros <-. apply map_eq. intros k'. unfold removeFrom. rewrite !lookup_omap.
  destruct (decide (k = k')) as [->|].
  - rewrite lookup_insert_eq. simpl. unfold routes_of.
    rewrite filter_insertRoute by (by rewrite String.eqb_refl).
    by destruct (store !! k').
  - by rewrite lookup_insert_ne.
Qed.

Lemma wf_nonempty r : wf r ->
  map_Forall (fun _ (l : list RouteConfig) => l <> []) (exact r) /\
  map_Forall (fun _ (l : list RouteConfig) => l <> []) (wildcard r).
Proof.
  intros [He Hw]. split; (eapply map_Forall_impl; [eassumption|]); simpl;
    [intros k l [_ []] | intros k l []]; done.
Qed.

Lemma store_names r name :
  wf r -> (forall rc, registered r rc -> rc_ProxyName rc <> name) ->
  map_Forall (fun _ l => Forall (fun rc => rc_ProxyName rc <> name) l) (exact r) /\
  map_Forall (fun _ l => Forall (fun rc => rc_ProxyName rc <> name) l) (wildcard r).
Proof.
  intros Hwf Hn.
  assert (forall d rc, rc ∈ slot r d -> rc_ProxyName rc <> name) as Hs.
  { intros d rc Hin. apply Hn. eapply slot_registered in Hin; [|done]. tauto. }
  split; intros k l E; apply Forall_forall; intros rc Hin.
  - destruct (wf_exact r Hwf _ _ E) as [Hw _]. apply (Hs k).
    pose proof (wf_exact_slot r k Hwf) as Hk. rewrite Hw in Hk. rewrite <- Hk.
    unfold routes_of. by rewrite E.
  - apply (Hs ("*." +:+ k)). rewrite <- wildcard_slot. unfold routes_of. by rewrite E.
Qed.

Lemma Remove_unused r name :
  wf r -> (forall rc, registered r rc -> rc_ProxyName rc <> name) -> Remove r name = r.
Proof.
  intros Hwf Hn. destruct (store_names r name Hwf Hn), (wf_nonempty r Hwf).
  destruct r. unfold Remove. simpl in *. f_equal; by apply removeFrom_id.
Qed.

(** Removing a proxy forgets the last route added for it. *)
Lemma Remove_Add r r' cfg :
  wf r -> Add r cfg = (r', None) -> Remove r' (rc_ProxyName cfg) = Remove r (rc_ProxyName cfg).
Proof.
  intros Hwf HAdd. rewrite Add_unfold in HAdd. destruct (find _ _); simplify_eq.
  rewrite SortFunc_snoc by auto with drp.
  destruct r as [ex wi]. unfold setStore, slot, selectStore, Remove. simpl.
  destruct (isWildcard (rc_Domain cfg)); simpl; f_equal; by apply removeFrom_insert.
Qed.

Lemma router_wf_reachable (calls : list router_call) :
  wf (fst (run_calls router_step New calls)).
Proof. apply (run_refines New [] calls), New_refines. Qed.

(** A looked-up route is registered. *)
Lemma Lookup_registered r domain path rc :
  wf r -> Lookup r domain path = Some rc -> registered r rc.
Proof.
  intros Hwf. rewrite Lookup_slots by done.
  destruct (matchRoutes (slot r domain) path) as [rc1|] eqn:E.
  - intros; simplify_eq. by apply slot_match_iff in E as [[? _] _].
  - destruct (Cut domain _) as [[a p]|]; [|done]. intros H.
    by apply slot_match_iff in H as [[? _] _].
Qed.

(** ** The properties *)

(** C1: On every sequence of [Add], [Remove] and [Lookup] calls made on an
    empty router, every answer (error texts included) is the one the abstract
    table gives: the two maps, their keys, the sort order and the in-place
    filtering are invisible. *)
Theorem router_implements_table (calls : list router_call) :
  snd (run_calls router_step New calls) = snd (run_calls table_step [] calls).
Proof. apply run_refines, New_refines. Qed.

(** Every router the program can build from the empty one is well formed:
    each slice is non-empty, sorted longest location first and free of
    duplicate locations, each route is filed under the key of its own domain
    and no location is empty. *)
Lemma router_wf_invariant (calls : list router_call) :
  wf (fst (run_calls router_step New calls)).
Proof. apply router_wf_reachable. Qed.

(** C28: [Lookup] answers a route iff it is the longest-prefix match among the
    routes of the requested domain or, when that domain has no matching route,
    the longest-prefix match among the routes of the wildcard over its
    immediate parent: [*.example.com] never matches [example.com] nor
    [a.b.example.com]. *)
Theorem Lookup_longest_prefix (r : Router) (domain path : string) (rc : RouteConfig) (Hwf : wf r) :
  Lookup r domain path = Some rc <->
  best_route r domain path rc \/
  ((forall rc', ~ route_matches r domain path rc') /\
   exists sub parent, Cut domain "."%char = Some (sub, parent) /\
     best_route r ("*." +:+ parent) path rc).
Proof.
  rewrite Lookup_slots by done. destruct (matchRoutes (slot r domain) path) as [rc1|] eqn:E.
  - apply slot_match_iff in E; [|done]. split; [by intros; simplify_eq; left|].
    intros [H|[H _]]; [|by destruct (H rc1 (proj1 E))].
    apply best_best_route in H, E; [|done..]. f_equal. eapply best_unique; eauto with drp.
  - rewrite slot_match_None in E by done. split.
    + intros H. right. split; [done|]. destruct (Cut domain _) as [[a p]|]; [|done].
      exists a, p. by rewrite <- slot_match_iff.
    + intros [[H _]|(_ & a & p & -> & H)]; [by destruct (E rc)|]. by apply slot_match_iff.
Qed.

(** C38: [Add] succeeds iff no registered route has the same domain and
    location (an empty location counting as "/"); success registers exactly
    the new route besides the old ones, and refusal leaves the router as it
    was, with an error that names the proxy that owns the location. *)
Theorem Add_functional (r : Router) (cfg : RouteConfig) (Hwf : wf r) :
  match Add r cfg with
  | (r', None) =>
      (forall rc, registered r rc -> rc_Domain rc = rc_Domain cfg ->
         rc_Location rc <> defaultLocation (rc_Location cfg)) /\
      (forall rc, registered r' rc <->
         rc = setLocation cfg (defaultLocation (rc_Location cfg)) \/ registered r rc)
  | (r', Some err) =>
      r' = r /\
      exists e, registered r e /\ rc_Domain e = rc_Domain cfg /\
        rc_Location e = defaultLocation (rc_Location cfg) /\
        err = duplicateError (rc_Domain cfg) (rc_Location e) (rc_ProxyName e)
  end.
Proof.
  destruct (Add r cfg) as [r' [err|]] eqn:E.
  - apply Add_error in E as [-> (e & Hin & Hl & ->)]. split; [done|].
    apply slot_registered in Hin as [? ?]; [|done]. exists e. by rewrite Hl.
  - split; [|intros; by apply registered_Add]. apply (Add_ok_iff r cfg); [done|]. by rewrite E.
Qed.

(** [Remove] drops every route of the proxy name, whoever registered it,
    and keeps all the others; no later [Lookup] answers a route of that name. *)
Lemma Remove_functional (r : Router) (name : string) (Hwf : wf r) :
  (forall rc, registered (Remove r name) rc <-> registered r rc /\ rc_ProxyName rc <> name) /\
  (forall domain path rc, Lookup (Remove r name) domain path = Some rc -> rc_ProxyName rc <> name).
Proof.
  split; [intros; apply registered_Remove|]. intros domain path rc H.
  apply Lookup_registered, registered_Remove in H; [tauto | by apply Remove_wf].
Qed.

(** Undoing a registration: when no route of the proxy name exists,
    [Remove] after a successful [Add] gives back exactly the router before
    it. *)
Lemma Remove_undoes_Add (r r' : Router) (cfg : RouteConfig) (Hwf : wf r)
    (Hfresh : forall rc, registered r rc -> rc_ProxyName rc <> rc_ProxyName cfg)
    (HAdd : Add r cfg = (r', None)) :
  Remove r' (rc_ProxyName cfg) = r.
Proof.
  rewrite (Remove_Add r r') by done. by apply Remove_unused.
Qed.

(** C39: The answer of [matchRoutes] depends only on which routes the slice
    holds, not on how the sort ordered routes of equal length: any two
    arrangements sorted longest first answer every path alike. *)
Theorem matchRoutes_sort_independent (l1 l2 : list RouteConfig) (path : string)
    (Hperm : l1 ≡ₚ l2) (Hnodup : NoDup (rc_Location <$> l1))
    (Hs1 : StronglySorted longer l1) (Hs2 : StronglySorted longer l2) :
  matchRoutes l1 path = matchRoutes l2 path.
Proof.
  destruct (matchRoutes l1 path) as [rc|] eqn:E; symmetry.
  - apply matchRoutes_best_1 in E; [|done]. apply matchRoutes_best; [done|by rewrite <- Hperm|].
    by apply (best_perm l1 l2).
  - rewrite matchRoutes_None in *. unfold matching in *. by setoid_rewrite <- Hperm.
Qed.

(** ** Witnesses *)

Definition route0 (domain location name : string) : RouteConfig :=
  mkRouteConfig domain location name "run-1" false false "" "" "" ∅ ∅.

Definition demo_calls : list router_call :=
  [CallAdd (route0 "app.com" "/" "root"); CallAdd (route0 "app.com" "/api" "api");
   CallAdd (route0 "*.app.com" "" "wild")].

Definition demo : Router := fst (run_calls router_step New demo_calls).

Lemma Lookup_longest_prefix_witness :
  wf demo /\ Lookup demo "app.com" "/api/x" = Some (route0 "app.com" "/api" "api") /\
  best_route demo "app.com" "/api/x" (route0 "app.com" "/api" "api").
Proof.
  pose proof (router_wf_reachable demo_calls) as Hwf.
  split; [exact Hwf|]. split; [vm_compute; reflexivity|].
  destruct (proj1 (Lookup_longest_prefix demo "app.com" "/api/x" (route0 "app.com" "/api" "api") Hwf))
    as [H|[H _]]; [vm_compute; reflexivity | exact H |].
  exfalso. apply (H (route0 "app.com" "/api" "api")).
  split; [|split; vm_compute; reflexivity].
  apply list_elem_of_In. vm_compute. left. reflexivity.
Defined.

Lemma Add_functional_witness :
  wf demo /\ snd (Add demo (route0 "app.com" "" "other")) <> None /\
  fst (Add demo (route0 "app.com" "" "other")) = demo.
Proof.
  pose proof (router_wf_reachable demo_calls) as Hwf.
  pose proof (Add_functional demo (route0 "app.com" "" "other") Hwf) as H.
  split; [exact Hwf|]. split; [vm_compute; discriminate|].
  destruct (Add demo (route0 "app.com" "" "other")) as [r' [e|]] eqn:E.
  - exact (proj1 H).
  - exfalso. revert E. vm_compute. discriminate.
Defined.

Lemma Remove_functional_witness :
  wf demo /\ Lookup demo "app.com" "/api" <> None /\
  registered (Remove demo "api") (route0 "app.com" "/" "root").
Proof.
  pose proof (router_wf_reachable demo_calls) as Hwf.
  split; [exact Hwf|]. split; [vm_compute; discriminate|].
  apply (proj1 (Remove_functional demo "api" Hwf)). split; [|vm_compute; discriminate].
  apply list_elem_of_In. vm_compute. auto.
Defined.

Lemma Remove_undoes_Add_witness :
  exists r', Add demo (route0 "new.com" "/" "fresh") = (r', None) /\ Remove r' "fresh" = demo.
Proof.
  exists (fst (Add demo (route0 "new.com" "/" "fresh"))). split; [vm_compute; reflexivity|].
  apply (Remove_undoes_Add demo _ (route0 "new.com" "/" "fresh") (router_wf_reachable demo_calls)).
  - intros rc Hrc Hname.
    apply (run_refines New [] demo_calls New_refines) in Hrc.
    apply list_elem_of_In in Hrc. vm_compute in Hrc.
    destruct Hrc as [<-|[<-|[<-|[]]]]; vm_compute in Hname; discriminate.
  - vm_compute. reflexivity.
Defined.

Lemma matchRoutes_sort_independent_witness :
  matchRoutes [route0 "d" "/ab" "x"; route0 "d" "/cd" "y"] "/cdx"
  = matchRoutes [route0 "d" "/cd" "y"; route0 "d" "/ab" "x"] "/cdx".
Proof.
  apply matchRoutes_sort_independent.
  - apply Permutation_swap.
  - apply (bool_decide_unpack _). vm_compute. exact I.
  - repeat (constructor; try (vm_compute; discriminate)).
  - repeat (constructor; try (vm_compute; discriminate)).
Defined.
