(* ===== verification/Pool.v ===== *)
(** * The work-connection pool: [src/internal/pool/pool.go]

    The pool is shared by the goroutines that call [Put], [Get] and [Close]
    and by the refill worker it starts, so its methods are given as the
    sequences of their atomic actions: a program counter [pc] per goroutine,
    [thread_step] listing what one goroutine can do next (several outcomes
    where a [select] has several ready cases) and [step] interleaving any
    number of goroutines. A mutex-protected section is one action, and so is
    every operation on an [atomic] variable and on the channel.

    [requestFn] is a parameter of [New]; a call of it is one action that
    returns. The callback of the server, [ReqWorkConnFunc], may wait for room
    in [reqCh], and forever when nothing drains it: [call_step] of [Server]
    models that wait. A worker in such a call is one that never takes its
    [WCall] action, which the executions of [step] include, since no goroutine
    is ever obliged to move; what is proved of every execution holds of those
    too, and what is proved of a worker that runs alone ([pool_worker_drains])
    is for a callback that returns. *)

From S2P Require Import Prelude.

(** A [net.Conn]; only its identity matters to the pool. *)
Definition Conn : Type := nat.

Definition defaultCapacity : Z := 64.
Definition minMissRefillBurst : Z := 2.
Definition maxMissRefillBurst : Z := 8.

(** [sync.Once]: callers that arrive while the first one runs wait for it. *)
Inductive once := OnceNew | OnceRunning | OnceDone.

Record Pool := mkPool {
  p_cap : Z;
  p_conns : list Conn;
  p_chanClosed : bool;
  p_refilling : bool;
  p_pendingRefills : Z;
  p_getHit : Z;
  p_getMiss : Z;
  p_getTimeout : Z;
  p_refillDemand : Z;
  p_refillSent : Z;
  p_closed : bool;
  p_closedOnce : once
}.

(** [New(requestFn, capacity...)]; the callback is not stored here, its calls
    are the [LRequest] labels of an execution. *)
Definition New (capacity : list Z) : Pool :=
  let c := match capacity with
           | c0 :: _ => if 0 <? c0 then c0 else defaultCapacity
           | [] => defaultCapacity
           end in
  mkPool c [] false false 0 0 0 0 0 0 false OnceNew.

Definition setConns (p : Pool) (l : list Conn) : Pool :=
  mkPool (p_cap p) l (p_chanClosed p) (p_refilling p) (p_pendingRefills p) (p_getHit p)
    (p_getMiss p) (p_getTimeout p) (p_refillDemand p) (p_refillSent p) (p_closed p) (p_closedOnce p).
Definition closeChan (p : Pool) : Pool :=
  mkPool (p_cap p) (p_conns p) true (p_refilling p) (p_pendingRefills p) (p_getHit p)
    (p_getMiss p) (p_getTimeout p) (p_refillDemand p) (p_refillSent p) (p_closed p) (p_closedOnce p).
Definition setRefilling (p : Pool) (b : bool) : Pool :=
  mkPool (p_cap p) (p_conns p) (p_chanClosed p) b (p_pendingRefills p) (p_getHit p)
    (p_getMiss p) (p_getTimeout p) (p_refillDemand p) (p_refillSent p) (p_closed p) (p_closedOnce p).
Definition setPending (p : Pool) (n : Z) : Pool :=
  mkPool (p_cap p) (p_conns p) (p_chanClosed p) (p_refilling p) n (p_getHit p)
    (p_getMiss p) (p_getTimeout p) (p_refillDemand p) (p_refillSent p) (p_closed p) (p_closedOnce p).
(** [Add] on the five statistics. *)
Definition addStats (p : Pool) (hit miss timeout demand sent : Z) : Pool :=
  mkPool (p_cap p) (p_conns p) (p_chanClosed p) (p_refilling p) (p_pendingRefills p)
    (add64 (p_getHit p) hit) (add64 (p_getMiss p) miss) (add64 (p_getTimeout p) timeout)
    (add64 (p_refillDemand p) demand) (add64 (p_refillSent p) sent) (p_closed p) (p_closedOnce p).
Definition markClosed (p : Pool) : Pool :=
  mkPool (p_cap p) (p_conns p) (p_chanClosed p) (p_refilling p) (p_pendingRefills p) (p_getHit p)
    (p_getMiss p) (p_getTimeout p) (p_refillDemand p) (p_refillSent p) true (p_closedOnce p).
Definition setOnce (p : Pool) (o : once) : Pool :=
  mkPool (p_cap p) (p_conns p) (p_chanClosed p) (p_refilling p) (p_pendingRefills p) (p_getHit p)
    (p_getMiss p) (p_getTimeout p) (p_refillDemand p) (p_refillSent p) (p_closed p) o.

Definition missRefillBurst (p : Pool) : Z :=
  let c := p_cap p in
  if c <=? 0 then minMissRefillBurst
  else
    let burst := Z.quot c 4 in
    let burst := if burst <? minMissRefillBurst then minMissRefillBurst else burst in
    if maxMissRefillBurst <? burst then maxMissRefillBurst else burst.

(** ** Goroutines *)

(** What [Get] does once [requestAsyncRefill] has returned. *)
Inductive cont :=
  | KReturn (c : Conn)
  | KWait.

Inductive pc :=
  (* Put *)
  | PutCheck (c : Conn)
  | PutSend (c : Conn)
  | PutDone
  (* Get *)
  | GetCheck
  | GetFast
  | GetHit (c : Conn)
  | GetMiss
  | GetWait
  | GetTimeout
  | GetDone
  (* requestAsyncRefill and startRefillWorker *)
  | RefDemand (n : Z) (k : cont)
  | RefPend (n : Z) (k : cont)
  | RefCas (k : cont)
  (* Close *)
  | CloseOnce
  | CloseMark
  | CloseChan
  | CloseDrain
  | CloseDone
  (* the refill worker *)
  | WSwap
  | WCall (rem : Z)
  | WSent (rem : Z)
  | WStore
  | WLoad
  | WCas
  | WDone
  (* send on a closed channel ([Some c]) or close of a closed channel *)
  | Panicked (o : option Conn).

Inductive label :=
  | LPut (c : Conn)
  | LGet
  | LClose
  | LReturn (c : Conn)
  | LGetErr
  | LConnClose (c : Conn)
  | LDemand (n : Z)
  | LRequest
  | LPanic
  | LTau.

(** One outcome: the label, the pool after it, the goroutine's next program
    counter and the goroutines it starts. *)
Definition outcome : Type := label * Pool * pc * list pc.

(** [requestAsyncRefill(n)], then [k]. *)
Definition requestAsyncRefill (n : Z) (k : cont) (after : pc) : pc :=
  if n <=? 0 then after else RefDemand n k.

(** Where [requestAsyncRefill] returns to. *)
Definition resume (p : Pool) (k : cont) (spawn : list pc) : outcome :=
  match k with
  | KReturn c => (LReturn c, p, GetDone, spawn)
  | KWait => (LTau, p, GetWait, spawn)
  end.

(** Receiving from the channel: the oldest buffered connection, or the closed
    signal once the buffer of a closed channel is empty. *)
Definition recv_cases {A} (p : Pool) (got : Conn -> list Conn -> A) (closed : A) (empty : list A)
    : list A :=
  match p_conns p with
  | c :: rest => [got c rest]
  | [] => if p_chanClosed p then [closed] else empty
  end.

(** What goroutine [t] can do next. [WCall] is a call of [requestFn] that
    returns. *)
Definition thread_step (p : Pool) (t : pc) : list outcome :=
  match t with
  | PutCheck c =>
      if p_closed p then [(LConnClose c, p, PutDone, [])] else [(LTau, p, PutSend c, [])]
  | PutSend c =>
      if p_chanClosed p then [(LPanic, p, Panicked (Some c), [])]
      else if Z.of_nat (length (p_conns p)) <? p_cap p
      then [(LTau, setConns p (p_conns p ++ [c]), PutDone, [])]
      else [(LConnClose c, p, PutDone, [])]
  | GetCheck => if p_closed p then [(LGetErr, p, GetDone, [])] else [(LTau, p, GetFast, [])]
  | GetFast =>
      recv_cases p (fun c rest => (LTau, setConns p rest, GetHit c, []))
        (LGetErr, p, GetDone, []) [(LTau, p, GetMiss, [])]
  | GetHit c =>
      [(LTau, addStats p 1 0 0 0 0, requestAsyncRefill 1 (KReturn c) GetDone, [])]
  | GetMiss =>
      [(LTau, addStats p 0 1 0 0 0, requestAsyncRefill (missRefillBurst p) KWait GetWait, [])]
  | GetWait =>
      recv_cases p
        (fun c rest => (LTau, setConns p rest, requestAsyncRefill 1 (KReturn c) GetDone, []))
        (LGetErr, p, GetDone, []) []
      ++ [(LTau, p, GetTimeout, [])]
  | GetTimeout => [(LGetErr, addStats p 0 0 1 0 0, GetDone, [])]
  | RefDemand n k => [(LDemand n, addStats p 0 0 0 n 0, RefPend n k, [])]
  | RefPend n k => [(LTau, setPending p (add64 (p_pendingRefills p) n), RefCas k, [])]
  | RefCas k =>
      if p_refilling p then [resume p k []] else [resume (setRefilling p true) k [WSwap]]
  | CloseOnce =>
      match p_closedOnce p with
      | OnceNew => [(LTau, setOnce p OnceRunning, CloseMark, [])]
      | OnceRunning => []
      | OnceDone => [(LTau, p, CloseDone, [])]
      end
  | CloseMark => [(LTau, markClosed p, CloseChan, [])]
  | CloseChan =>
      if p_chanClosed p then [(LPanic, p, Panicked None, [])]
      else [(LTau, closeChan p, CloseDrain, [])]
  | CloseDrain =>
      match p_conns p with
      | c :: rest => [(LConnClose c, setConns p rest, CloseDrain, [])]
      | [] => [(LTau, setOnce p OnceDone, CloseDone, [])]
      end
  | WSwap =>
      let n := p_pendingRefills p in
      [(LTau, setPending p 0, if n =? 0 then WStore else if 0 <? n then WCall n else WSwap, [])]
  | WCall rem => [(LRequest, p, WSent rem, [])]
  | WSent rem =>
      [(LTau, addStats p 0 0 0 0 1, if 1 <? rem then WCall (rem - 1) else WSwap, [])]
  | WStore => [(LTau, setRefilling p false, WLoad, [])]
  | WLoad => [(LTau, p, if p_pendingRefills p =? 0 then WDone else WCas, [])]
  | WCas => if p_refilling p then [(LTau, p, WDone, [])] else [(LTau, setRefilling p true, WSwap, [])]
  | PutDone | GetDone | CloseDone | WDone | Panicked _ => []
  end.

(** ** The pool and all its goroutines *)

Record sys := mkSys { pool : Pool; threads : list pc }.

Definition initial (capacity : list Z) : sys := mkSys (New capacity) [].

(** A panic ends the process. *)
Definition is_panicked (t : pc) : bool := match t with Panicked _ => true | _ => false end.

Inductive step : sys -> label -> sys -> Prop :=
  | step_put p ts c : step (mkSys p ts) (LPut c) (mkSys p (ts ++ [PutCheck c]))
  | step_get p ts : step (mkSys p ts) LGet (mkSys p (ts ++ [GetCheck]))
  | step_close p ts : step (mkSys p ts) LClose (mkSys p (ts ++ [CloseOnce]))
  | step_thread p ts i t l p' t' spawn :
      ts !! i = Some t ->
      existsb is_panicked ts = false ->
      (l, p', t', spawn) ∈ thread_step p t ->
      step (mkSys p ts) l (mkSys p' (<[i := t']> ts ++ spawn)).

(** One scheduling decision: a caller arrives, or goroutine [i] takes the
    [j]-th of its outcomes. *)
Inductive choice :=
  | Arrive (t : pc)
  | Run (i j : nat).

Definition arrival_label (t : pc) : option label :=
  match t with
  | PutCheck c => Some (LPut c)
  | GetCheck => Some LGet
  | CloseOnce => Some LClose
  | _ => None
  end.

Definition sched_step (s : sys) (ch : choice) : option (label * sys) :=
  match ch with
  | Arrive t =>
      match arrival_label t with
      | Some l => Some (l, mkSys (pool s) (threads s ++ [t]))
      | None => None
      end
  | Run i j =>
      if existsb is_panicked (threads s) then None
      else
        match threads s !! i with
        | Some t =>
            match thread_step (pool s) t !! j with
            | Some (l, p', t', spawn) => Some (l, mkSys p' (<[i := t']> (threads s) ++ spawn))
            | None => None
            end
        | None => None
        end
  end.

(** The execution a schedule drives. *)
Fixpoint run_sched (s : sys) (chs : list choice) : option (list label * sys) :=
  match chs with
  | [] => Some ([], s)
  | ch :: chs' =>
      match sched_step s ch with
      | Some (l, s1) =>
          match run_sched s1 chs' with
          | Some (tr, s2) => Some (l :: tr, s2)
          | None => None
          end
      | None => None
      end
  end.

(** [Stats] and its snapshot. *)
Record Stats := mkStats {
  GetHitCount : Z; GetMissCount : Z; GetTimeoutCount : Z; RefillDemand : Z; RefillSent : Z
}.

Definition Stats_of (p : Pool) : Stats :=
  mkStats (p_getHit p) (p_getMiss p) (p_getTimeout p) (p_refillDemand p) (p_refillSent p).
