(* ===== verification/PoolProofs.v ===== *)
(** * Correctness of the pool under every interleaving

    The invariants of [Pool.step], each proved from a local lemma about one
    outcome of one goroutine, and the properties they give: the refill
    protocol loses no demand and runs one worker, no connection is lost,
    duplicated or leaked, the buffer stays within capacity. *)

From S2P Require Import Prelude Pool.

#[local] Arguments missRefillBurst : simpl never.
#[local] Arguments add64 : simpl never.
#[local] Arguments addStats : simpl never.

(** ** Ghost measures of goroutines and labels *)

Definition owner (t : pc) : Z :=
  match t with WSwap | WCall _ | WSent _ | WStore => 1 | _ => 0 end.

(** A goroutine that will still try to start the worker. *)
Definition waker (t : pc) : Z :=
  match t with RefCas _ | WLoad | WCas => 1 | _ => 0 end.

Definition unposted (t : pc) : Z := match t with RefPend n _ => n | _ => 0 end.
Definition to_request (t : pc) : Z :=
  match t with WCall n => n | WSent n => n - 1 | _ => 0 end.
Definition unsent (t : pc) : Z := match t with WSent _ => 1 | _ => 0 end.

Definition positive_pc (t : pc) : Prop :=
  match t with RefDemand n _ | RefPend n _ | WCall n | WSent n => 0 < n | _ => True end.

Definition is_conn (c c' : Conn) : Z := if decide (c = c') then 1 else 0.

(** The goroutine holds the connection. *)
Definition holds_cont (c : Conn) (k : cont) : Z :=
  match k with KReturn c' => is_conn c c' | KWait => 0 end.
Definition holds (c : Conn) (t : pc) : Z :=
  match t with
  | PutCheck c' | PutSend c' | GetHit c' | Panicked (Some c') => is_conn c c'
  | RefDemand _ k | RefPend _ k | RefCas k => holds_cont c k
  | _ => 0
  end.

Definition demand_of (l : label) : Z := match l with LDemand n => n | _ => 0 end.
Definition request_of (l : label) : Z := match l with LRequest => 1 | _ => 0 end.
Definition put_of (c : Conn) (l : label) : Z := match l with LPut c' => is_conn c c' | _ => 0 end.
Definition closed_of (c : Conn) (l : label) : Z :=
  match l with LConnClose c' => is_conn c c' | _ => 0 end.
Definition returned_of (c : Conn) (l : label) : Z :=
  match l with LReturn c' => is_conn c c' | _ => 0 end.

(** Refill demand accumulated and [requestFn] calls made by an execution. *)
Definition demanded (tr : list label) : Z := sum_with demand_of tr.
Definition requests (tr : list label) : Z := sum_with request_of tr.

(** Nothing left to do: returned, or blocked in [Get] with its demand posted. *)
Definition idle (t : pc) : bool :=
  match t with PutDone | GetDone | GetWait | CloseDone | WDone => true | _ => false end.

(** ** Case analysis of one outcome *)

Ltac outcome_cases H :=
  repeat match goal with k : cont |- _ => destruct k end;
  unfold thread_step, recv_cases, resume, requestAsyncRefill in H;
  cbn -[Z.quot missRefillBurst add64] in H;
  repeat (match type of H with context [match ?x with _ => _ end] => destruct x eqn:? end; simpl in H);
  repeat (rewrite ?elem_of_cons, ?elem_of_nil in H);
  repeat match type of H with _ \/ _ => destruct H as [H|H] end;
  try contradiction; injection H; clear H; intros; subst; simpl in *.

Lemma sum_threads f (ts : list pc) i (t t' : pc) spawn :
  ts !! i = Some t ->
  sum_with f (<[i := t']> ts ++ spawn) = sum_with f ts - f t + f t' + sum_with f spawn.
Proof. intros H. rewrite sum_with_app, (sum_with_insert f ts i t t') by done. lia. Qed.

(** A property that holds initially, is kept when a caller arrives and is kept
    by every outcome holds in every execution. *)
Lemma pool_induction (P : list label -> Pool -> list pc -> Prop) capacity :
  P [] (New capacity) [] ->
  (forall tr p ts c, P tr p ts -> P (tr ++ [LPut c]) p (ts ++ [PutCheck c])) ->
  (forall tr p ts, P tr p ts -> P (tr ++ [LGet]) p (ts ++ [GetCheck])) ->
  (forall tr p ts, P tr p ts -> P (tr ++ [LClose]) p (ts ++ [CloseOnce])) ->
  (forall tr p ts i t l p' t' spawn,
     exec step (initial capacity) tr (mkSys p ts) -> P tr p ts -> ts !! i = Some t -> (l, p', t', spawn) ∈ thread_step p t ->
     P (tr ++ [l]) p' (<[i := t']> ts ++ spawn)) ->
  forall tr s, exec step (initial capacity) tr s -> P tr (pool s) (threads s).
Proof.
  intros H0 Hp Hg Hc Ht.
  apply (exec_invariant step (fun tr s => P tr (pool s) (threads s))); [done|].
  intros tr s l s' He HP Hs. destruct Hs; simpl in *; eauto.
Qed.

(** ** One worker at a time *)

Lemma owner_local p t l p' t' spawn :
  (l, p', t', spawn) ∈ thread_step p t -> owner t <= Z.b2z (p_refilling p) ->
  owner t' + sum_with owner spawn - owner t = Z.b2z (p_refilling p') - Z.b2z (p_refilling p).
Proof.
  intros H Ho. destruct t; outcome_cases H; simpl in *;
    repeat match goal with k : cont |- _ => destruct k end; simplify_eq/=;
    repeat match goal with H : p_refilling _ = _ |- _ => rewrite H in *; clear H end;
    repeat match goal with |- context [Z.b2z (p_refilling ?p)] => destruct (p_refilling p) eqn:? end;
    simpl in *; try lia.
Qed.

Lemma owner_inv capacity tr s :
  exec step (initial capacity) tr s ->
  sum_with owner (threads s) = Z.b2z (p_refilling (pool s)).
Proof.
  apply (pool_induction (fun tr p ts => sum_with owner ts = Z.b2z (p_refilling p))).
  - done.
  - intros. rewrite sum_with_app. simpl. lia.
  - intros. rewrite sum_with_app. simpl. lia.
  - intros. rewrite sum_with_app. simpl. lia.
  - intros tr' p ts i t l p' t' spawn _ Hinv Hi Ho.
    rewrite (sum_threads owner ts i t) by done.
    assert (owner t <= sum_with owner ts).
    { eapply sum_with_lookup_le; [|done]. intros []; simpl; lia. }
    pose proof (owner_local p t l p' t' spawn Ho ltac:(lia)). lia.
Qed.

(** ** No lost wakeup *)

Lemma waker_nonneg t : 0 <= waker t.
Proof. destruct t; simpl; lia. Qed.

Lemma wakeup_local p t l p' t' spawn :
  (l, p', t', spawn) ∈ thread_step p t ->
  p_pendingRefills p' = 0 \/
  0 < waker t' + Z.b2z (p_refilling p') \/
  (p_pendingRefills p' = p_pendingRefills p /\ waker t = 0 /\
   Z.b2z (p_refilling p) <= Z.b2z (p_refilling p')).
Proof.
  intros H. destruct t; outcome_cases H; simpl in *;
    repeat match goal with k : cont |- _ => destruct k end; simplify_eq/=;
    repeat match goal with H : p_refilling _ = _ |- _ => rewrite H in *; clear H end;
    repeat match goal with |- context [Z.b2z (p_refilling ?p)] => destruct (p_refilling p) eqn:? end;
    simpl in *; try lia.
Qed.

Lemma wakeup_inv capacity tr s :
  exec step (initial capacity) tr s ->
  p_pendingRefills (pool s) <> 0 ->
  0 < sum_with waker (threads s) + Z.b2z (p_refilling (pool s)).
Proof.
  apply (pool_induction (fun tr p ts => p_pendingRefills p <> 0 ->
           0 < sum_with waker ts + Z.b2z (p_refilling p))).
  - done.
  - intros. rewrite sum_with_app. simpl. lia.
  - intros. rewrite sum_with_app. simpl. lia.
  - intros. rewrite sum_with_app. simpl. lia.
  - intros tr' p ts i t l p' t' spawn _ Hinv Hi Ho Hne.
    rewrite (sum_threads waker ts i t) by done.
    pose proof (sum_with_lookup_le waker ts i t waker_nonneg Hi).
    pose proof (sum_with_nonneg waker spawn waker_nonneg).
    pose proof (waker_nonneg t').
    destruct (wakeup_local p t l p' t' spawn Ho) as [?|[?|(E & ? & ?)]]; [done|lia|].
    rewrite E in Hne. specialize (Hinv Hne). lia.
Qed.

(** ** Demand is conserved *)

Lemma missRefillBurst_bounds p : 2 <= missRefillBurst p <= 8.
Proof.
  unfold missRefillBurst, minMissRefillBurst, maxMissRefillBurst.
  repeat case_match; rewrite ?Z.leb_le, ?Z.ltb_lt, ?Z.ltb_ge in *; lia.
Qed.

Lemma positive_local p t l p' t' spawn :
  (l, p', t', spawn) ∈ thread_step p t -> positive_pc t ->
  positive_pc t' /\ Forall positive_pc spawn /\ 0 <= demand_of l.
Proof.
  pose proof (missRefillBurst_bounds p).
  intros Ho Hp. destruct t; outcome_cases Ho; simpl in *;
    rewrite ?Z.leb_gt, ?Z.ltb_lt, ?Z.ltb_ge, ?Z.eqb_neq in *;
    repeat match goal with k : cont |- _ => destruct k end; simplify_eq/=;
    (split; [|split]); try done; repeat constructor; simpl; try lia.
Qed.

Lemma positive_inv capacity tr s :
  exec step (initial capacity) tr s -> Forall positive_pc (threads s) /\ 0 <= demanded tr.
Proof.
  apply (pool_induction (fun tr p ts => Forall positive_pc ts /\ 0 <= demanded tr));
    unfold demanded; [done| | | |].
  1-3: intros; destruct_and?; rewrite sum_with_app, Forall_app; simpl;
    (split; [split; [done | by repeat constructor] | lia]).
  intros tr' p ts i t l p' t' spawn _ [Hf Hd] Hi Ho.
  pose proof Hf as Ht. rewrite Forall_lookup in Ht. specialize (Ht i t Hi).
  destruct (positive_local _ _ _ _ _ _ Ho Ht) as (? & ? & ?).
  rewrite sum_with_app. simpl. split; [|lia].
  apply Forall_app. split; [|done]. by apply Forall_insert.
Qed.

(** One outcome moves demand between the four places it can be in. *)
Lemma demand_local p t l p' t' spawn :
  (l, p', t', spawn) ∈ thread_step p t -> positive_pc t ->
  0 <= p_pendingRefills p -> p_pendingRefills p + unposted t < two63 ->
  0 <= p_refillDemand p -> p_refillDemand p + demand_of l < two63 ->
  0 <= p_refillSent p -> p_refillSent p + unsent t < two63 ->
  0 <= p_pendingRefills p' /\
  p_refillDemand p' = p_refillDemand p + demand_of l /\
  p_refillSent p' + unsent t' = p_refillSent p + unsent t + request_of l /\
  p_refillSent p <= p_refillSent p' /\
  p_pendingRefills p' + unposted t' + to_request t' + request_of l
    = p_pendingRefills p + unposted t + to_request t + demand_of l /\
  sum_with unposted spawn = 0 /\ sum_with to_request spawn = 0 /\ sum_with unsent spawn = 0.
Proof.
  intros Ho Hpos. unfold two63. intros.
  destruct t; outcome_cases Ho; simpl in *; unfold add64 in *;
    rewrite ?Z.leb_gt, ?Z.ltb_lt, ?Z.ltb_ge, ?Z.eqb_eq, ?Z.eqb_neq in *;
    repeat match goal with k : cont |- _ => destruct k end; simplify_eq/=;
    rewrite ?wrap64_id by (unfold int64_ok, two63; lia); repeat split; try lia.
Qed.

Lemma positive_unposted t : positive_pc t -> 0 <= unposted t.
Proof. destruct t; simpl; lia. Qed.
Lemma positive_to_request t : positive_pc t -> 0 <= to_request t.
Proof. destruct t; simpl; lia. Qed.
Lemma unsent_nonneg t : 0 <= unsent t.
Proof. destruct t; simpl; lia. Qed.
Lemma request_of_nonneg l : 0 <= request_of l.
Proof. destruct l; simpl; lia. Qed.

Definition demand_balance (tr : list label) (p : Pool) (ts : list pc) : Prop :=
  demanded tr < two63 ->
  p_refillDemand p = demanded tr /\
  0 <= p_pendingRefills p /\
  p_refillSent p + sum_with unsent ts = requests tr /\
  0 <= p_refillSent p /\
  demanded tr = sum_with unposted ts + p_pendingRefills p + sum_with to_request ts + requests tr.

Lemma demand_inv capacity tr s :
  exec step (initial capacity) tr s -> demand_balance tr (pool s) (threads s).
Proof.
  intros He. cut ((Forall positive_pc (threads s) /\ 0 <= demanded tr) /\
                  demand_balance tr (pool s) (threads s)); [tauto|].
  revert tr s He. unfold demand_balance, demanded, requests.
  apply (pool_induction (fun tr p ts => (Forall positive_pc ts /\ 0 <= sum_with demand_of tr) /\
    (sum_with demand_of tr < two63 ->
     p_refillDemand p = sum_with demand_of tr /\ 0 <= p_pendingRefills p /\
     p_refillSent p + sum_with unsent ts = sum_with request_of tr /\ 0 <= p_refillSent p /\
     sum_with demand_of tr = sum_with unposted ts + p_pendingRefills p
       + sum_with to_request ts + sum_with request_of tr))); [done| | | |].
  1-3: intros; destruct_and?; rewrite !sum_with_app, Forall_app; simpl;
    (split; [split; [split; [done | by repeat constructor] | lia]
            | intros Hlt; rewrite !Z.add_0_r in *; naive_solver]).
  intros tr' p ts i t l p' t' spawn _ [[Hf Hd] Hinv] Hi Ho.
  pose proof Hf as Ht. rewrite Forall_lookup in Ht. specialize (Ht i t Hi).
  destruct (positive_local _ _ _ _ _ _ Ho Ht) as (Hp' & Hsp & Hl).
  rewrite !(sum_with_app demand_of), !(sum_with_app request_of). simpl. split.
  { split; [|lia]. apply Forall_app. split; [|done]. by apply Forall_insert. }
  intros Hlt. destruct Hinv as (Hdem & Hpend & Hsent & Hsent0 & Hbal); [lia|].
  assert (Forall (fun t => 0 <= unposted t) ts) as Hu.
  { eapply Forall_impl; [exact Hf|]. apply positive_unposted. }
  assert (Forall (fun t => 0 <= to_request t) ts) as Hr.
  { eapply Forall_impl; [exact Hf|]. apply positive_to_request. }
  pose proof (sum_with_Forall_lookup_le _ _ _ _ Hu Hi).
  pose proof (sum_with_Forall_nonneg _ _ Hr).
  pose proof (sum_with_Forall_nonneg _ _ Hu).
  pose proof (sum_with_lookup_le _ _ _ _ unsent_nonneg Hi).
  pose proof (sum_with_nonneg request_of tr' request_of_nonneg).
  destruct (demand_local p t l p' t' spawn Ho Ht) as (? & ? & ? & ? & ? & ? & ? & ?); try lia.
  rewrite !(sum_threads _ ts i t t' spawn Hi).
  pose proof (unsent_nonneg t'). repeat split; try lia.
Qed.

(** ** Connections are neither lost nor duplicated *)

Definition copies (c : Conn) (l : list Conn) : Z := sum_with (is_conn c) l.

Lemma conn_local c p t l p' t' spawn :
  (l, p', t', spawn) ∈ thread_step p t ->
  holds c t' + sum_with (holds c) spawn + copies c (p_conns p') + closed_of c l + returned_of c l
  = holds c t + copies c (p_conns p) /\ put_of c l = 0.
Proof.
  intros Ho. unfold copies. destruct t; outcome_cases Ho; simpl in *;
    rewrite ?sum_with_app in *; simpl in *;
    repeat match goal with H : p_conns _ = _ |- _ => rewrite H in *; clear H end;
    simpl in *; try (split; [lia | done]).
Qed.

Lemma conn_inv capacity tr s :
  exec step (initial capacity) tr s ->
  forall c, sum_with (put_of c) tr
    = sum_with (holds c) (threads s) + copies c (p_conns (pool s))
      + sum_with (closed_of c) tr + sum_with (returned_of c) tr.
Proof.
  intros He c. revert tr s He.
  apply (pool_induction (fun tr p ts => sum_with (put_of c) tr
    = sum_with (holds c) ts + copies c (p_conns p)
      + sum_with (closed_of c) tr + sum_with (returned_of c) tr)); [done| | | |].
  1-3: intros; rewrite !sum_with_app; simpl; lia.
  intros tr' p ts i t l p' t' spawn _ Hinv Hi Ho.
  rewrite (sum_threads (holds c) ts i t) by done. rewrite !sum_with_app. simpl.
  destruct (conn_local c p t l p' t' spawn Ho). lia.
Qed.

(** ** Capacity *)

Lemma New_cap_pos capacity : 0 < p_cap (New capacity).
Proof.
  unfold New, defaultCapacity. destruct capacity as [|c l]; simpl; [lia|].
  destruct (Z.ltb_spec 0 c); simpl; lia.
Qed.

Lemma capacity_inv capacity tr s :
  exec step (initial capacity) tr s ->
  p_cap (pool s) = p_cap (New capacity) /\
  Z.of_nat (length (p_conns (pool s))) <= p_cap (pool s).
Proof.
  apply (pool_induction (fun tr p ts => p_cap p = p_cap (New capacity) /\
           Z.of_nat (length (p_conns p)) <= p_cap p)); try done.
  - pose proof (New_cap_pos capacity). split; [done|]. simpl in *. lia.
  - intros tr' p ts i t l p' t' spawn _ [Hc Hl] Hi Ho. rewrite <- Hc.
    destruct t; outcome_cases Ho; simpl in *;
      rewrite ?length_app, ?Z.ltb_lt in *; simpl in *;
      repeat match goal with H : p_conns _ = _ |- _ => rewrite H in *; clear H end;
      simpl in *; lia.
Qed.

(** ** Closing *)

Definition early (t : pc) : Z := match t with CloseMark | CloseChan => 1 | _ => 0 end.
Definition draining (t : pc) : Z := match t with CloseDrain => 1 | _ => 0 end.
Definition closer (t : pc) : Z :=
  match t with CloseOnce => 1 | _ => early t + draining t end.
Definition close_of (l : label) : Z := match l with LClose => 1 | _ => 0 end.

(** The only panic [Put] and [Close] can run into is the send on the closed
    channel. *)
Definition bad_panic (t : pc) : Z := match t with Panicked None => 1 | _ => 0 end.
Definition panicking (t : pc) : Z := match t with Panicked _ => 1 | _ => 0 end.

(** How far the first [Close] has come, as the shared state shows it. *)
Definition close_phase (p : Pool) (e d : Z) : Prop :=
  match p_closedOnce p with
  | OnceNew => p_chanClosed p = false /\ e = 0 /\ d = 0
  | OnceRunning => e = Z.b2z (negb (p_chanClosed p)) /\ d = Z.b2z (p_chanClosed p)
  | OnceDone => p_chanClosed p = true /\ p_conns p = [] /\ e = 0 /\ d = 0
  end.

Lemma close_local p t l p' t' spawn e d :
  (l, p', t', spawn) ∈ thread_step p t ->
  close_phase p e d -> early t <= e -> draining t <= d ->
  close_phase p' (e + early t' - early t) (d + draining t' - draining t) /\
  sum_with early spawn = 0 /\ sum_with draining spawn = 0 /\
  bad_panic t' = bad_panic t /\ sum_with bad_panic spawn = 0.
Proof.
  intros Ho Hph He Hd. destruct t; outcome_cases Ho; revert Hph He Hd; unfold close_phase;
    repeat match goal with H : p_chanClosed _ = _ |- _ => revert H end;
    repeat match goal with H : p_closedOnce _ = _ |- _ => revert H end;
    repeat match goal with H : p_conns _ = _ |- _ => revert H end;
    clear; simpl; try destruct (p_closedOnce p), (p_chanClosed p); simpl; intros;
    repeat match goal with H : _ /\ _ |- _ => destruct H end;
    try discriminate; repeat split; try assumption; try reflexivity; try lia; try congruence.
Qed.

Lemma early_nonneg t : 0 <= early t.
Proof. destruct t; simpl; lia. Qed.
Lemma draining_nonneg t : 0 <= draining t.
Proof. destruct t; simpl; lia. Qed.

Lemma close_inv capacity tr s :
  exec step (initial capacity) tr s ->
  close_phase (pool s) (sum_with early (threads s)) (sum_with draining (threads s)) /\
  sum_with bad_panic (threads s) = 0.
Proof.
  apply (pool_induction (fun tr p ts =>
    close_phase p (sum_with early ts) (sum_with draining ts) /\ sum_with bad_panic ts = 0));
    [done| | | |].
  1-3: intros; rewrite !sum_with_app; simpl; rewrite !Z.add_0_r; done.
  intros tr' p ts i t l p' t' spawn _ [Hinv Hb] Hi Ho.
  rewrite !(sum_threads _ ts i t t' spawn Hi).
  destruct (close_local p t l p' t' spawn _ _ Ho Hinv) as (Hph & E1 & E2 & E3 & E4).
  - by eapply sum_with_lookup_le; [apply early_nonneg|].
  - by eapply sum_with_lookup_le; [apply draining_nonneg|].
  - rewrite E1, E2. split; [|lia]. rewrite !Z.add_0_r.
    replace (sum_with early ts - early t + early t') with (sum_with early ts + early t' - early t) by lia.
    replace (sum_with draining ts - draining t + draining t')
      with (sum_with draining ts + draining t' - draining t) by lia.
    done.
Qed.

(** ** Panics *)

Definition at_once (t : pc) : Z := match t with CloseOnce => 1 | _ => 0 end.
Definition started (o : once) : Z := match o with OnceNew => 0 | _ => 1 end.

Lemma close_calls_local p t l p' t' spawn :
  (l, p', t', spawn) ∈ thread_step p t -> draining t <= started (p_closedOnce p) ->
  at_once t' + sum_with at_once spawn + started (p_closedOnce p')
    <= at_once t + started (p_closedOnce p) + close_of l /\
  (panicking t' + sum_with panicking spawn <= panicking t + Z.b2z (p_chanClosed p)) /\
  Z.b2z (p_chanClosed p) <= Z.b2z (p_chanClosed p').
Proof.
  intros Ho Hd. destruct t; outcome_cases Ho;
    repeat match goal with
           | H : p_chanClosed _ = _ |- _ => rewrite H; clear H
           | H : p_closedOnce _ = _ |- _ => rewrite H; clear H
           | |- context [p_chanClosed ?p] => destruct (p_chanClosed p)
           end; simpl in *; try lia.
Qed.

Lemma panicking_nonneg t : 0 <= panicking t.
Proof. destruct t; simpl; lia. Qed.
Lemma at_once_nonneg t : 0 <= at_once t.
Proof. destruct t; simpl; lia. Qed.

Lemma panic_inv capacity tr s :
  exec step (initial capacity) tr s ->
  sum_with at_once (threads s) + started (p_closedOnce (pool s)) <= sum_with close_of tr /\
  (0 < sum_with panicking (threads s) -> p_chanClosed (pool s) = true).
Proof.
  apply (pool_induction (fun tr p ts =>
    sum_with at_once ts + started (p_closedOnce p) <= sum_with close_of tr /\
    (0 < sum_with panicking ts -> p_chanClosed p = true))); [done| | | |].
  1-3: intros; rewrite !sum_with_app; simpl; rewrite !Z.add_0_r; destruct_and?; split; [lia|done].
  intros tr' p ts i t l p' t' spawn He [Hc Hp] Hi Ho.
  rewrite !(sum_threads _ ts i t t' spawn Hi), sum_with_app. simpl.
  assert (draining t <= started (p_closedOnce p)) as Hd.
  { pose proof (sum_with_lookup_le _ _ _ _ draining_nonneg Hi).
    apply close_inv in He as [Hph _]. unfold close_phase in Hph. simpl in Hph.
    destruct (p_closedOnce p); simpl; [lia | destruct (p_chanClosed p); simpl in *; lia | lia]. }
  destruct (close_calls_local p t l p' t' spawn Ho Hd) as (H1 & H2 & H3). split; [lia|].
  pose proof (sum_with_lookup_le _ _ _ _ panicking_nonneg Hi).
  intros Hpos. destruct (p_chanClosed p) eqn:E.
  - simpl in H3. by destruct (p_chanClosed p').
  - simpl in H2. destruct (decide (0 < sum_with panicking ts)) as [Hpp|Hpp]; [naive_solver|lia].
Qed.

Lemma existsb_panicking ts : existsb is_panicked ts = true -> 0 < sum_with panicking ts.
Proof.
  induction ts as [|t ts IH]; simpl; [done|].
  pose proof (sum_with_nonneg panicking ts panicking_nonneg). destruct t; simpl; intros; naive_solver lia.
Qed.

(** ** Schedules *)

Lemma sched_step_sound s ch l s' : sched_step s ch = Some (l, s') -> step s l s'.
Proof.
  destruct s as [p ts]. destruct ch as [t|i j]; simpl.
  - destruct t; simpl; intros; simplify_eq; constructor.
  - destruct (existsb is_panicked ts) eqn:Ep; [done|].
    destruct (ts !! i) as [t|] eqn:Ei; [|done].
    destruct (thread_step p t !! j) as [[[[l' p'] t'] sp]|] eqn:Ej; [|done]. intros; simplify_eq.
    eapply step_thread; [done..|]. apply list_elem_of_lookup. eauto.
Qed.

Lemma run_sched_sound chs s tr s' : run_sched s chs = Some (tr, s') -> exec step s tr s'.
Proof.
  revert s tr; induction chs as [|ch chs IH]; intros s tr H; simpl in H; simplify_eq; [constructor|].
  destruct (sched_step s ch) as [[l s1]|] eqn:E; [|done].
  destruct (run_sched s1 chs) as [[tr1 s2]|] eqn:E2; [|done]. simplify_eq.
  econstructor; [by eapply sched_step_sound | by apply IH].
Qed.

(** ** The worker, run to its end *)

(** Goroutine [i] of [s] takes one step alone. *)
Lemma step_alone p ts i t l p' t' :
  ts !! i = Some t -> existsb is_panicked ts = false -> (l, p', t', []) ∈ thread_step p t ->
  step (mkSys p ts) l (mkSys p' (<[i := t']> ts)).
Proof.
  intros Hi Hn Ho. pose proof (step_thread p ts i t l p' t' [] Hi Hn Ho) as H.
  by rewrite app_nil_r in H.
Qed.

Lemma existsb_insert ts i t :
  is_panicked t = false -> existsb is_panicked ts = false ->
  existsb is_panicked (<[i := t]> ts) = false.
Proof.
  intros Ht. revert i; induction ts as [|x ts IH]; intros [|i] H; simpl in *; try done.
  - apply orb_false_iff in H as [_ H]. by rewrite Ht.
  - apply orb_false_iff in H as [H1 H2]. by rewrite H1, IH.
Qed.

(** The inner loop makes the [n] calls it took from [pendingRefills]. *)
Lemma worker_calls n p ts i :
  ts !! i = Some (WCall (Z.of_nat (S n))) -> existsb is_panicked ts = false ->
  exists tr p', exec step (mkSys p ts) tr (mkSys p' (<[i := WSwap]> ts)) /\
    requests tr = Z.of_nat (S n) /\ p_pendingRefills p' = p_pendingRefills p /\
    p_refilling p' = p_refilling p.
Proof.
  revert p ts; induction n as [|n IH]; intros p ts Hi Hn.
  - exists [LRequest; LTau], (addStats p 0 0 0 0 1). split; [|done].
    eapply exec_cons; [eapply step_alone; [done..|by apply list_elem_of_singleton]|].
    eapply exec_one. rewrite <- (list_insert_insert_eq ts i WSwap (WSent 1)).
    assert (i < length ts)%nat as Hlt by (apply lookup_lt_is_Some_1; eauto).
    eapply step_alone; [by apply list_lookup_insert_eq|by apply existsb_insert|].
    by apply list_elem_of_singleton.
  - set (ts1 := <[i := WSent (Z.of_nat (S (S n)))]> ts).
    set (ts2 := <[i := WCall (Z.of_nat (S n))]> ts).
    assert (i < length ts)%nat as Hlt by (apply lookup_lt_is_Some_1; eauto).
    destruct (IH (addStats p 0 0 0 0 1) ts2) as (tr & p' & He & Hr & Hp & Hf);
      [by apply list_lookup_insert_eq | by apply existsb_insert |].
    exists (LRequest :: LTau :: tr), p'. split; [|split; [|done]].
    + eapply exec_cons; [eapply step_alone; [done..|by apply list_elem_of_singleton]|].
      eapply exec_cons; [|by unfold ts2 in He; rewrite list_insert_insert_eq in He].
      rewrite <- (list_insert_insert_eq ts i (WCall (Z.of_nat (S n))) (WSent (Z.of_nat (S (S n))))).
      eapply step_alone; [by apply list_lookup_insert_eq|by apply existsb_insert|].
      apply list_elem_of_singleton.
      assert ((1 <? Z.of_nat (S (S n))) = true) as -> by (apply Z.ltb_lt; lia).
      do 2 f_equal. f_equal. lia.
    + unfold requests in *. simpl. rewrite Hr. lia.
Qed.

(** From the head of its loop, with nobody adding demand, the worker makes
    exactly the pending calls and exits. *)
Lemma worker_exits p ts i :
  ts !! i = Some WSwap -> existsb is_panicked ts = false -> p_pendingRefills p = 0 ->
  exec step (mkSys p ts) [LTau; LTau; LTau]
    (mkSys (setRefilling (setPending p 0) false) (<[i := WDone]> ts)).
Proof.
  intros Hi Hn Hp. assert (i < length ts)%nat as Hlt by (apply lookup_lt_is_Some_1; eauto).
  eapply exec_cons.
  { eapply step_alone; [done..|]. unfold thread_step. rewrite Hp. by apply list_elem_of_singleton. }
  eapply exec_cons.
  { eapply step_alone; [by apply list_lookup_insert_eq|by apply existsb_insert|].
    by apply list_elem_of_singleton. }
  eapply exec_one. rewrite list_insert_insert_eq.
  rewrite <- (list_insert_insert_eq ts i WDone WLoad).
  eapply step_alone; [by apply list_lookup_insert_eq|by apply existsb_insert|].
  by apply list_elem_of_singleton.
Qed.

Lemma worker_drains_n n p ts i :
  ts !! i = Some WSwap -> existsb is_panicked ts = false -> p_pendingRefills p = Z.of_nat n ->
  exists tr p', exec step (mkSys p ts) tr (mkSys p' (<[i := WDone]> ts)) /\
    requests tr = Z.of_nat n /\ p_pendingRefills p' = 0 /\ p_refilling p' = false.
Proof.
  intros Hi Hn Hp. assert (i < length ts)%nat as Hlt by (apply lookup_lt_is_Some_1; eauto).
  destruct n as [|n].
  - eexists _, _. split; [by apply worker_exits|]. done.
  - set (ts1 := <[i := WCall (Z.of_nat (S n))]> ts).
    destruct (worker_calls n (setPending p 0) ts1 i) as (tr & p' & He & Hr & Hp' & _);
      [by apply list_lookup_insert_eq | by apply existsb_insert |].
    unfold ts1 in He. rewrite list_insert_insert_eq in He.
    exists (LTau :: tr ++ [LTau; LTau; LTau]), (setRefilling (setPending p' 0) false).
    split; [|split; [|done]].
    + eapply exec_cons.
      { eapply step_alone; [done..|]. unfold thread_step. rewrite Hp.
        apply list_elem_of_singleton. assert ((0 <? Z.of_nat (S n)) = true) as -> by (apply Z.ltb_lt; lia).
        done. }
      eapply exec_app; [exact He|].
      rewrite <- (list_insert_insert_eq ts i WDone WSwap).
      apply worker_exits; [by apply list_lookup_insert_eq|by apply existsb_insert|done].
    + unfold requests in *. simpl. rewrite sum_with_app. simpl. lia.
Qed.
