(* ===== verification/PoolSpec.v ===== *)
(** * What the pool promises

    The properties of the pool under any number of concurrent [Put], [Get]
    and [Close] calls, from the invariants of [PoolProofs]. *)

From S2P Require Import Prelude Pool PoolProofs.

(** The goroutine is inside [requestAsyncRefill] or is the refill worker. *)
Definition in_refill (t : pc) : bool :=
  match t with
  | RefDemand _ _ | RefPend _ _ | RefCas _ | WSwap | WCall _ | WSent _ | WStore | WLoad | WCas => true
  | _ => false
  end.

(** The goroutine is calling [requestFn]. *)
Definition calling (t : pc) : bool := match t with WCall _ | WSent _ => true | _ => false end.

Lemma not_in_refill_zero f ts :
  (forall t, in_refill t = false -> f t = 0) -> existsb in_refill ts = false -> sum_with f ts = 0.
Proof.
  intros Hf. induction ts as [|t ts IH]; simpl; [done|].
  intros [H1 H2]%orb_false_iff. rewrite Hf, IH; done.
Qed.

Lemma sum_with_two f (ts : list pc) i j x y :
  (forall t, 0 <= f t) -> ts !! i = Some x -> ts !! j = Some y -> i <> j ->
  f x + f y <= sum_with f ts.
Proof.
  intros Hf. revert i j. induction ts as [|t ts IH]; intros [|i] [|j] Hi Hj Hne; simplify_eq/=; try done.
  - pose proof (sum_with_lookup_le f ts j y Hf Hj). lia.
  - pose proof (sum_with_lookup_le f ts i x Hf Hi). lia.
  - specialize (IH i j Hi Hj ltac:(lia)). specialize (Hf t). lia.
Qed.

(** The execution a schedule drives from the empty pool. *)
Definition drive (capacity : list Z) (chs : list choice) : list label * sys :=
  default ([], initial capacity) (run_sched (initial capacity) chs).

Lemma drive_exec capacity chs :
  exec step (initial capacity) (fst (drive capacity chs)) (snd (drive capacity chs)).
Proof.
  unfold drive. destruct (run_sched (initial capacity) chs) as [[tr s]|] eqn:E; simpl.
  - by eapply run_sched_sound.
  - constructor.
Qed.

(** ** The properties *)

(** C8: No refill demand is lost or duplicated. Whenever every goroutine has
    left the refill code (it has returned, or waits in [Get]), no worker is
    marked as running, nothing is pending, and [requestFn] has been called
    exactly once per unit of demand, as both counters say; the compare-and-swap
    protocol has no lost wakeup, whatever the interleaving. (The counters are
    64-bit: the demand of the execution is below 2^63.) *)
Theorem pool_refill_quiescent (capacity : list Z) (tr : list label) (s : sys)
    (Hexec : exec step (initial capacity) tr s)
    (Hidle : existsb in_refill (threads s) = false)
    (Hrange : demanded tr < two63) :
  p_refilling (pool s) = false /\
  p_pendingRefills (pool s) = 0 /\
  requests tr = demanded tr /\
  p_refillDemand (pool s) = demanded tr /\
  p_refillSent (pool s) = demanded tr.
Proof.
  assert (forall f, (forall t, in_refill t = false -> f t = 0) -> sum_with f (threads s) = 0) as Hz
    by (intros; by apply not_in_refill_zero).
  pose proof (owner_inv _ _ _ Hexec) as Ho. rewrite Hz in Ho by (by intros []).
  assert (p_refilling (pool s) = false) as Hr by (by destruct (p_refilling (pool s))).
  pose proof (wakeup_inv _ _ _ Hexec) as Hw. rewrite Hz, Hr in Hw by (by intros []). simpl in Hw.
  assert (p_pendingRefills (pool s) = 0) as Hp by lia.
  destruct (demand_inv _ _ _ Hexec Hrange) as (Hd & _ & Hs & _ & Hb).
  rewrite !Hz in Hb by (by intros []). rewrite Hz in Hs by (by intros []).
  repeat split; (done || lia).
Qed.

(** C34: The refill worker terminates: from the head of its loop, when no new
    demand arrives, it makes exactly [pendingRefills] calls of [requestFn],
    clears [refilling] and exits, leaving the other goroutines alone. *)
Theorem pool_worker_drains (s : sys) (i : nat)
    (Hi : threads s !! i = Some WSwap)
    (Hlive : existsb is_panicked (threads s) = false)
    (Hpend : 0 <= p_pendingRefills (pool s)) :
  exists tr p', exec step s tr (mkSys p' (<[i := WDone]> (threads s))) /\
    requests tr = p_pendingRefills (pool s) /\
    p_pendingRefills p' = 0 /\ p_refilling p' = false.
Proof.
  destruct s as [p ts]. simpl in *.
  destruct (worker_drains_n (Z.to_nat (p_pendingRefills p)) p ts i) as (tr & p' & He & Hr & H);
    [done|done|lia|].
  exists tr, p'. split; [done|]. split; [lia | done].
Qed.

(** At most one goroutine calls [requestFn] at any time. *)
Lemma pool_single_worker (capacity : list Z) (tr : list label) (s : sys) (i j : nat) (t u : pc)
    (Hexec : exec step (initial capacity) tr s)
    (Hi : threads s !! i = Some t) (Hj : threads s !! j = Some u)
    (Ht : calling t = true) (Hu : calling u = true) :
  i = j.
Proof.
  destruct (decide (i = j)) as [|Hne]; [done|]. exfalso.
  pose proof (owner_inv _ _ _ Hexec) as Ho.
  assert (forall t, 0 <= owner t) as Hnn by (intros []; simpl; lia).
  pose proof (sum_with_two owner _ i j t u Hnn Hi Hj Hne).
  destruct (p_refilling (pool s)); destruct t, u; simpl in *; lia.
Qed.

(** C12: Connections are conserved. For every connection, the number of times
    it was handed to [Put] is the number of copies a goroutine holds, plus
    those in the buffer, plus the times the pool closed it, plus the times
    [Get] returned it; so a connection put once is never both closed and
    returned, nor returned twice. *)
Theorem pool_conn_conservation (capacity : list Z) (tr : list label) (s : sys)
    (Hexec : exec step (initial capacity) tr s) (c : Conn) :
  sum_with (put_of c) tr
  = sum_with (holds c) (threads s) + copies c (p_conns (pool s))
    + sum_with (closed_of c) tr + sum_with (returned_of c) tr.
Proof. by eapply conn_inv. Qed.

(** The buffer never holds more connections than its capacity. *)
Lemma pool_within_capacity (capacity : list Z) (tr : list label) (s : sys)
    (Hexec : exec step (initial capacity) tr s) :
  Z.of_nat (length (p_conns (pool s))) <= p_cap (New capacity).
Proof. destruct (capacity_inv _ _ _ Hexec) as [<- H]. done. Qed.

(** [Close] leaks nothing. Once a [Close] has returned and every goroutine
    has returned, the buffer is empty and each connection ever handed to
    [Put] was closed or returned by [Get], as many times as it was put. *)
Lemma pool_close_no_leak (capacity : list Z) (tr : list label) (s : sys)
    (Hexec : exec step (initial capacity) tr s)
    (Hclosed : p_closedOnce (pool s) = OnceDone)
    (Hidle : forallb idle (threads s) = true) (c : Conn) :
  p_conns (pool s) = [] /\
  sum_with (put_of c) tr = sum_with (closed_of c) tr + sum_with (returned_of c) tr.
Proof.
  destruct (close_inv _ _ _ Hexec) as [Hph _]. unfold close_phase in Hph. rewrite Hclosed in Hph.
  destruct Hph as (_ & Hb & _). split; [done|].
  rewrite (conn_inv _ _ _ Hexec c), Hb. simpl. unfold copies. simpl.
  rewrite sum_with_zero; [lia|]. intros t Ht.
  rewrite forallb_forall in Hidle. apply list_elem_of_In in Ht. specialize (Hidle t Ht).
  by destruct t.
Qed.

(** C36: The only panic is a [Put] that sends on the closed channel, and it
    takes a [Close]: an execution with no [Close] call never panics, and the
    channel is never closed twice. *)
Theorem pool_panic_only_put_after_close (capacity : list Z) (tr : list label) (s : sys) (o : option Conn)
    (Hexec : exec step (initial capacity) tr s)
    (Hpanic : Panicked o ∈ threads s) :
  is_Some o /\ LClose ∈ tr.
Proof.
  apply list_elem_of_lookup in Hpanic as [i Hi]. split.
  - destruct o as [c|]; [eauto|]. destruct (close_inv _ _ _ Hexec) as [_ Hb].
    assert (bad_panic (Panicked None) <= sum_with bad_panic (threads s)); [|simpl in *; lia].
    eapply sum_with_lookup_le; [intros [| | | | | | | | | | | | | | | | | | | | | | | | | [] ]; simpl; lia | done].
  - destruct (panic_inv _ _ _ Hexec) as [Hc Hp].
    pose proof (sum_with_lookup_le panicking _ i (Panicked o) panicking_nonneg Hi) as H. simpl in H.
    pose proof (Hp ltac:(lia)) as Hch. destruct (close_inv _ _ _ Hexec) as [Hph _].
    unfold close_phase in Hph. rewrite Hch in Hph.
    assert (0 < sum_with close_of tr) as Hpos.
    { pose proof (sum_with_nonneg at_once (threads s) at_once_nonneg).
      destruct (p_closedOnce (pool s)); simpl in *; [naive_solver|lia..]. }
    clear -Hpos. induction tr as [|l tr IH]; simpl in *; [lia|].
    destruct l; simpl in *; try (right; apply IH; lia). left.
Qed.

(** C35: [Put] reads [closed] under the lock but sends after releasing it, so
    for every capacity and connection there is an interleaving in which a
    concurrent [Close] closes the channel in between and the send panics,
    which ends the process. *)
Theorem pool_put_close_race (capacity : list Z) (c : Conn) :
  exists tr s, exec step (initial capacity) tr s /\ Panicked (Some c) ∈ threads s.
Proof.
  eexists _, _. split.
  - apply (run_sched_sound
      [Arrive (PutCheck c); Run 0 0; Arrive CloseOnce; Run 1 0; Run 1 0; Run 1 0; Run 0 0]).
    reflexivity.
  - left.
Qed.

(** The refill burst of a miss is a quarter of the capacity clamped to
    [2, 8]: [max(2, min(8, capacity/4))]. *)
Lemma missRefillBurst_clamp (p : Pool) :
  missRefillBurst p = Z.max 2 (Z.min 8 (Z.quot (p_cap p) 4)).
Proof.
  unfold missRefillBurst, minMissRefillBurst, maxMissRefillBurst.
  destruct (Z.leb_spec (p_cap p) 0).
  - pose proof (Z.quot_opp_l (- p_cap p) 4 ltac:(lia)) as E. rewrite Z.opp_involutive in E.
    pose proof (Z.quot_pos (- p_cap p) 4 ltac:(lia) ltac:(lia)). lia.
  - destruct (Z.ltb_spec (p_cap p ÷ 4) 2);
      match goal with |- context [8 <? ?x] => destruct (Z.ltb_spec 8 x) end; lia.
Qed.

(** ** Witnesses *)

(** A [Get] that misses, its refill served, the delivered connection put,
    received, the second refill served, then [Close]. *)
Definition miss_then_hit : list choice :=
  [Arrive GetCheck] ++ replicate 6 (Run 0 0) ++ replicate 8 (Run 1 0)
  ++ [Arrive (PutCheck 7%nat)] ++ replicate 2 (Run 2 0) ++ replicate 4 (Run 0 0)
  ++ replicate 6 (Run 3 0) ++ [Arrive CloseOnce] ++ replicate 4 (Run 4 0).

Definition mid_refill : list choice := [Arrive GetCheck] ++ replicate 6 (Run 0 0).

Lemma pool_refill_quiescent_witness :
  demanded (fst (drive [4] miss_then_hit)) = 3 /\
  p_refillSent (pool (snd (drive [4] miss_then_hit))) = 3.
Proof.
  split; [vm_compute; reflexivity|].
  destruct (pool_refill_quiescent [4] _ _ (drive_exec [4] miss_then_hit)
              ltac:(vm_compute; reflexivity) ltac:(vm_compute; reflexivity)) as (_ & _ & _ & _ & H).
  rewrite H. vm_compute. reflexivity.
Defined.

Lemma pool_worker_drains_witness :
  p_pendingRefills (pool (snd (drive [4] mid_refill))) = 2 /\
  exists tr p', exec step (snd (drive [4] mid_refill)) tr
      (mkSys p' (<[1%nat := WDone]> (threads (snd (drive [4] mid_refill))))) /\
    requests tr = 2 /\ p_pendingRefills p' = 0 /\ p_refilling p' = false.
Proof.
  split; [vm_compute; reflexivity|].
  apply (pool_worker_drains (snd (drive [4] mid_refill)) 1);
    [vm_compute; reflexivity | vm_compute; reflexivity | vm_compute; discriminate].
Defined.

Lemma pool_single_worker_witness :
  threads (snd (drive [4] (mid_refill ++ [Run 1 0]))) !! 1%nat = Some (WCall 2) /\ 1%nat = 1%nat.
Proof.
  split; [vm_compute; reflexivity|].
  apply (pool_single_worker [4] (fst (drive [4] (mid_refill ++ [Run 1 0])))
           (snd (drive [4] (mid_refill ++ [Run 1 0]))) 1 1 (WCall 2) (WCall 2));
    [apply drive_exec | vm_compute; reflexivity..].
Defined.

Lemma pool_conn_conservation_witness :
  sum_with (put_of 7%nat) (fst (drive [4] miss_then_hit)) = 1 /\
  sum_with (holds 7%nat) (threads (snd (drive [4] miss_then_hit)))
    + copies 7%nat (p_conns (pool (snd (drive [4] miss_then_hit))))
    + sum_with (closed_of 7%nat) (fst (drive [4] miss_then_hit))
    + sum_with (returned_of 7%nat) (fst (drive [4] miss_then_hit)) = 1.
Proof.
  split; [vm_compute; reflexivity|].
  rewrite <- (pool_conn_conservation [4] _ _ (drive_exec [4] miss_then_hit) 7%nat).
  vm_compute. reflexivity.
Defined.

Lemma pool_close_no_leak_witness :
  p_closedOnce (pool (snd (drive [4] miss_then_hit))) = OnceDone /\
  p_conns (pool (snd (drive [4] miss_then_hit))) = [].
Proof.
  split; [vm_compute; reflexivity|].
  apply (pool_close_no_leak [4] _ _ (drive_exec [4] miss_then_hit)
           ltac:(vm_compute; reflexivity) ltac:(vm_compute; reflexivity) 7%nat).
Defined.

Definition race : list choice :=
  [Arrive (PutCheck 7%nat); Run 0 0; Arrive CloseOnce; Run 1 0; Run 1 0; Run 1 0; Run 0 0].

Lemma pool_panic_only_put_after_close_witness :
  threads (snd (drive [1] race)) = [Panicked (Some 7%nat); CloseDrain] /\
  LClose ∈ fst (drive [1] race).
Proof.
  split; [vm_compute; reflexivity|].
  apply (pool_panic_only_put_after_close [1] _ _ (Some 7%nat) (drive_exec [1] race)).
  apply list_elem_of_In. vm_compute. auto.
Defined.
