(* ===== verification/Bufio.v ===== *)
(** * Buffered writing: the [bufio.Writer] under the control channel

    [src/internal/server/control_writer.go] writes frames through a
    [bufio.Writer] over the session's encrypted connection. [io.Writer] is an
    interface of the code, so it is a class here: [Writer] is the operation
    and [WriterSpec] the contract of [io.Writer] (an error is returned with
    the number of bytes written before it). *)

From S2P Require Import Prelude Json Wire.

(** ** [io.Writer] *)

(** [Write(p)]: [None] when all of [p] was written, else the number of bytes
    written and the error. *)
Class Writer (W : Type) := write : W -> bytes -> W * option (nat * string).

(** The bytes a writer has accepted so far. *)
Class WriterSpec (W : Type) `{Writer W} := {
  delivered : W -> bytes;
  write_all w p w' : write w p = (w', None) -> delivered w' = delivered w ++ p;
  write_part w p w' n e : write w p = (w', Some (n, e)) -> delivered w' = delivered w ++ take n p
}.

(** ** [bufio.Writer] *)

Section bufio.
Context {W : Type} `{Writer W}.

Record bufWriter := mkBuf {
  b_size : N;
  b_buf : bytes;
  b_err : option string;
  b_wr : W
}.

Definition NewWriterSize (w : W) (size : N) : bufWriter := mkBuf size [] None w.

Definition Available (b : bufWriter) : nat := N.to_nat (b_size b) - length (b_buf b).

Definition Flush (b : bufWriter) : bufWriter * option string :=
  match b_err b with
  | Some e => (b, Some e)
  | None =>
      match b_buf b with
      | [] => (b, None)
      | _ =>
          match write (b_wr b) (b_buf b) with
          | (w', None) => (mkBuf (b_size b) [] None w', None)
          | (w', Some (n, e)) => (mkBuf (b_size b) (drop n (b_buf b)) (Some e) w', Some e)
          end
      end
  end.

(** The loop of [Write] and the bytes of [p] left when it ends; each round
    with a non-empty buffer fills and flushes it, and a round with an empty
    one writes the rest of [p] directly, so two rounds are enough
    ([buf_loop_two]). *)
Fixpoint buf_loop (fuel : nat) (b : bufWriter) (p : bytes) : bufWriter * bytes :=
  match fuel with
  | O => (b, p)
  | S fuel' =>
      match b_err b with
      | Some _ => (b, p)
      | None =>
          if Nat.ltb (Available b) (length p) then
            match b_buf b with
            | [] =>
                match write (b_wr b) p with
                | (w', None) => buf_loop fuel' (mkBuf (b_size b) [] None w') []
                | (w', Some (n, e)) => buf_loop fuel' (mkBuf (b_size b) [] (Some e) w') (drop n p)
                end
            | _ =>
                let b1 := mkBuf (b_size b) (b_buf b ++ take (Available b) p) None (b_wr b) in
                let '(b2, _) := Flush b1 in
                buf_loop fuel' b2 (drop (Available b) p)
            end
          else (b, p)
      end
  end.

Definition bufWrite (b : bufWriter) (p : bytes) : bufWriter * option string :=
  let '(b', p') := buf_loop 2 b p in
  match b_err b' with
  | Some e => (b', Some e)
  | None => (mkBuf (b_size b') (b_buf b' ++ p') None (b_wr b'), None)
  end.
End bufio.
Arguments bufWriter _ : clear implicits.
Arguments mkBuf {W} _ _ _ _.

(** ** Laws *)

Section bufio_laws.
Context {W : Type} `{WriterSpec W}.

Lemma buf_loop_stop n (b : bufWriter W) p :
  Nat.ltb (Available b) (length p) = false -> buf_loop n b p = (b, p).
Proof. intros E. destruct n; simpl; [done|]. rewrite E. by destruct (b_err b). Qed.

Lemma buf_loop_err n (b : bufWriter W) p e : b_err b = Some e -> buf_loop n b p = (b, p).
Proof. intros E. destruct n; simpl; [done|]. by rewrite E. Qed.

Lemma ltb_nil_false n : Nat.ltb n (length ([] : bytes)) = false.
Proof. by destruct n. Qed.

(** With an empty buffer one round is enough. *)
Lemma buf_loop_one n (b : bufWriter W) p : b_buf b = [] -> buf_loop (S n) b p = buf_loop 1 b p.
Proof.
  intros E. cbn [buf_loop]. destruct (b_err b); [done|]. case_match; [|done].
  rewrite E. destruct (write _ _) as [w' [[k e]|]].
  - erewrite (buf_loop_err n); done.
  - rewrite (buf_loop_stop n); [done | apply ltb_nil_false].
Qed.

Lemma Flush_buf (b b' : bufWriter W) :
  Flush b = (b', None) -> b_buf b' = [] /\ b_err b' = None /\ b_size b' = b_size b.
Proof.
  unfold Flush. destruct (b_err b) eqn:?; [done|]. destruct (b_buf b) eqn:?.
  - intros. by simplify_eq.
  - destruct (write _ _) as [w' [[k e]|]]; intros; by simplify_eq.
Qed.

Lemma Flush_err (b b' : bufWriter W) e :
  Flush b = (b', Some e) -> b_err b' = Some e.
Proof.
  unfold Flush. destruct (b_err b) eqn:?; [intros; by simplify_eq|]. destruct (b_buf b) eqn:?; [done|].
  destruct (write _ _) as [w' [[k e']|]]; intros; by simplify_eq.
Qed.

Lemma buf_loop_two n (b : bufWriter W) p : buf_loop (2 + n) b p = buf_loop 2 b p.
Proof.
  destruct (b_buf b) eqn:Eb.
  - cbn [Nat.add]. by rewrite (buf_loop_one (S n)), (buf_loop_one 1).
  - change (2 + n)%nat with (S (S n)). cbn [buf_loop]. rewrite Eb.
    destruct (b_err b); [done|]. case_match; [|done].
    destruct (Flush _) as [b2 [e|]] eqn:EF.
    + apply Flush_err in EF. by rewrite EF.
    + apply Flush_buf in EF as [E _].
      exact (buf_loop_one n b2 _ E).
Qed.

(** Everything handed to the writer so far: the bytes delivered and the bytes
    still buffered, as long as no write has failed. *)
Definition pushed (b : bufWriter W) : bytes := delivered (b_wr b) ++ b_buf b.

Lemma Flush_pushed (b b' : bufWriter W) r :
  Flush b = (b', r) ->
  match r with
  | None => delivered (b_wr b') = pushed b
  | Some _ => pushed b' `prefix_of` pushed b
  end.
Proof.
  unfold Flush, pushed. destruct (b_err b) eqn:Ee; [intros; by simplify_eq|].
  destruct (b_buf b) eqn:Eb.
  { intros. simplify_eq. by rewrite app_nil_r. }
  destruct (write _ _) as [w' [[k e]|]] eqn:Ew; intros; simplify_eq; cbn [b_wr b_buf].
  - apply write_part in Ew. rewrite Ew, <- app_assoc, take_drop. done.
  - apply write_all in Ew. by rewrite Ew.
Qed.

(** What [Write] and [Flush] promise: on success the bytes are pushed, in
    order, after those of before; on failure a prefix of them has reached the
    underlying writer, and the failure is remembered. *)
Lemma buf_loop_spec n (b b' : bufWriter W) p p' :
  b_err b = None -> buf_loop n b p = (b', p') ->
  b_size b' = b_size b /\
  match b_err b' with
  | None => pushed b' ++ p' = pushed b ++ p
  | Some _ => delivered (b_wr b') `prefix_of` pushed b ++ p
  end.
Proof.
  revert b p; induction n as [|n IH]; intros b p Hb Hl; cbn [buf_loop] in Hl.
  { simplify_eq. by rewrite Hb. }
  rewrite Hb in Hl. case_match; [|simplify_eq; by rewrite Hb].
  destruct (b_buf b) eqn:Eb.
  - destruct (write _ _) as [w' [[k e]|]] eqn:Ew.
    + rewrite (buf_loop_err n _ _ e) in Hl by done. simplify_eq. cbn. split; [done|].
      unfold pushed. rewrite (write_part _ _ _ _ _ Ew), Eb, app_nil_r.
      apply prefix_app. exists (drop k p). by rewrite take_drop.
    + rewrite buf_loop_stop in Hl by apply ltb_nil_false. simplify_eq. cbn. split; [done|].
      unfold pushed. cbn. by rewrite (write_all _ _ _ Ew), Eb, !app_nil_r.
  - set (b1 := mkBuf _ _ _ _) in Hl. destruct (Flush b1) as [b2 [e|]] eqn:EF.
    + pose proof (Flush_err _ _ _ EF) as E2. rewrite (buf_loop_err n _ _ e) in Hl by done.
      simplify_eq. rewrite E2. split.
      { unfold Flush, b1 in EF. cbn [b_err b_buf b_wr b_size app] in EF.
        destruct (write _ _) as [? [[]|]]; by simplify_eq. }
      apply Flush_pushed in EF. unfold pushed in EF |- *. cbn [b1 b_wr b_buf] in EF.
      etrans; [by eexists|]. etrans; [exact EF|]. rewrite <- Eb, app_assoc.
      apply prefix_app. exists (drop (Available b) p). by rewrite take_drop.
    + destruct (Flush_buf _ _ EF) as (Hbuf & He & Hs).
      destruct (IH _ _ He Hl) as [Hs' Hp]. split; [by rewrite Hs', Hs|].
      apply Flush_pushed in EF.
      assert (pushed b2 ++ drop (Available b) p = pushed b ++ p) as E.
      { unfold pushed at 1. rewrite Hbuf, app_nil_r, EF. unfold pushed. cbn [b1 b_wr b_buf].
        by rewrite <- Eb, <- !app_assoc, take_drop. }
      rewrite E in Hp. done.
Qed.

Lemma bufWrite_ok (b b' : bufWriter W) p :
  b_err b = None -> bufWrite b p = (b', None) ->
  pushed b' = pushed b ++ p /\ b_err b' = None /\ b_size b' = b_size b.
Proof.
  unfold bufWrite. intros Hb Hw. destruct (buf_loop 2 b p) as [b1 p1] eqn:El.
  destruct (buf_loop_spec _ _ _ _ _ Hb El) as [Hs Hp].
  destruct (b_err b1); simplify_eq. cbn. split; [|done]. rewrite <- Hp.
  unfold pushed. cbn. by rewrite app_assoc.
Qed.

Lemma bufWrite_err (b b' : bufWriter W) p e :
  b_err b = None -> bufWrite b p = (b', Some e) ->
  delivered (b_wr b') `prefix_of` pushed b ++ p /\ b_err b' = Some e.
Proof.
  unfold bufWrite. intros Hb Hw. destruct (buf_loop 2 b p) as [b1 p1] eqn:El.
  destruct (buf_loop_spec _ _ _ _ _ Hb El) as [Hs Hp].
  destruct (b_err b1) eqn:E1; simplify_eq. done.
Qed.

Lemma Flush_ok (b b' : bufWriter W) :
  Flush b = (b', None) ->
  delivered (b_wr b') = pushed b /\ b_buf b' = [] /\ b_err b' = None /\ b_err b = None.
Proof.
  intros E. pose proof (Flush_pushed _ _ _ E). destruct (Flush_buf _ _ E) as (? & ? & ?).
  repeat split; try done. unfold Flush in E. by destruct (b_err b).
Qed.

Lemma Flush_fail (b b' : bufWriter W) e :
  Flush b = (b', Some e) -> delivered (b_wr b') `prefix_of` pushed b /\ b_err b' = Some e.
Proof.
  intros E. split; [|by eapply Flush_err]. etrans; [|exact (Flush_pushed _ _ _ E)].
  by eexists.
Qed.

(** What was delivered stays delivered. *)
Lemma write_mono w (p : bytes) w' r : write w p = (w', r) -> delivered w `prefix_of` delivered w'.
Proof.
  destruct r as [[n e]|]; intros E.
  - rewrite (write_part _ _ _ _ _ E). by eexists.
  - rewrite (write_all _ _ _ E). by eexists.
Qed.

Lemma Flush_mono (b b' : bufWriter W) r :
  Flush b = (b', r) -> delivered (b_wr b) `prefix_of` delivered (b_wr b').
Proof.
  unfold Flush. destruct (b_err b); [intros; by simplify_eq|]. destruct (b_buf b); [intros; by simplify_eq|].
  destruct (write _ _) as [w' [[n e]|]] eqn:Ew; intros; simplify_eq; by eapply write_mono.
Qed.

Lemma buf_loop_mono n (b b' : bufWriter W) p p' :
  buf_loop n b p = (b', p') -> delivered (b_wr b) `prefix_of` delivered (b_wr b').
Proof.
  revert b p; induction n as [|n IH]; intros b p; cbn [buf_loop]; [intros; by simplify_eq|].
  destruct (b_err b); [intros; by simplify_eq|]. case_match; [|intros; by simplify_eq].
  destruct (b_buf b).
  - destruct (write _ _) as [w' [[k e]|]] eqn:Ew; intros Hl; etrans;
      [by eapply write_mono | by eapply (IH _ _ Hl) | by eapply write_mono | by eapply (IH _ _ Hl)].
  - destruct (Flush _) as [b2 r] eqn:EF. intros Hl. etrans; [|by eapply IH].
    apply Flush_mono in EF. done.
Qed.

Lemma bufWrite_mono (b b' : bufWriter W) p r :
  bufWrite b p = (b', r) -> delivered (b_wr b) `prefix_of` delivered (b_wr b').
Proof.
  unfold bufWrite. destruct (buf_loop 2 b p) as [b1 p1] eqn:El. apply buf_loop_mono in El.
  destruct (b_err b1); intros; by simplify_eq.
Qed.

Lemma Flush_sticky (b : bufWriter W) e : b_err b = Some e -> Flush b = (b, Some e).
Proof. unfold Flush. by intros ->. Qed.
End bufio_laws.
#[export] Hint Resolve ltb_nil_false : drp.

(** ** An in-memory connection

    It accepts bytes until [m_room] of them have been written, then fails. *)

Record memConn := mkMem { m_got : bytes; m_room : nat }.

#[export] Instance memConn_Writer : Writer memConn := fun w p =>
  if Nat.leb (length p) (m_room w) then (mkMem (m_got w ++ p) (m_room w - length p), None)
  else (mkMem (m_got w ++ take (m_room w) p) 0, Some (m_room w, "broken pipe")).

Lemma memConn_write_all (w : memConn) (p : bytes) w' :
  write w p = (w', None) -> m_got w' = m_got w ++ p.
Proof. unfold write, memConn_Writer. case_match; intros; by simplify_eq. Qed.

Lemma memConn_write_part (w : memConn) (p : bytes) w' n e :
  write w p = (w', Some (n, e)) -> m_got w' = m_got w ++ take n p.
Proof. unfold write, memConn_Writer. case_match; intros; by simplify_eq. Qed.

#[export] Instance memConn_WriterSpec : WriterSpec memConn := {|
  delivered := m_got;
  write_all := memConn_write_all;
  write_part := memConn_write_part
|}.
