(* ===== verification/Control.v ===== *)
(** * Control sessions: [src/internal/server/stats.go] and [control_manager.go]

    A control session owns a context and two channels that several goroutines
    share; they live in a heap of [chans], and a [controlEntry] holds
    references to them, so two entries can share one and an old entry can
    outlive its place in the manager. *)

From S2P Require Import Prelude Msg.

(** ** Counters ([stats.go]) *)

Record ReqWorkConnStats := mkRS {
  rs_requested : Z;
  rs_enqueued : Z;
  rs_dropped : Z;
  rs_sent : Z;
  rs_inflight : Z
}.

Definition zeroStats : ReqWorkConnStats := mkRS 0 0 0 0 0.

Definition add_requested (s : ReqWorkConnStats) (n : Z) : ReqWorkConnStats :=
  mkRS (add64 (rs_requested s) n) (rs_enqueued s) (rs_dropped s) (rs_sent s) (rs_inflight s).
Definition add_enqueued (s : ReqWorkConnStats) (n : Z) : ReqWorkConnStats :=
  mkRS (rs_requested s) (add64 (rs_enqueued s) n) (rs_dropped s) (rs_sent s) (rs_inflight s).
Definition add_dropped (s : ReqWorkConnStats) (n : Z) : ReqWorkConnStats :=
  mkRS (rs_requested s) (rs_enqueued s) (add64 (rs_dropped s) n) (rs_sent s) (rs_inflight s).
Definition add_sent (s : ReqWorkConnStats) (n : Z) : ReqWorkConnStats :=
  mkRS (rs_requested s) (rs_enqueued s) (rs_dropped s) (add64 (rs_sent s) n) (rs_inflight s).
Definition add_inflight (s : ReqWorkConnStats) (n : Z) : ReqWorkConnStats :=
  mkRS (rs_requested s) (rs_enqueued s) (rs_dropped s) (rs_sent s) (add64 (rs_inflight s) n).

Record ReqWorkConnSnapshot := mkRSnap {
  Requested : Z; Enqueued : Z; Dropped : Z; Sent : Z; Inflight : Z
}.

(** [Snapshot] of a possibly nil [*ReqWorkConnStats], read while no counter
    changes. *)
Definition Snapshot (s : option ReqWorkConnStats) : ReqWorkConnSnapshot :=
  match s with
  | None => mkRSnap 0 0 0 0 0
  | Some s => mkRSnap (rs_requested s) (rs_enqueued s) (rs_dropped s) (rs_sent s) (rs_inflight s)
  end.

(** ** The channels of a session *)

Definition controlReqChSize : Z := 2048.
Definition controlSendChSize : Z := 1024.

(** [len(reqCh)], the messages buffered in [sendCh], and whether the context
    is cancelled ([done] closed). *)
Record chans := mkChans {
  reqCh : Z;
  sendCh : list Message;
  done_ : bool
}.

Definition newChans : chans := mkChans 0 [] false.

Definition setReqCh (c : chans) (n : Z) : chans := mkChans n (sendCh c) (done_ c).
Definition setSendCh (c : chans) (l : list Message) : chans := mkChans (reqCh c) l (done_ c).
(** Calling the session's [context.CancelFunc]. *)
Definition cancel (c : chans) : chans := mkChans (reqCh c) (sendCh c) true.

Definition reqCh_free (c : chans) : bool := reqCh c <? controlReqChSize.
Definition sendCh_free (c : chans) : bool := Z.of_nat (length (sendCh c)) <? controlSendChSize.

(** ** [controlEntry] *)

(** The session whose context and channels are meant. *)
Abbreviation sid := nat (only parsing).

Record controlEntry := mkEntry {
  ce_cancel : sid;
  ce_reqCh : sid;
  ce_sendCh : sid;
  ce_done : sid
}.

Abbreviation heap := (list chans).

(** [Send]: non-blocking, the message is dropped when the queue is full. *)
Definition Send (ce : controlEntry) (m : Message) (h : heap) : heap :=
  alter (fun c => if sendCh_free c then setSendCh c (sendCh c ++ [m]) else c) (ce_sendCh ce) h.

(** [SendReqWorkConn]: the outcomes of its [select]; none while it blocks, both
    when the queue has room and the session is cancelled. *)
Definition SendReqWorkConn (ce : controlEntry) (h : heap) : list (heap * bool) :=
  match h !! ce_reqCh ce with
  | Some c => if reqCh_free c then [(<[ce_reqCh ce := setReqCh c (reqCh c + 1)]> h, true)] else []
  | None => []
  end ++
  match h !! ce_done ce with
  | Some c => if done_ c then [(h, false)] else []
  | None => []
  end.

(** ** [controlManager] *)

Record controlManager := mkCM { entries : gmap string controlEntry }.

Definition Register (cm : controlManager) (runID : string) (cancel_ reqCh_ sendCh_ done__ : sid)
    (h : heap) : controlManager * heap :=
  let h' := match entries cm !! runID with
            | Some old => alter cancel (ce_cancel old) h
            | None => h
            end in
  (mkCM (<[runID := mkEntry cancel_ reqCh_ sendCh_ done__]> (entries cm)), h').

Definition Remove (cm : controlManager) (runID : string) : controlManager :=
  mkCM (delete runID (entries cm)).

Definition GetEntry (cm : controlManager) (runID : string) : option controlEntry := entries cm !! runID.
