(* ===== verification/ControlWriter.v ===== *)
(** * The control write path: [src/internal/server/control_writer.go]

    One goroutine per session drains the refill queue and the response queue
    onto the session's writer. It runs beside the goroutines that fill the
    queues, cancel the session and count refills, and beside the runtime that
    fires its timer, so [run] is given as its sequence of atomic actions: a
    program counter [wpc] and [wstep] listing what the goroutine can do next.
    [wsys_step] adds the environment. *)

From S2P Require Import Prelude Json Msg Wire Bufio Control.

Definition reqWorkBatchMax : Z := 128.
Definition reqWorkBatchMid : Z := 64.
Definition reqWorkBatchLow : Z := 16.

(** Durations in microseconds. *)
Definition reqWorkFlushFloor : Z := 50.
Definition reqWorkFlushDefault : Z := 200.
Definition reqWorkFlushCeil : Z := 400.

Definition reqWorkBacklogHigh : Z := 512.
Definition reqWorkBacklogMid : Z := 128.

Definition controlWriteBufferBytes : N := 64 * 1024.

Definition batchLimit (q : Z) : Z :=
  if reqWorkBacklogHigh <=? q then reqWorkBatchMax
  else if reqWorkBacklogMid <=? q then reqWorkBatchMid
  else reqWorkBatchLow.

Definition flushDelay (q : Z) : Z :=
  if reqWorkBacklogHigh <=? q then reqWorkFlushFloor
  else if reqWorkBacklogMid <=? q then reqWorkFlushDefault
  else reqWorkFlushCeil.

(** ** [time.Timer] *)

Inductive timer :=
  | TStopped
  | TArmed (d : Z)
  | TFired.

(** [t.Stop()]; since Go 1.23 it also discards the tick of a timer that has
    fired, so the drain that follows it finds the channel empty. *)
Definition Stop (t : timer) : bool * timer :=
  match t with
  | TArmed _ | TFired => (true, TStopped)
  | TStopped => (false, TStopped)
  end.

Definition Reset (t : timer) (d : Z) : timer := TArmed d.

Definition drain (t : timer) : timer := match t with TFired => TStopped | _ => t end.

Definition stopTimer (t : timer) : timer :=
  let '(active, t') := Stop t in
  if negb active then drain t' else t'.

Definition resetTimer (t : timer) (d : Z) : timer :=
  Reset (stopTimer t) d.

Section writer.
Context {W : Type} `{Writer W}.

Record controlWriter := mkCW {
  cw_bw : bufWriter W;
  cw_flushTimer : timer;
  cw_pendingFlush : bool
}.

(** [sendLoop] up to [cw.run()]. *)
Definition sendLoop (w : W) : controlWriter :=
  mkCW (NewWriterSize w controlWriteBufferBytes) (stopTimer (TArmed 3600000000)) false.

Definition flush (cw : controlWriter) : controlWriter * option string :=
  if negb (cw_pendingFlush cw) then (cw, None)
  else
    match Flush (cw_bw cw) with
    | (bw, Some e) => (mkCW bw (cw_flushTimer cw) (cw_pendingFlush cw), Some e)
    | (bw, None) => (mkCW bw (stopTimer (cw_flushTimer cw)) false, None)
    end.

(** [msg.WriteMsg(cw.bw, m)], then [cw.pendingFlush = true] if it succeeded. *)
Definition writeMsg (pooled : bytes) (cw : controlWriter) (m : Message)
    : controlWriter * option string :=
  match WriteMsg bufWrite pooled (cw_bw cw) m with
  | (bw, Some e) => (mkCW bw (cw_flushTimer cw) (cw_pendingFlush cw), Some e)
  | (bw, None) => (mkCW bw (cw_flushTimer cw) true, None)
  end.

(** What follows a [writeReq]. *)
Inductive wcont :=
  | KBatch
  | KLoop
  | KFull (limit : Z).

Inductive wpc :=
  | RTop
  | RFast
  | RSelect
  | RSent (count : Z) (k : wcont)
  | RInflight (count : Z) (k : wcont)
  | RWrite (count : Z) (k : wcont)
  | RArm (k : wcont)
  | RBatchLimit
  | RBatch (limit batch : Z)
  | RFlush
  | RResp (m : Message)
  | RRespWrite (m : Message)
  | RDefer
  | RExit.

Inductive wlabel :=
  | WTau
  | WRecvReq
  | WRecvMsg (m : Message)
  | WReq (count : Z)
  | WResp (m : Message)
  | WFail (e : string).

(** [WReq] and [WResp] label the calls of [WriteMsg]. *)

Definition afterReq (k : wcont) : wpc :=
  match k with
  | KBatch => RBatchLimit
  | KLoop => RTop
  | KFull limit => if reqWorkBatchMid <=? limit then RFlush else RTop
  end.

(** The head of [writeReq(count)]: its guard and the test of [cw.stats]. *)
Definition writeReq (st : option ReqWorkConnStats) (count : Z) (k : wcont) : wpc :=
  if count <=? 0 then afterReq k
  else match st with Some _ => RSent count k | None => RWrite count k end.

(** The shared state the goroutine acts on. *)
Definition shared : Type := chans * option ReqWorkConnStats.

Definition woutcome : Type := wlabel * shared * controlWriter * wpc.

(** A receive from [reqCh] and from [sendCh]. *)
Definition recv_req (ch : chans) (st : option ReqWorkConnStats) (cw : controlWriter) (next : wpc)
    : list woutcome :=
  if 0 <? reqCh ch then [(WRecvReq, (setReqCh ch (reqCh ch - 1), st), cw, next)] else [].

Definition recv_msg (ch : chans) (st : option ReqWorkConnStats) (cw : controlWriter) : list woutcome :=
  match sendCh ch with
  | m :: rest => [(WRecvMsg m, (setSendCh ch rest, st), cw, RResp m)]
  | [] => []
  end.

Definition recv_tick (ch : chans) (st : option ReqWorkConnStats) (cw : controlWriter) : list woutcome :=
  match cw_flushTimer cw with
  | TFired => [(WTau, (ch, st), mkCW (cw_bw cw) TStopped (cw_pendingFlush cw), RFlush)]
  | _ => []
  end.

(** A [default] case, taken when no other case is ready. *)
Definition or_default {A} (l : list A) (d : A) : list A := match l with [] => [d] | _ => l end.

(** [flush] and [writeMsg], returning from [run] on an error. *)
Definition flush_then (sh : shared) (cw : controlWriter) (next : wpc) : list woutcome :=
  match flush cw with
  | (cw', None) => [(WTau, sh, cw', next)]
  | (cw', Some e) => [(WFail e, sh, cw', RDefer)]
  end.

Definition write_then (pooled : bytes) (sh : shared) (cw : controlWriter) (m : Message)
    (l : wlabel) (next : wpc) : list woutcome :=
  match writeMsg pooled cw m with
  | (cw', None) => [(l, sh, cw', next)]
  | (cw', Some e) => [(l, sh, cw', RDefer)]
  end.

Definition wstep (pooled : bytes) (sh : shared) (cw : controlWriter) (pc : wpc) : list woutcome :=
  let '(ch, st) := sh in
  match pc with
  | RTop => [(WTau, sh, cw, if done_ ch then RDefer else RFast)]
  | RFast => or_default (recv_req ch st cw (writeReq st 1 KBatch)) (WTau, sh, cw, RSelect)
  | RSelect =>
      (if done_ ch then [(WTau, sh, cw, RDefer)] else [])
      ++ recv_req ch st cw (writeReq st 1 KBatch)
      ++ recv_msg ch st cw
      ++ recv_tick ch st cw
  | RSent count k =>
      [(WTau, (ch, (fun s => add_sent s count) <$> st), cw, RInflight count k)]
  | RInflight count k =>
      [(WTau, (ch, (fun s => add_inflight s (- count)) <$> st), cw, RWrite count k)]
  | RWrite count k => write_then pooled sh cw (MReqWorkConn (mkReqWorkConn count)) (WReq count) (RArm k)
  | RArm k =>
      [(WTau, sh, mkCW (cw_bw cw) (resetTimer (cw_flushTimer cw) (flushDelay (reqCh ch)))
                    (cw_pendingFlush cw), afterReq k)]
  | RBatchLimit =>
      let limit := batchLimit (reqCh ch) in
      [(WTau, sh, cw, RBatch (if limit <=? 0 then 1 else limit) 0)]
  | RBatch limit batch =>
      if batch <? limit then
        or_default (recv_req ch st cw (RBatch limit (batch + 1)))
          (WTau, sh, cw, if batch =? 0 then RTop else writeReq st batch KLoop)
      else [(WTau, sh, cw, writeReq st batch (KFull limit))]
  | RFlush => flush_then sh cw RTop
  | RResp m => flush_then sh cw (RRespWrite m)
  | RRespWrite m => write_then pooled sh cw m (WResp m) RFlush
  | RDefer =>
      [(WTau, sh, mkCW (fst (Flush (cw_bw cw))) (cw_flushTimer cw) (cw_pendingFlush cw), RExit)]
  | RExit => []
  end.

(** ** The writer and its environment *)

Record wsys := mkWsys { w_sh : shared; w_cw : controlWriter; w_pc : wpc }.

Inductive elabel :=
  | EWriter (l : wlabel)
  | ESignal
  | ESend (m : Message)
  | ECancel
  | ETick
  | EStats.

(** The environment puts a signal on [reqCh] or a message on [sendCh] while
    there is room, cancels the session, lets an armed timer fire and changes
    the counters it shares with other sessions. *)
Inductive wsys_step : wsys -> elabel -> wsys -> Prop :=
  | ws_writer pooled sh cw pc l sh' cw' pc' :
      (l, sh', cw', pc') ∈ wstep pooled sh cw pc ->
      wsys_step (mkWsys sh cw pc) (EWriter l) (mkWsys sh' cw' pc')
  | ws_signal ch st cw pc :
      reqCh_free ch = true ->
      wsys_step (mkWsys (ch, st) cw pc) ESignal (mkWsys (setReqCh ch (reqCh ch + 1), st) cw pc)
  | ws_send ch st cw pc m :
      sendCh_free ch = true ->
      wsys_step (mkWsys (ch, st) cw pc) (ESend m) (mkWsys (setSendCh ch (sendCh ch ++ [m]), st) cw pc)
  | ws_cancel ch st cw pc :
      wsys_step (mkWsys (ch, st) cw pc) ECancel (mkWsys (cancel ch, st) cw pc)
  | ws_tick sh bw d p pc :
      wsys_step (mkWsys sh (mkCW bw (TArmed d) p) pc) ETick (mkWsys sh (mkCW bw TFired p) pc)
  | ws_stats ch s s' cw pc :
      wsys_step (mkWsys (ch, Some s) cw pc) EStats (mkWsys (ch, Some s') cw pc).

(** One scheduling decision, and the execution a schedule drives. *)
Inductive wchoice :=
  | CRun (j : nat)
  | CSignal
  | CSend (m : Message)
  | CCancel
  | CTick.

Definition wsched_step (s : wsys) (c : wchoice) : option (elabel * wsys) :=
  let '(ch, st) := w_sh s in
  match c with
  | CRun j =>
      match wstep [] (w_sh s) (w_cw s) (w_pc s) !! j with
      | Some (l, sh', cw', pc') => Some (EWriter l, mkWsys sh' cw' pc')
      | None => None
      end
  | CSignal =>
      if reqCh_free ch
      then Some (ESignal, mkWsys (setReqCh ch (reqCh ch + 1), st) (w_cw s) (w_pc s)) else None
  | CSend m =>
      if sendCh_free ch
      then Some (ESend m, mkWsys (setSendCh ch (sendCh ch ++ [m]), st) (w_cw s) (w_pc s)) else None
  | CCancel => Some (ECancel, mkWsys (cancel ch, st) (w_cw s) (w_pc s))
  | CTick =>
      match cw_flushTimer (w_cw s) with
      | TArmed _ =>
          Some (ETick, mkWsys (w_sh s) (mkCW (cw_bw (w_cw s)) TFired (cw_pendingFlush (w_cw s))) (w_pc s))
      | _ => None
      end
  end.

Fixpoint wsched_run (s : wsys) (cs : list wchoice) : option (list elabel * wsys) :=
  match cs with
  | [] => Some ([], s)
  | c :: cs' =>
      match wsched_step s c with
      | Some (l, s1) =>
          match wsched_run s1 cs' with
          | Some (tr, s2) => Some (l :: tr, s2)
          | None => None
          end
      | None => None
      end
  end.

Definition wsys_init (w : W) (st : option ReqWorkConnStats) : wsys :=
  mkWsys (newChans, st) (sendLoop w) RTop.
End writer.
Arguments controlWriter _ : clear implicits.
Arguments wsys _ : clear implicits.
