(* ===== verification/ControlWriterSpec.v ===== *)
(** * What the control writer promises

    Conservation and order of what goes through the two queues, the integrity
    of the byte stream, the flush deadline and the shutdown, on every
    interleaving of the writer with its environment. *)

From S2P Require Import Prelude Json Msg Wire Bufio Control ControlWriter.

(** ** Traces *)

(** The message of a [WriteMsg] call. *)
Definition msg_of (l : elabel) : list Message :=
  match l with
  | EWriter (WReq n) => [MReqWorkConn (mkReqWorkConn n)]
  | EWriter (WResp m) => [m]
  | _ => []
  end.
Definition msgs (tr : list elabel) : list Message := tr ≫= msg_of.
Definition stream (ms : list Message) : bytes := concat (List.map frame ms).

Definition req_count (l : elabel) : Z := match l with EWriter (WReq n) => n | _ => 0 end.
Definition is_signal (l : elabel) : Z := match l with ESignal => 1 | _ => 0 end.
Definition req_ok (l : elabel) : Prop :=
  match l with EWriter (WReq n) => 1 <= n <= reqWorkBatchMax | _ => True end.

Definition resp_of (l : elabel) : list Message := match l with EWriter (WResp m) => [m] | _ => [] end.
Definition send_of (l : elabel) : list Message := match l with ESend m => [m] | _ => [] end.

(** A flush in front of a response has failed: that response is lost. *)
Definition failed (l : elabel) : bool := match l with EWriter (WFail _) => true | _ => false end.

(** [run] is returning. *)
Definition ended (pc : wpc) : bool := match pc with RDefer | RExit => true | _ => false end.

Definition by_writer (l : elabel) : Z := match l with EWriter _ => 1 | _ => 0 end.

(** Signals and responses the goroutine has received and not yet written. *)
Definition held_req (pc : wpc) : Z :=
  match pc with
  | RSent n _ | RInflight n _ | RWrite n _ => n
  | RBatch _ b => b
  | _ => 0
  end.
Definition held_resp (pc : wpc) : list Message :=
  match pc with RResp m | RRespWrite m => [m] | _ => [] end.

(** ** Local invariants *)

Definition limit_ok (z : Z) : Prop := 1 <= z <= reqWorkBatchMax.
Definition cont_ok (k : wcont) : Prop := match k with KFull l => limit_ok l | _ => True end.
Definition pc_ok (pc : wpc) : Prop :=
  match pc with
  | RSent n k | RInflight n k | RWrite n k => limit_ok n /\ cont_ok k
  | RArm k => cont_ok k
  | RBatch l b => limit_ok l /\ 0 <= b <= l
  | _ => True
  end.

Lemma batchLimit_ok q : limit_ok (batchLimit q).
Proof.
  unfold limit_ok, batchLimit, reqWorkBatchMax, reqWorkBatchMid, reqWorkBatchLow.
  repeat case_match; lia.
Qed.

Lemma flushDelay_le q : 0 < flushDelay q <= reqWorkFlushCeil.
Proof.
  unfold flushDelay, reqWorkFlushFloor, reqWorkFlushDefault, reqWorkFlushCeil.
  repeat case_match; lia.
Qed.

Lemma stopTimer_stopped t : stopTimer t = TStopped.
Proof. by destruct t. Qed.

Lemma held_afterReq k : held_req (afterReq k) = 0 /\ held_resp (afterReq k) = [] /\ pc_ok (afterReq k).
Proof. destruct k; simpl; [done..|]. by destruct (_ <=? _). Qed.

Lemma held_writeReq st n k :
  limit_ok n -> cont_ok k ->
  held_req (writeReq st n k) = n /\ held_resp (writeReq st n k) = [] /\ pc_ok (writeReq st n k).
Proof.
  intros Hn Hk. unfold writeReq. rewrite (proj2 (Z.leb_gt n 0)) by (unfold limit_ok in Hn; lia).
  by destruct st.
Qed.

Lemma elem_of_or_default {A} (x : A) l d :
  x ∈ or_default l d -> x ∈ l \/ (l = [] /\ x = d).
Proof. destruct l; simpl; [|by left]. intros ->%list_elem_of_singleton. by right. Qed.

(** Splits [H : outcome ∈ wstep ..] into the outcomes of the [wstep] equation. *)
Ltac wstep_cases :=
  repeat match goal with
    | H : _ ∈ _ ++ _ |- _ => apply elem_of_app in H as [H|H]
    | H : _ ∈ or_default _ _ |- _ => apply elem_of_or_default in H as [H | [? H] ]
    | H : _ ∈ recv_req _ _ _ _ |- _ => unfold recv_req in H
    | H : _ ∈ recv_msg _ _ _ |- _ => unfold recv_msg in H
    | H : _ ∈ recv_tick _ _ _ |- _ => unfold recv_tick in H
    | H : _ ∈ flush_then _ _ _ |- _ => unfold flush_then in H
    | H : _ ∈ write_then _ _ _ _ _ _ |- _ => unfold write_then in H
    | H : _ ∈ [_] |- _ => apply list_elem_of_singleton in H
    | H : _ ∈ [] |- _ => by apply not_elem_of_nil in H
    | H : _ ∈ (if ?b then _ else _) |- _ => destruct b eqn:?
    | H : _ ∈ (match ?x with _ => _ end) |- _ => destruct x eqn:?
    end; simplify_eq/=.

Section spec.
Context {W : Type} `{WriterSpec W}.
Implicit Types (cw : controlWriter W) (s : wsys W).

(** *** The two queues *)

Lemma wstep_held pooled ch st cw pc l ch' st' cw' pc' :
  (l, (ch', st'), cw', pc') ∈ wstep pooled (ch, st) cw pc ->
  pc_ok pc -> 0 <= reqCh ch ->
  pc_ok pc' /\
  req_ok (EWriter l) /\
  reqCh ch + held_req pc = reqCh ch' + held_req pc' + req_count (EWriter l) /\
  (held_resp pc ++ sendCh ch = resp_of (EWriter l) ++ held_resp pc' ++ sendCh ch'
   \/ failed (EWriter l) = true /\ resp_of (EWriter l) = []) /\
  (failed (EWriter l) = true -> ended pc' = true) /\
  (ended pc = true -> ended pc' = true /\ resp_of (EWriter l) = []) /\
  done_ ch' = done_ ch /\ 0 <= reqCh ch' <= reqCh ch.
Proof.
  intros Hs Hpc Hq. destruct pc; cbn [wstep] in Hs; wstep_cases;
    repeat match goal with
      | H : (_ <? _) = true |- _ => apply Z.ltb_lt in H
      | H : (_ <? _) = false |- _ => apply Z.ltb_ge in H
      | |- context [if ?b then _ else _] => destruct b eqn:?; simpl
      | |- context [afterReq ?k] => destruct (held_afterReq k) as (-> & -> & ?)
      | |- context [batchLimit ?q] => pose proof (batchLimit_ok q); generalize dependent (batchLimit q); intros
      | |- context [writeReq ?st ?n ?k] =>
          destruct (held_writeReq st n k) as (-> & -> & ?);
          [unfold limit_ok, reqWorkBatchMax in *; lia | by simpl; intuition | ]
      end; unfold limit_ok in *; intuition (try done; try lia).
Qed.
Definition resps (tr : list elabel) : list Message := tr ≫= resp_of.
Definition sends (tr : list elabel) : list Message := tr ≫= send_of.

Record queues_inv (tr : list elabel) (s : wsys W) : Prop := {
  qi_pc : pc_ok (w_pc s);
  qi_len : 0 <= reqCh (fst (w_sh s)) <= controlReqChSize;
  qi_count : Forall req_ok tr;
  qi_req : sum_with is_signal tr
           = reqCh (fst (w_sh s)) + held_req (w_pc s) + sum_with req_count tr;
  qi_resp : existsb failed tr = false ->
            sends tr = resps tr ++ held_resp (w_pc s) ++ sendCh (fst (w_sh s));
  qi_prefix : resps tr `prefix_of` sends tr;
  qi_fail : existsb failed tr = true -> ended (w_pc s) = true
}.

Lemma queues_inv_holds w st tr s :
  exec wsys_step (wsys_init w st) tr s -> queues_inv tr s.
Proof.
  intros He. eapply exec_invariant; [|clear tr s He|exact He].
  { by split. }
  intros tr s l s' _ [Hpc Hlen Hc Hr Hm Hp Hf] Hstep.
  unfold resps, sends in *.
  destruct Hstep as [pooled [ch st0] cw pc wl [ch' st'] cw' pc' Hw| | | | |]; simpl in *.
  2-6: split; cbn [w_pc w_sh fst]; autorewrite with drp; simpl; unfold resps, sends;
    autorewrite with drp; simpl; rewrite ?app_nil_r, ?orb_false_r;
    repeat match goal with H : reqCh_free _ = true |- _ => apply Z.ltb_lt in H end;
    try done; try lia; try (apply Forall_app; by repeat constructor).
  - destruct (wstep_held _ _ _ _ _ _ _ _ _ _ Hw Hpc ltac:(lia)) as (? & ? & ? & Hresp & Hfail & Hend & ? & ?).
    split; cbn [w_pc w_sh fst]; autorewrite with drp; unfold resps, sends; autorewrite with drp;
      cbn [existsb send_of sum_with foldr is_signal]; rewrite ?app_nil_r, ?orb_false_r;
      try done; try lia.
    + apply Forall_app. by repeat constructor.
    + intros [Hf1 Hf2]%orb_false_iff. destruct Hresp as [E|[E _] ]; [|congruence].
      by rewrite (Hm Hf1), E, <- app_assoc.
    + destruct (existsb failed tr) eqn:Ef.
      * destruct (Hend (Hf eq_refl)) as [_ ->]. by rewrite app_nil_r.
      * destruct Hresp as [E|[_ ->] ]; [|by rewrite app_nil_r].
        rewrite (Hm eq_refl), E, app_assoc. by eexists.
    + intros [Hf1|Hf2]%orb_true_iff; [by apply Hend, Hf | by apply Hfail].
  - intros Hf0. by rewrite (Hm Hf0), <- !app_assoc.
  - etrans; [exact Hp|]. by eexists.
Qed.

(** *** The byte stream and the flush timer *)

Definition is_req (m : Message) : Prop := match m with MReqWorkConn _ => True | _ => False end.

(** The flush timer runs, within the flush delays, or has fired. *)
Definition timer_due (t : timer) : Prop :=
  match t with TArmed d => 0 < d <= reqWorkFlushCeil | TFired => True | TStopped => False end.

Definition flush_due (cw : controlWriter W) : Prop :=
  b_buf (cw_bw cw) <> [] -> cw_pendingFlush cw = true /\ timer_due (cw_flushTimer cw).

Definition flush_state (cw : controlWriter W) (pc : wpc) : Prop :=
  match pc with
  | RFlush => b_buf (cw_bw cw) <> [] -> cw_pendingFlush cw = true
  | RArm _ => cw_pendingFlush cw = true
  | RRespWrite _ | RExit => b_buf (cw_bw cw) = []
  | RDefer => True
  | _ => flush_due cw
  end.

(** Every message up to the last response is delivered; [D] is what the
    connection had delivered before [sendLoop]. *)
Definition resps_delivered (D : bytes) (ms : list Message) (cw : controlWriter W) : Prop :=
  exists l1 l2, ms = l1 ++ l2 /\ Forall is_req l2 /\
    D ++ stream l1 `prefix_of` delivered (b_wr (cw_bw cw)).

Record stream_ok (D : bytes) (ms : list Message) (cw : controlWriter W) (pc : wpc) : Prop := {
  so_prefix : delivered (b_wr (cw_bw cw)) `prefix_of` D ++ stream ms;
  so_pushed : b_err (cw_bw cw) = None -> pushed (cw_bw cw) = D ++ stream ms;
  so_flush : b_err (cw_bw cw) = None -> flush_state cw pc;
  so_resp : b_err (cw_bw cw) = None -> pc <> RFlush -> resps_delivered D ms cw;
  so_err : b_err (cw_bw cw) <> None -> ended pc = true
}.

Lemma stream_snoc ms m : stream (ms ++ [m]) = stream ms ++ frame m.
Proof. unfold stream. rewrite map_app, concat_app. simpl. by rewrite app_nil_r. Qed.

(** Steps that leave the buffered writer alone. *)
Lemma stream_ok_pc D ms cw pc cw' pc' :
  stream_ok D ms cw pc -> ended pc = false -> pc <> RFlush ->
  cw_bw cw' = cw_bw cw -> (flush_state cw pc -> flush_state cw' pc') ->
  stream_ok D ms cw' pc'.
Proof.
  intros [Hp Hu Hf Hr He] Hn Hne E Hf'. unfold resps_delivered in Hr.
  split; unfold resps_delivered; rewrite ?E; auto.
  intros Hb. apply He in Hb. congruence.
Qed.

Lemma flush_due_afterReq cw k : flush_due cw -> flush_state cw (afterReq k).
Proof. intros Hd. destruct k; simpl; try done. case_match; [|done]. intros Hb. by apply Hd. Qed.

Lemma flush_due_writeReq cw st n k : flush_due cw -> flush_state cw (writeReq st n k).
Proof.
  intros Hd. unfold writeReq. case_match; [by apply flush_due_afterReq|]. by destruct st.
Qed.

Lemma pushed_delivered (b : bufWriter W) : b_buf b = [] -> delivered (b_wr b) = pushed b.
Proof. intros E. unfold pushed. by rewrite E, app_nil_r. Qed.

Lemma stream_ok_flushed D ms bw t p pc :
  pushed bw = D ++ stream ms -> b_err bw = None -> b_buf bw = [] ->
  (forall k, pc <> RArm k) ->
  stream_ok D ms (mkCW bw t p) pc.
Proof.
  intros Hp He Hb Ha. pose proof (pushed_delivered _ Hb) as Hdl. rewrite Hp in Hdl.
  split; cbn [cw_bw].
  - by rewrite Hdl.
  - done.
  - intros _. unfold flush_state, flush_due. cbn [cw_bw]. rewrite Hb. destruct pc; try done. by destruct (Ha k).
  - intros _ _. exists ms, []. cbn [cw_bw]. rewrite app_nil_r, Hdl. by repeat constructor.
  - done.
Qed.

Lemma flush_stream D ms cw pc cw' :
  stream_ok D ms cw pc -> flush cw = (cw', None) ->
  pc = RFlush \/ (exists m, pc = RResp m) ->
  pushed (cw_bw cw') = D ++ stream ms /\ b_err (cw_bw cw') = None /\ b_buf (cw_bw cw') = [].
Proof.
  intros [Hp Hu Hf Hr He] Hfl Hpc.
  assert (b_err (cw_bw cw) = None) as Hn.
  { destruct (b_err (cw_bw cw)) eqn:E; [|done]. exfalso.
    specialize (He ltac:(done)). by destruct Hpc as [-> | [m ->] ]. }
  assert (b_buf (cw_bw cw) <> [] -> cw_pendingFlush cw = true) as Hpend.
  { specialize (Hf Hn). destruct Hpc as [-> | [m ->] ]; [done|]. intros Hb. by apply Hf. }
  unfold flush in Hfl. destruct (cw_pendingFlush cw); cbn [negb] in Hfl.
  - destruct (Flush (cw_bw cw)) as [bw [e|]] eqn:EF; simplify_eq. cbn [cw_bw].
    destruct (Flush_ok _ _ EF) as (Hd & Hb & He' & _).
    rewrite <- pushed_delivered, Hd by done. auto.
  - simplify_eq. repeat split; auto. destruct (b_buf (cw_bw cw')); [done|]. by specialize (Hpend ltac:(done)).
Qed.

Lemma flush_fail_stream D ms cw pc cw' e :
  stream_ok D ms cw pc -> ended pc = false -> flush cw = (cw', Some e) ->
  stream_ok D ms cw' RDefer.
Proof.
  intros [Hp Hu Hf Hr He] Hn Hfl. unfold flush in Hfl.
  destruct (cw_pendingFlush cw); cbn [negb] in Hfl; [|done].
  destruct (Flush (cw_bw cw)) as [bw [e'|]] eqn:EF; simplify_eq.
  destruct (Flush_fail _ _ _ EF) as [Hpre He'].
  split; cbn [cw_bw]; rewrite ?He'; try done.
  destruct (b_err (cw_bw cw)) eqn:E.
  - rewrite (Flush_sticky _ _ E) in EF. by simplify_eq.
  - by rewrite <- Hu.
Qed.

Lemma write_stream D ms cw pc cw' m pooled r :
  stream_ok D ms cw pc -> ended pc = false -> writeMsg pooled cw m = (cw', r) ->
  match r with
  | None =>
      pushed (cw_bw cw') = D ++ stream (ms ++ [m]) /\ b_err (cw_bw cw') = None /\
      cw_pendingFlush cw' = true /\
      (pc <> RFlush -> resps_delivered D ms cw')
  | Some _ => stream_ok D (ms ++ [m]) cw' RDefer
  end.
Proof.
  intros [Hp Hu Hf Hr He] Hn Hw.
  assert (b_err (cw_bw cw) = None) as Hb.
  { destruct (b_err (cw_bw cw)) eqn:E; [|done]. rewrite He in Hn; done. }
  unfold writeMsg, WriteMsg in Hw. rewrite frameInto_frame in Hw.
  destruct (bufWrite (cw_bw cw) (frame m)) as [bw [e|]] eqn:Ew; simplify_eq; cbn [cw_bw].
  - destruct (bufWrite_err _ _ _ _ Hb Ew) as [Hpre He'].
    rewrite Hu, <- app_assoc, <- stream_snoc in Hpre by done.
    split; cbn [cw_bw]; by rewrite ?He'.
  - destruct (bufWrite_ok _ _ _ Hb Ew) as (E & He' & _).
    rewrite E, Hu, stream_snoc, app_assoc by done. repeat split; try done.
    intros Hne. destruct (Hr Hb Hne) as (l1 & l2 & E1 & Hl & Hd).
    exists l1, l2. repeat split; try done. etrans; [exact Hd|]. by eapply bufWrite_mono.
Qed.

(** After a successful [WriteMsg]. *)
Lemma written_stream D ms cw m pc :
  pushed (cw_bw cw) = D ++ stream (ms ++ [m]) -> b_err (cw_bw cw) = None ->
  cw_pendingFlush cw = true ->
  pc = RFlush \/ is_req m /\ (exists k, pc = RArm k) /\ resps_delivered D ms cw ->
  stream_ok D (ms ++ [m]) cw pc.
Proof.
  intros Hp He Hpend Hpc. split; rewrite ?He; try done.
  - rewrite <- Hp. by eexists.
  - intros _. destruct Hpc as [-> | (_ & [k ->] & _)]; simpl; auto.
  - intros _ Hne. destruct Hpc as [-> | (Hm & _ & l1 & l2 & -> & Hl & Hd)]; [done|].
    exists l1, (l2 ++ [m]). rewrite app_assoc. repeat split; try done.
    apply Forall_app. by repeat constructor.
Qed.

Lemma defer_stream D ms cw t p :
  stream_ok D ms cw RDefer -> stream_ok D ms (mkCW (fst (Flush (cw_bw cw))) t p) RExit.
Proof.
  intros [Hp Hu Hf Hr He]. destruct (Flush (cw_bw cw)) as [bw [e|]] eqn:EF.
  - destruct (Flush_fail _ _ _ EF) as [Hpre He']. split; cbn [cw_bw fst]; rewrite ?He'; try done.
    destruct (b_err (cw_bw cw)) eqn:E.
    + rewrite (Flush_sticky _ _ E) in EF. by simplify_eq.
    + by rewrite <- Hu.
  - destruct (Flush_ok _ _ EF) as (Hd & Hb & He' & Hn). apply stream_ok_flushed; try done.
    cbn. rewrite <- pushed_delivered, Hd by done. by apply Hu.
Qed.

Lemma wstep_stream pooled D ms ch st cw pc l ch' st' cw' pc' :
  stream_ok D ms cw pc ->
  (l, (ch', st'), cw', pc') ∈ wstep pooled (ch, st) cw pc ->
  stream_ok D (ms ++ msg_of (EWriter l)) cw' pc'.
Proof.
  intros Hok Hs.
  destruct (ended pc) eqn:Hend.
  { destruct pc; try done; cbn [wstep] in Hs; wstep_cases; rewrite ?app_nil_r. by apply defer_stream. }
  destruct pc; try done; cbn [wstep] in Hs; wstep_cases; rewrite ?app_nil_r;
    repeat match goal with
      | H : flush _ = (_, Some _) |- _ => by eapply flush_fail_stream
      | H : flush _ = (_, None) |- _ => eapply flush_stream in H as (? & ? & ?); [|exact Hok|eauto];
          match goal with |- stream_ok _ _ ?c _ => destruct c end; by apply stream_ok_flushed
      | H : writeMsg _ _ _ = (_, _) |- _ => eapply write_stream in H; [|exact Hok|done]; try done; rename H into Hwr
      end.
  all: try (eapply stream_ok_pc; [exact Hok | done | done | done | ]; simpl; intros Hd; try done;
            repeat case_match; try done; by eauto using flush_due_afterReq, flush_due_writeReq).
  - eapply stream_ok_pc; [exact Hok | done | done | done | ]. simpl. intros Hd Hb. by apply Hd.
  - destruct Hwr as (? & ? & ? & Hr). apply written_stream; try done. right.
    split; [done|]. split; [by eexists | by apply Hr].
  - eapply stream_ok_pc; [exact Hok | done | done | done | ]. intros Hd. apply flush_due_afterReq.
    intros _. split; [exact Hd | apply flushDelay_le].
  - destruct Hwr as (? & ? & ? & _). apply written_stream; auto.
Qed.

Lemma stream_ok_holds w st tr s :
  exec wsys_step (wsys_init w st) tr s -> stream_ok (delivered w) (msgs tr) (w_cw s) (w_pc s).
Proof.
  revert tr s. apply exec_invariant.
  { by apply stream_ok_flushed. }
  intros tr s l s' _ Hok Hstep. unfold msgs in *. rewrite bind_snoc.
  destruct Hstep as [pooled [ch st0] cw pc wl [ch' st'] cw' pc' Hw| | | |sh bw d p pc|]; simpl in *;
    rewrite ?app_nil_r; try done.
  - by eapply wstep_stream.
  - destruct Hok as [Hp Hu Hf Hr He]. split; try done. intros Hb. specialize (Hf Hb).
    destruct pc; try done; intros Hne; destruct (Hf Hne); done.
Qed.

(** *** Shutdown *)

(** An upper bound on the actions left once the session is cancelled. *)
Definition cont_rank (k : wcont) : Z := match k with KBatch => 141 | KLoop => 3 | KFull _ => 4 end.
Definition rank (pc : wpc) : Z :=
  match pc with
  | RExit => 0
  | RDefer => 1
  | RTop => 2
  | RFlush => 3
  | RRespWrite _ => 4
  | RResp _ => 5
  | RArm k => cont_rank k
  | RWrite _ k => 1 + cont_rank k
  | RInflight _ k => 2 + cont_rank k
  | RSent _ k => 3 + cont_rank k
  | RBatch limit batch => 8 + (limit - batch)
  | RBatchLimit => 140
  | RSelect => 145
  | RFast => 146
  end.

Lemma rank_afterReq k : rank (afterReq k) < cont_rank k.
Proof. destruct k; simpl; try lia. case_match; simpl; lia. Qed.

Lemma rank_writeReq st n k : rank (writeReq st n k) <= 3 + cont_rank k.
Proof.
  unfold writeReq. case_match; [|destruct st; simpl; lia].
  pose proof (rank_afterReq k). lia.
Qed.

Lemma wstep_rank pooled ch st cw pc l sh' cw' pc' :
  (l, sh', cw', pc') ∈ wstep pooled (ch, st) cw pc ->
  pc_ok pc -> done_ ch = true -> rank pc' < rank pc.
Proof.
  intros Hs Hpc Hd. destruct pc; cbn [wstep] in Hs; rewrite ?Hd in Hs; wstep_cases;
    repeat match goal with
      | H : (_ <? _) = true |- _ => apply Z.ltb_lt in H
      | H : (_ <? _) = false |- _ => apply Z.ltb_ge in H
      | |- context [if ?b then _ else _] => destruct b eqn:?; simpl
      | |- context [afterReq ?k] => pose proof (rank_afterReq k); generalize dependent (afterReq k); intros
      | |- context [batchLimit ?q] => pose proof (batchLimit_ok q); generalize dependent (batchLimit q); intros
      | |- context [writeReq ?st ?n ?k] =>
          pose proof (rank_writeReq st n k); generalize dependent (writeReq st n k); simpl; intros
      end; unfold limit_ok, reqWorkBatchMax in *; simpl in *; try lia;
    destruct k; simpl; lia.
Qed.

Lemma wstep_progress pooled ch st cw pc :
  done_ ch = true -> pc <> RExit -> exists o, o ∈ wstep pooled (ch, st) cw pc.
Proof.
  intros Hd Hne. assert (forall l : list (woutcome (W:=W)), l <> [] -> exists o, o ∈ l) as Hl.
  { intros [|o l] ?; [done|]. exists o. left. }
  apply Hl. destruct pc; try done; cbn [wstep]; rewrite ?Hd; try done;
    unfold or_default, flush_then, write_then; repeat case_match; try done.
Qed.

(** ** The properties *)

(** C6: Nothing that enters the two queues is lost, duplicated or reordered.
    Every refill signal put on [reqCh] is still queued, held by the writer, or
    counted in exactly one [ReqWorkConn] written, each with a count between 1
    and 128; the responses written are a prefix of the responses sent, in
    order, and together with the one held and those queued they are all of
    them, unless a flush has failed, which ends the writer. *)
Theorem writer_queues (w : W) (st : option ReqWorkConnStats) (tr : list elabel) (s : wsys W)
    (Hexec : exec wsys_step (wsys_init w st) tr s) :
  sum_with is_signal tr
  = reqCh (fst (w_sh s)) + held_req (w_pc s) + sum_with req_count tr /\
  0 <= reqCh (fst (w_sh s)) <= controlReqChSize /\
  Forall req_ok tr /\
  resps tr `prefix_of` sends tr /\
  (existsb failed tr = false ->
   sends tr = resps tr ++ held_resp (w_pc s) ++ sendCh (fst (w_sh s))) /\
  (existsb failed tr = true -> ended (w_pc s) = true).
Proof. by destruct (queues_inv_holds _ _ _ _ Hexec). Qed.

(** C25: Single-writer integrity of the byte stream. What has reached the
    connection is a prefix of the frames of the messages written, one after
    the other, whatever the buffering, the flushes and the failures; and while
    no write has failed, the rest of them is in the buffer. *)
Theorem writer_stream (w : W) (st : option ReqWorkConnStats) (tr : list elabel) (s : wsys W)
    (Hexec : exec wsys_step (wsys_init w st) tr s) :
  delivered (b_wr (cw_bw (w_cw s))) `prefix_of` delivered w ++ stream (msgs tr) /\
  (b_err (cw_bw (w_cw s)) = None ->
   delivered (b_wr (cw_bw (w_cw s))) ++ b_buf (cw_bw (w_cw s)) = delivered w ++ stream (msgs tr)) /\
  (b_err (cw_bw (w_cw s)) <> None -> ended (w_pc s) = true).
Proof. by destruct (stream_ok_holds _ _ _ _ Hexec). Qed.

(** C11: No byte waits for ever in the buffer. Whenever the writer blocks in
    its [select] with no failed write, every response written so far has been
    delivered together with all that was written before it, and if anything
    is still buffered, which can only be refill requests, the flush timer has
    fired or runs with at most the 400 microseconds of [reqWorkFlushCeil]. *)
Theorem writer_flush_deadline (w : W) (st : option ReqWorkConnStats) (tr : list elabel) (s : wsys W)
    (Hexec : exec wsys_step (wsys_init w st) tr s)
    (Hwait : w_pc s = RSelect) (Hok : b_err (cw_bw (w_cw s)) = None) :
  resps_delivered (delivered w) (msgs tr) (w_cw s) /\
  (delivered (b_wr (cw_bw (w_cw s))) = delivered w ++ stream (msgs tr) \/
   cw_pendingFlush (w_cw s) = true /\ timer_due (cw_flushTimer (w_cw s))).
Proof.
  destruct (stream_ok_holds _ _ _ _ Hexec) as [_ Hu Hf Hr _]. rewrite Hwait in *.
  split; [by apply Hr|]. destruct (b_buf (cw_bw (w_cw s))) eqn:Eb.
  - left. rewrite <- Hu by done. by apply pushed_delivered.
  - right. apply (Hf Hok). by rewrite Eb.
Qed.

Lemma exec_rank s tr s' :
  exec wsys_step s tr s' -> pc_ok (w_pc s) -> 0 <= reqCh (fst (w_sh s)) ->
  done_ (fst (w_sh s)) = true ->
  sum_with by_writer tr + rank (w_pc s') <= rank (w_pc s) /\ pc_ok (w_pc s').
Proof.
  induction 1 as [s|s l s1 tr s2 Hstep _ IH]; intros Hpc Hq Hd; [by simpl|].
  destruct Hstep as [pooled [ch st0] cw pc wl [ch' st'] cw' pc' Hw| | | | |]; simpl in *.
  2-6: destruct IH; [done|simpl in *; lia|done|]; split; [lia|done].
  destruct (wstep_held _ _ _ _ _ _ _ _ _ _ Hw Hpc Hq) as (Hpc' & _ & _ & _ & _ & _ & Hd' & Hq').
  pose proof (wstep_rank _ _ _ _ _ _ _ _ _ Hw Hpc Hd).
  destruct IH; [done|lia|congruence|]. split; [lia|done].
Qed.

Lemma rank_bound pc : pc_ok pc -> 0 <= rank pc <= 146.
Proof.
  destruct pc; simpl; unfold limit_ok, reqWorkBatchMax; intros Hpc; try (destruct k; simpl); lia.
Qed.

(** C26: Shutdown. Once the session is cancelled the writer takes at most 146
    further actions, however many signals and messages still arrive, it can
    always take one until it has returned, and when it has returned without a
    write error everything it wrote has been delivered. *)
Theorem writer_shutdown (w : W) (st : option ReqWorkConnStats) (tr : list elabel) (s : wsys W)
    (Hexec : exec wsys_step (wsys_init w st) tr s)
    (Hdone : done_ (fst (w_sh s)) = true) :
  (forall tr' s', exec wsys_step s tr' s' -> sum_with by_writer tr' <= 146) /\
  (w_pc s <> RExit -> exists l s', wsys_step s (EWriter l) s') /\
  (w_pc s = RExit -> b_err (cw_bw (w_cw s)) = None ->
   delivered (b_wr (cw_bw (w_cw s))) = delivered w ++ stream (msgs tr)).
Proof.
  destruct (queues_inv_holds _ _ _ _ Hexec) as [Hpc Hq _ _ _ _ _].
  destruct (stream_ok_holds _ _ _ _ Hexec) as [_ Hu Hf _ _].
  repeat split.
  - intros tr' s' He. destruct (exec_rank _ _ _ He Hpc ltac:(lia) Hdone) as [Hr Hpc'].
    pose proof (rank_bound _ Hpc). pose proof (rank_bound _ Hpc'). lia.
  - intros Hne. destruct s as [ [ch st0] cw pc]. simpl in *.
    destruct (wstep_progress [] ch st0 cw pc Hdone Hne) as [ [ [ [l sh'] cw'] pc'] Ho].
    eexists _, _. by eapply ws_writer.
  - intros E Hn. rewrite <- Hu, <- pushed_delivered; try done. specialize (Hf Hn). by rewrite E in Hf.
Qed.
End spec.

(** ** Witnesses *)

Lemma wsched_step_sound {W} `{Writer W} (s s' : wsys W) c l :
  wsched_step s c = Some (l, s') -> wsys_step s l s'.
Proof.
  destruct s as [ [ch st] [bw t p] pc]. unfold wsched_step. cbn [w_sh w_cw w_pc cw_flushTimer cw_bw cw_pendingFlush].
  destruct c as [j| |m| |].
  - destruct (_ !! j) as [ [ [ [wl sh'] cw'] pc']|] eqn:E; [|done]. intros. simplify_eq.
    eapply ws_writer, list_elem_of_lookup_2, E.
  - destruct (reqCh_free ch) eqn:?; [|done]. intros. simplify_eq. by constructor.
  - destruct (sendCh_free ch) eqn:?; [|done]. intros. simplify_eq. by constructor.
  - intros. simplify_eq. constructor.
  - destruct t; try done. intros. simplify_eq. constructor.
Qed.

Lemma wsched_run_sound {W} `{Writer W} (s s' : wsys W) cs tr :
  wsched_run s cs = Some (tr, s') -> exec wsys_step s tr s'.
Proof.
  revert s tr; induction cs as [|c cs IH]; intros s tr; simpl; [intros; simplify_eq; constructor|].
  destruct (wsched_step s c) as [ [l s1]|] eqn:E; [|done].
  destruct (wsched_run s1 cs) as [ [tr' s2]|] eqn:E2; [|done]. intros. simplify_eq.
  econstructor; [by eapply wsched_step_sound | by apply IH].
Qed.

(** Three signals and two responses. *)
Definition demo_sched : list wchoice :=
  [CSignal; CSignal; CSignal; CSend (MPong (mkPong "")); CSend (MPong (mkPong "late"))]
  ++ replicate 18 (CRun 0).
Definition demo_init : wsys memConn := wsys_init (mkMem [] 1000) (Some zeroStats).
Definition demo_run (cs : list wchoice) : list elabel * wsys memConn :=
  default ([], demo_init) (wsched_run demo_init cs).

Lemma demo_exec cs : exec wsys_step demo_init (fst (demo_run cs)) (snd (demo_run cs)).
Proof.
  unfold demo_run. destruct (wsched_run demo_init cs) as [ [tr s]|] eqn:Ew; simpl; [|constructor].
  by eapply wsched_run_sound.
Qed.

Lemma writer_queues_witness :
  let '(tr, s) := demo_run demo_sched in
  resps tr = [] /\ held_resp (w_pc s) = [MPong (mkPong "")] /\
  sends tr = [MPong (mkPong ""); MPong (mkPong "late")] /\
  3 = reqCh (fst (w_sh s)) + held_req (w_pc s) + sum_with req_count tr.
Proof.
  pose proof (writer_queues _ _ _ _ (demo_exec demo_sched)) as (Hq & _ & _ & _ & Hr & _).
  assert (existsb failed (fst (demo_run demo_sched)) = false) as E by (vm_compute; reflexivity).
  specialize (Hr E). revert Hq Hr. vm_compute. auto.
Defined.

Lemma writer_stream_witness :
  m_got (b_wr (cw_bw (w_cw (snd (demo_run demo_sched)))))
  ++ b_buf (cw_bw (w_cw (snd (demo_run demo_sched))))
  = stream [MReqWorkConn (mkReqWorkConn 1); MReqWorkConn (mkReqWorkConn 2)].
Proof.
  pose proof (writer_stream _ _ _ _ (demo_exec demo_sched)) as (_ & Hs & _).
  refine (eq_trans (Hs _) _); vm_compute; reflexivity.
Defined.

(** At the [select] with both requests written but still buffered. *)
Lemma writer_flush_deadline_witness :
  let s := snd (demo_run (take 21 demo_sched)) in
  w_pc s = RSelect /\ b_buf (cw_bw (w_cw s)) <> [] /\
  cw_pendingFlush (w_cw s) = true /\ timer_due (cw_flushTimer (w_cw s)).
Proof.
  pose proof (writer_flush_deadline _ _ _ _ (demo_exec (take 21 demo_sched))
    ltac:(vm_compute; reflexivity) ltac:(vm_compute; reflexivity)) as [_ [E | [Hp Ht] ] ].
  - exfalso. revert E. vm_compute. discriminate.
  - cbv zeta. split; [vm_compute; reflexivity|]. split; [vm_compute; discriminate|]. auto.
Defined.

Lemma writer_shutdown_witness :
  let s := snd (demo_run (demo_sched ++ [CCancel] ++ replicate 4 (CRun 0))) in
  w_pc s = RExit /\
  m_got (b_wr (cw_bw (w_cw s)))
  = stream [MReqWorkConn (mkReqWorkConn 1); MReqWorkConn (mkReqWorkConn 2); MPong (mkPong "")].
Proof.
  pose proof (writer_shutdown _ _ _ _
    (demo_exec (demo_sched ++ [CCancel] ++ replicate 4 (CRun 0))) ltac:(vm_compute; reflexivity))
    as (_ & _ & Hd).
  cbv zeta. split; [vm_compute; reflexivity|].
  etrans; [apply Hd; vm_compute; reflexivity|]. vm_compute. reflexivity.
Defined.
