(* ===== verification/ProxyRegister.v ===== *)
(** * Proxy registration: [src/internal/server/proxy_register.go]

    [handleNewProxy] turns a [NewProxy] message into the routes of the
    router. It holds no lock of its own: each [Add] and [Remove] is atomic. *)

From S2P Require Import Prelude Msg Router.

(** The [cfg] of one domain and the [locCfg] of one location. *)
Definition domainConfig (m : NewProxy) (runID domain : string) : RouteConfig :=
  mkRouteConfig domain "/" (np_ProxyName m) runID (np_UseEncryption m) (np_UseCompression m)
    (np_HTTPUser m) (np_HTTPPwd m) (np_HostHeaderRewrite m) (np_Headers m) (np_ResponseHeaders m).

Definition rollback (r : Router) (registered : list string) : Router := foldl Remove r registered.

(** The inner loop over [m.Locations]; on an error the names of [registered]
    are removed. *)
Fixpoint addLocations (r : Router) (cfg : RouteConfig) (locs : list string)
    (registered : list string) : Router * option string :=
  match locs with
  | [] => (r, None)
  | loc :: locs' =>
      match Add r (setLocation cfg loc) with
      | (r', Some err) => (rollback r' registered, Some err)
      | (r', None) => addLocations r' cfg locs' registered
      end
  end.

(** The loop over [m.CustomDomains]. *)
Fixpoint addDomains (r : Router) (m : NewProxy) (runID : string) (domains : list string)
    (registered : list string) : Router * option string :=
  match domains with
  | [] => (r, None)
  | domain :: domains' =>
      let cfg := domainConfig m runID domain in
      let '(r', err) :=
        if Nat.ltb 0 (length (np_Locations m)) then addLocations r cfg (np_Locations m) registered
        else
          match Add r cfg with
          | (r', Some err) => (Remove r' (np_ProxyName m), Some err)
          | (r', None) => (r', None)
          end in
      match err with
      | Some e => (r', Some e)
      | None => addDomains r' m runID domains' (registered ++ [np_ProxyName m])
      end
  end.

Definition failResp (name err : string) : NewProxyResp := mkNewProxyResp name "" err.

(** The router and the session's proxies after the call, and the response it
    puts on [sendCh]. *)
Definition handleNewProxy (h_Router : option Router) (m : NewProxy) (runID : string)
    (registeredProxies : gset string) : option Router * gset string * NewProxyResp :=
  if negb (String.eqb (np_ProxyType m) "http") then
    (h_Router, registeredProxies, failResp (np_ProxyName m) "only http proxy type is supported")
  else
    match h_Router with
    | None => (None, registeredProxies, mkNewProxyResp (np_ProxyName m) ":80" "")
    | Some r =>
        match addDomains r m runID (np_CustomDomains m) [] with
        | (r', Some err) => (Some r', registeredProxies, failResp (np_ProxyName m) err)
        | (r', None) =>
            (Some r', {[np_ProxyName m]} ∪ registeredProxies, mkNewProxyResp (np_ProxyName m) ":80" "")
        end
    end.

(** The [CloseProxy] case of [controlLoop] ([src/internal/server/handle.go]). *)
Definition handleCloseProxy (h_Router : option Router) (m : CloseProxy)
    (registeredProxies : gset string) : option Router * gset string :=
  ((fun r => Remove r (cp_ProxyName m)) <$> h_Router, registeredProxies ∖ {[cp_ProxyName m]}).

(** The router part of [cleanupControlSession] ([src/internal/server/handle.go]):
    the names of the session's map, in some order. *)
Definition removeProxies (r : Router) (registeredProxies : gset string) : Router :=
  rollback r (elements registeredProxies).
