(* ===== verification/ProxyRegisterSpec.v ===== *)
(** * What proxy registration promises

    The routes of a [NewProxy] message as one list, the exact effect of
    [handleNewProxy] on the routing table on every branch, when a refused
    message leaves the table unchanged, and when it does not. *)

From S2P Require Import Prelude Msg Router RouterSpec ProxyRegister.

(** ** The routes of a message *)

Definition domainRoutes (m : NewProxy) (runID domain : string) : list RouteConfig :=
  match np_Locations m with
  | [] => [domainConfig m runID domain]
  | locs => setLocation (domainConfig m runID domain) <$> locs
  end.

Definition routesOf (m : NewProxy) (runID : string) : list RouteConfig :=
  np_CustomDomains m ≫= domainRoutes m runID.

(** What identifies a route in the table. *)
Definition route_key (rc : RouteConfig) : string * string := (rc_Domain rc, rc_Location rc).

Definition free (r : Router) (cfg : RouteConfig) : Prop :=
  forall rc, registered r rc -> route_key rc <> route_key (stored cfg).

(** Adding a list of routes up to the first conflict: the router, the number
    of routes added and the error. *)
Fixpoint addAll (r : Router) (l : list RouteConfig) : Router * nat * option string :=
  match l with
  | [] => (r, O, None)
  | c :: l' =>
      match Add r c with
      | (r', Some e) => (r', O, Some e)
      | (r', None) => let '(r2, n, e) := addAll r' l' in (r2, S n, e)
      end
  end.

Lemma free_Add r cfg : wf r -> snd (Add r cfg) = None <-> free r cfg.
Proof.
  intros Hwf. rewrite Add_ok_iff by done. unfold free, route_key.
  split; intros Hf rc Hr; [intros [= Hd Hl]; by eapply Hf | intros Hd Hl; eapply Hf; [done|]].
  simpl. by rewrite Hd, Hl.
Qed.

Lemma addAll_app r l1 l2 :
  addAll r (l1 ++ l2) =
  let '(r1, n1, e1) := addAll r l1 in
  match e1 with
  | Some _ => (r1, n1, e1)
  | None => let '(r2, n2, e2) := addAll r1 l2 in (r2, (n1 + n2)%nat, e2)
  end.
Proof.
  revert r; induction l1 as [|c l1 IH]; intros r; simpl; [by destruct (addAll r l2) as [ [] ]|].
  destruct (Add r c) as [r' [e|]]; [done|]. rewrite IH.
  destruct (addAll r' l1) as [ [r1 n1] [e1|] ]; [done|].
  by destruct (addAll r1 l2) as [ [] ].
Qed.

Lemma addAll_length r l r1 n e :
  addAll r l = (r1, n, e) ->
  match e with None => n = length l | Some _ => (n < length l)%nat end.
Proof.
  revert r r1 n; induction l as [|c l IH]; intros r r1 n; simpl; [intros; by simplify_eq|].
  destruct (Add r c) as [r' [e'|]]; [intros; simplify_eq; lia|].
  destruct (addAll r' l) as [ [r2 n2] e2] eqn:E. intros. simplify_eq.
  specialize (IH _ _ _ E). destruct e; lia.
Qed.

Lemma addAll_spec r l r1 n e :
  wf r -> addAll r l = (r1, n, e) ->
  wf r1 /\ forall rc, registered r1 rc <-> registered r rc \/ rc ∈ stored <$> take n l.
Proof.
  revert r r1 n; induction l as [|c l IH]; intros r r1 n Hwf; simpl.
  { intros. simplify_eq. split; [done|]. set_solver. }
  destruct (Add r c) as [r' [e'|]] eqn:EA.
  { apply Add_error in EA as [-> _]. intros. simplify_eq. split; [done|]. set_solver. }
  destruct (addAll r' l) as [ [r2 n2] e2] eqn:E. intros. simplify_eq.
  destruct (IH _ _ _ (Add_wf _ _ _ _ Hwf EA) E) as [Hwf1 Hreg]. split; [done|].
  intros rc. rewrite Hreg, (registered_Add r c r') by done. simpl. set_solver.
Qed.

Lemma addAll_Remove r l r1 n e name :
  wf r -> Forall (fun c => rc_ProxyName c = name) l -> addAll r l = (r1, n, e) ->
  Remove r1 name = Remove r name.
Proof.
  intros Hwf Hl. revert r r1 n Hwf; induction Hl as [|c l Hc Hl IH]; intros r r1 n Hwf; simpl;
    [intros; by simplify_eq|].
  destruct (Add r c) as [r' [e'|]] eqn:EA.
  { apply Add_error in EA as [-> _]. intros. by simplify_eq. }
  destruct (addAll r' l) as [ [r2 n2] e2] eqn:E. intros. simplify_eq.
  rewrite (IH _ _ _ (Add_wf _ _ _ _ Hwf EA) E). by apply Remove_Add.
Qed.

(** A list of routes can be added when its keys are free and distinct. *)
Lemma addAll_ok r l :
  wf r ->
  snd (addAll r l) = None <-> Forall (free r) l /\ NoDup (route_key ∘ stored <$> l).
Proof.
  revert r; induction l as [|c l IH]; intros r Hwf; simpl.
  { split; [split; constructor | done]. }
  pose proof (free_Add r c Hwf) as Hfree. rewrite Forall_cons, NoDup_cons.
  destruct (Add r c) as [r' [e'|]] eqn:EA; simpl in *.
  { split; [done|]. intros [ [Hf _] _]. by apply Hfree in Hf. }
  destruct (addAll r' l) as [ [r2 n2] e2] eqn:E. simpl.
  specialize (IH r' (Add_wf _ _ _ _ Hwf EA)). rewrite E in IH. simpl in IH. rewrite IH.
  assert (forall x, free r' x <-> free r x /\ route_key (stored x) <> route_key (stored c)) as Hx.
  { intros x. unfold free. setoid_rewrite (registered_Add r c r' _ Hwf EA). split.
    - intros Hf. split; [auto | intros E'; by apply (Hf (stored c)); [left|] ].
    - intros [Hf Hne] rc [-> |]; [congruence | auto]. }
  assert (free r c) as Hc by (by apply Hfree).
  rewrite !Forall_forall. setoid_rewrite Hx. rewrite list_elem_of_fmap. unfold compose. split.
  - intros [Hl Hnd]. repeat split; [done | intros x Hin; by apply Hl | | done].
    intros (x & Ek & Hin). by destruct (proj2 (Hl x Hin)).
  - intros ([_ Hl] & Hn & Hnd). split; [|done]. intros x Hin. split; [by apply Hl|].
    intros Ek. apply Hn. by exists x.
Qed.

(** ** The loops of [handleNewProxy] *)

Lemma Remove_twice r name : wf r -> Remove (Remove r name) name = Remove r name.
Proof.
  intros Hwf. apply Remove_unused; [by apply Remove_wf|].
  intros rc Hr. by apply registered_Remove in Hr as [_ ?].
Qed.

Lemma rollback_replicate r name k :
  wf r -> rollback r (replicate k name) = if Nat.eqb k 0 then r else Remove r name.
Proof.
  intros Hwf. destruct k as [|k]; [done|]. unfold rollback. simpl.
  induction k as [|k IH]; simpl; [done|]. by rewrite Remove_twice.
Qed.

Lemma addLocations_addAll r cfg locs reg :
  addLocations r cfg locs reg =
  let '(r1, n, e) := addAll r (setLocation cfg <$> locs) in
  (match e with None => r1 | Some _ => rollback r1 reg end, e).
Proof.
  revert r; induction locs as [|loc locs IH]; intros r; simpl; [done|].
  destruct (Add r (setLocation cfg loc)) as [r' [e|]]; [done|]. rewrite IH.
  by destruct (addAll r' _) as [ [] ].
Qed.

Lemma length_domainRoutes m runID d :
  length (domainRoutes m runID d) = Nat.max 1 (length (np_Locations m)).
Proof. unfold domainRoutes. destruct (np_Locations m); [done|]. rewrite length_fmap. simpl. lia. Qed.

(** The routes kept after a conflict: the rollback removes the proxy's name,
    except when the conflict is at a later location of the first domain. *)
Lemma addDomains_addAll r m runID domains k :
  wf r ->
  addDomains r m runID domains (replicate k (np_ProxyName m)) =
  let '(r1, n, e) := addAll r (domains ≫= domainRoutes m runID) in
  (match e with
   | None => r1
   | Some _ =>
       if Nat.eqb k 0 && Nat.ltb n (length (np_Locations m)) then r1 else Remove r1 (np_ProxyName m)
   end, e).
Proof.
  revert r k; induction domains as [|d ds IH]; intros r k Hwf; [done|]. cbn [addDomains].
  rewrite bind_cons, addAll_app.
  pose proof (length_domainRoutes m runID d) as Hlen.
  unfold domainRoutes in Hlen |- * at 1.
  destruct (np_Locations m) as [|loc locs] eqn:El; cbn [length].
  - change (Nat.ltb 0 0) with false. cbv iota. simpl addAll at 1. destruct (Add r _) as [r' [e|]] eqn:EA; simpl.
    { by rewrite andb_false_r. }
    rewrite <- replicate_S_end, IH by (by eapply Add_wf). 
    destruct (addAll r' _) as [ [r2 n2] [e2|] ]; simpl; [|done]. by rewrite andb_false_r.
  - change (Nat.ltb 0 (S (length locs))) with true. cbv iota. rewrite addLocations_addAll.
    destruct (addAll r _) as [ [r1 n1] e1] eqn:E1.
    destruct (addAll_spec _ _ _ _ _ Hwf E1) as [Hwf1 _]. apply addAll_length in E1.
    destruct e1 as [e1|].
    { rewrite rollback_replicate by done. rewrite length_fmap in E1. cbn [length] in *.
      rewrite (proj2 (Nat.ltb_lt _ _)) by lia. by destruct k. }
    rewrite <- replicate_S_end, IH by done. change (Nat.eqb (S k) 0) with false. cbn [andb].
    destruct (addAll r1 _) as [ [r2 n2] [e2|] ]; [|done].
    rewrite (proj2 (Nat.ltb_ge _ _)); [by rewrite andb_false_r|].
    rewrite length_fmap in E1. cbn [length] in *. lia.
Qed.

Lemma addAll_conflict r l r1 n err :
  wf r -> addAll r l = (r1, n, Some err) ->
  exists cfg post owner, l = take n l ++ cfg :: post /\ registered r1 owner /\
    route_key owner = route_key (stored cfg) /\
    err = duplicateError (rc_Domain cfg) (rc_Location (stored cfg)) (rc_ProxyName owner).
Proof.
  revert r r1 n; induction l as [|c l IH]; intros r r1 n Hwf; simpl; [done|].
  destruct (Add r c) as [r' [e'|]] eqn:EA.
  - intros. simplify_eq. apply Add_error in EA as (-> & owner & Hin & Hl & ->).
    apply (slot_registered _ _ _ Hwf) in Hin as [Hr Hd].
    exists c, l, owner. repeat split; try done. unfold route_key. by rewrite Hl, Hd.
  - destruct (addAll r' l) as [ [r2 n2] e2] eqn:E. intros. simplify_eq.
    destruct (IH _ _ _ (Add_wf _ _ _ _ Hwf EA) E) as (cfg & post & owner & El & Hr).
    exists cfg, post, owner. split; [|done]. simpl. by f_equal.
Qed.

Lemma routesOf_name m runID : Forall (fun c => rc_ProxyName c = np_ProxyName m) (routesOf m runID).
Proof.
  apply Forall_forall. intros c (d & Hin & _)%list_elem_of_bind.
  revert Hin. unfold domainRoutes. destruct (np_Locations m).
  - by intros ->%list_elem_of_singleton.
  - intros (loc & -> & _)%list_elem_of_fmap. done.
Qed.

Lemma handleNewProxy_addAll r m runID ps :
  wf r -> np_ProxyType m = "http" ->
  handleNewProxy (Some r) m runID ps =
  let '(r1, n, e) := addAll r (routesOf m runID) in
  match e with
  | None => (Some r1, {[np_ProxyName m]} ∪ ps, mkNewProxyResp (np_ProxyName m) ":80" "")
  | Some err =>
      (Some (if Nat.ltb n (length (np_Locations m)) then r1 else Remove r (np_ProxyName m)),
       ps, failResp (np_ProxyName m) err)
  end.
Proof.
  intros Hwf Ht. unfold handleNewProxy. rewrite Ht, String.eqb_refl. cbn [negb].
  change [] with (replicate 0 (np_ProxyName m)). rewrite addDomains_addAll by done.
  fold (routesOf m runID). destruct (addAll r (routesOf m runID)) as [ [r1 n] [e|] ] eqn:E; [|done].
  cbn [Nat.eqb andb]. destruct (Nat.ltb _ _); [done|].
  by rewrite (addAll_Remove _ _ _ _ _ _ Hwf (routesOf_name m runID) E).
Qed.

Lemma duplicateError_nonempty d l n : duplicateError d l n <> "".
Proof. done. Qed.

(** ** The properties *)

(** C29: [handleNewProxy] accepts an HTTP proxy exactly when the routes of all
    its domains and locations are free and distinct; it then answers with the
    remote address, records the proxy in the session, and adds exactly those
    routes to the table. *)
Theorem handleNewProxy_accepts (r : Router) (m : NewProxy) (runID : string) (ps : gset string)
    (Hwf : wf r) (Hhttp : np_ProxyType m = "http") :
  let '(r', ps', resp) := handleNewProxy (Some r) m runID ps in
  (nr_Error resp = "" <->
   Forall (free r) (routesOf m runID) /\ NoDup (route_key ∘ stored <$> routesOf m runID)) /\
  (nr_Error resp = "" ->
   resp = mkNewProxyResp (np_ProxyName m) ":80" "" /\ ps' = {[np_ProxyName m]} ∪ ps /\
   exists r1, r' = Some r1 /\ wf r1 /\
     forall rc, registered r1 rc <-> registered r rc \/ rc ∈ stored <$> routesOf m runID).
Proof.
  rewrite handleNewProxy_addAll by done. pose proof (addAll_ok r (routesOf m runID) Hwf) as Hok.
  destruct (addAll r (routesOf m runID)) as [ [r1 n] [err|] ] eqn:E; simpl in *.
  - destruct (addAll_conflict _ _ _ _ _ Hwf E) as (? & ? & ? & _ & _ & _ & ->).
    split; [|done]. rewrite <- Hok. done.
  - split; [by rewrite <- Hok|]. intros _. split; [done|]. split; [done|].
    destruct (addAll_spec _ _ _ _ _ Hwf E) as [Hwf1 Hr]. exists r1. split; [done|]. split; [done|].
    intros rc. rewrite Hr. apply addAll_length in E as ->. by rewrite firstn_all.
Qed.

(** C30: What a refused HTTP proxy leaves behind. The answer names the first
    conflicting route and its owner and the session's map is unchanged. When
    the conflict is at a later location of the first domain, the routes added
    before it stay; otherwise every route of the proxy name is removed, those
    this message did not add included. *)
Theorem handleNewProxy_refuses (r : Router) (m : NewProxy) (runID : string) (ps : gset string)
    (Hwf : wf r) (Hhttp : np_ProxyType m = "http") :
  let '(r', ps', resp) := handleNewProxy (Some r) m runID ps in
  nr_Error resp <> "" ->
  ps' = ps /\
  exists r1 added cfg post owner,
    r' = Some r1 /\ routesOf m runID = added ++ cfg :: post /\
    route_key owner = route_key (stored cfg) /\ (registered r owner \/ owner ∈ stored <$> added) /\
    resp = failResp (np_ProxyName m)
             (duplicateError (rc_Domain cfg) (rc_Location (stored cfg)) (rc_ProxyName owner)) /\
    forall rc, registered r1 rc <->
      if Nat.ltb (length added) (length (np_Locations m))
      then registered r rc \/ rc ∈ stored <$> added
      else registered r rc /\ rc_ProxyName rc <> np_ProxyName m.
Proof.
  rewrite handleNewProxy_addAll by done.
  destruct (addAll r (routesOf m runID)) as [ [r1 n] [err|] ] eqn:E; [|done]. intros _.
  split; [done|]. destruct (addAll_conflict _ _ _ _ _ Hwf E) as (cfg & post & owner & El & Ho & Hk & ->).
  destruct (addAll_spec _ _ _ _ _ Hwf E) as [Hwf1 Hr]. pose proof (addAll_length _ _ _ _ _ E) as Hn.
  eexists _, (take n (routesOf m runID)), cfg, post, owner.
  split; [done|]. split; [done|]. split; [done|]. split; [by apply Hr|]. split; [done|].
  intros rc. rewrite length_take, Nat.min_l by (simpl in Hn; lia).
  destruct (Nat.ltb _ _); [apply Hr | apply registered_Remove].
Qed.

(** All-or-nothing registration, where it holds: with at most one location
    and a proxy name no route uses yet, a refused message leaves the routing
    table exactly as it was. *)
Lemma handleNewProxy_rollback (r : Router) (m : NewProxy) (runID : string) (ps : gset string)
    (Hwf : wf r) (Hhttp : np_ProxyType m = "http")
    (Hone : (length (np_Locations m) <= 1)%nat)
    (Hfresh : forall rc, registered r rc -> rc_ProxyName rc <> np_ProxyName m) :
  let '(r', ps', resp) := handleNewProxy (Some r) m runID ps in
  nr_Error resp <> "" -> r' = Some r /\ ps' = ps.
Proof.
  rewrite handleNewProxy_addAll by done.
  destruct (addAll r (routesOf m runID)) as [ [r1 n] [err|] ] eqn:E; [|done]. intros _.
  split; [|done]. f_equal. destruct (Nat.ltb_spec n (length (np_Locations m))) as [Hn|Hn].
  - assert (n = O) as -> by lia. destruct (routesOf m runID); simpl in E; [by simplify_eq|].
    destruct (Add r _) as [r' [e|]] eqn:EA; [apply Add_error in EA as [-> _]; by simplify_eq|].
    by destruct (addAll r' _) as [ [] ].
  - by apply Remove_unused.
Qed.

(** C31: A refused proxy can keep routes for ever. When a message gives a free
    location twice for its first domain, it is refused, yet the first route
    stays in the table; the session does not record the proxy, so the route is
    still there after the session's cleanup. *)
Theorem refused_proxy_leaks_route (r : Router) (m : NewProxy) (runID : string) (ps : gset string)
    (domain loc : string) (ds ls : list string)
    (Hwf : wf r) (Hhttp : np_ProxyType m = "http")
    (Hd : np_CustomDomains m = domain :: ds) (Hl : np_Locations m = loc :: loc :: ls)
    (Hfree : free r (setLocation (domainConfig m runID domain) loc))
    (Hps : np_ProxyName m ∉ ps) :
  let route := stored (setLocation (domainConfig m runID domain) loc) in
  let '(r', ps', resp) := handleNewProxy (Some r) m runID ps in
  nr_Error resp <> "" /\
  exists r1, r' = Some r1 /\ registered (removeProxies r1 ps') route.
Proof.
  cbv zeta. set (c := setLocation (domainConfig m runID domain) loc) in *.
  assert (exists tl, routesOf m runID = c :: c :: tl) as [tl ER].
  { unfold routesOf. rewrite Hd, bind_cons. unfold domainRoutes at 1. rewrite Hl. by eexists. }
  rewrite handleNewProxy_addAll, ER, Hl by done. simpl.
  apply (free_Add r c Hwf) in Hfree. destruct (Add r c) as [r1 [e|]] eqn:E1; [done|].
  pose proof (Add_wf _ _ _ _ Hwf E1) as Hwf1.
  assert (registered r1 (stored c)) as Hreg by (apply (registered_Add r c); auto).
  destruct (Add r1 c) as [r2 [e|]] eqn:E2; simpl.
  - apply Add_error in E2 as (-> & owner & _ & _ & ->). split; [done|]. exists r1. split; [done|].
    unfold removeProxies, rollback.
    assert (forall n, n ∈ elements ps -> n <> np_ProxyName m) as Hne.
    { intros n Hn%elem_of_elements ->. done. }
    revert Hne Hreg. generalize (elements ps) as names. clear. intros names; revert r1.
    induction names as [|n names IH]; intros r1 Hne Hreg; simpl; [done|].
    apply IH; [set_solver|]. apply registered_Remove. split; [done|].
    simpl. intros E. apply (Hne n); [left | done].
  - exfalso. assert (snd (Add r1 c) = None) as Hf by (by rewrite E2).
    apply (free_Add r1 c Hwf1) in Hf. by apply (Hf _ Hreg).
Qed.

(** ** Witnesses *)

Definition demo_proxy (name : string) (domains locs : list string) : NewProxy :=
  mkNewProxy name "http" false false "" "" "" "" ∅ ∅ domains "" locs "" "" "" ∅ ∅ "".

(** The table after a first client registered [web]. *)
Definition demo_router : Router :=
  default New (fst (fst (handleNewProxy (Some New) (demo_proxy "web" ["a.com"] []) "run1" ∅))).

Lemma demo_router_registered rc :
  registered demo_router rc ->
  rc = stored (domainConfig (demo_proxy "web" ["a.com"] []) "run1" "a.com").
Proof.
  assert (exists r', addAll New (routesOf (demo_proxy "web" ["a.com"] []) "run1") = (r', 1%nat, None)
                     /\ demo_router = r') as (r' & E & ->) by (eexists; split; reflexivity).
  intros Hr. apply (addAll_spec _ _ _ _ _ New_wf E) in Hr as [Hr|Hr]; [by apply registered_New in Hr|].
  by apply list_elem_of_singleton in Hr.
Qed.

Lemma demo_router_wf : wf demo_router.
Proof.
  assert (exists r', addAll New (routesOf (demo_proxy "web" ["a.com"] []) "run1") = (r', 1%nat, None)
                     /\ demo_router = r') as (r' & E & ->) by (eexists; split; reflexivity).
  by apply (addAll_spec _ _ _ _ _ New_wf E).
Qed.

Lemma handleNewProxy_accepts_witness :
  let '(r', ps', resp) := handleNewProxy (Some New) (demo_proxy "web" ["a.com"; "*.b.com"] ["/"; "/x"]) "run1" ∅ in
  resp = mkNewProxyResp "web" ":80" "" /\ ps' = {["web"]} ∪ ∅.
Proof.
  pose proof (handleNewProxy_accepts New (demo_proxy "web" ["a.com"; "*.b.com"] ["/"; "/x"]) "run1" ∅
    New_wf eq_refl) as H.
  destruct (handleNewProxy _ _ _ _) as [ [r' ps'] resp] eqn:E. destruct H as [_ H].
  assert (nr_Error resp = "") as Hn.
  { change (nr_Error (snd (r', ps', resp)) = ""). rewrite <- E. vm_compute. reflexivity. }
  destruct (H Hn) as (? & ? & _). auto.
Defined.

Lemma handleNewProxy_refuses_witness :
  let '(r', ps', resp) := handleNewProxy (Some demo_router) (demo_proxy "web" ["b.com"; "a.com"] []) "run2" ∅ in
  nr_Error resp = "domain a.com location / already registered by web" /\
  exists r1, r' = Some r1 /\ forall rc, ~ registered r1 rc.
Proof.
  pose proof (handleNewProxy_refuses demo_router (demo_proxy "web" ["b.com"; "a.com"] []) "run2" ∅
    demo_router_wf eq_refl) as H.
  destruct (handleNewProxy _ _ _ _) as [ [r' ps'] resp] eqn:E.
  assert (nr_Error resp = "domain a.com location / already registered by web") as Hn.
  { change (nr_Error (snd (r', ps', resp)) = "domain a.com location / already registered by web").
    rewrite <- E. vm_compute. reflexivity. }
  split; [done|]. destruct H as (_ & r1 & added & cfg & post & owner & Hr1 & _ & _ & _ & _ & Hreg).
  { by rewrite Hn. }
  exists r1. split; [done|]. intros rc Hrc. apply Hreg in Hrc. simpl in Hrc.
  destruct Hrc as [Hrc Hne].
  apply demo_router_registered in Hrc. by subst rc.
Defined.

Lemma handleNewProxy_rollback_witness :
  let '(r', ps', resp) := handleNewProxy (Some demo_router) (demo_proxy "api" ["b.com"; "a.com"] []) "run2" ∅ in
  r' = Some demo_router /\ ps' = ∅.
Proof.
  pose proof (handleNewProxy_rollback demo_router (demo_proxy "api" ["b.com"; "a.com"] []) "run2" ∅
    demo_router_wf eq_refl) as H.
  destruct (handleNewProxy _ _ _ _) as [ [r' ps'] resp] eqn:E.
  apply H.
  - simpl. lia.
  - intros rc Hr. apply demo_router_registered in Hr as ->. done.
  - change (nr_Error (snd (r', ps', resp)) <> ""). rewrite <- E. vm_compute. discriminate.
Defined.

Lemma refused_proxy_leaks_route_witness :
  let '(r', ps', resp) := handleNewProxy (Some New) (demo_proxy "web" ["a.com"] ["/x"; "/x"]) "run1" ∅ in
  nr_Error resp <> "" /\
  exists r1, r' = Some r1 /\ Lookup (removeProxies r1 ps') "a.com" "/x/y" <> None.
Proof.
  pose proof (refused_proxy_leaks_route New (demo_proxy "web" ["a.com"] ["/x"; "/x"]) "run1" ∅
    "a.com" "/x" [] [] New_wf eq_refl eq_refl eq_refl) as H.
  assert (let '(r', ps', _) := handleNewProxy (Some New) (demo_proxy "web" ["a.com"] ["/x"; "/x"]) "run1" ∅ in
          Lookup (removeProxies (default New r') ps') "a.com" "/x/y" <> None) as Hl
    by (vm_compute; discriminate).
  destruct (handleNewProxy _ _ _ _) as [ [r' ps'] resp]. cbv zeta in H.
  destruct H as [Hn (r1 & -> & _)].
  - intros rc Hr. by apply registered_New in Hr.
  - set_solver.
  - split; [done|]. by exists r1.
Defined.
