(* ===== verification/Server.v ===== *)
(** * The control server: [src/internal/server/handle.go] and [util.go]

    A [Handler] is shared by every connection. A session runs its main
    goroutine ([handleLogin]: bootstrap, register, control loop, cleanup), its
    writer ([ControlWriter]), a watcher of its context and one of its
    heartbeat timer; pools call the closures of [ReqWorkConnFunc] from
    goroutines of their own. The state of the server is [server], each kind of
    goroutine has a program counter and its list of next actions, and
    [gstep] interleaves them all.

    A router operation is atomic (it holds the router's lock), and so is here
    the whole of [handleNewProxy], a sequence of them. *)

From S2P Require Import Prelude Json Msg Wire Bufio Control ControlWriter Auth.
From S2P Require Import Router ProxyRegister.

(** ** [Handler] *)

(** Durations in seconds. [h_OnWorkConn] and [h_OnControlClose] say whether the
    callback is set; its calls are labels. *)
Record Handler := mkHandler {
  h_Token : string;
  h_ReadTimeout : Z;
  h_HeartbeatTimeout : Z;
  h_OnWorkConn : bool;
  h_OnControlClose : bool
}.

Definition defaultReadTimeout : Z := 10.

Definition readTimeout (h : Handler) : Z :=
  if 0 <? h_ReadTimeout h then h_ReadTimeout h else defaultReadTimeout.

(** [generateRunID] of the eight random bytes. *)
Definition generateRunID (buf : list Z) : string := hex buf.

(** ** The first message *)

Inductive first_result :=
  | FClose
  | FWorkConn (m : NewWorkConn)
  | FSession (runID : string) (login : Login).

(** [handleLogin] up to the encryption handshake: what it writes in clear, and
    the session it starts if the handshake succeeds ([crypto]). *)
Definition handleLogin (h : Handler) (login : Login) (buf : list Z) (crypto : bool)
    : list Message * first_result :=
  if negb (VerifyAuth (h_Token h) (lg_Timestamp login) (lg_PrivilegeKey login)) then
    ([MLoginResp (mkLoginResp "drps-0.1.0" "" "authorization failed")], FClose)
  else
    let runID := if String.eqb (lg_RunID login) "" then generateRunID buf else lg_RunID login in
    ([MLoginResp (mkLoginResp "drps-0.1.0" runID "")],
     if crypto then FSession runID login else FClose).

Definition HandleConnection (h : Handler) (first : ReadErr + Message) (buf : list Z) (crypto : bool)
    : list Message * first_result :=
  match first with
  | inl _ => ([], FClose)
  | inr (MLogin login) => handleLogin h login buf crypto
  | inr (MNewWorkConn m) => ([], if h_OnWorkConn h then FWorkConn m else FClose)
  | inr _ => ([], FClose)
  end.

(** ** Sessions *)

(** The main goroutine of a session. *)
Inductive spc :=
  (* bootstrapReqWorkConn, [n] iterations left *)
  | SBoot (n : Z)
  | SBootEnqueued (n : Z)
  | SBootInflight (n : Z)
  | SBootSend (n : Z)
  | SRegister
  (* controlLoop: reading, and sending a response *)
  | SLoop
  | SReply (m : Message)
  | SReturn
  (* cleanupControlSession *)
  | SCancel
  | SUnregister
  | SUnroute (names : list string)
  | SClose
  | SDone.

Section server.
Context {W : Type} `{Writer W}.
Variable h : Handler.

Record Session := mkSession {
  ss_runID : string;
  ss_login : Login;
  ss_pc : spc;
  ss_proxies : gset string;
  ss_connClosed : bool;
  ss_hb : timer;
  ss_hbWatch : bool;
  ss_cw : controlWriter W;
  ss_wpc : wpc
}.

Definition newSession (runID : string) (login : Login) (w : W) : Session :=
  mkSession runID login (SBoot (lg_PoolCount login)) ∅ false TStopped false (sendLoop w) RTop.

Definition setPc (s : Session) (pc : spc) : Session :=
  mkSession (ss_runID s) (ss_login s) pc (ss_proxies s) (ss_connClosed s) (ss_hb s) (ss_hbWatch s)
    (ss_cw s) (ss_wpc s).
Definition setProxies (s : Session) (ps : gset string) : Session :=
  mkSession (ss_runID s) (ss_login s) (ss_pc s) ps (ss_connClosed s) (ss_hb s) (ss_hbWatch s)
    (ss_cw s) (ss_wpc s).
Definition closeConn (s : Session) : Session :=
  mkSession (ss_runID s) (ss_login s) (ss_pc s) (ss_proxies s) true (ss_hb s) (ss_hbWatch s)
    (ss_cw s) (ss_wpc s).
Definition setHb (s : Session) (t : timer) (watch : bool) : Session :=
  mkSession (ss_runID s) (ss_login s) (ss_pc s) (ss_proxies s) (ss_connClosed s) t watch
    (ss_cw s) (ss_wpc s).
Definition setWriter (s : Session) (cw : controlWriter W) (pc : wpc) : Session :=
  mkSession (ss_runID s) (ss_login s) (ss_pc s) (ss_proxies s) (ss_connClosed s) (ss_hb s)
    (ss_hbWatch s) cw pc.

(** ** The server *)

(** A call of the closure [ReqWorkConnFunc(runID)] returns. *)
Inductive qpc :=
  | QLookup (runID : string)
  | QRequested (e : controlEntry)
  | QSend (e : controlEntry)
  | QEnqueued
  | QInflight
  | QDropped
  | QDone.

Record server := mkServer {
  g_heap : heap;
  g_sessions : list Session;
  g_controls : controlManager;
  g_router : option Router;
  g_stats : option ReqWorkConnStats;
  g_calls : list qpc
}.

Definition initServer (r : option Router) (st : option ReqWorkConnStats) : server :=
  mkServer [] [] (mkCM ∅) r st [].

Definition setSession (g : server) (i : sid) (s : Session) : server :=
  mkServer (g_heap g) (<[i := s]> (g_sessions g)) (g_controls g) (g_router g) (g_stats g) (g_calls g).
Definition setHeap (g : server) (hp : heap) : server :=
  mkServer hp (g_sessions g) (g_controls g) (g_router g) (g_stats g) (g_calls g).
Definition setControls (g : server) (cm : controlManager) : server :=
  mkServer (g_heap g) (g_sessions g) cm (g_router g) (g_stats g) (g_calls g).
Definition setRouter (g : server) (r : option Router) : server :=
  mkServer (g_heap g) (g_sessions g) (g_controls g) r (g_stats g) (g_calls g).
Definition addStats (g : server) (f : ReqWorkConnStats -> ReqWorkConnStats) : server :=
  mkServer (g_heap g) (g_sessions g) (g_controls g) (g_router g) (f <$> g_stats g) (g_calls g).
Definition setCall (g : server) (j : nat) (q : qpc) : server :=
  mkServer (g_heap g) (g_sessions g) (g_controls g) (g_router g) (g_stats g) (<[j := q]> (g_calls g)).

Inductive glabel :=
  | GTau
  | GWrote (ms : list Message)
  | GRead (i : sid) (m : Message)
  | GOnWorkConn (m : NewWorkConn)
  | GRegister (runID : string)
  | GOnControlClose (runID : string)
  | GCall (runID : string)
  | GWriter (i : sid) (l : wlabel).

(** *** The main goroutine of session [i] *)

(** [sendCh <- m], blocking while the channel is full. *)
Definition send_sendCh (g : server) (i : sid) (m : Message) : option server :=
  match g_heap g !! i with
  | Some c => if sendCh_free c then Some (setHeap g (<[i := setSendCh c (sendCh c ++ [m])]> (g_heap g))) else None
  | None => None
  end.

(** [reqCh <- struct{}{}], blocking while the channel is full. *)
Definition send_reqCh (g : server) (i : sid) : option server :=
  match g_heap g !! i with
  | Some c => if reqCh_free c then Some (setHeap g (<[i := setReqCh c (reqCh c + 1)]> (g_heap g))) else None
  | None => None
  end.

(** The dispatch of [controlLoop] on a message. *)
Definition controlDispatch (g : server) (i : sid) (s : Session) (m : Message) : server :=
  match m with
  | MPing _ =>
      let s := if 0 <? h_HeartbeatTimeout h then setHb s (Reset (ss_hb s) (h_HeartbeatTimeout h)) (ss_hbWatch s) else s in
      setSession g i (setPc s (SReply (MPong (mkPong ""))))
  | MNewProxy m =>
      let '(r, ps, resp) := handleNewProxy (g_router g) m (ss_runID s) (ss_proxies s) in
      setSession (setRouter g r) i (setPc (setProxies s ps) (SReply (MNewProxyResp resp)))
  | MCloseProxy m =>
      let '(r, ps) := handleCloseProxy (g_router g) m (ss_proxies s) in
      setSession (setRouter g r) i (setProxies s ps)
  | _ => g
  end.

(** The actions with no input from the connection. *)
Definition main_step (g : server) (i : sid) (s : Session) : list (glabel * server) :=
  let goto pc g := setSession g i (setPc s pc) in
  match ss_pc s with
  | SBoot n =>
      if 0 <? n then
        match g_stats g with
        | Some _ => [(GTau, goto (SBootEnqueued n) (addStats g (fun st => add_requested st 1)))]
        | None => [(GTau, goto (SBootSend n) g)]
        end
      else [(GTau, goto SRegister g)]
  | SBootEnqueued n => [(GTau, goto (SBootInflight n) (addStats g (fun st => add_enqueued st 1)))]
  | SBootInflight n => [(GTau, goto (SBootSend n) (addStats g (fun st => add_inflight st 1)))]
  | SBootSend n =>
      match send_reqCh g i with Some g' => [(GTau, goto (SBoot (n - 1)) g')] | None => [] end
  | SRegister =>
      let '(cm, hp) := Register (g_controls g) (ss_runID s) i i i i (g_heap g) in
      let s' := if 0 <? h_HeartbeatTimeout h then setHb s (TArmed (h_HeartbeatTimeout h)) true else s in
      [(GRegister (ss_runID s), setSession (setHeap (setControls g cm) hp) i (setPc s' SLoop))]
  | SLoop => []
  | SReply m =>
      match send_sendCh g i m with Some g' => [(GTau, goto SLoop g')] | None => [] end
  | SReturn => [(GTau, setSession g i (setPc (closeConn (setHb s TStopped (ss_hbWatch s))) SCancel))]
  | SCancel => [(GTau, goto SUnregister (setHeap g (alter cancel i (g_heap g))))]
  | SUnregister =>
      [(GTau, goto (SUnroute (match g_router g with Some _ => elements (ss_proxies s) | None => [] end))
                (setControls g (Control.Remove (g_controls g) (ss_runID s))))]
  | SUnroute (name :: names) =>
      [(GTau, goto (SUnroute names) (setRouter g ((fun r => Router.Remove r name) <$> g_router g)))]
  | SUnroute [] => [(GTau, goto SClose g)]
  | SClose =>
      [(if h_OnControlClose h then GOnControlClose (ss_runID s) else GTau, goto SDone g)]
  | SDone => []
  end.

(** *** A call of [ReqWorkConnFunc]'s closure *)

Definition call_step (g : server) (j : nat) (q : qpc) : list server :=
  match q with
  | QLookup runID =>
      match GetEntry (g_controls g) runID with
      | None => [setCall g j QDone]
      | Some e => [setCall g j (match g_stats g with Some _ => QRequested e | None => QSend e end)]
      end
  | QRequested e => [setCall (addStats g (fun st => add_requested st 1)) j (QSend e)]
  | QSend e =>
      (fun '(hp, ok) =>
         setCall (setHeap g hp) j
           (match g_stats g with
            | Some _ => if (ok : bool) then QEnqueued else QDropped
            | None => QDone
            end)) <$> SendReqWorkConn e (g_heap g)
  | QEnqueued => [setCall (addStats g (fun st => add_enqueued st 1)) j QInflight]
  | QInflight => [setCall (addStats g (fun st => add_inflight st 1)) j QDone]
  | QDropped => [setCall (addStats g (fun st => add_dropped st 1)) j QDone]
  | QDone => []
  end.

(** *** All of them *)

Inductive gstep : server -> glabel -> server -> Prop :=
  (* a connection arrives and [HandleConnection] reads its first message *)
  | gs_session g first buf runID login w ms :
      HandleConnection h first buf true = (ms, FSession runID login) ->
      gstep g (GWrote ms)
        (mkServer (g_heap g ++ [newChans]) (g_sessions g ++ [newSession runID login w])
           (g_controls g) (g_router g) (g_stats g) (g_calls g))
  | gs_workConn g first buf m :
      HandleConnection h first buf true = ([], FWorkConn m) -> gstep g (GOnWorkConn m) g
  | gs_refused g first buf crypto ms :
      HandleConnection h first buf crypto = (ms, FClose) -> gstep g (GWrote ms) g
  | gs_main g i s l g' :
      g_sessions g !! i = Some s -> (l, g') ∈ main_step g i s -> gstep g l g'
  (* [ReadMsg] in [controlLoop]; an error at any time, always once the
     connection is closed *)
  | gs_read g i s m :
      g_sessions g !! i = Some s -> ss_pc s = SLoop -> ss_connClosed s = false ->
      gstep g (GRead i m) (controlDispatch g i s m)
  | gs_readErr g i s :
      g_sessions g !! i = Some s -> ss_pc s = SLoop ->
      gstep g GTau (setSession g i (setPc s SReturn))
  (* the goroutine of [controlLoop] that waits for [ctx.Done()] *)
  | gs_watch g i s c :
      g_sessions g !! i = Some s -> g_heap g !! i = Some c -> done_ c = true ->
      gstep g GTau (setSession g i (closeConn s))
  (* the heartbeat timer and the goroutine that waits for it *)
  | gs_hbFire g i s d :
      g_sessions g !! i = Some s -> ss_hb s = TArmed d ->
      gstep g GTau (setSession g i (setHb s TFired (ss_hbWatch s)))
  | gs_hbClose g i s :
      g_sessions g !! i = Some s -> ss_hb s = TFired -> ss_hbWatch s = true ->
      gstep g GTau (setSession g i (closeConn (setHb s TStopped false)))
  (* the writer of session [i] and its timer *)
  | gs_writer g i s c pooled l c' st' cw' pc' :
      g_sessions g !! i = Some s -> g_heap g !! i = Some c ->
      (l, (c', st'), cw', pc') ∈ wstep pooled (c, g_stats g) (ss_cw s) (ss_wpc s) ->
      gstep g (GWriter i l)
        (mkServer (<[i := c']> (g_heap g)) (<[i := setWriter s cw' pc']> (g_sessions g))
           (g_controls g) (g_router g) st' (g_calls g))
  | gs_tick g i s d :
      g_sessions g !! i = Some s -> cw_flushTimer (ss_cw s) = TArmed d ->
      gstep g GTau
        (setSession g i (setWriter s (mkCW (cw_bw (ss_cw s)) TFired (cw_pendingFlush (ss_cw s))) (ss_wpc s)))
  (* a pool asks for a work connection *)
  | gs_call g runID :
      gstep g (GCall runID)
        (mkServer (g_heap g) (g_sessions g) (g_controls g) (g_router g) (g_stats g)
           (g_calls g ++ [QLookup runID]))
  | gs_callStep g j q g' :
      g_calls g !! j = Some q -> g' ∈ call_step g j q -> gstep g GTau g'.

(** One scheduling decision, and the execution a schedule drives. *)
Inductive gchoice :=
  | GcSession (first : Message) (buf : list Z) (w : W)
  | GcMain (i : sid)
  | GcRead (i : sid) (m : Message)
  | GcReadErr (i : sid)
  | GcWatch (i : sid)
  | GcWriter (i : sid) (j : nat)
  | GcCall (runID : string)
  | GcCallStep (j : nat).

Definition gsched_step (g : server) (c : gchoice) : option (glabel * server) :=
  match c with
  | GcSession first buf w =>
      match HandleConnection h (inr first) buf true with
      | (ms, FSession runID login) =>
          Some (GWrote ms,
                mkServer (g_heap g ++ [newChans]) (g_sessions g ++ [newSession runID login w])
                  (g_controls g) (g_router g) (g_stats g) (g_calls g))
      | _ => None
      end
  | GcMain i =>
      match g_sessions g !! i with
      | Some s => head (main_step g i s)
      | None => None
      end
  | GcRead i m =>
      match g_sessions g !! i with
      | Some s =>
          match ss_pc s, ss_connClosed s with
          | SLoop, false => Some (GRead i m, controlDispatch g i s m)
          | _, _ => None
          end
      | None => None
      end
  | GcReadErr i =>
      match g_sessions g !! i with
      | Some s => match ss_pc s with SLoop => Some (GTau, setSession g i (setPc s SReturn)) | _ => None end
      | None => None
      end
  | GcWatch i =>
      match g_sessions g !! i, g_heap g !! i with
      | Some s, Some c => if done_ c then Some (GTau, setSession g i (closeConn s)) else None
      | _, _ => None
      end
  | GcWriter i j =>
      match g_sessions g !! i, g_heap g !! i with
      | Some s, Some c =>
          match wstep [] (c, g_stats g) (ss_cw s) (ss_wpc s) !! j with
          | Some (l, (c', st'), cw', pc') =>
              Some (GWriter i l,
                    mkServer (<[i := c']> (g_heap g)) (<[i := setWriter s cw' pc']> (g_sessions g))
                      (g_controls g) (g_router g) st' (g_calls g))
          | None => None
          end
      | _, _ => None
      end
  | GcCall runID =>
      Some (GCall runID,
            mkServer (g_heap g) (g_sessions g) (g_controls g) (g_router g) (g_stats g)
              (g_calls g ++ [QLookup runID]))
  | GcCallStep j =>
      match g_calls g !! j with
      | Some q => match head (call_step g j q) with Some g' => Some (GTau, g') | None => None end
      | None => None
      end
  end.

Fixpoint gsched_run (g : server) (cs : list gchoice) : option (list glabel * server) :=
  match cs with
  | [] => Some ([], g)
  | c :: cs' =>
      match gsched_step g c with
      | Some (l, g1) =>
          match gsched_run g1 cs' with
          | Some (tr, g2) => Some (l :: tr, g2)
          | None => None
          end
      | None => None
      end
  end.
End server.
Arguments Session _ : clear implicits.
Arguments server _ : clear implicits.

(** *** Schedules drive executions *)

Lemma gsched_step_sound {W} `{Writer W} (h : Handler) (g g' : server W) c l :
  gsched_step h g c = Some (l, g') -> gstep h g l g'.
Proof.
  destruct c as [first buf w|i|i m|i|i|i j|runID|j]; unfold gsched_step; intros Hs.
  - destruct (HandleConnection _ _ _ _) as [ms [| |runID login] ] eqn:E; simplify_eq. by eapply gs_session.
  - destruct (g_sessions g !! i) as [s|] eqn:Es; [|done]. eapply gs_main; [done|].
    destruct (main_step h g i s); simplify_eq/=. left.
  - destruct (g_sessions g !! i) as [s|] eqn:Es; [|done].
    destruct (ss_pc s) eqn:?, (ss_connClosed s) eqn:?; simplify_eq. by eapply gs_read.
  - destruct (g_sessions g !! i) as [s|] eqn:Es; [|done].
    destruct (ss_pc s) eqn:?; simplify_eq. by eapply gs_readErr.
  - destruct (g_sessions g !! i) as [s|] eqn:Es; [|done]. destruct (g_heap g !! i) as [c|] eqn:Ec; [|done].
    destruct (done_ c) eqn:?; simplify_eq. by eapply gs_watch.
  - destruct (g_sessions g !! i) as [s|] eqn:Es; [|done]. destruct (g_heap g !! i) as [c|] eqn:Ec; [|done].
    destruct (_ !! j) as [ [ [ [wl [c' st'] ] cw'] pc']|] eqn:E; simplify_eq.
    eapply gs_writer; [done..|]. by eapply list_elem_of_lookup_2.
  - simplify_eq. apply gs_call.
  - destruct (g_calls g !! j) as [q|] eqn:Eq; [|done].
    destruct (call_step g j q) as [|g1 l1] eqn:E; simplify_eq/=. eapply gs_callStep; [done|].
    rewrite E. left.
Qed.

Lemma gsched_run_sound {W} `{Writer W} (h : Handler) (g g' : server W) cs tr :
  gsched_run h g cs = Some (tr, g') -> exec (gstep h) g tr g'.
Proof.
  revert g tr; induction cs as [|c cs IH]; intros g tr; simpl; [intros; simplify_eq; constructor|].
  destruct (gsched_step h g c) as [ [l g1]|] eqn:E; [|done].
  destruct (gsched_run h g1 cs) as [ [tr' g2]|] eqn:E2; [|done]. intros. simplify_eq.
  econstructor; [by eapply gsched_step_sound | by apply IH].
Qed.
