(* ===== verification/ServerProofs.v ===== *)
(** * Invariants of the server

    The shape of the server's state (one set of channels per session, entries
    that refer to registered sessions) and the counters, on every
    interleaving. *)

From S2P Require Import Prelude Json Msg Wire Bufio Control ControlWriter ControlWriterSpec.
From S2P Require Import Auth Router ProxyRegister Server.

(** Splits [H : gstep h g l g'] into the actions of the goroutines. *)
Ltac call_cases :=
  repeat match goal with
    | H : _ ∈ _ ++ _ |- _ => apply elem_of_app in H as [H|H]
    | H : _ ∈ _ <$> _ |- _ => apply list_elem_of_fmap in H as (?&?&H)
    | H : _ ∈ SendReqWorkConn _ _ |- _ => unfold SendReqWorkConn in H
    | H : _ ∈ [_] |- _ => apply list_elem_of_singleton in H
    | H : _ ∈ [] |- _ => by apply not_elem_of_nil in H
    | H : _ ∈ (if ?b then _ else _) |- _ => destruct b eqn:?
    | H : _ ∈ (match ?x with _ => _ end) |- _ => destruct x eqn:?
    | H : send_reqCh ?g ?i = Some _ |- _ => unfold send_reqCh in H; destruct (g_heap g !! i) eqn:?
    | H : send_sendCh ?g ?i _ = Some _ |- _ => unfold send_sendCh in H; destruct (g_heap g !! i) eqn:?
    | H : (if ?b then _ else None) = Some _ |- _ => destruct b eqn:?
    end; simplify_eq/=.

Ltac gstep_inv H :=
  let Hm := fresh "Hm" in
  inversion H as
    [ ? ? ? ? ? ? ? ? | ? ? ? ? ? | ? ? ? ? ? ? | ? ? ? ? ? ? Hm | ? ? ? ? ? ? ? | ? ? ? ? ?
    | ? ? ? ? ? ? ? | ? ? ? ? ? ? | ? ? ? ? ? ? | ? ? ? ? ? ? ? ? ? ? ? ? ? | ? ? ? ? ? ?
    | ? ? | ? ? ? ? ? Hm ]; subst; clear H;
  try match type of Hm with
    | _ ∈ main_step _ _ _ _ => unfold main_step in Hm; destruct (ss_pc _) eqn:? in Hm; call_cases
    | _ ∈ call_step _ _ ?q => unfold call_step in Hm; destruct q; call_cases
    end.

Section server_proofs.
Context {W : Type} `{Writer W}.
Variable h : Handler.
Implicit Types (g : server W) (s : Session W).

Definition post_register (pc : spc) : bool :=
  match pc with SBoot _ | SBootEnqueued _ | SBootInflight _ | SBootSend _ | SRegister => false | _ => true end.

Definition ownEntry (i : sid) : controlEntry := mkEntry i i i i.

Definition call_entry (q : qpc) : option controlEntry :=
  match q with QRequested e | QSend e => Some e | _ => None end.

Record srv_ok (g : server W) : Prop := {
  sv_len : length (g_heap g) = length (g_sessions g);
  sv_pc : Forall (fun s => pc_ok (ss_wpc s)) (g_sessions g);
  sv_heap : Forall (fun c => 0 <= reqCh c <= controlReqChSize) (g_heap g);
  sv_ctl : forall runID e, entries (g_controls g) !! runID = Some e ->
             exists i s, e = ownEntry i /\ g_sessions g !! i = Some s /\ ss_runID s = runID /\
               post_register (ss_pc s) = true;
  sv_calls : Forall (fun q => forall e, call_entry q = Some e ->
               exists i, e = ownEntry i /\ (i < length (g_sessions g))%nat) (g_calls g)
}.

(** *** How the updates keep it *)

Lemma ok_setSession g i s s' :
  srv_ok g -> g_sessions g !! i = Some s -> ss_runID s' = ss_runID s -> pc_ok (ss_wpc s') ->
  (post_register (ss_pc s) = true -> post_register (ss_pc s') = true) ->
  srv_ok (setSession g i s').
Proof.
  intros [Hl Hp Hh Hc Hq] Hi Hr Hpc Hpost. split; simpl.
  - by rewrite length_insert.
  - by apply Forall_insert.
  - done.
  - intros runID e He. destruct (Hc _ _ He) as (j & sj & -> & Hj & Hrj & Hpj).
    destruct (decide (i = j)) as [->|Hne].
    + exists j, s'. simplify_eq. rewrite list_lookup_insert_eq by (by eapply lookup_lt_Some).
      repeat split; try done; congruence || auto.
    + exists j, sj. by rewrite list_lookup_insert_ne.
  - setoid_rewrite length_insert. done.
Qed.

Lemma ok_setHeap g hp :
  srv_ok g -> length hp = length (g_heap g) -> Forall (fun c => 0 <= reqCh c <= controlReqChSize) hp ->
  srv_ok (setHeap g hp).
Proof. intros [Hl Hp Hh Hc Hq] E Hf. split; simpl; try done. congruence. Qed.

Lemma ok_heap_insert g i c :
  srv_ok g -> 0 <= reqCh c <= controlReqChSize -> srv_ok (setHeap g (<[i := c]> (g_heap g))).
Proof.
  intros Hok Hc. apply ok_setHeap; [done | by rewrite length_insert|].
  apply Forall_insert; [apply Hok | done].
Qed.

Lemma ok_heap_cancel g i : srv_ok g -> srv_ok (setHeap g (alter cancel i (g_heap g))).
Proof.
  intros Hok. apply ok_setHeap; [done | by rewrite length_alter|].
  apply Forall_alter; [apply Hok|]. intros c Hc Hin. simpl.
  pose proof (sv_heap _ Hok) as Hf. rewrite Forall_lookup in Hf. by apply (Hf _ _ Hc).
Qed.

Lemma ok_addStats g f : srv_ok g -> srv_ok (addStats g f).
Proof. by intros []. Qed.

Lemma ok_setRouter g r : srv_ok g -> srv_ok (setRouter g r).
Proof. by intros []. Qed.

Lemma ok_setControls g cm :
  srv_ok g ->
  (forall runID e, entries cm !! runID = Some e -> entries (g_controls g) !! runID = Some e) ->
  srv_ok (setControls g cm).
Proof. intros [Hl Hp Hh Hc Hq] Hcm. split; simpl; try done. intros runID e He. by apply Hc, Hcm. Qed.

Lemma ok_setCall g j q :
  srv_ok g ->
  (forall e, call_entry q = Some e -> exists i, e = ownEntry i /\ (i < length (g_sessions g))%nat) ->
  srv_ok (setCall g j q).
Proof. intros [Hl Hp Hh Hc Hq] Hcall. split; simpl; try done. by apply Forall_insert. Qed.

Lemma reqCh_free_bound c : 0 <= reqCh c -> reqCh_free c = true -> 0 <= reqCh c + 1 <= controlReqChSize.
Proof. unfold reqCh_free. intros ? ?%Z.ltb_lt. lia. Qed.

Lemma ok_lookup_heap g i c : srv_ok g -> g_heap g !! i = Some c -> 0 <= reqCh c <= controlReqChSize.
Proof. intros Hok E. pose proof (sv_heap _ Hok) as Hf. rewrite Forall_lookup in Hf. by apply (Hf _ _ E). Qed.

Lemma ok_lookup_pc g i s : srv_ok g -> g_sessions g !! i = Some s -> pc_ok (ss_wpc s).
Proof. intros Hok E. pose proof (sv_pc _ Hok) as Hf. rewrite Forall_lookup in Hf. by apply (Hf _ _ E). Qed.

Lemma ok_lookup_call g j q e :
  srv_ok g -> g_calls g !! j = Some q -> call_entry q = Some e ->
  exists i, e = ownEntry i /\ (i < length (g_sessions g))%nat.
Proof. intros Hok E. pose proof (sv_calls _ Hok) as Hf. rewrite Forall_lookup in Hf. by apply (Hf _ _ E). Qed.

Lemma ok_register g i s cm hp :
  srv_ok g -> g_sessions g !! i = Some s -> ss_pc s = SRegister ->
  Register (g_controls g) (ss_runID s) i i i i (g_heap g) = (cm, hp) ->
  forall s', ss_runID s' = ss_runID s -> ss_wpc s' = ss_wpc s -> post_register (ss_pc s') = true ->
  srv_ok (setSession (setHeap (setControls g cm) hp) i s').
Proof.
  intros Hok Hi Hpc HR s' Hr Hw Hpost. unfold Register in HR. simplify_eq.
  assert (srv_ok (setHeap g match entries (g_controls g) !! ss_runID s with
            | Some old => alter cancel (ce_cancel old) (g_heap g) | None => g_heap g end)) as [Hl Hp Hh Hc Hq].
  { destruct (entries _ !! _); [by apply ok_heap_cancel | by destruct g]. }
  split; simpl in *; rewrite ?length_insert; try done.
  - apply Forall_insert; [done|]. rewrite Hw. by eapply ok_lookup_pc.
  - intros runID e. rewrite lookup_insert_Some. intros [ [<- <-] | [Hne He] ].
    + exists i, s'. rewrite list_lookup_insert_eq by (by eapply lookup_lt_Some). by rewrite Hr.
    + destruct (Hc _ _ He) as (j & sj & -> & Hj & Hrj & Hpj). exists j, sj.
      rewrite list_lookup_insert_ne; [done|]. intros ->. simplify_eq.
Qed.

Ltac ok_updates Hok :=
  repeat first
    [ exact Hok | apply ok_addStats | apply ok_setRouter | apply ok_heap_cancel
    | eapply ok_setSession; [ | eassumption | done | simpl; by eapply ok_lookup_pc
        | simpl; first [ done | match goal with E : ss_pc _ = _ |- _ => by rewrite E end ] ]
    | apply ok_heap_insert; [ | simpl; first
        [ by eapply ok_lookup_heap
        | apply reqCh_free_bound; [eapply ok_lookup_heap; [exact Hok | eassumption] | done] ] ]
    | apply ok_setControls; [ | by intros ? ?; apply lookup_delete_Some ]
    | apply ok_setCall; [ | by (intros; repeat case_match) ] ].

Lemma ok_dispatch g i s m :
  srv_ok g -> g_sessions g !! i = Some s -> ss_pc s = SLoop -> srv_ok (controlDispatch h g i s m).
Proof.
  intros Hok Hi Hpc. destruct m; cbn [controlDispatch]; try done; repeat case_match; ok_updates Hok.
Qed.

Lemma srv_ok_step g l g' : srv_ok g -> gstep h g l g' -> srv_ok g'.
Proof.
  intros Hok Hs. gstep_inv Hs; try done.
  all: ok_updates Hok.
  - destruct Hok as [Hl Hp Hh Hc Hq]. split; simpl.
    + rewrite !length_app. simpl. lia.
    + apply Forall_app. by repeat constructor.
    + apply Forall_app. split; [done|]. repeat constructor; done.
    + intros rid e He. destruct (Hc _ _ He) as (j & sj & -> & Hj & Hr). exists j, sj.
      by rewrite lookup_app_l by (by eapply lookup_lt_Some).
    + eapply Forall_impl; [exact Hq|]. simpl. intros q Hq' e He. destruct (Hq' e He) as (i & -> & Hi).
      exists i. rewrite length_app. split; [done|lia].
  - eapply ok_register; try done; by case_match.
  - by apply ok_dispatch.
  - eapply wstep_held in H2 as (Hpc' & _ & _ & _ & _ & _ & _ & Hq');
      [|by eapply ok_lookup_pc | by eapply (ok_lookup_heap g i c)].
    change (srv_ok (setSession (setHeap (mkServer (g_heap g) (g_sessions g) (g_controls g) (g_router g)
              st' (g_calls g)) (<[i := c']> (g_heap g))) i (setWriter s cw' pc'))).
    eapply ok_setSession; try done. apply ok_setHeap; [by destruct Hok | by rewrite length_insert|].
    apply Forall_insert; [apply Hok|]. pose proof (ok_lookup_heap g i c Hok). intuition lia.
  - destruct Hok as [Hl Hp Hh Hc Hq]. split; simpl; try done. apply Forall_app. by repeat constructor.
  - apply ok_setCall; [done|]. intros e He.
    assert (e = c) as -> by (destruct (g_stats g); by simplify_eq/=).
    destruct (sv_ctl _ Hok _ _ Heqo) as (i & s & -> & Hi & _). exists i.
    split; [done | by eapply lookup_lt_Some].
  - apply ok_setCall; [by apply ok_addStats|]. intros ? [= <-]. by eapply (ok_lookup_call g).
Qed.

Lemma srv_ok_holds r st tr g : exec (gstep h) (initServer r st) tr g -> srv_ok g.
Proof.
  revert tr g. apply (exec_invariant _ (fun _ g => srv_ok g)); [by split | intros; by eapply srv_ok_step].
Qed.
End server_proofs.
