(* ===== verification/ServerStats.v ===== *)
(** * The refill counters

    Every [ReqWorkConn] counter of the server, on every interleaving of
    pools, sessions and writers: what has been requested is enqueued or
    dropped, and [inflight] is the number of signals waiting in the queues of
    all sessions, dead ones included. *)

From S2P Require Import Prelude Json Msg Wire Bufio Control ControlWriter ControlWriterSpec.
From S2P Require Import Auth Router ProxyRegister Server ServerProofs.

(** ** What each goroutine has counted and not counted yet *)

(** A call between [requested.Add] and [enqueued.Add] or [dropped.Add]; past
    the send but before [enqueued.Add]; between [enqueued.Add] and
    [inflight.Add]. *)
Definition q_req (q : qpc) : Z := match q with QSend _ | QEnqueued | QDropped => 1 | _ => 0 end.
Definition q_enq (q : qpc) : Z := match q with QEnqueued => 1 | _ => 0 end.
Definition q_inf (q : qpc) : Z := match q with QInflight => 1 | _ => 0 end.

(** The same for the bootstrap, which counts before it sends. *)
Definition b_req (pc : spc) : Z := match pc with SBootEnqueued _ => 1 | _ => 0 end.
Definition b_send (pc : spc) : Z := match pc with SBootInflight _ | SBootSend _ => 1 | _ => 0 end.
Definition b_inf (pc : spc) : Z := match pc with SBootInflight _ => 1 | _ => 0 end.

(** Signals the writer has received and not counted as sent, and those counted
    as sent and not yet taken from [inflight]. *)
Definition w_held (pc : wpc) : Z := match pc with RSent n _ => n | RBatch _ b => b | _ => 0 end.
Definition w_inf (pc : wpc) : Z := match pc with RInflight n _ => n | _ => 0 end.

Section counts.
Context {W : Type} `{Writer W}.
Variable h : Handler.
Implicit Types (g : server W) (s : Session W).

Record counts (st : ReqWorkConnStats) (calls : list qpc) (ss : list (Session W)) (hp : heap) : Prop := {
  ct_requested :
    rs_requested st =64 rs_enqueued st + rs_dropped st + sum_with q_req calls
                        + sum_with (fun s => b_req (ss_pc s)) ss;
  ct_inflight :
    rs_inflight st =64 rs_enqueued st - rs_sent st - sum_with q_inf calls
                       - sum_with (fun s => b_inf (ss_pc s)) ss
                       + sum_with (fun s => w_inf (ss_wpc s)) ss;
  ct_queued :
    rs_enqueued st =64 rs_sent st - sum_with q_enq calls + sum_with (fun s => b_send (ss_pc s)) ss
                       + sum_with (fun s => w_held (ss_wpc s)) ss + sum_with reqCh hp
}.

Definition counts_ok (g : server W) : Prop :=
  forall st, g_stats g = Some st -> counts st (g_calls g) (g_sessions g) (g_heap g).

(** *** The writer *)

Lemma w_afterReq k : w_held (afterReq k) = 0 /\ w_inf (afterReq k) = 0.
Proof. destruct k; simpl; [done..|]. by destruct (_ <=? _). Qed.

Lemma w_writeReq st n k :
  limit_ok n -> w_held (writeReq (Some st) n k) = n /\ w_inf (writeReq (Some st) n k) = 0.
Proof. intros Hn. unfold writeReq. by rewrite (proj2 (Z.leb_gt n 0)) by (unfold limit_ok in Hn; lia). Qed.

Lemma wstep_counts pooled ch st cw pc l ch' st' (cw' : controlWriter W) pc' :
  (l, (ch', st'), cw', pc') ∈ wstep pooled (ch, Some st) cw pc -> pc_ok pc -> 0 <= reqCh ch ->
  exists st1, st' = Some st1 /\
    rs_requested st1 = rs_requested st /\ rs_enqueued st1 = rs_enqueued st /\
    rs_dropped st1 = rs_dropped st /\
    rs_sent st1 + w_held pc' + reqCh ch' =64 rs_sent st + w_held pc + reqCh ch /\
    rs_inflight st1 + rs_sent st1 - w_inf pc' =64 rs_inflight st + rs_sent st - w_inf pc.
Proof.
  intros Hs Hpc Hq. destruct pc; cbn [wstep] in Hs; wstep_cases; eexists; (split; [reflexivity|]); simpl;
    repeat match goal with
      | H : (_ <? _) = true |- _ => apply Z.ltb_lt in H
      | H : (_ <? _) = false |- _ => apply Z.ltb_ge in H
      | |- context [if ?b then _ else _] => destruct b eqn:?; simpl
      | |- context [afterReq ?k] => destruct (w_afterReq k) as (-> & ->)
      | |- context [writeReq (Some ?st) ?n ?k] =>
          destruct (w_writeReq st n k) as (-> & ->);
          [unfold limit_ok, reqWorkBatchMax in *; lia | ]
      end; rewrite ?add64_eqm; repeat split; by apply (eqm_shift 0 0); [|lia].
Qed.

Lemma wstep_None pooled ch cw pc l ch' st' (cw' : controlWriter W) pc' :
  (l, (ch', st'), cw', pc') ∈ wstep pooled (ch, None) cw pc -> st' = None.
Proof. intros Hs. destruct pc; cbn [wstep] in Hs; by wstep_cases. Qed.

Lemma sum_cancel i (hp : heap) : sum_with reqCh (alter cancel i hp) = sum_with reqCh hp.
Proof. by apply sum_with_alter. Qed.

Ltac counts_fin H :=
  simpl; rewrite ?sum_with_app, ?sum_cancel;
  repeat (erewrite sum_with_insert by eassumption);
  rewrite ?add64_eqm; apply (eqm_shift _ _ _ _ H); simpl;
  repeat match goal with E : ss_pc _ = _ |- _ => rewrite E end; simpl;
  repeat match goal with |- context [if ?b then _ else _] => destruct b; simpl end; lia.

Ltac counts_tac Hct :=
  let st := fresh "st" in let Hst := fresh "Hst" in
  let H1 := fresh "H1" in let H2 := fresh "H2" in let H3 := fresh "H3" in
  intros st Hst; try (apply fmap_Some in Hst as (? & Hst & ->));
  destruct (Hct _ Hst) as [H1 H2 H3]; rewrite ?Hst; split; [counts_fin H1 | counts_fin H2 | counts_fin H3].

Lemma counts_session g i s s' :
  counts_ok g -> g_sessions g !! i = Some s ->
  b_req (ss_pc s') = b_req (ss_pc s) -> b_send (ss_pc s') = b_send (ss_pc s) ->
  b_inf (ss_pc s') = b_inf (ss_pc s) -> ss_wpc s' = ss_wpc s ->
  counts_ok (setSession g i s').
Proof.
  intros Hct Hi E1 E2 E3 E4 st Hst. destruct (Hct st Hst) as [H1 H2 H3]. simpl.
  split; repeat (erewrite sum_with_insert by eassumption); rewrite ?E1, ?E2, ?E3, ?E4.
  - apply (eqm_shift _ _ _ _ H1); lia.
  - apply (eqm_shift _ _ _ _ H2); lia.
  - apply (eqm_shift _ _ _ _ H3); lia.
Qed.

Lemma counts_dispatch g i s m :
  counts_ok g -> g_sessions g !! i = Some s -> ss_pc s = SLoop -> counts_ok (controlDispatch h g i s m).
Proof.
  intros Hct Hi Hpc.
  assert (forall r s', ss_pc s' = SLoop \/ (exists m', ss_pc s' = SReply m') -> ss_wpc s' = ss_wpc s ->
            counts_ok (setSession (setRouter g r) i s')) as Hset.
  { intros r s' Hs' Hw. apply (counts_session (setRouter g r) i s s'); try done; rewrite Hpc;
      destruct Hs' as [-> | [m' ->] ]; done. }
  destruct m; cbn [controlDispatch]; try done.
  - destruct (handleNewProxy _ _ _ _) as [ [r ps] resp]. apply Hset; simpl; eauto.
  - unfold handleCloseProxy. apply Hset; simpl; eauto.
  - replace g with (setRouter g (g_router g)) at 1 by (by destruct g).
    destruct (0 <? h_HeartbeatTimeout h); apply Hset; simpl; eauto.
Qed.

Lemma counts_writer g i s c pooled l c' st' cw' pc' :
  srv_ok g -> counts_ok g -> g_sessions g !! i = Some s -> g_heap g !! i = Some c ->
  (l, (c', st'), cw', pc') ∈ wstep pooled (c, g_stats g) (ss_cw s) (ss_wpc s) ->
  counts_ok (mkServer (<[i := c']> (g_heap g)) (<[i := setWriter s cw' pc']> (g_sessions g))
               (g_controls g) (g_router g) st' (g_calls g)).
Proof.
  intros Hok Hct Hi Hc Hw st. simpl. destruct (g_stats g) as [st0|] eqn:E.
  2: { apply wstep_None in Hw as ->. done. }
  destruct (Hct _ E) as [H1 H2 H3].
  apply wstep_counts in Hw as (st1 & -> & Er & Ee & Ed & Es & Ef);
    [|by eapply ok_lookup_pc | by eapply (ok_lookup_heap g i c)].
  intros [= <-]. split; rewrite ?Er, ?Ee, ?Ed; repeat (erewrite sum_with_insert by eassumption); simpl.
  - apply (eqm_shift _ _ _ _ H1); lia.
  - apply (eqm_shift2 _ _ _ _ _ _ H2 Ef); lia.
  - symmetry in Es. apply (eqm_shift2 _ _ _ _ _ _ H3 Es); lia.
Qed.

Lemma counts_step g l g' : srv_ok g -> counts_ok g -> gstep h g l g' -> counts_ok g'.
Proof.
  intros Hok Hct Hs. unfold counts_ok in *. gstep_inv Hs; try done; try (solve [counts_tac Hct]).
  - intros st. rewrite Heqo. intros [= <-]. destruct (Hct _ eq_refl) as [H1 H2 H3].
    split; [counts_fin H1 | counts_fin H2 | counts_fin H3].
  - intros st. congruence.
  - unfold Register in *. simplify_eq. destruct (entries _ !! _); counts_tac Hct.
  - by apply counts_dispatch.
  - by eapply counts_writer.
Qed.

Lemma counts_hold r tr g :
  exec (gstep h) (initServer r (Some zeroStats)) tr g -> counts_ok g.
Proof.
  intros He. assert (srv_ok g /\ counts_ok g) as [_ ?]; [|done]. revert tr g He.
  apply (exec_invariant _ (fun _ g => srv_ok g /\ counts_ok g)).
  - split; [by split|]. intros st [= <-]. by split.
  - intros tr g l g' _ [Hok Hct] Hs. split; [by eapply srv_ok_step | by eapply counts_step].
Qed.

(** ** The properties *)

(** No goroutine is between two counters: the calls of pools have not started
    counting or have returned, no session is bootstrapping, and no writer
    holds signals. *)
Definition settled_call (q : qpc) : bool :=
  match q with QLookup _ | QRequested _ | QDone => true | _ => false end.
Definition settled_session (s : Session W) : bool :=
  match ss_pc s with SBootEnqueued _ | SBootInflight _ | SBootSend _ => false | _ => true end
  && match ss_wpc s with RSent _ _ | RInflight _ _ | RBatch _ _ => false | _ => true end.
Definition settled (g : server W) : bool :=
  forallb settled_call (g_calls g) && forallb settled_session (g_sessions g).

Lemma counts_settled (r : option Router) (tr : list glabel) (g : server W) (st : ReqWorkConnStats) :
  exec (gstep h) (initServer r (Some zeroStats)) tr g -> g_stats g = Some st -> settled g = true ->
  rs_requested st =64 rs_enqueued st + rs_dropped st /\
  rs_inflight st =64 rs_enqueued st - rs_sent st /\
  rs_inflight st =64 sum_with reqCh (g_heap g).
Proof.
  intros Hexec Hst Hsettled.
  destruct (counts_hold _ _ _ Hexec _ Hst) as [H1 H2 H3].
  apply andb_true_iff in Hsettled as [Hq Hs].
  assert (forall f : qpc -> Z, (forall q, settled_call q = true -> f q = 0) -> sum_with f (g_calls g) = 0) as Zq.
  { intros f Hf. apply sum_with_zero. intros q Hin. apply Hf.
    rewrite forallb_forall in Hq. by apply Hq, list_elem_of_In. }
  assert (forall f : Session W -> Z, (forall s, settled_session s = true -> f s = 0) ->
            sum_with f (g_sessions g) = 0) as Zs.
  { intros f Hf. apply sum_with_zero. intros s Hin. apply Hf.
    rewrite forallb_forall in Hs. by apply Hs, list_elem_of_In. }
  pose proof (Zq q_req ltac:(by intros [])). pose proof (Zq q_enq ltac:(by intros [])).
  pose proof (Zq q_inf ltac:(by intros [])).
  assert (forall s, settled_session s = true ->
            b_req (ss_pc s) = 0 /\ b_send (ss_pc s) = 0 /\ b_inf (ss_pc s) = 0 /\
            w_held (ss_wpc s) = 0 /\ w_inf (ss_wpc s) = 0) as Hz.
  { unfold settled_session. intros s [E1 E2]%andb_true_iff. by destruct (ss_pc s), (ss_wpc s). }
  pose proof (Zs (fun s => b_req (ss_pc s)) ltac:(apply Hz)).
  pose proof (Zs (fun s => b_send (ss_pc s)) ltac:(apply Hz)).
  pose proof (Zs (fun s => b_inf (ss_pc s)) ltac:(apply Hz)).
  pose proof (Zs (fun s => w_held (ss_wpc s)) ltac:(apply Hz)).
  pose proof (Zs (fun s => w_inf (ss_wpc s)) ltac:(apply Hz)).
  repeat split.
  - apply (eqm_shift _ _ _ _ H1); lia.
  - apply (eqm_shift _ _ _ _ H2); lia.
  - apply (eqm_shift2 _ _ _ _ _ _ H2 H3); lia.
Qed.

(** C7: The counters balance. Whenever no goroutine is between two counter
    updates, every refill requested has been enqueued or dropped, [inflight] is
    enqueued minus sent, and it is the number of signals still waiting in the
    queues of all the sessions the server has ever had (all modulo 2^64),
    however pools, bootstraps, writers and teardowns interleave. *)
Theorem stats_balance (r : option Router) (tr : list glabel) (g : server W) (st : ReqWorkConnStats)
    (Hexec : exec (gstep h) (initServer r (Some zeroStats)) tr g)
    (Hst : g_stats g = Some st) (Hsettled : settled g = true) :
  rs_requested st =64 rs_enqueued st + rs_dropped st /\
  rs_inflight st =64 rs_enqueued st - rs_sent st /\
  rs_inflight st =64 sum_with reqCh (g_heap g).
Proof.
  by eapply counts_settled.
Qed.
End counts.
