(* ===== verification/ServerRefine.v ===== *)
(** * Every session of the server is a control writer

    What session [i] shows of the server (its channels, the counters, its
    writer) makes only the steps of [ControlWriter.wsys_step]: the properties
    of [ControlWriterSpec] hold of every session of the whole server. *)

From S2P Require Import Prelude Json Msg Wire Bufio Control ControlWriter ControlWriterSpec.
From S2P Require Import Auth Router ProxyRegister Server ServerProofs.

Section refine.
Context {W : Type} `{Writer W}.
Variable h : Handler.
Implicit Types (g : server W) (s : Session W).

Definition view (g : server W) (i : sid) : option (wsys W) :=
  match g_sessions g !! i, g_heap g !! i with
  | Some s, Some c => Some (mkWsys (c, g_stats g) (ss_cw s) (ss_wpc s))
  | _, _ => None
  end.

(** From [g] to [g'] every session makes steps of the writer's system. *)
Definition evolves (g g' : server W) : Prop :=
  forall i w, view g i = Some w -> exists tr w', view g' i = Some w' /\ exec wsys_step w tr w'.

Lemma evolves_refl g : evolves g g.
Proof. intros i w Hv. exists [], w. split; [done | constructor]. Qed.

Lemma evolves_trans g1 g2 g3 : evolves g1 g2 -> evolves g2 g3 -> evolves g1 g3.
Proof.
  intros H12 H23 i w Hv. destruct (H12 _ _ Hv) as (tr & w' & Hv' & He).
    destruct (H23 _ _ Hv') as (tr' & w'' & Hv'' & He'). exists (tr ++ tr'), w''.
    split; [done | by eapply exec_app].
Qed.

#[local] Instance evolves_preorder : PreOrder evolves.
Proof. split; [exact evolves_refl | exact evolves_trans]. Qed.

Lemma evolves_same g g' : (forall i, view g' i = view g i) -> evolves g g'.
Proof. intros E i w Hv. rewrite <- E in Hv. exists [], w. split; [done | constructor]. Qed.

Lemma evolves_setSession g i s s' :
  g_sessions g !! i = Some s -> ss_cw s' = ss_cw s -> ss_wpc s' = ss_wpc s ->
  evolves g (setSession g i s').
Proof.
  intros Hi E1 E2. apply evolves_same. intros j. unfold view. simpl.
  destruct (decide (i = j)) as [<-|Hne]; [|by rewrite list_lookup_insert_ne].
  rewrite list_lookup_insert_eq by (by eapply lookup_lt_Some). by rewrite Hi, E1, E2.
Qed.

Lemma evolves_stats g st' :
  (is_Some (g_stats g) <-> is_Some st') ->
  evolves g (mkServer (g_heap g) (g_sessions g) (g_controls g) (g_router g) st' (g_calls g)).
Proof.
  intros Hst i w. unfold view. simpl. destruct (g_sessions g !! i); [|done].
  destruct (g_heap g !! i) as [c|]; [|done]. intros [= <-].
  destruct (g_stats g) as [st|], st' as [st1|].
  - eexists _, _. split; [reflexivity|]. eapply exec_one, ws_stats.
  - destruct Hst as [Hst _]. by destruct Hst.
  - destruct Hst as [_ Hst]. by destruct Hst.
  - eexists [], _. split; [reflexivity | constructor].
Qed.

Lemma evolves_addStats g f : evolves g (addStats g f).
Proof. apply evolves_stats. by rewrite fmap_is_Some. Qed.

(** An update of one session's channels that the environment can make. *)
Lemma evolves_heap g i c c' :
  g_heap g !! i = Some c ->
  (forall st cw pc, exists l, wsys_step (mkWsys (c, st) cw pc) l (mkWsys (W:=W) (c', st) cw pc)) ->
  evolves g (setHeap g (<[i := c']> (g_heap g))).
Proof.
  intros Hc Hl j w. unfold view. simpl. destruct (g_sessions g !! j) as [s|]; [|done].
  destruct (decide (i = j)) as [<-|Hne].
  - rewrite list_lookup_insert_eq by (by eapply lookup_lt_Some). rewrite Hc. intros [= <-].
    destruct (Hl (g_stats g) (ss_cw s) (ss_wpc s)) as [l Hstep].
    exists [l]. eexists. split; [reflexivity | by apply exec_one].
  - rewrite list_lookup_insert_ne by done. intros Hv. exists [], w. split; [done | constructor].
Qed.

Lemma evolves_signal g i c :
  g_heap g !! i = Some c -> reqCh_free c = true ->
  evolves g (setHeap g (<[i := setReqCh c (reqCh c + 1)]> (g_heap g))).
Proof. intros Hc Hf. apply (evolves_heap g i c); [done|]. intros. exists ESignal. by constructor. Qed.

Lemma evolves_send g i c m :
  g_heap g !! i = Some c -> sendCh_free c = true ->
  evolves g (setHeap g (<[i := setSendCh c (sendCh c ++ [m])]> (g_heap g))).
Proof. intros Hc Hf. apply (evolves_heap g i c); [done|]. intros. exists (ESend m). by constructor. Qed.

Lemma evolves_cancel g i : evolves g (setHeap g (alter cancel i (g_heap g))).
Proof.
  destruct (g_heap g !! i) as [c|] eqn:Hc.
  - rewrite (list_alter_Some _ _ _ _ Hc). apply (evolves_heap g i c); [done|].
    intros. exists ECancel. constructor.
  - rewrite list_alter_None by done. by destruct g.
Qed.

Lemma evolves_call g j q : evolves g (setCall g j q).
Proof. by apply evolves_same. Qed.
Lemma evolves_router g r : evolves g (setRouter g r).
Proof. by apply evolves_same. Qed.
Lemma evolves_controls g cm : evolves g (setControls g cm).
Proof. by apply evolves_same. Qed.

Lemma evolves_writer g i s c pooled l c' st' cw' pc' :
  g_sessions g !! i = Some s -> g_heap g !! i = Some c ->
  (l, (c', st'), cw', pc') ∈ wstep pooled (c, g_stats g) (ss_cw s) (ss_wpc s) ->
  evolves g (mkServer (<[i := c']> (g_heap g)) (<[i := setWriter s cw' pc']> (g_sessions g))
               (g_controls g) (g_router g) st' (g_calls g)).
Proof.
  intros Hi Hc Hw j w. unfold view at 1. simpl.
  destruct (decide (i = j)) as [<-|Hne].
  - rewrite Hi, Hc. intros [= <-]. exists [EWriter l]. eexists. split.
    + unfold view. simpl. rewrite !list_lookup_insert_eq by (by eapply lookup_lt_Some). reflexivity.
    + eapply exec_one, ws_writer, Hw.
  - assert (is_Some (g_stats g) <-> is_Some st') as Hst.
    { destruct (g_stats g) as [st|].
      - split; [|eauto]. intros _. revert Hw. destruct (ss_wpc s); cbn [wstep]; intros Hw; wstep_cases; eauto.
      - assert (st' = None) as ->; [|done].
        revert Hw. destruct (ss_wpc s); cbn [wstep]; intros Hw; by wstep_cases. }
    intros Hv. destruct (evolves_stats g st' Hst j w Hv) as (tr & w' & Hv' & He). exists tr, w'.
    split; [|done]. revert Hv'. unfold view. simpl. by rewrite !list_lookup_insert_ne.
Qed.

Lemma evolves_tick g i s d :
  g_sessions g !! i = Some s -> cw_flushTimer (ss_cw s) = TArmed d ->
  evolves g (setSession g i
    (setWriter s (mkCW (cw_bw (ss_cw s)) TFired (cw_pendingFlush (ss_cw s))) (ss_wpc s))).
Proof.
  intros Hi Ht j w. unfold view. simpl. destruct (decide (i = j)) as [<-|Hne].
  - rewrite list_lookup_insert_eq by (by eapply lookup_lt_Some). rewrite Hi.
    destruct (g_heap g !! i) as [c|]; [|done]. intros [= <-]. exists [ETick]. eexists.
    split; [reflexivity|]. apply exec_one. simpl. destruct (ss_cw s) as [bw t p]. simpl in *. subst.
    constructor.
  - rewrite list_lookup_insert_ne by done. intros Hv. exists [], w. split; [done | constructor].
Qed.

Ltac evolve :=
  match goal with
  | |- evolves ?g ?g => reflexivity
  | |- evolves ?g (setSession ?g1 ?i ?s') => transitivity g1; [evolve | by eapply evolves_setSession]
  | |- evolves ?g (setCall ?g1 ?j ?q) => transitivity g1; [evolve | apply evolves_call]
  | |- evolves ?g (addStats ?g1 ?f) => transitivity g1; [evolve | apply evolves_addStats]
  | |- evolves ?g (setRouter ?g1 ?r) => transitivity g1; [evolve | apply evolves_router]
  | |- evolves ?g (setHeap (setControls ?g1 ?cm) (g_heap _)) => transitivity (setControls g1 cm); [evolve | by apply evolves_same]
  | |- evolves ?g (setHeap (setControls ?g1 ?cm) _) => transitivity (setControls g1 cm); [evolve | apply (evolves_cancel (setControls g1 cm))]
  | |- evolves ?g (setControls ?g1 ?cm) => transitivity g1; [evolve | apply evolves_controls]
  | |- evolves ?g (setHeap ?g1 (alter cancel _ _)) => transitivity g1; [evolve | apply evolves_cancel]
  | |- evolves ?g (setHeap ?g1 (g_heap ?g1)) => by apply evolves_same
  | |- evolves ?g (setHeap ?g1 _) =>
      transitivity g1; [evolve | first [by eapply evolves_signal | by eapply evolves_send] ]
  end.

Lemma evolves_dispatch g i s m :
  g_sessions g !! i = Some s -> evolves g (controlDispatch h g i s m).
Proof.
  intros Hi. destruct m; cbn [controlDispatch]; try reflexivity.
  - destruct (handleNewProxy _ _ _ _) as [ [r ps] resp]. evolve.
  - unfold handleCloseProxy. evolve.
  - destruct (0 <? h_HeartbeatTimeout h); evolve.
Qed.

Lemma step_evolves g l g' : gstep h g l g' -> evolves g g'.
Proof.
  intros Hs. gstep_inv Hs; try (solve [evolve]).
  - intros i v Hv. exists [], v. split; [|constructor]. revert Hv. unfold view. simpl.
    destruct (g_sessions g !! i) eqn:E1; [|done]. destruct (g_heap g !! i) eqn:E2; [|done].
    by rewrite !lookup_app_l, E1, E2 by (by eapply lookup_lt_Some).
  - unfold Register in *. simplify_eq. destruct (entries _ !! _) as [old|].
    + transitivity (setHeap g (alter cancel (ce_cancel old) (g_heap g))); [apply evolves_cancel|].
      match goal with |- evolves _ (setSession (setHeap (setControls g ?cm) ?hp) _ _) =>
        transitivity (setHeap (setControls g cm) hp); [by apply evolves_same|] end.
      eapply evolves_setSession; [done | by case_match..].
    + match goal with |- evolves _ (setSession ?g1 _ _) =>
        transitivity g1; [by apply evolves_same|] end.
      eapply evolves_setSession; [done | by case_match..].
  - by apply evolves_dispatch.
  - by eapply evolves_writer.
  - by eapply evolves_tick.
  - by apply evolves_same.
Qed.

(** A session that was not there is new. *)
Lemma dispatch_length g i s m :
  length (g_sessions (controlDispatch h g i s m)) = length (g_sessions g).
Proof.
  destruct m; cbn [controlDispatch]; try done; simpl; rewrite ?length_insert; try done.
  destruct (handleNewProxy _ _ _ _) as [ [r ps] resp]. simpl. by rewrite length_insert.
Qed.

Lemma step_sessions g l g' :
  gstep h g l g' ->
  length (g_sessions g') = length (g_sessions g) \/
  exists runID login w, g_stats g' = g_stats g /\ g_heap g' = g_heap g ++ [newChans] /\
    g_sessions g' = g_sessions g ++ [newSession runID login w] /\
    exists first buf ms, HandleConnection h first buf true = (ms, FSession runID login).
Proof.
  intros Hs. gstep_inv Hs; try (left; simpl; by rewrite ?length_insert).
  - right. eexists _, _, _. split; [done|]. split; [done|]. split; [done|]. by eexists _, _, _.
  - left. apply dispatch_length.
Qed.

(** C2: Refinement of the control writer by the server. Seen through its
    channels, its writer and the counters, every session of every execution of
    the whole server (logins, bootstraps, pool requests, reconnects, teardowns)
    is an execution of the control writer in its environment, so that the
    properties of the writer hold of every session. *)
Theorem server_refines_writer (r : option Router) (st : option ReqWorkConnStats) (tr : list glabel)
    (g : server W) (i : nat) (ws : wsys W)
    (Hexec : exec (gstep h) (initServer r st) tr g) (Hi : view g i = Some ws) :
  exists w st0 tr', exec wsys_step (wsys_init w st0) tr' ws.
Proof.
  enough (srv_ok g /\ forall i ws, view g i = Some ws ->
            exists w st0 tr', exec wsys_step (wsys_init w st0) tr' ws) as [_ Hv] by by eapply Hv.
  clear i ws Hi. revert tr g Hexec.
  apply (exec_invariant _ (fun _ g => srv_ok g /\ forall i ws, view g i = Some ws ->
           exists w st0 tr', exec wsys_step (wsys_init w st0) tr' ws)).
  { split; [by split|]. done. }
  intros tr g l g' _ [Hok IH] Hs. pose proof (srv_ok_step h _ _ _ Hok Hs) as Hok'. split; [done|].
  intros i ws Hv. destruct (view g i) as [ws0|] eqn:Hv0.
  - destruct (IH _ _ Hv0) as (w & st0 & tr' & He).
    destruct (step_evolves _ _ _ Hs _ _ Hv0) as (tr1 & w1 & Hv1 & He1).
    exists w, st0, (tr' ++ tr1). replace ws with w1 by congruence. by eapply exec_app.
  - assert (length (g_sessions g) <= i)%nat as Hle.
    { destruct (decide (i < length (g_sessions g))%nat) as [Hlt|]; [exfalso|lia].
      revert Hv0. unfold view. destruct (lookup_lt_is_Some_2 _ _ Hlt) as [s ->].
      rewrite <- (sv_len _ Hok) in Hlt. by destruct (lookup_lt_is_Some_2 _ _ Hlt) as [c ->]. }
    revert Hv. unfold view. destruct (g_sessions g' !! i) as [s|] eqn:Es; [|done].
    pose proof (lookup_lt_Some _ _ _ Es) as Hlt.
    destruct (step_sessions _ _ _ Hs) as [E | (runID & login & w & Est & Eh & Ess & _)]; [lia|].
    rewrite Ess, length_app in Hlt. simpl in Hlt. rewrite Eh, Ess in *.
    replace i with (length (g_sessions g)) in * by lia.
    rewrite <- (sv_len _ Hok) at 1. rewrite lookup_app_r, Nat.sub_diag by lia.
    rewrite lookup_app_r, Nat.sub_diag in Es by lia. simplify_eq/=. intros [= <-].
    exists w, (g_stats g'), []. constructor.
Qed.
End refine.
