(* ===== verification/ServerSpec.v ===== *)
(** * What the control server promises

    Authentication, the routes a session leaves behind, and two behaviours of
    teardown: a reconnect loses the new session's entry, and a response can
    block a session for ever. *)

From S2P Require Import Prelude Json Msg Wire Bufio Control ControlWriter ControlWriterSpec.
From S2P Require Import Auth Router RouterSpec ProxyRegister ProxyRegisterSpec Server ServerProofs ServerStats.
From S2P Require Import ServerRefine.

(** ** The routes of one session *)

(** The effect of a control message on the table and on the session's map. *)
Definition sessionMsg (runID : string) (st : option Router * gset string) (m : Message)
    : option Router * gset string :=
  match m with
  | MNewProxy m => fst (handleNewProxy (fst st) m runID (snd st))
  | MCloseProxy m => handleCloseProxy (fst st) m (snd st)
  | _ => st
  end.

(** It is what the control loop of the server does with them. *)
Lemma controlDispatch_sessionMsg {W} `{Writer W} (h : Server.Handler) (g : server W) i s m :
  g_sessions g !! i = Some s ->
  exists s', g_sessions (controlDispatch h g i s m) !! i = Some s' /\
    (g_router (controlDispatch h g i s m), ss_proxies s') = sessionMsg (ss_runID s) (g_router g, ss_proxies s) m.
Proof.
  intros Hi. assert (i < length (g_sessions g))%nat as Hlt by by eapply lookup_lt_Some.
  destruct m as [| |m| |m| | | | |]; cbn [controlDispatch sessionMsg fst snd]; try (by exists s).
  - destruct (handleNewProxy _ _ _ _) as [ [r ps] resp]. eexists. split; [by apply list_lookup_insert_eq|done].
  - destruct (handleCloseProxy _ _ _) as [r ps]. eexists. split; [by apply list_lookup_insert_eq|done].
  - eexists. split; [by apply list_lookup_insert_eq|]. simpl. by destruct (0 <? _).
Qed.

Definition mentioned (m : Message) : list string :=
  match m with MNewProxy m => [np_ProxyName m] | MCloseProxy m => [cp_ProxyName m] | _ => [] end.

Definition one_location (m : Message) : Prop :=
  match m with MNewProxy m => (length (np_Locations m) <= 1)%nat | _ => True end.

(** Every route is one of before or belongs to a proxy the session records;
    the routes of names the session has not mentioned are untouched. *)
Record session_inv (r0 : Router) (names : list string) (r : Router) (ps : gset string) : Prop := {
  si_wf : wf r;
  si_own : forall rc, registered r rc -> registered r0 rc \/ rc_ProxyName rc ∈ ps;
  si_keep : forall rc, registered r0 rc -> rc_ProxyName rc ∉ names -> registered r rc;
  si_names : forall n, n ∈ ps -> n ∈ names
}.

Lemma routesOf_stored_name m runID n rc :
  rc ∈ stored <$> take n (routesOf m runID) -> rc_ProxyName rc = np_ProxyName m.
Proof.
  intros (c & -> & Hin)%list_elem_of_fmap.
  pose proof (Forall_take _ n _ (routesOf_name m runID)) as Hn. rewrite Forall_forall in Hn.
  exact (Hn c Hin).
Qed.

Lemma session_inv_step r0 names r ps runID m :
  session_inv r0 names r ps -> one_location m ->
  exists r' ps', sessionMsg runID (Some r, ps) m = (Some r', ps') /\
    session_inv r0 (names ++ mentioned m) r' ps'.
Proof.
  intros [Hwf Hown Hkeep Hnames] Hone.
  destruct m as [| |m| |m| | | | |]; cbn [sessionMsg mentioned fst snd];
    try (exists r, ps; split; [done|]; rewrite app_nil_r; by split).
  - destruct (String.eqb_spec (np_ProxyType m) "http") as [Ht|Ht].
    2: { unfold handleNewProxy. rewrite (proj2 (String.eqb_neq _ _)) by done. simpl.
         exists r, ps. split; [done|]. split; try done; set_solver. }
    rewrite handleNewProxy_addAll by done.
    destruct (addAll r (routesOf m runID)) as [ [r1 n] [err|] ] eqn:E; simpl.
    + simpl in Hone. destruct (addAll_spec _ _ _ _ _ Hwf E) as [Hwf1 Hr].
      destruct (Nat.ltb_spec n (length (np_Locations m))) as [Hn|Hn].
      * assert (n = O) as -> by lia.
        eexists _, _. split; [reflexivity|]. split; try done.
        -- intros rc. rewrite Hr. intros [Hrc|Hrc]; [by apply Hown|]. set_solver.
        -- intros rc Hrc Hin. apply Hr. left. set_solver.
        -- set_solver.
      * eexists _, _. split; [reflexivity|]. split.
        -- by apply Remove_wf.
        -- intros rc [Hrc _]%registered_Remove. by apply Hown.
        -- intros rc Hrc Hin. apply registered_Remove. set_solver.
        -- set_solver.
    + destruct (addAll_spec _ _ _ _ _ Hwf E) as [Hwf1 Hr].
      eexists _, _. split; [reflexivity|]. split; try done.
      * intros rc. rewrite Hr. intros [Hrc|Hrc].
        -- destruct (Hown _ Hrc); set_solver.
        -- right. rewrite (routesOf_stored_name _ _ _ _ Hrc). set_solver.
      * intros rc Hrc Hin. apply Hr. left. set_solver.
      * set_solver.
  - unfold handleCloseProxy. simpl. eexists _, _. split; [reflexivity|]. split.
    + by apply Remove_wf.
    + intros rc [Hrc Hne]%registered_Remove. destruct (Hown _ Hrc); set_solver.
    + intros rc Hrc Hin. apply registered_Remove. set_solver.
    + set_solver.
Qed.

Lemma session_inv_run r0 names r ps runID ms :
  session_inv r0 names r ps -> Forall one_location ms ->
  exists r' ps', foldl (sessionMsg runID) (Some r, ps) ms = (Some r', ps') /\
    session_inv r0 (names ++ (ms ≫= mentioned)) r' ps'.
Proof.
  intros Hinv Hms. revert names r ps Hinv. induction Hms as [|m ms Hm Hms IH]; intros names r ps Hinv.
  - exists r, ps. split; [done|]. by rewrite app_nil_r.
  - destruct (session_inv_step _ _ _ _ runID _ Hinv Hm) as (r1 & ps1 & E1 & Hinv1).
    destruct (IH _ _ _ Hinv1) as (r2 & ps2 & E2 & Hinv2). exists r2, ps2.
    cbn [foldl]. rewrite E1. split; [done|]. by rewrite bind_cons, app_assoc.
Qed.

Lemma registered_rollback r names rc :
  registered (rollback r names) rc <-> registered r rc /\ rc_ProxyName rc ∉ names.
Proof.
  unfold rollback. revert r; induction names as [|n names IH]; intros r; simpl.
  - split; [intros; split; [done | by apply not_elem_of_nil] | by intros [] ].
  - rewrite IH, registered_Remove, not_elem_of_cons. tauto.
Qed.

Lemma registered_removeProxies r ps rc :
  registered (removeProxies r ps) rc <-> registered r rc /\ rc_ProxyName rc ∉ ps.
Proof. unfold removeProxies. by rewrite registered_rollback, elem_of_elements. Qed.

(** C9: A session leaves no route behind. Whatever proxies a session registers
    and closes, with at most one location each, after its cleanup the table
    has no route it did not have before the session, and every route of a
    proxy name the session never mentioned is still there. *)
Theorem session_leaves_no_routes (r0 : Router) (runID : string) (ms : list Message)
    (Hwf : wf r0) (Hone : Forall one_location ms) :
  exists r ps, foldl (sessionMsg runID) (Some r0, ∅) ms = (Some r, ps) /\
    (forall rc, registered (removeProxies r ps) rc -> registered r0 rc) /\
    (forall rc, registered r0 rc -> rc_ProxyName rc ∉ (ms ≫= mentioned) ->
       registered (removeProxies r ps) rc).
Proof.
  assert (session_inv r0 [] r0 ∅) as Hinv by (split; try done; auto; set_solver).
  destruct (session_inv_run _ _ _ _ runID ms Hinv Hone) as (r & ps & E & Hinv').
  destruct Hinv' as [_ Hown Hkeep Hnames]. exists r, ps. split; [done|]. split.
  - intros rc [Hrc Hn]%registered_removeProxies. by destruct (Hown _ Hrc).
  - intros rc Hrc Hn. apply registered_removeProxies. split; [by apply Hkeep|]. auto.
Qed.

(** ** Authentication *)

Section auth.
Context {W : Type} `{Writer W}.
Variable h : Handler.
Implicit Types (g : server W) (s : Session W).

(** A session whose client has shown the key of the server's token. *)
Definition authentic (s : Session W) : Prop :=
  VerifyAuth (h_Token h) (lg_Timestamp (ss_login s)) (lg_PrivilegeKey (ss_login s)) = true /\
  (lg_RunID (ss_login s) <> "" -> ss_runID s = lg_RunID (ss_login s)).

Lemma HandleConnection_session first buf crypto ms runID login :
  HandleConnection h first buf crypto = (ms, FSession runID login) ->
  VerifyAuth (h_Token h) (lg_Timestamp login) (lg_PrivilegeKey login) = true /\
  (lg_RunID login <> "" -> runID = lg_RunID login).
Proof.
  unfold HandleConnection. destruct first as [|m]; [done|]. destruct m as [l| | | | | |m| | |]; try done.
  - unfold handleLogin. destruct (VerifyAuth _ _ _) eqn:Ev; [|done]. cbn [negb].
    destruct crypto; [|done]. intros. simplify_eq. split; [done|]. intros Hne.
    by rewrite (proj2 (String.eqb_neq _ _)).
  - by destruct (h_OnWorkConn h).
Qed.

(** Every step keeps the identity of the sessions. *)
Definition same_identity (s s' : Session W) : Prop :=
  ss_runID s' = ss_runID s /\ ss_login s' = ss_login s.

Lemma insert_identity g i s s' :
  g_sessions g !! i = Some s -> same_identity s s' ->
  forall j sj, g_sessions g !! j = Some sj ->
    exists sj', <[i := s']> (g_sessions g) !! j = Some sj' /\ same_identity sj sj'.
Proof.
  intros Hi Hs j sj Hj. destruct (decide (i = j)) as [<-|Hne].
  - rewrite list_lookup_insert_eq by (by eapply lookup_lt_Some). simplify_eq. by eexists.
  - rewrite list_lookup_insert_ne by done. by exists sj.
Qed.

Lemma step_identity g l g' :
  gstep h g l g' -> forall j sj, g_sessions g !! j = Some sj ->
  exists sj', g_sessions g' !! j = Some sj' /\ same_identity sj sj'.
Proof.
  intros Hs. gstep_inv Hs;
    try (simpl; eapply insert_identity; [eassumption | split; simpl; by repeat case_match]);
    try (intros k sk Hk; by exists sk).
  - intros j sj Hj. exists sj. simpl. by rewrite lookup_app_l by (by eapply lookup_lt_Some).
  - destruct m; cbn [controlDispatch]; try (intros j sj Hj; by exists sj);
      repeat case_match; simpl; by eapply insert_identity.
Qed.

(** How a step changes the table. *)
Inductive router_change (g : server W) : option Router -> Prop :=
  | rc_same : router_change g (g_router g)
  | rc_remove name : router_change g ((fun r => Router.Remove r name) <$> g_router g)
  | rc_new i s m :
      g_sessions g !! i = Some s ->
      router_change g (fst (fst (handleNewProxy (g_router g) m (ss_runID s) (ss_proxies s)))).

Lemma step_router g l g' : gstep h g l g' -> router_change g (g_router g').
Proof.
  intros Hs. gstep_inv Hs; try (simpl; by constructor).
  destruct m; cbn [controlDispatch]; try (simpl; by constructor).
  destruct (handleNewProxy _ _ _ _) as [ [r ps] resp] eqn:E. simpl.
  replace r with (fst (fst (handleNewProxy (g_router g) m (ss_runID s) (ss_proxies s)))) by (by rewrite E).
  by eapply rc_new.
Qed.

Lemma handleNewProxy_owner r m runID ps :
  wf r ->
  exists r', fst (fst (handleNewProxy (Some r) m runID ps)) = Some r' /\ wf r' /\
    forall rc, registered r' rc -> registered r rc \/ rc_RunID rc = runID.
Proof.
  intros Hwf. destruct (String.eqb_spec (np_ProxyType m) "http") as [Ht|Ht].
  2: { unfold handleNewProxy. rewrite (proj2 (String.eqb_neq _ _)) by done. simpl. eauto. }
  rewrite handleNewProxy_addAll by done.
  destruct (addAll r (routesOf m runID)) as [ [r1 n] e] eqn:E.
  destruct (addAll_spec _ _ _ _ _ Hwf E) as [Hwf1 Hr].
  assert (forall rc, registered r1 rc -> registered r rc \/ rc_RunID rc = runID) as Hown.
  { intros rc. rewrite Hr. intros [Hrc|Hrc]; [by left | right].
    apply list_elem_of_fmap in Hrc as (c & -> & Hin). simpl.
    assert (Forall (fun c => rc_RunID c = runID) (routesOf m runID)) as Hf.
    { apply Forall_bind, Forall_true. intros d. unfold domainRoutes. destruct (np_Locations m); [by repeat constructor|].
      apply Forall_fmap, Forall_true. done. }
    pose proof (Forall_take _ n _ Hf) as Hf'. rewrite Forall_forall in Hf'. exact (Hf' c Hin). }
  destruct e; simpl; [|eauto]. eexists. split; [reflexivity|]. case_match; [eauto|].
  split; [by apply Remove_wf|]. intros rc [Hrc _]%registered_Remove. by left.
Qed.

Record auth_inv (g : server W) : Prop := {
  ai_sessions : forall i s, g_sessions g !! i = Some s -> authentic s;
  ai_router : forall r, g_router g = Some r -> wf r;
  ai_routes : forall r rc, g_router g = Some r -> registered r rc ->
                exists i s, g_sessions g !! i = Some s /\ ss_runID s = rc_RunID rc
}.

Lemma auth_inv_step g l g' : auth_inv g -> gstep h g l g' -> auth_inv g'.
Proof.
  intros [Hse Hwf Hro] Hs.
  assert (forall rid, (exists i s, g_sessions g !! i = Some s /\ ss_runID s = rid) ->
            exists i s, g_sessions g' !! i = Some s /\ ss_runID s = rid) as Hkeep.
  { intros rid (i & s & Hi & E). destruct (step_identity _ _ _ Hs _ _ Hi) as (s' & Hi' & E' & _).
    exists i, s'. split; [done|]. congruence. }
  split.
  - intros i s' Hi'. destruct (g_sessions g !! i) as [s|] eqn:Hi.
    + destruct (step_identity _ _ _ Hs _ _ Hi) as (s1 & Hi1 & E1 & E2). simplify_eq.
      destruct (Hse _ _ Hi) as [Ha Hr]. split; rewrite ?E1, E2; done.
    + pose proof (lookup_ge_None_1 _ _ Hi). pose proof (lookup_lt_Some _ _ _ Hi') as Hlt.
      destruct (step_sessions h _ _ _ Hs) as [E | (runID & login & w & _ & _ & E & first & buf & ms & Hh)];
        [lia|].
      rewrite E, length_app in Hlt. simpl in Hlt. rewrite E, lookup_app_r in Hi' by lia.
      replace (i - length (g_sessions g))%nat with O in Hi' by lia. simplify_eq/=.
      by apply HandleConnection_session in Hh.
  - intros r Hr. pose proof (step_router _ _ _ Hs) as Hc. rewrite Hr in Hc.
    inversion Hc as [E|name E|i s m Hi E].
    + by apply Hwf.
    + destruct (g_router g) as [r0|] eqn:E0; simplify_eq/=. apply Remove_wf. by apply Hwf.
    + destruct (g_router g) as [r0|] eqn:E0.
      * destruct (handleNewProxy_owner r0 m (ss_runID s) (ss_proxies s) (Hwf _ eq_refl)) as (r1 & E1 & ? & _).
        congruence.
      * unfold handleNewProxy in E. by destruct (negb _).
  - intros r rc Hr Hrc. pose proof (step_router _ _ _ Hs) as Hc. rewrite Hr in Hc. apply Hkeep.
    inversion Hc as [E|name E|i s m Hi E].
    + by eapply Hro.
    + destruct (g_router g) as [r0|] eqn:E0; simplify_eq/=. apply registered_Remove in Hrc as [Hrc _].
      by eapply Hro.
    + destruct (g_router g) as [r0|] eqn:E0.
      * destruct (handleNewProxy_owner r0 m (ss_runID s) (ss_proxies s) (Hwf _ eq_refl)) as (r1 & E1 & _ & Ho).
        rewrite E1 in E. simplify_eq. destruct (Ho _ Hrc) as [?|E2]; [by eapply Hro|]. by exists i, s.
      * unfold handleNewProxy in E. by destruct (negb _).
Qed.

Lemma auth_inv_holds r st tr g :
  wf r -> (forall rc, ~ registered r rc) -> exec (gstep h) (initServer (Some r) st) tr g -> auth_inv g.
Proof.
  intros Hwf He Hx. revert tr g Hx. apply (exec_invariant _ (fun _ g => auth_inv g)).
  - split; [done | by intros ? [= <-] | intros ? rc [= <-] Hrc; by destruct (He rc)].
  - intros. by eapply auth_inv_step.
Qed.

(** C10: Nothing is reachable without the token. Every control session the
    server has, hence every entry of the control manager, was opened with the
    key of the server's token, and every route a lookup answers carries the
    run ID of such a session. *)
Theorem only_authenticated (st : option ReqWorkConnStats) (tr : list glabel) (g : server W)
    (Hexec : exec (gstep h) (initServer (Some New) st) tr g) :
  (forall runID e, GetEntry (g_controls g) runID = Some e ->
     exists i s, e = ownEntry i /\ g_sessions g !! i = Some s /\ ss_runID s = runID /\ authentic s) /\
  (forall r domain path rc, g_router g = Some r -> Lookup r domain path = Some rc ->
     exists i s, g_sessions g !! i = Some s /\ ss_runID s = rc_RunID rc /\ authentic s).
Proof.
  pose proof (srv_ok_holds h _ _ _ _ Hexec) as Hok.
  destruct (auth_inv_holds New st tr g New_wf registered_New Hexec) as [Hse Hwf Hro]. split.
  - intros runID e He. destruct (sv_ctl _ Hok _ _ He) as (i & s & -> & Hi & Hr & _).
    exists i, s. repeat split; try done; by eapply Hse.
  - intros r domain path rc Hr Hl. apply Lookup_registered in Hl; [|by apply Hwf].
    destruct (Hro _ _ Hr Hl) as (i & s & Hi & E). exists i, s. split; [done|]. split; [done|]. by eapply Hse.
Qed.
End auth.
