(* ===== verification/Teardown.v ===== *)
(** * Teardown of sessions

    What the end of a session does to the rest of the server: the entry of a
    reconnected client, the signals of a dead session, and a response that
    nobody will ever read. *)

From S2P Require Import Prelude Json Msg Wire Bufio Control ControlWriter ControlWriterSpec.
From S2P Require Import Auth Router RouterSpec ProxyRegister ProxyRegisterSpec Server ServerProofs ServerStats.
From S2P Require Import ServerRefine ServerSpec.

(** Past [h.controls.Remove(runID)] of the cleanup. *)
Definition unregistered (pc : spc) : bool :=
  match pc with SUnroute _ | SClose | SDone => true | _ => false end.

(** Looks a session up in an updated list. *)
Ltac lookup_insert Hi' :=
  match type of Hi' with
  | (<[?k := _]> _) !! ?i = _ =>
      destruct (decide (k = i)) as [->|Hne];
      [ rewrite list_lookup_insert_eq in Hi' by (by eapply lookup_lt_Some)
      | rewrite list_lookup_insert_ne in Hi' by done ]
  end.

Section teardown.
Context {W : Type} `{Writer W}.
Variable h : Handler.
Implicit Types (g : server W) (s : Session W).

(** *** Entries of the control manager *)

Lemma step_entries g l g' runID :
  gstep h g l g' -> l <> GRegister runID ->
  entries (g_controls g) !! runID = None -> entries (g_controls g') !! runID = None.
Proof.
  intros Hs Hl He. gstep_inv Hs; try done.
  - unfold Register in *. simplify_eq. simpl. rewrite lookup_insert_ne by congruence. done.
  - by apply lookup_delete_None; right.
  - destruct m; cbn [controlDispatch]; try done; repeat case_match; done.
Qed.

(** [controlDispatch] leaves the session in its loop or about to reply, and
    the other sessions alone. *)
Lemma dispatch_lookup g j sj m i s' :
  g_sessions g !! j = Some sj -> ss_pc sj = SLoop ->
  g_sessions (controlDispatch h g j sj m) !! i = Some s' ->
  (i = j /\ (ss_pc s' = SLoop \/ exists r, ss_pc s' = SReply r)) \/
  (i <> j /\ g_sessions g !! i = Some s').
Proof.
  intros Hj Hpc Hi. destruct (decide (i = j)) as [->|Hne]; [left|right]; (split; [done|]).
  - destruct m; cbn [controlDispatch] in Hi; try (simplify_eq; by left).
    + destruct (handleNewProxy _ _ _ _) as [ [r ps] resp]. simpl in Hi. rewrite list_lookup_insert_eq in Hi by (by eapply lookup_lt_Some).
      simplify_eq/=. eauto.
    + simpl in Hi. rewrite list_lookup_insert_eq in Hi by (by eapply lookup_lt_Some). simplify_eq/=. auto.
    + simpl in Hi. rewrite list_lookup_insert_eq in Hi by (by eapply lookup_lt_Some). simplify_eq/=. eauto.
  - destruct m; cbn [controlDispatch] in Hi; try done.
    + destruct (handleNewProxy _ _ _ _) as [ [r ps] resp]. simpl in Hi.
      by rewrite list_lookup_insert_ne in Hi.
    + simpl in Hi. by rewrite list_lookup_insert_ne in Hi.
    + simpl in Hi. by rewrite list_lookup_insert_ne in Hi.
Qed.

(** A session that becomes unregistered has just removed its run ID. *)
Lemma step_unregistered g l g' i s s' :
  gstep h g l g' -> g_sessions g !! i = Some s -> g_sessions g' !! i = Some s' ->
  unregistered (ss_pc s') = true ->
  unregistered (ss_pc s) = true \/ entries (g_controls g') !! ss_runID s = None.
Proof.
  intros Hs Hi Hi' Hu.
  gstep_inv Hs; try simpl in Hi'; try (lookup_insert Hi');
    try (rewrite lookup_app_l in Hi' by (by eapply lookup_lt_Some)); simplify_eq/=;
    try (left; repeat match goal with E : ss_pc _ = _ |- _ => rewrite E end; done).
  - right. by rewrite lookup_delete_eq.
  - left. destruct (dispatch_lookup _ _ _ _ _ _ H0 H1 Hi') as [ [-> [E | [r E] ] ] | [_ E] ];
      [by rewrite E in Hu.. | congruence].
Qed.

(** C32: A reconnect loses the new session. When a client logs in again while its
    old session still runs, the manager replaces the entry and cancels the old
    session; once the old session has cleaned up, and until the client logs in
    yet again, no entry exists for the run ID, whatever happened in between.
    From then on every refill request of its pool returns without asking for a
    connection and without being counted. *)
Theorem reconnect_loses_entry (g g' : server W) (tr : list glabel) (i : nat) (s s' : Session W)
    (Hexec : exec (gstep h) g tr g')
    (Hi : g_sessions g !! i = Some s) (Hbefore : unregistered (ss_pc s) = false)
    (Hi' : g_sessions g' !! i = Some s') (Hafter : unregistered (ss_pc s') = true)
    (Hreg : Forall (fun l => l <> GRegister (ss_runID s)) tr) :
  GetEntry (g_controls g') (ss_runID s) = None /\
  forall j, call_step g' j (QLookup (ss_runID s)) = [setCall g' j QDone].
Proof.
  assert (GetEntry (g_controls g') (ss_runID s) = None) as He.
  2: { split; [done|]. intros j. unfold call_step. by rewrite He. }
  unfold GetEntry. enough (unregistered (ss_pc s) = true \/ entries (g_controls g') !! ss_runID s = None)
    by (destruct H0; [congruence|done]).
  clear Hbefore. revert s Hi Hreg. induction Hexec as [g|g l g1 tr g2 Hstep Hrest IH]; intros s Hi Hreg.
  - simplify_eq. by left.
  - apply Forall_cons in Hreg as [Hl Hreg].
    destruct (step_identity h _ _ _ Hstep _ _ Hi) as (s1 & Hi1 & Er & _). rewrite <- Er in Hl, Hreg |- *.
    destruct (IH Hi' _ Hi1 Hreg) as [Hu|He]; [|by right].
    destruct (step_unregistered _ _ _ _ _ _ Hstep Hi Hi1 Hu) as [?|He]; [by left|]. right.
    rewrite <- Er in He. clear - He Hrest Hreg. revert He.
    induction Hrest as [|g l g1 tr g2 Hs _ IH]; [done|]. intros He. apply Forall_cons in Hreg as [Hl Hreg].
    apply IH; [done|]. by eapply step_entries.
Qed.
End teardown.

(** ** The server as [cmd/drps/main.go] runs it: no heartbeat timeout, both
    callbacks set *)

Definition prodHandler (token : string) : Handler := mkHandler token 0 0 true true.

(** A login with a given key, run ID and pool size. *)
Definition loginWith (key runID : string) (n : Z) : Login :=
  mkLogin "" "" "" "" "" key 7 runID "" ∅ n.

Section existence.
Context {W : Type} `{Writer W}.

Lemma step_login h (g : server W) key runID n w :
  key = BuildAuthKey (h_Token h) 7 -> runID <> "" ->
  exists ms, gstep h g (GWrote ms)
    (mkServer (g_heap g ++ [newChans]) (g_sessions g ++ [newSession runID (loginWith key runID n) w])
       (g_controls g) (g_router g) (g_stats g) (g_calls g)).
Proof.
  intros -> Hr. exists [MLoginResp (mkLoginResp "drps-0.1.0" runID "")].
  apply (gs_session h g (inr (MLogin (loginWith (BuildAuthKey (h_Token h) 7) runID n))) []).
  unfold HandleConnection, handleLogin. cbn [loginWith lg_Timestamp lg_PrivilegeKey lg_RunID].
  rewrite VerifyAuth_own_key. cbn [negb]. by rewrite (proj2 (String.eqb_neq _ _)).
Qed.

(** A dead session's queue only grows. *)
Lemma dead_queue_mono h (g g' : server W) tr i s c :
  exec (gstep h) g tr g' -> g_sessions g !! i = Some s -> g_heap g !! i = Some c -> ss_wpc s = RExit ->
  exists c', g_heap g' !! i = Some c' /\ reqCh c <= reqCh c'.
Proof.
  intros He Hi Hc Hx.
  assert (forall w l w', @wsys_step W _ w l w' -> w_pc w = RExit ->
            w_pc w' = RExit /\ reqCh (fst (w_sh w)) <= reqCh (fst (w_sh w'))) as Hstep.
  { intros w l w' Hs. destruct Hs as [pooled sh cw pc wl sh' cw' pc' Hw| | | | |]; simpl; intros Hpc;
      try (split; [done|lia]). subst pc. destruct sh as [ch st]. cbn [wstep] in Hw. by apply not_elem_of_nil in Hw. }
  assert (forall w tr w', exec (@wsys_step W _) w tr w' -> w_pc w = RExit ->
            w_pc w' = RExit /\ reqCh (fst (w_sh w)) <= reqCh (fst (w_sh w'))) as Hrun.
  { induction 1 as [|w l w1 tr1 w2 Hs _ IH]; intros Hpc; [split; [done|lia]|].
    destruct (Hstep _ _ _ Hs Hpc) as [Hpc1 ?]. destruct (IH Hpc1). split; [done|lia]. }
  assert (evolves g g') as Hev.
  { clear -He. induction He as [|g l g1 tr g2 Hs _ IH]; [apply evolves_refl|].
    eapply evolves_trans; [by eapply step_evolves | done]. }
  destruct (Hev i (mkWsys (c, g_stats g) (ss_cw s) (ss_wpc s))) as (tr' & w' & Hv & Hx').
  { unfold view. by rewrite Hi, Hc. }
  destruct (Hrun _ _ _ Hx' Hx) as [_ Hle]. revert Hv. unfold view.
  destruct (g_sessions g' !! i); [|done]. destruct (g_heap g' !! i) as [c'|]; [|done].
  intros [= <-]. exists c'. split; [done|]. exact Hle.
Qed.

(** [inflight] does not drift to zero. For every token there is an execution
    in which one client logs in, asks for a pool of one, and goes away: all its
    goroutines have returned, and [inflight] is 1; and in every continuation,
    whatever other clients do, it stays at least 1 whenever the counters have
    settled and the queues hold fewer than 2^63 signals. *)
Lemma inflight_never_drains (token : string) (w : W) :
  exists tr g st, exec (gstep (prodHandler token)) (initServer (Some New) (Some zeroStats)) tr g /\
    Forall (fun s => ss_pc s = SDone /\ ss_wpc s = RExit) (g_sessions g) /\
    g_stats g = Some st /\ rs_inflight st = 1 /\
    forall tr' g' st', exec (gstep (prodHandler token)) g tr' g' -> g_stats g' = Some st' ->
      settled g' = true -> sum_with reqCh (g_heap g') < two63 ->
      exists n, 1 <= n < two63 /\ rs_inflight st' =64 n.
Proof.
  set (key := BuildAuthKey token 7).
  destruct (step_login (prodHandler token) (initServer (Some New) (Some zeroStats)) key "abc" 1 w
              eq_refl ltac:(done)) as [ms Hlogin].
  clearbody key.
  set (g1 := mkServer _ _ _ _ _ _) in Hlogin.
  destruct (gsched_run (prodHandler token) g1
              (replicate 6 (GcMain 0) ++ [GcReadErr 0] ++ replicate 5 (GcMain 0) ++ replicate 2 (GcWriter 0 0)))
    as [ [tr g]|] eqn:E; [|vm_compute in E; discriminate].
  pose proof (exec_cons _ _ _ _ _ _ Hlogin (gsched_run_sound _ _ _ _ _ E)) as Hx.
  vm_compute in E. injection E as _ <-.
  eexists _, _, _. split; [exact Hx|]. split; [by repeat constructor|]. split; [reflexivity|].
  split; [reflexivity|]. intros tr' g' st' Hx' Hst' Hset Hlt.
  exists (sum_with reqCh (g_heap g')).
  pose proof (exec_app _ _ _ _ _ _ Hx Hx') as Hall.
  split; [split; [|done]|by eapply counts_settled].
  destruct (dead_queue_mono _ _ _ _ 0%nat _ _ Hx' eq_refl eq_refl eq_refl) as (c' & Hc & Hle).
  simpl in Hle. etrans; [exact Hle|]. apply (sum_with_Forall_lookup_le reqCh _ 0%nat); [|done].
  eapply Forall_impl; [exact (sv_heap _ (srv_ok_holds _ _ _ _ _ Hall))|]. simpl. intros ? []. done.
Qed.
End existence.

(** ** A response nobody reads *)

Section blocked.
Context {W : Type} `{Writer W}.
Variable h : Handler.
Implicit Types (g : server W) (s : Session W).

(** Session [i] waits to send [m] on a full [sendCh] whose writer is gone. *)
Definition blocked (i : sid) (m : Message) (g : server W) : Prop :=
  exists s c, g_sessions g !! i = Some s /\ g_heap g !! i = Some c /\
    ss_pc s = SReply m /\ ss_wpc s = RExit /\ sendCh_free c = false.

Lemma wsys_full (w w' : wsys W) tr :
  exec wsys_step w tr w' -> w_pc w = RExit -> sendCh_free (fst (w_sh w)) = false ->
  w_pc w' = RExit /\ sendCh_free (fst (w_sh w')) = false.
Proof.
  induction 1 as [|w l w1 tr1 w2 Hs _ IH]; intros Hpc Hf; [done|]. apply IH;
    destruct Hs as [pooled [ch st] cw pc wl sh' cw' pc' Hw| | | | |]; simpl in *; try done; try congruence.
  - subst pc. cbn [wstep] in Hw. by apply not_elem_of_nil in Hw.
  - subst pc. cbn [wstep] in Hw. by apply not_elem_of_nil in Hw.
Qed.

(** The program counter of a blocked session does not move. *)
Lemma step_blocked_pc g l g' i m s' :
  gstep h g l g' -> blocked i m g -> g_sessions g' !! i = Some s' -> ss_pc s' = SReply m.
Proof.
  intros Hs (s & c & Hi & Hc & Hpc & Hw & Hf) Hi'.
  gstep_inv Hs; try simpl in Hi'; try (lookup_insert Hi');
    try (rewrite lookup_app_l in Hi' by (by eapply lookup_lt_Some)); simplify_eq/=; try done; try congruence.
  destruct (dispatch_lookup h _ _ _ _ _ _ H0 H1 Hi') as [ [-> _] | [_ E] ]; congruence.
Qed.

Lemma blocked_step g l g' i m : gstep h g l g' -> blocked i m g -> blocked i m g'.
Proof.
  intros Hs Hb. pose proof Hb as (s & c & Hi & Hc & Hpc & Hw & Hf).
  destruct (step_evolves h _ _ _ Hs i (mkWsys (c, g_stats g) (ss_cw s) (ss_wpc s))) as (tr & w' & Hv & He).
  { unfold view. by rewrite Hi, Hc. }
  destruct (wsys_full _ _ _ He Hw Hf) as [Hw' Hf']. revert Hv. unfold view.
  destruct (g_sessions g' !! i) as [s'|] eqn:Hi'; [|done].
  destruct (g_heap g' !! i) as [c'|] eqn:Hc'; [|done]. intros [= <-].
  exists s', c'. repeat split; try done. by eapply step_blocked_pc.
Qed.

Lemma blocked_exec g tr g' i m : exec (gstep h) g tr g' -> blocked i m g -> blocked i m g'.
Proof. induction 1; [done|]. intros. apply IHexec. by eapply blocked_step. Qed.

(** One [Ping] and its [Pong], with nobody draining [sendCh]. *)
Definition one_session (s : Session W) (c : chans) (cm : controlManager) (st : option ReqWorkConnStats)
    : server W := mkServer [c] [s] cm (Some New) st [].

Definition ping : Message := MPing (mkPing "" 0).
Definition pong : Message := MPong (mkPong "").

Lemma fill_sendCh n s c cm st :
  h_HeartbeatTimeout h <= 0 -> ss_pc s = SLoop -> ss_connClosed s = false ->
  Z.of_nat (length (sendCh c)) + Z.of_nat n <= controlSendChSize ->
  exists tr, exec (gstep h) (one_session s c cm st) tr
    (one_session s (setSendCh c (sendCh c ++ replicate n pong)) cm st).
Proof.
  intros Hh Hpc Hconn. revert c. induction n as [|n IH]; intros c Hlen.
  - exists []. rewrite app_nil_r. destruct c. constructor.
  - destruct (IH (setSendCh c (sendCh c ++ [pong]))) as [tr He].
    { simpl. rewrite length_app. simpl. lia. }
    eexists. eapply exec_cons; [eapply (gs_read h _ 0%nat s ping); done|].
    cbn [controlDispatch ping]. rewrite (proj2 (Z.ltb_ge _ _)) by done.
    eapply exec_cons.
    + eapply (gs_main h _ 0%nat); [reflexivity|]. unfold main_step. cbn [ss_pc setPc].
      unfold send_sendCh. cbn [g_heap setSession one_session lookup list_lookup].
      assert (sendCh_free c = true) as -> by (apply Z.ltb_lt; lia). left.
    + replace (sendCh c ++ replicate (S n) pong)
        with (sendCh (setSendCh c (sendCh c ++ [pong])) ++ replicate n pong) by (simpl; by rewrite <- app_assoc).
      replace (setSession _ _ _) with (one_session s (setSendCh c (sendCh c ++ [pong])) cm st).
      * exact He.
      * unfold one_session, setSession, setHeap. simpl. by destruct s; simpl in *; subst.
Qed.
End blocked.

(** C33: A response can block a session for ever. For every token there is an
    execution in which a client logs in, its connection fails for writing so
    that the writer returns, and the pings still read fill [sendCh]: the
    control loop then waits to send the next [Pong], and it waits in every
    continuation, whether the session is cancelled, displaced by a reconnect
    or its connection closed, so that its cleanup never runs. *)
Theorem reply_blocks_forever (token : string) :
  exists tr (g : server memConn), exec (gstep (prodHandler token)) (initServer (Some New) (Some zeroStats)) tr g /\
    forall tr' g', exec (gstep (prodHandler token)) g tr' g' ->
      exists s, g_sessions g' !! 0%nat = Some s /\ ss_pc s = SReply pong.
Proof.
  set (key := BuildAuthKey token 7).
  destruct (step_login (prodHandler token) (initServer (Some New) (Some zeroStats)) key "abc" 0
              (mkMem [] 0) eq_refl ltac:(done)) as [ms Hlogin].
  clearbody key. set (g1 := mkServer _ _ _ _ _ _) in Hlogin.
  destruct (gsched_run (prodHandler token) g1
              (replicate 2 (GcMain 0) ++ [GcRead 0 ping; GcMain 0] ++ replicate 7 (GcWriter 0 0)))
    as [ [tr g2]|] eqn:E; [|vm_compute in E; discriminate].
  pose proof (exec_cons _ _ _ _ _ _ Hlogin (gsched_run_sound _ _ _ _ _ E)) as Hx.
  vm_compute in E. injection E as _ <-.
  match type of Hx with exec _ _ _ (mkServer [?c] [?s] ?cm _ ?st _) =>
    destruct (fill_sendCh (prodHandler token) 1024 s c cm st ltac:(done) eq_refl eq_refl ltac:(by vm_compute))
      as [tr2 Hfill] end.
  pose proof (exec_app _ _ _ _ _ _ Hx Hfill) as Hx2. clear Hx Hfill.
  match type of Hx2 with exec _ _ _ ?g3 => set (g4 := g3) in Hx2 end.
  assert (exists g5 l, gstep (prodHandler token) g4 l g5 /\ blocked 0 pong g5) as (g5 & l & Hs & Hb).
  { eexists _, _. split; [eapply (gs_read _ g4 0%nat _ ping); reflexivity|].
    eexists _, _. split; [reflexivity|]. split; [reflexivity|]. done. }
  exists (((GWrote ms :: tr) ++ tr2) ++ [l]), g5. split; [eapply exec_app; [exact Hx2 | by apply exec_one]|].
  intros tr' g' Hx'. destruct (blocked_exec _ _ _ _ _ _ Hx' Hb) as (s & c & Hi & _ & Hpc & _). eauto.
Qed.

(** ** Witnesses *)

(** A client that reconnects while its old session runs. *)
Definition demo_key : string := Eval vm_compute in BuildAuthKey "t" 7.
Definition demo_login : Message := MLogin (loginWith demo_key "abc" 0).
Definition demo_start : server memConn := initServer (Some New) (Some zeroStats).
Definition demo_web : Message := MNewProxy (demo_proxy "web" ["a.com"] []).

Definition demo_reconnect : list (gchoice (W:=memConn)) :=
  [GcSession demo_login [] (mkMem [] 1000); GcMain 0; GcMain 0;
   GcRead 0 demo_web; GcMain 0;
   GcSession demo_login [] (mkMem [] 1000); GcMain 1; GcMain 1].
Definition demo_cleanup : list (gchoice (W:=memConn)) := [GcWatch 0; GcReadErr 0] ++ replicate 6 (GcMain 0).

Definition demo_drive (g : server memConn) (cs : list (gchoice (W:=memConn))) : list glabel * server memConn :=
  default ([], g) (gsched_run (prodHandler "t") g cs).

Lemma demo_drive_exec g cs :
  exec (gstep (prodHandler "t")) g (fst (demo_drive g cs)) (snd (demo_drive g cs)).
Proof.
  unfold demo_drive. destruct (gsched_run _ g cs) as [ [tr g']|] eqn:E; simpl; [|constructor].
  by eapply gsched_run_sound.
Qed.

Definition demo_g1 : server memConn := Eval vm_compute in snd (demo_drive demo_start demo_reconnect).
Definition demo_g2 : server memConn := snd (demo_drive demo_g1 demo_cleanup).

Lemma demo_g1_exec : exists tr, exec (gstep (prodHandler "t")) demo_start tr demo_g1.
Proof.
  exists (fst (demo_drive demo_start demo_reconnect)).
  assert (snd (demo_drive demo_start demo_reconnect) = demo_g1) as <- by (vm_compute; reflexivity).
  apply demo_drive_exec.
Qed.

(** The new session runs, is connected and is not cancelled, but has no
    entry. *)
Lemma reconnect_loses_entry_witness :
  GetEntry (g_controls demo_g1) "abc" = Some (ownEntry 1) /\
  GetEntry (g_controls demo_g2) "abc" = None /\
  (forall s c, g_sessions demo_g2 !! 1%nat = Some s -> g_heap demo_g2 !! 1%nat = Some c ->
     ss_pc s = SLoop /\ ss_connClosed s = false /\ done_ c = false).
Proof.
  split; [vm_compute; reflexivity|].
  destruct (g_sessions demo_g1 !! 0%nat) as [s|] eqn:Es; [|vm_compute in Es; discriminate].
  destruct (g_sessions demo_g2 !! 0%nat) as [s'|] eqn:Es'; [|vm_compute in Es'; discriminate].
  assert (ss_runID s = "abc" /\ unregistered (ss_pc s) = false) as [Er Hb]
    by (vm_compute in Es; injection Es as <-; split; reflexivity).
  assert (unregistered (ss_pc s') = true) as Ha by (vm_compute in Es'; injection Es' as <-; reflexivity).
  pose proof (reconnect_loses_entry (prodHandler "t") demo_g1 demo_g2 _ 0 s s'
    (demo_drive_exec demo_g1 demo_cleanup) Es Hb Es' Ha) as [Hnone _].
  - vm_compute. repeat (constructor; [discriminate|]). constructor.
  - rewrite Er in Hnone. split; [exact Hnone|]. intros s1 c1 Hs1 Hc1.
    vm_compute in Hs1, Hc1. injection Hs1 as <-. injection Hc1 as <-. repeat split.
Defined.

Lemma only_authenticated_witness :
  exists i s, g_sessions demo_g1 !! i = Some s /\ ss_runID s = "abc" /\ authentic (prodHandler "t") s.
Proof.
  destruct demo_g1_exec as [tr Hx].
  destruct (only_authenticated (prodHandler "t") _ _ _ Hx) as [_ Hr].
  destruct (g_router demo_g1) as [r|] eqn:Eg; [|vm_compute in Eg; discriminate].
  destruct (Lookup r "a.com" "/x") as [rc|] eqn:El; [|vm_compute in Eg; injection Eg as <-; vm_compute in El; discriminate].
  assert (rc_RunID rc = "abc") as <- by (vm_compute in Eg; injection Eg as <-; vm_compute in El; injection El as <-; reflexivity).
  exact (Hr r "a.com" "/x" rc eq_refl El).
Defined.

Lemma stats_balance_witness :
  let g := snd (demo_drive demo_start
             ([GcSession (MLogin (loginWith demo_key "abc" 2)) [] (mkMem [] 1000)]
              ++ replicate 10 (GcMain 0) ++ [GcCall "abc"] ++ replicate 5 (GcCallStep 0))) in
  match g_stats g with
  | Some st => rs_requested st = 3 /\ rs_inflight st =64 3
  | None => False
  end.
Proof.
  cbv zeta. set (cs := _ ++ _).
  pose proof (fun st => stats_balance (prodHandler "t") _ _ _ st (demo_drive_exec demo_start cs)) as Hb.
  destruct (g_stats (snd (demo_drive demo_start cs))) as [st|] eqn:E; [|vm_compute in E; discriminate].
  destruct (Hb st eq_refl ltac:(vm_compute; reflexivity)) as (_ & _ & Hi).
  split; [vm_compute in E; injection E as <-; reflexivity|].
  etransitivity; [exact Hi|]. vm_compute. reflexivity.
Defined.

Lemma server_refines_writer_witness :
  exists ws, view demo_g1 1 = Some ws /\ w_pc ws = RTop /\
    exists (w : memConn) st0 tr', exec wsys_step (wsys_init w st0) tr' ws.
Proof.
  destruct (view demo_g1 1) as [ws|] eqn:E; [|vm_compute in E; discriminate].
  exists ws. split; [reflexivity|]. split; [vm_compute in E; injection E as <-; reflexivity|].
  destruct demo_g1_exec as [tr Hx].
  exact (server_refines_writer (prodHandler "t") _ _ _ _ _ _ Hx E).
Defined.

Lemma session_leaves_no_routes_witness :
  exists r ps, foldl (sessionMsg "abc") (Some demo_router, ∅)
                 [MNewProxy (demo_proxy "api" ["b.com"; "*.c.com"] ["/v1"]);
                  MNewProxy (demo_proxy "bad" ["d.com"; "a.com"] [])] = (Some r, ps) /\
    Lookup r "b.com" "/v1/x" <> None /\
    (forall rc, registered (removeProxies r ps) rc -> registered demo_router rc).
Proof.
  destruct (session_leaves_no_routes demo_router "abc"
              [MNewProxy (demo_proxy "api" ["b.com"; "*.c.com"] ["/v1"]);
               MNewProxy (demo_proxy "bad" ["d.com"; "a.com"] [])] demo_router_wf) as (r & ps & E & Hown & _).
  - repeat constructor.
  - exists r, ps. split; [exact E|]. split; [|exact Hown].
    assert (r = default New (fst (foldl (sessionMsg "abc") (Some demo_router, ∅)
                 [MNewProxy (demo_proxy "api" ["b.com"; "*.c.com"] ["/v1"]);
                  MNewProxy (demo_proxy "bad" ["d.com"; "a.com"] [])]))) as -> by (by rewrite E).
    vm_compute. discriminate.
Defined.
