(* ===== verification/Registry.v ===== *)
(** * The pool registry: [src/internal/pool/registry.go], and its wiring in
    [src/cmd/drps/main.go]

    Pools are shared objects: the registry maps run IDs to references into a
    heap of pools, and a caller may keep the reference of a pool that has been
    removed. The registry's methods run under its lock; the calls of [Put],
    [Get] and [Close] they are combined with are taken in one go here, which
    [Put_runs] and [Close_runs] justify by executions of [Pool.step]. *)

From S2P Require Import Prelude Pool PoolProofs.

(** ** Whole calls of a pool *)

(** [Put]: the pool, and whether the connection was closed. *)
Definition Put (p : Pool) (c : Conn) : Pool * bool :=
  if p_closed p then (p, true)
  else if Z.of_nat (length (p_conns p)) <? p_cap p then (setConns p (p_conns p ++ [c]), false)
  else (p, true).

(** [Get] up to its fast path: an idle connection. *)
Definition Take (p : Pool) : Pool * option Conn :=
  if p_closed p then (p, None)
  else match p_conns p with
       | c :: rest => (addStats (setConns p rest) 1 0 0 0 0, Some c)
       | [] => (p, None)
       end.

(** [Close]: the pool and the connections it closed. *)
Definition Close (p : Pool) : Pool * list Conn :=
  match p_closedOnce p with
  | OnceNew => (setOnce (setConns (closeChan (markClosed p)) []) OnceDone, p_conns p)
  | _ => (p, [])
  end.

(** ** [Registry] *)

(** A reference to a pool. *)
Abbreviation ref := nat (only parsing).

Record Registry := mkRegistry { pools : gmap string ref }.

(** The registry and the heap of all the pools ever created. *)
Record rstate := mkR { reg : Registry; objs : list Pool }.

Definition NewRegistry : Registry := mkRegistry ∅.
Definition initR : rstate := mkR NewRegistry [].

Definition GetOrCreate (s : rstate) (runID : string) (capacity : list Z) : rstate * ref :=
  match pools (reg s) !! runID with
  | Some p => (s, p)
  | None =>
      let p := length (objs s) in
      (mkR (mkRegistry (<[runID := p]> (pools (reg s)))) (objs s ++ [New capacity]), p)
  end.

Definition Get (s : rstate) (runID : string) : option ref := pools (reg s) !! runID.

(** [Remove]: the state and the connections closed. *)
Definition Remove (s : rstate) (runID : string) : rstate * list Conn :=
  match pools (reg s) !! runID with
  | Some p =>
      match objs s !! p with
      | Some o =>
          let '(o', closed) := Close o in
          (mkR (mkRegistry (delete runID (pools (reg s)))) (<[p := o']> (objs s)), closed)
      | None => (s, [])
      end
  | None => (s, [])
  end.

(** [Range] over the map in the given order: the entries [fn] was called on. *)
Fixpoint Range (fn : string -> ref -> bool) (order : list (string * ref)) : list (string * ref) :=
  match order with
  | [] => []
  | (name, p) :: order' => (name, p) :: if fn name p then Range fn order' else []
  end.

Record AggregateStats := mkAgg {
  ActivePools : Z; AggGetHit : Z; AggGetMiss : Z; AggGetTimeout : Z; AggRefillDemand : Z; AggRefillSent : Z
}.

Definition addPool (objs : list Pool) (out : AggregateStats) (p : ref) : AggregateStats :=
  match objs !! p with
  | Some o =>
      let s := Stats_of o in
      mkAgg (ActivePools out) (add64 (AggGetHit out) (GetHitCount s)) (add64 (AggGetMiss out) (GetMissCount s))
        (add64 (AggGetTimeout out) (GetTimeoutCount s)) (add64 (AggRefillDemand out) (RefillDemand s))
        (add64 (AggRefillSent out) (RefillSent s))
  | None => out
  end.

(** [AggregateStats] with the map iterated in the given order. *)
Definition AggregateStatsOf (s : rstate) (order : list (string * ref)) : AggregateStats :=
  foldl (fun out e => addPool (objs s) out (snd e))
    (mkAgg (Z.of_nat (size (pools (reg s)))) 0 0 0 0 0) order.

(** ** The wiring of [buildServerStack] *)

(** [h.OnWorkConn] and [h.OnControlClose]. *)
Definition OnWorkConn (poolCapacity : Z) (s : rstate) (runID : string) (c : Conn) : rstate * list Conn :=
  let '(s1, p) := GetOrCreate s runID [poolCapacity] in
  match objs s1 !! p with
  | Some o =>
      let '(o', dropped) := Put o c in
      (mkR (reg s1) (<[p := o']> (objs s1)), if dropped : bool then [c] else [])
  | None => (s1, [])
  end.

Definition OnControlClose (s : rstate) (runID : string) : rstate * list Conn := Remove s runID.

(** What the server and the proxy do with the registry. *)
Inductive rop :=
  | OpWorkConn (runID : string) (c : Conn)
  | OpControlClose (runID : string)
  | OpGet (runID : string)
  | OpTake (p : ref).

(** The connections closed and the connection answered. *)
Definition rstep (poolCapacity : Z) (s : rstate) (o : rop) : rstate * list Conn * option Conn :=
  match o with
  | OpWorkConn runID c => (OnWorkConn poolCapacity s runID c, None)
  | OpControlClose runID => (OnControlClose s runID, None)
  | OpGet runID => (s, [], None)
  | OpTake p =>
      match objs s !! p with
      | Some o => let '(o', c) := Take o in (mkR (reg s) (<[p := o']> (objs s)), [], c)
      | None => (s, [], None)
      end
  end.

(** Runs a sequence of operations: the state, the connections given to the
    pools, closed, and handed out. *)
Fixpoint rrun (poolCapacity : Z) (s : rstate) (ops : list rop) : rstate * list Conn * list Conn * list Conn :=
  match ops with
  | [] => (s, [], [], [])
  | o :: ops' =>
      let '(s1, closed, taken) := rstep poolCapacity s o in
      let '(s2, g2, c2, t2) := rrun poolCapacity s1 ops' in
      (s2, match o with OpWorkConn _ c => c :: g2 | _ => g2 end, closed ++ c2,
       match taken with Some c => c :: t2 | None => t2 end)
  end.
