(* ===== verification/RegistrySpec.v ===== *)
(** * What the registry promises

    No pool and no connection is lost by the registry: a pool is registered
    under one run ID and open, or removed and closed with nothing in it. *)

From S2P Require Import Prelude Pool PoolProofs Registry.

(** ** Whole calls are executions of the pool *)

Definition closes (tr : list label) : list Conn :=
  tr ≫= fun l => match l with LConnClose c => [c] | _ => [] end.

(** The last goroutine runs alone. *)
Lemma solo_step p p' ts t t' l :
  existsb is_panicked ts = false -> is_panicked t = false ->
  (l, p', t', []) ∈ thread_step p t ->
  step (mkSys p (ts ++ [t])) l (mkSys p' (ts ++ [t'])).
Proof.
  intros Hts Ht Ho.
  replace (ts ++ [t']) with (<[length ts := t']> (ts ++ [t]) ++ []).
  - eapply step_thread; [|by rewrite existsb_app, Hts; simpl; rewrite Ht | exact Ho].
    by rewrite lookup_app_r, Nat.sub_diag by lia.
  - rewrite app_nil_r, insert_app_r_alt, Nat.sub_diag by lia. done.
Qed.

Lemma drain_runs l p ts :
  existsb is_panicked ts = false -> p_conns p = l ->
  exists tr, exec step (mkSys p (ts ++ [CloseDrain])) tr
               (mkSys (setOnce (setConns p []) OnceDone) (ts ++ [CloseDone])) /\ closes tr = l.
Proof.
  intros Hts. revert p; induction l as [|c l IH]; intros p Hc.
  - exists [LTau]. split; [|done]. apply exec_one, solo_step; [done..|].
    cbn [thread_step]. rewrite Hc. replace (setConns p []) with p by (destruct p; simpl in *; by subst).
    left.
  - destruct (IH (setConns p l) eq_refl) as (tr & He & Ht). exists (LConnClose c :: tr).
    split; [|change (c :: closes tr = c :: l); by rewrite Ht].
    eapply exec_cons; [|exact He]. apply solo_step; [done..|]. cbn [thread_step]. rewrite Hc. left.
Qed.

(** [Close] taken in one go is an execution of the pool's goroutines: run
    without interruption it ends in the state [Close] computes, having closed
    the connections it lists. *)
Lemma Close_runs (p : Pool) (ts : list pc)
    (Hlive : existsb is_panicked ts = false) (Hnew : p_closedOnce p = OnceNew)
    (Hopen : p_chanClosed p = false) :
  exists tr, exec step (mkSys p (ts ++ [CloseOnce])) tr (mkSys (fst (Close p)) (ts ++ [CloseDone])) /\
    closes tr = snd (Close p).
Proof.
  destruct (drain_runs (p_conns p) (closeChan (markClosed (setOnce p OnceRunning))) ts Hlive eq_refl)
    as (tr & He & Ht).
  exists (LTau :: LTau :: LTau :: tr). unfold Close. rewrite Hnew. simpl. split; [|exact Ht].
  eapply exec_cons; [apply solo_step; [done..|]; cbn [thread_step]; rewrite Hnew; left|].
  eapply exec_cons; [apply solo_step; [done..|]; left|].
  eapply exec_cons; [apply solo_step; [done..|]; cbn [thread_step p_chanClosed markClosed setOnce]; rewrite Hopen; left|].
  replace (setOnce (setConns (closeChan (markClosed p)) []) OnceDone)
    with (setOnce (setConns (closeChan (markClosed (setOnce p OnceRunning))) []) OnceDone) by (by destruct p).
  exact He.
Qed.

(** [Put] taken in one go is an execution of the pool's goroutines. *)
Lemma Put_runs (p : Pool) (ts : list pc) (c : Conn)
    (Hlive : existsb is_panicked ts = false) (Hopen : p_chanClosed p = p_closed p) :
  exists tr, exec step (mkSys p (ts ++ [PutCheck c])) tr (mkSys (fst (Put p c)) (ts ++ [PutDone])) /\
    closes tr = if snd (Put p c) then [c] else [].
Proof.
  unfold Put. destruct (p_closed p) eqn:Ec.
  - exists [LConnClose c]. split; [|done]. apply exec_one, solo_step; [done..|].
    cbn [thread_step]. rewrite Ec. left.
  - assert (step (mkSys p (ts ++ [PutCheck c])) LTau (mkSys p (ts ++ [PutSend c]))) as H1.
    { apply solo_step; [done..|]. cbn [thread_step]. rewrite Ec. left. }
    destruct (_ <? _) eqn:El; eexists; (split; [eapply exec_cons; [exact H1|]; apply exec_one, solo_step;
      [done..|]; cbn [thread_step]; rewrite Hopen, El; left | done]).
Qed.

(** ** The invariant *)

Definition open_pool (o : Pool) : Prop :=
  p_closed o = false /\ p_chanClosed o = false /\ p_closedOnce o = OnceNew.
Definition shut_pool (o : Pool) : Prop :=
  p_closed o = true /\ p_chanClosed o = true /\ p_closedOnce o = OnceDone /\ p_conns o = [].

Record registry_ok (s : rstate) : Prop := {
  ro_inj : forall a b p, Get s a = Some p -> Get s b = Some p -> a = b;
  ro_dom : forall a p, Get s a = Some p -> (p < length (objs s))%nat;
  ro_objs : forall p o, objs s !! p = Some o ->
              (exists a, Get s a = Some p) /\ open_pool o \/
              (forall a, Get s a <> Some p) /\ shut_pool o
}.

(** All the connections the pools hold. *)
Definition held (s : rstate) : list Conn := concat (List.map p_conns (objs s)).

Lemma held_insert s p o o' :
  objs s !! p = Some o ->
  p_conns o ++ concat (List.map p_conns (<[p := o']> (objs s))) ≡ₚ p_conns o' ++ held s.
Proof.
  unfold held. generalize (objs s) as l. clear s. intros l. revert p; induction l as [|x l IH]; intros [|p] E;
    simplify_eq/=.
  - rewrite Permutation_app_swap_app. done.
  - rewrite Permutation_app_swap_app, (IH p E), Permutation_app_swap_app. done.
Qed.

(** Replacing an open registered pool by another. *)
Lemma registry_ok_update s p o o' a :
  registry_ok s -> objs s !! p = Some o -> Get s a = Some p -> open_pool o' ->
  registry_ok (mkR (reg s) (<[p := o']> (objs s))).
Proof.
  intros [Hinj Hdom Hobjs] Ho Ha Hopen. split; try done.
  - intros b q Hb. simpl. rewrite length_insert. by eapply Hdom.
  - intros q oq. simpl. rewrite list_lookup_insert_Some. intros [ (<- & <- & _) | [_ Hq] ].
    + left. split; [|done]. by exists a.
    + by apply Hobjs.
Qed.

Lemma GetOrCreate_ok s runID cap s1 p :
  registry_ok s -> GetOrCreate s runID cap = (s1, p) ->
  registry_ok s1 /\ Get s1 runID = Some p /\ held s1 = held s /\
  exists o, objs s1 !! p = Some o /\ open_pool o /\
    (forall b, b <> runID -> Get s1 b = Get s b).
Proof.
  intros [Hinj Hdom Hobjs]. unfold GetOrCreate. fold (Get s runID).
  destruct (Get s runID) as [q|] eqn:E; intros; simplify_eq.
  - split; [done|]. split; [done|]. split; [done|].
    destruct (lookup_lt_is_Some_2 (objs s1) p (Hdom _ _ E)) as [o Ho]. exists o.
    destruct (Hobjs _ _ Ho) as [ [_ ?]|[Hn _] ]; [done | by destruct (Hn runID)].
  - split; [split|].
    + intros a b p. unfold Get. simpl. rewrite !lookup_insert_Some.
      intros [ [<- <-]|[Ha Ea] ] [ [<- Eb]|[Hb Eb] ]; try done.
      * apply Hdom in Eb. simpl in *. lia.
      * subst. apply Hdom in Ea. lia.
      * by eapply Hinj.
    + intros a p. unfold Get. simpl. rewrite lookup_insert_Some, length_app. simpl.
      intros [ [<- <-]|[Ha Ea] ]; [lia|]. apply Hdom in Ea. lia.
    + intros p o. simpl. rewrite lookup_app_Some. intros [Ho | [Hle Ho] ].
      * pose proof (lookup_lt_Some _ _ _ Ho) as Hlt.
        destruct (Hobjs _ _ Ho) as [ [ [a Ha] ?]|[Hn ?] ]; [left|right]; (split; [|done]).
        -- exists a. unfold Get in *. simpl. rewrite lookup_insert_ne; [done|]. intros <-. congruence.
        -- intros a. unfold Get. simpl. rewrite lookup_insert_Some. intros [ [_ Ep]|[_ Ea] ]; [lia|].
           by apply (Hn a).
      * apply list_lookup_singleton_Some in Ho as [Hp <-]. left. split; [|done]. exists runID.
        unfold Get. simpl. rewrite lookup_insert_eq. f_equal. lia.
    + split; [unfold Get; simpl; by rewrite lookup_insert_eq|]. split.
      * unfold held. simpl. rewrite List.map_app, concat_app. simpl. by rewrite app_nil_r.
      * eexists. split; [simpl; rewrite lookup_app_r, Nat.sub_diag by lia; reflexivity|]. split; [done|].
        intros b Hb. unfold Get. simpl. by rewrite lookup_insert_ne.
Qed.

Lemma Remove_ok s runID s' closed :
  registry_ok s -> Remove s runID = (s', closed) ->
  registry_ok s' /\ Get s' runID = None /\ (forall b, b <> runID -> Get s' b = Get s b) /\
  held s ≡ₚ closed ++ held s'.
Proof.
  intros Hok. pose proof Hok as [Hinj Hdom Hobjs]. unfold Remove. fold (Get s runID).
  destruct (Get s runID) as [p|] eqn:E; [|intros; by simplify_eq].
  destruct (lookup_lt_is_Some_2 (objs s) p (Hdom _ _ E)) as [o Ho]. rewrite Ho.
  destruct (Hobjs _ _ Ho) as [ [_ (H1 & H2 & H3)]|[Hn _] ]; [|by destruct (Hn runID)].
  unfold Close. rewrite H3. intros. simplify_eq.
  assert (forall b q, delete runID (pools (reg s)) !! b = Some q -> Get s b = Some q /\ q <> p) as Hdel.
  { intros b q. rewrite lookup_delete_Some. intros [Hne Hb]. split; [done|]. intros ->.
    by destruct (Hinj _ _ _ E Hb). }
  split; [split|split; [|split] ].
  - intros a b q Ha Hb. apply Hdel in Ha as [Ha _], Hb as [Hb _]. by eapply Hinj.
  - intros a q Ha. apply Hdel in Ha as [Ha _]. simpl. rewrite length_insert. by eapply Hdom.
  - intros q oq. simpl. rewrite list_lookup_insert_Some. intros [ (<- & <- & _) | [Hne Hq] ].
    + right. split; [|done]. intros a Ha. by apply Hdel in Ha as [_ ?].
    + destruct (Hobjs _ _ Hq) as [ [ [a Ha] ?]|[Hn ?] ]; [left|right]; (split; [|done]).
      * exists a. unfold Get in *. simpl. rewrite lookup_delete_ne; [done|]. intros <-. congruence.
      * intros a Ha. apply Hdel in Ha as [Ha _]. by apply (Hn a).
  - unfold Get. simpl. by rewrite lookup_delete_eq.
  - intros b Hb. unfold Get. simpl. by rewrite lookup_delete_ne.
  - unfold held at 2. simpl. rewrite (held_insert s p o); done.
Qed.

Lemma OnWorkConn_ok cap s runID c s' closed :
  registry_ok s -> OnWorkConn cap s runID c = (s', closed) ->
  registry_ok s' /\ (exists p, Get s' runID = Some p) /\ c :: held s ≡ₚ closed ++ held s'.
Proof.
  intros Hok. unfold OnWorkConn. destruct (GetOrCreate s runID [cap]) as [s1 p] eqn:E.
  destruct (GetOrCreate_ok _ _ _ _ _ Hok E) as (Hok1 & Hp & <- & o & Ho & Hopen & _). rewrite Ho.
  unfold Put. destruct Hopen as (H1 & H2 & H3). rewrite H1.
  destruct (_ <? _); intros; simplify_eq.
  - split; [by eapply registry_ok_update|]. split; [by exists p|].
    unfold held at 2. pose proof (held_insert s1 p o (setConns o (p_conns o ++ [c])) Ho) as Hh.
    simpl in Hh |- *. rewrite <- app_assoc in Hh. apply Permutation_app_inv_l in Hh. by rewrite Hh.
  - rewrite list_insert_id by done. destruct s1. split; [done|]. split; [by exists p|]. done.
Qed.

Lemma OpTake_ok cap s p s' closed taken :
  registry_ok s -> rstep cap s (OpTake p) = (s', closed, taken) ->
  registry_ok s' /\ closed = [] /\ held s ≡ₚ match taken with Some c => [c] | None => [] end ++ held s'.
Proof.
  intros Hok. simpl. destruct (objs s !! p) as [o|] eqn:Ho; [|intros; by simplify_eq].
  assert ((mkR (reg s) (<[p := o]> (objs s))) = s) as Hid by (rewrite list_insert_id by done; by destruct s).
  unfold Take. destruct (p_closed o) eqn:Ec; [intros; simplify_eq; by rewrite Hid|].
  destruct (p_conns o) as [|c rest] eqn:El; intros; simplify_eq; [by rewrite Hid|].
  destruct (ro_objs _ Hok _ _ Ho) as [ [ [a Ha] Hopen]|[_ (? & _)] ]; [|congruence].
  split; [by eapply registry_ok_update|]. split; [done|].
  pose proof (held_insert s p o (addStats (setConns o rest) 1 0 0 0 0) Ho) as Hh. rewrite El in Hh.
  simpl in Hh. unfold held at 2. simpl. apply (Permutation_app_inv_l rest).
  rewrite <- Hh. apply Permutation_middle.
Qed.

Lemma perm_chain {A} (x c1 t1 h1 g2 c2 t2 h2 : list A) :
  x ≡ₚ c1 ++ t1 ++ h1 -> g2 ++ h1 ≡ₚ c2 ++ t2 ++ h2 -> g2 ++ x ≡ₚ (c1 ++ c2) ++ (t1 ++ t2) ++ h2.
Proof.
  intros -> H. rewrite (Permutation_app_swap_app g2 c1), (Permutation_app_swap_app g2 t1), H.
  rewrite <- !app_assoc. apply Permutation_app_head. apply Permutation_app_swap_app.
Qed.

Lemma rrun_ok cap s ops s' given closed taken :
  registry_ok s -> rrun cap s ops = (s', given, closed, taken) ->
  registry_ok s' /\ given ++ held s ≡ₚ closed ++ taken ++ held s'.
Proof.
  revert s s' given closed taken; induction ops as [|o ops IH]; intros s s' given closed taken Hok; simpl.
  { intros. by simplify_eq. }
  destruct (rstep cap s o) as [ [s1 c1] t1] eqn:Eo.
  destruct (rrun cap s1 ops) as [ [ [s2 g2] c2] t2] eqn:Er. intros. simplify_eq.
  assert (registry_ok s1 /\ match o with OpWorkConn _ c => [c] | _ => [] end ++ held s ≡ₚ
            c1 ++ match t1 with Some c => [c] | None => [] end ++ held s1) as [Hok1 Hp].
  { destruct o as [runID c|runID|runID|p].
    - simpl in Eo. destruct (OnWorkConn cap s runID c) as [s1' c1'] eqn:E. simplify_eq.
      destruct (OnWorkConn_ok _ _ _ _ _ _ Hok E) as (? & _ & ?). done.
    - simpl in Eo. unfold OnControlClose in Eo. destruct (Remove s runID) as [s1' c1'] eqn:E. simplify_eq.
      destruct (Remove_ok _ _ _ _ Hok E) as (? & _ & _ & ?). done.
    - simpl in Eo. by simplify_eq.
    - destruct (OpTake_ok _ _ _ _ _ _ Hok Eo) as (? & -> & ?). done. }
  destruct (IH _ _ _ _ _ Hok1 Er) as [Hok2 Hp2]. split; [done|].
  assert (forall l, match o with OpWorkConn _ c => c :: g2 | _ => g2 end ++ l
            ≡ₚ g2 ++ match o with OpWorkConn _ c => [c] | _ => [] end ++ l) as Hg.
  { intros l. destruct o; simpl; try done. by rewrite <- Permutation_middle. }
  rewrite Hg, (perm_chain _ _ _ _ _ _ _ _ Hp Hp2). by destruct t1.
Qed.

(** C27: The registry leaks no connection. After any sequence of work
    connections, lookups, gets and session ends, every connection given to a
    pool has been closed, handed out, or sits in a pool that is registered
    under exactly one run ID and open; every other pool ever created is closed
    and empty. *)
Theorem registry_no_leak (cap : Z) (ops : list rop) (s : rstate) (given closed taken : list Conn)
    (Hrun : rrun cap initR ops = (s, given, closed, taken)) :
  registry_ok s /\ given ≡ₚ closed ++ taken ++ held s /\
  (forall p o c, objs s !! p = Some o -> c ∈ p_conns o -> exists runID, Get s runID = Some p).
Proof.
  assert (registry_ok initR) as H0 by by split.
  destruct (rrun_ok _ _ _ _ _ _ _ H0 Hrun) as [Hok Hp]. split; [done|].
  split; [by rewrite app_nil_r in Hp|].
  intros p o c Ho Hc. destruct (ro_objs _ Hok _ _ Ho) as [ [? _]|[_ (_ & _ & _ & E)] ]; [done|].
  rewrite E in Hc. by apply not_elem_of_nil in Hc.
Qed.

(** A work connection that arrives after its session has ended, or for a run
    ID no session ever had, is not refused: it gets a pool of its own, where it
    stays although no session refers to it any more. *)
Lemma late_work_conn_kept (cap : Z) (s s1 s2 : rstate) (runID : string) (c : Conn)
    (closed1 closed2 : list Conn)
    (Hok : registry_ok s) (Hclose : OnControlClose s runID = (s1, closed1))
    (Hconn : OnWorkConn cap s1 runID c = (s2, closed2)) :
  Get s1 runID = None /\ closed2 = [] /\
  exists p o, Get s2 runID = Some p /\ objs s2 !! p = Some o /\ p_conns o = [c] /\ open_pool o.
Proof.
  destruct (Remove_ok _ _ _ _ Hok Hclose) as (Hok1 & Hn & _). split; [done|].
  unfold OnWorkConn, GetOrCreate in Hconn. unfold Get in Hn. rewrite Hn in Hconn. simpl in Hconn.
  rewrite lookup_app_r, Nat.sub_diag in Hconn by lia. simpl in Hconn.
  assert ((Z.of_nat 0 <? (if 0 <? cap then cap else defaultCapacity)) = true) as Hc
    by (destruct (Z.ltb_spec 0 cap); apply Z.ltb_lt; unfold defaultCapacity; lia).
  unfold Put in Hconn. simpl in Hconn, Hc. rewrite Hc in Hconn. simplify_eq. split; [done|].
  eexists _, _. unfold Get. simpl. rewrite lookup_insert_eq. split; [done|].
  rewrite list_lookup_insert_eq by (rewrite length_app; simpl; lia). split; [done|]. split; done.
Qed.

(** ** Whose connections a pool holds *)

(** The pool registered under the run ID holds the connection. *)
Definition pool_has (s : rstate) (runID : string) (c : Conn) : Prop :=
  exists p o, Get s runID = Some p /\ objs s !! p = Some o /\ c ∈ p_conns o.

(** Replacing the pool at [p] by one with no connection but [c] added. *)
Lemma pool_has_update s p o o' a c :
  objs s !! p = Some o -> pool_has (mkR (reg s) (<[p := o']> (objs s))) a c ->
  pool_has s a c \/ (Get s a = Some p /\ c ∈ p_conns o').
Proof.
  intros Ho (q & oq & Ha & Hq & Hc). simpl in Hq. apply list_lookup_insert_Some in Hq as [ (<- & <- & _) | [_ Hq] ].
  - by right.
  - left. by exists q, oq.
Qed.

Lemma GetOrCreate_has s runID cap s1 p a c :
  registry_ok s -> GetOrCreate s runID cap = (s1, p) -> pool_has s1 a c -> pool_has s a c.
Proof.
  intros Hok. unfold GetOrCreate. fold (Get s runID). destruct (Get s runID) as [q|] eqn:E; intros; simplify_eq; [done|].
  destruct H0 as (q & oq & Ha & Hq & Hc). unfold Get in Ha. simpl in Ha, Hq.
  apply lookup_insert_Some in Ha as [ [<- <-]|[Hne Ha] ].
  - rewrite lookup_app_r, Nat.sub_diag in Hq by lia. simplify_eq/=. by apply not_elem_of_nil in Hc.
  - rewrite lookup_app_l in Hq by (by eapply ro_dom). by exists q, oq.
Qed.

Lemma Put_conns o c d : d ∈ p_conns (fst (Put o c)) -> d ∈ p_conns o \/ d = c.
Proof. unfold Put. repeat case_match; simpl; [by left| |by left]. intros [?|?%list_elem_of_singleton]%elem_of_app; auto. Qed.

Lemma OnWorkConn_has cap s runID c a d :
  registry_ok s -> pool_has (fst (OnWorkConn cap s runID c)) a d -> pool_has s a d \/ (a = runID /\ d = c).
Proof.
  intros Hok. unfold OnWorkConn. destruct (GetOrCreate s runID [cap]) as [s1 p] eqn:E.
  destruct (GetOrCreate_ok _ _ _ _ _ Hok E) as (Hok1 & Hp & _ & o & Ho & Hopen & _). rewrite Ho.
  assert (forall b e, pool_has s1 b e -> pool_has s b e) as Hback by (intros; by eapply GetOrCreate_has).
  destruct (Put o c) as [o' dropped] eqn:Ep. cbn [fst]. intros [Hh|[Ha Hd] ]%(pool_has_update _ _ o); [left; auto| |done].
  pose proof (ro_inj _ Hok1 _ _ _ Ha Hp) as ->. pose proof (Put_conns o c d) as Hput. rewrite Ep in Hput.
  destruct (Hput Hd) as [Hd'| ->]; [left|by right]. apply Hback. by exists p, o.
Qed.

Lemma Remove_has s runID a c : registry_ok s -> pool_has (fst (Remove s runID)) a c -> pool_has s a c.
Proof.
  intros Hok. unfold Remove. fold (Get s runID). destruct (Get s runID) as [p|] eqn:E; [|done].
  destruct (objs s !! p) as [o|] eqn:Ho; [|done]. destruct (Close o) as [o' cl]. cbn [fst].
  intros (q & oq & Ha & Hq & Hc). unfold Get in Ha. simpl in Ha, Hq. apply lookup_delete_Some in Ha as [Hne Ha].
  assert (p <> q) by (intros ->; apply Hne; by eapply ro_inj). rewrite list_lookup_insert_ne in Hq by done.
  by exists q, oq.
Qed.

Lemma OpTake_has cap s p s' closed taken a c :
  rstep cap s (OpTake p) = (s', closed, taken) -> pool_has s' a c -> pool_has s a c.
Proof.
  simpl. destruct (objs s !! p) as [o|] eqn:Ho; [|intros; by simplify_eq]. destruct (Take o) as [o' t] eqn:Et.
  intros E [Hh|[Ha Hc] ]%(fun H => pool_has_update s p o o' a c Ho (eq_ind_r (fun s' => pool_has s' a c) H (f_equal (fst ∘ fst) E))); [done|].
  exists p, o. split_and!; [done..|]. unfold Take in Et.
  destruct (p_closed o); simplify_eq; [done|]. destruct (p_conns o) eqn:El; simplify_eq/=; [by rewrite El in Hc|]. by right.
Qed.

(** A connection taken was in the pool. *)
Lemma OpTake_from cap s p s' closed a c :
  rstep cap s (OpTake p) = (s', closed, Some c) -> Get s a = Some p -> pool_has s a c.
Proof.
  simpl. destruct (objs s !! p) as [o|] eqn:Ho; [|done]. destruct (Take o) as [o' t] eqn:Et. intros E Ha. simplify_eq.
  exists p, o. split_and!; [done..|]. unfold Take in Et. destruct (p_closed o); [done|].
  destruct (p_conns o); simplify_eq. left.
Qed.

(** A pool that has a connection to give is registered. *)
Lemma OpTake_registered cap s p s' closed c :
  registry_ok s -> rstep cap s (OpTake p) = (s', closed, Some c) -> exists a, Get s a = Some p.
Proof.
  intros Hok. simpl. destruct (objs s !! p) as [o|] eqn:Ho; [|done]. unfold Take.
  destruct (ro_objs _ Hok _ _ Ho) as [ [? _]|[_ (-> & _)] ]; done.
Qed.

(** *** References are not used twice *)

(** No pool disappears, and a reference that exists is not registered anew. *)
Record refs_le (s s' : rstate) : Prop := {
  rl_length : (length (objs s) <= length (objs s'))%nat;
  rl_get : forall a p, (p < length (objs s))%nat -> Get s' a = Some p -> Get s a = Some p
}.

Lemma refs_le_refl s : refs_le s s.
Proof. by split. Qed.

Lemma OnWorkConn_refs cap s runID c : refs_le s (fst (OnWorkConn cap s runID c)).
Proof.
  assert (refs_le s (fst (GetOrCreate s runID [cap]))) as [H1 H2].
  { unfold GetOrCreate. destruct (pools (reg s) !! runID) as [p|] eqn:E; [apply refs_le_refl|]. split; simpl.
    - rewrite length_app. lia.
    - intros a p Hp. unfold Get. simpl. intros [ [_ <-]|[_ ?] ]%lookup_insert_Some; [lia | done]. }
  unfold OnWorkConn. destruct (GetOrCreate s runID [cap]) as [s1 p]. simpl in *.
  destruct (objs s1 !! p) as [o|]; [|by split]. destruct (Put o c) as [o' dropped]. split; simpl; [by rewrite length_insert|done].
Qed.

Lemma Remove_refs s runID : refs_le s (fst (Remove s runID)).
Proof.
  unfold Remove. destruct (pools (reg s) !! runID) as [p|]; [|apply refs_le_refl].
  destruct (objs s !! p) as [o|]; [|apply refs_le_refl]. destruct (Close o) as [o' cl]. split; simpl; [by rewrite length_insert|].
  intros a q _. unfold Get. simpl. by intros [_ ?]%lookup_delete_Some.
Qed.

Lemma OpTake_refs cap s p : refs_le s (fst (fst (rstep cap s (OpTake p)))).
Proof.
  simpl. destruct (objs s !! p) as [o|]; [|apply refs_le_refl]. destruct (Take o) as [o' c].
  split; simpl; [by rewrite length_insert | done].
Qed.

(** ** Statistics *)

Definition pool_sum (s : rstate) (f : Pool -> Z) (order : list (string * ref)) : Z :=
  sum_with (fun e => match objs s !! snd e with Some o => f o | None => 0 end) order.

(** The counters of a snapshot, for a pointwise statement. *)
Definition agg_fields (a : AggregateStats) : list Z :=
  [AggGetHit a; AggGetMiss a; AggGetTimeout a; AggRefillDemand a; AggRefillSent a].

Definition pool_fields : list (Pool -> Z) :=
  [p_getHit; p_getMiss; p_getTimeout; p_refillDemand; p_refillSent].

Lemma foldl_addPool s order out :
  Forall (fun z => wrap64 z = z) (agg_fields out) ->
  agg_fields (foldl (fun out e => addPool (objs s) out (snd e)) out order)
  = zip_with (fun f z => wrap64 (z + pool_sum s f order)) pool_fields (agg_fields out) /\
  ActivePools (foldl (fun out e => addPool (objs s) out (snd e)) out order) = ActivePools out.
Proof.
  revert out; induction order as [|[name p] order IH]; intros out Hw.
  - split; [|done]. unfold agg_fields in *. simpl. rewrite !Z.add_0_r.
    repeat match goal with H : Forall _ (_ :: _) |- _ => apply Forall_cons in H as [? H] end. congruence.
  - cbn [foldl snd]. destruct (IH (addPool (objs s) out p)) as [E1 E2].
    { unfold addPool. destruct (objs s !! p); [|done]. repeat constructor; apply wrap64_wrap. }
    rewrite E1, E2. unfold addPool, pool_sum. simpl. destruct (objs s !! p) as [o|]; simpl.
    + split; [|done]. unfold add64. by rewrite !wrap64_add_wrap, <- !Z.add_assoc.
    + done.
Qed.

(** [AggregateStats] does not depend on the order in which Go iterates the
    map: it counts the registered pools, and each of its counters is the sum of
    the pools' counters in 64-bit arithmetic. *)
Lemma AggregateStats_order (s : rstate) (order : list (string * ref))
    (Horder : order ≡ₚ map_to_list (pools (reg s))) :
  ActivePools (AggregateStatsOf s order) = Z.of_nat (length order) /\
  agg_fields (AggregateStatsOf s order)
  = (fun f => wrap64 (pool_sum s f (map_to_list (pools (reg s))))) <$> pool_fields.
Proof.
  unfold AggregateStatsOf.
  destruct (foldl_addPool s order (mkAgg (Z.of_nat (size (pools (reg s)))) 0 0 0 0 0)) as [-> ->].
  { by repeat constructor. }
  split; [by rewrite Horder, length_map_to_list|]. simpl. unfold pool_sum.
  by rewrite !(sum_with_perm _ _ _ Horder).
Qed.

(** ** Witnesses *)

Definition demo_ops : list rop :=
  [OpWorkConn "a" 1%nat; OpWorkConn "a" 2%nat; OpWorkConn "b" 3%nat; OpWorkConn "a" 4%nat;
   OpTake 0; OpControlClose "a"; OpWorkConn "a" 5%nat].

Lemma registry_no_leak_witness :
  let '(s, given, closed, taken) := rrun 2 initR demo_ops in
  given = [1; 2; 3; 4; 5]%nat /\ closed = [4; 2]%nat /\ taken = [1%nat] /\ held s = [3; 5]%nat /\
  registry_ok s.
Proof.
  destruct (rrun 2 initR demo_ops) as [ [ [s given] closed] taken] eqn:E.
  destruct (registry_no_leak 2 demo_ops s given closed taken E) as [Hok _].
  vm_compute in E. injection E as <- <- <- <-. repeat (split; [reflexivity|]). exact Hok.
Defined.

Lemma late_work_conn_kept_witness :
  let s1 := fst (OnControlClose initR "a") in
  let s2 := fst (OnWorkConn 0 s1 "a" 9%nat) in
  exists p o, Get s2 "a" = Some p /\ objs s2 !! p = Some o /\ p_conns o = [9%nat] /\ open_pool o.
Proof.
  cbv zeta. set (s1 := fst (OnControlClose initR "a")). set (s2 := fst (OnWorkConn 0 s1 "a" 9%nat)).
  destruct (late_work_conn_kept 0 initR s1 s2 "a" 9%nat [] []) as (_ & _ & Hp);
    [by split | reflexivity..|]. exact Hp.
Defined.

Definition demo_registry : rstate :=
  Eval vm_compute in let '(s, _, _, _) := rrun 2 initR (OpTake 0 :: demo_ops ++ [OpTake 1]) in s.

Lemma AggregateStats_order_witness :
  ActivePools (AggregateStatsOf demo_registry (reverse (map_to_list (pools (reg demo_registry))))) = 2 /\
  agg_fields (AggregateStatsOf demo_registry (reverse (map_to_list (pools (reg demo_registry)))))
  = [1; 0; 0; 0; 0].
Proof.
  destruct (AggregateStats_order demo_registry (reverse (map_to_list (pools (reg demo_registry))))
              (reverse_Permutation _)) as [Ha Hf].
  rewrite Ha, Hf. split; vm_compute; reflexivity.
Defined.
