(* ===== verification/Aes.v ===== *)
(** * AES and the CFB mode: the parts of [crypto/aes] and [crypto/cipher] the
    program uses

    The block cipher of FIPS 197 with its key expansion for keys of 16, 24
    and 32 bytes, and the CFB streams of [crypto/cipher]. Only the encrypting
    direction of the block cipher is needed: CFB uses it both ways. *)

From S2P Require Import Prelude GoStrings Json JsonProofs Wire.

Definition BlockSize : nat := 16.

(** ** The field GF(2^8) *)

Definition xtime (a : Z) : Z :=
  let b := Z.land (Z.shiftl a 1) 255 in
  if Z.testbit a 7 then Z.lxor b 27 else b.

(** The product of [a] and the low [n] bits of [b]. *)
Fixpoint gmul (n : nat) (a b : Z) : Z :=
  match n with
  | O => 0
  | S n' => Z.lxor (if Z.testbit b 0 then a else 0) (gmul n' (xtime a) (Z.shiftr b 1))
  end.

(** The inverse is the 254th power; 0 goes to 0. *)
Definition ginv (a : Z) : Z :=
  let sq x := gmul 8 x x in
  let a2 := sq a in let a4 := sq a2 in let a8 := sq a4 in let a16 := sq a8 in
  let a32 := sq a16 in let a64 := sq a32 in let a128 := sq a64 in
  foldl (gmul 8) a2 [a4; a8; a16; a32; a64; a128].

Definition rotl8 (x n : Z) : Z := Z.lor (Z.land (Z.shiftl x n) 255) (Z.shiftr x (8 - n)).

Definition sbox_entry (x : Z) : Z :=
  let b := ginv x in
  foldl Z.lxor 99 [b; rotl8 b 1; rotl8 b 2; rotl8 b 3; rotl8 b 4].

Definition sbox_table : list Z :=
  Eval vm_compute in List.map (fun i => sbox_entry (Z.of_nat i)) (seq 0 256).

Definition sbox (x : Z) : Z := nth (Z.to_nat x) sbox_table 0.

(** ** The rounds; the state is the sixteen bytes, column by column *)

Definition state : Type := list Z.

Definition byte_at (s : state) (i : nat) : Z := nth i s 0.

Definition shiftRows (s : state) : state :=
  List.map (byte_at s) [0; 5; 10; 15; 4; 9; 14; 3; 8; 13; 2; 7; 12; 1; 6; 11]%nat.

Definition mixColumn (a b c d : Z) : list Z :=
  let m2 := xtime in
  let m3 x := Z.lxor (xtime x) x in
  let x4 p q r s := Z.lxor (Z.lxor p q) (Z.lxor r s) in
  [x4 (m2 a) (m3 b) c d; x4 a (m2 b) (m3 c) d; x4 a b (m2 c) (m3 d); x4 (m3 a) b c (m2 d)].

Definition mixColumns (s : state) : state :=
  concat (List.map (fun c => mixColumn (byte_at s (4 * c)) (byte_at s (4 * c + 1))
                               (byte_at s (4 * c + 2)) (byte_at s (4 * c + 3))) (seq 0 4)).

Definition addRoundKey (s k : list Z) : state :=
  List.map (fun i => Z.lxor (byte_at s i) (byte_at k i)) (seq 0 BlockSize).

(** ** Key expansion: words of four bytes *)

Definition word : Type := list Z.
Definition xorw (a b : word) : word := List.map (fun i => Z.lxor (byte_at a i) (byte_at b i)) (seq 0 4).
Definition subw (w : word) : word := List.map sbox w.
Definition rotw (w : word) : word := match w with [] => [] | a :: w' => w' ++ [a] end.

Fixpoint rcon (n : nat) : Z := match n with O => 1 | S n' => xtime (rcon n') end.

(** [ws] holds the words computed so far. *)
Definition nextWord (nk : nat) (ws : list word) : word :=
  let i := length ws in
  let t := nth (i - 1) ws [] in
  let t := if Nat.eqb (Nat.modulo i nk) 0 then xorw (subw (rotw t)) [rcon (i / nk - 1); 0; 0; 0]
           else if Nat.ltb 6 nk && Nat.eqb (Nat.modulo i nk) 4 then subw t else t in
  xorw (nth (i - nk) ws []) t.

Fixpoint expand (nk n : nat) (ws : list word) : list word :=
  match n with O => ws | S n' => expand nk n' (ws ++ [nextWord nk ws]) end.

(** The round keys: [nk + 7] blocks of sixteen bytes. *)
Definition roundKeys (key : list Z) : list (list Z) :=
  let nk := (length key / 4)%nat in
  let ws := List.map (fun i => take 4 (drop (4 * i) key)) (seq 0 nk) in
  let all := expand nk (4 * (nk + 7) - nk) ws in
  List.map (fun r => concat (take 4 (drop (4 * r) all))) (seq 0 (nk + 7)).

Definition round (s : state) (k : list Z) : state :=
  addRoundKey (mixColumns (shiftRows (List.map sbox s))) k.

Definition encryptBlock (rks : list (list Z)) (s : state) : state :=
  match rks with
  | [] => addRoundKey s []
  | k0 :: rest =>
      let s1 := foldl round (addRoundKey s k0) (removelast rest) in
      addRoundKey (shiftRows (List.map sbox s1)) (List.last rest [])
  end.

(** [cipher.Block]: its [Encrypt] as a function of sixteen bytes. *)
Definition Block : Type := bytes -> bytes.

(** [aes.NewCipher(key)]. *)
Definition NewCipher (key : bytes) : result Block :=
  match length key with
  | 16%nat | 24%nat | 32%nat =>
      let rks := roundKeys (List.map code key) in
      Ok (fun src => List.map chr (encryptBlock rks (List.map code src)))
  | n => Err ("crypto/aes: invalid key size " +:+ itoa (Z.of_nat n))
  end.

(** ** CFB streams *)

Definition ascii_xor (a b : ascii) : ascii :=
  match a, b with
  | Ascii a0 a1 a2 a3 a4 a5 a6 a7, Ascii b0 b1 b2 b3 b4 b5 b6 b7 =>
      Ascii (xorb a0 b0) (xorb a1 b1) (xorb a2 b2) (xorb a3 b3)
            (xorb a4 b4) (xorb a5 b5) (xorb a6 b6) (xorb a7 b7)
  end.

(** The key stream block [out] of which [outUsed] bytes are used, and the
    ciphertext [next] that the following block is made from. *)
Record cfb := mkCFB {
  cfb_b : Block;
  next : bytes;
  out : bytes;
  outUsed : nat;
  decrypt : bool
}.

Definition newCFB (block : Block) (iv : bytes) (d : bool) : cfb :=
  mkCFB block iv (replicate BlockSize (chr 0)) BlockSize d.
Definition NewCFBEncrypter (block : Block) (iv : bytes) : cfb := newCFB block iv false.
Definition NewCFBDecrypter (block : Block) (iv : bytes) : cfb := newCFB block iv true.

(** A new key stream block once the last one is used up. *)
Definition refill (x : cfb) : cfb :=
  if Nat.eqb (outUsed x) (length (out x))
  then mkCFB (cfb_b x) (next x) (cfb_b x (next x)) 0 (decrypt x)
  else x.

Definition xorByte (x : cfb) (s : ascii) : cfb * ascii :=
  let x := refill x in
  let d := ascii_xor s (nth (outUsed x) (out x) (chr 0)) in
  (mkCFB (cfb_b x) (<[outUsed x := if decrypt x then s else d]> (next x)) (out x) (S (outUsed x)) (decrypt x), d).

(** [XORKeyStream(dst, src)]: [dst]. *)
Fixpoint XORKeyStream (x : cfb) (src : bytes) : cfb * bytes :=
  match src with
  | [] => (x, [])
  | s :: src' =>
      let '(x1, d) := xorByte x s in
      let '(x2, ds) := XORKeyStream x1 src' in
      (x2, d :: ds)
  end.

(** ** Test vectors: FIPS 197, appendix C *)

Example aes128_vector :
  encryptBlock (roundKeys (List.map Z.of_nat (seq 0 16)))
    (List.map (fun i => 17 * Z.of_nat i) (seq 0 16))
  = [105; 196; 224; 216; 106; 123; 4; 48; 216; 205; 183; 128; 112; 180; 197; 90].
Proof. vm_compute. reflexivity. Qed.

Example aes192_vector :
  encryptBlock (roundKeys (List.map Z.of_nat (seq 0 24)))
    (List.map (fun i => 17 * Z.of_nat i) (seq 0 16))
  = [221; 169; 124; 164; 134; 76; 223; 224; 110; 175; 112; 160; 236; 13; 113; 145].
Proof. vm_compute. reflexivity. Qed.

Example aes256_vector :
  encryptBlock (roundKeys (List.map Z.of_nat (seq 0 32)))
    (List.map (fun i => 17 * Z.of_nat i) (seq 0 16))
  = [142; 162; 183; 202; 81; 103; 69; 191; 234; 252; 73; 144; 75; 73; 96; 137].
Proof. vm_compute. reflexivity. Qed.

(** ** Lemmas *)

Lemma ascii_xor_cancel a b : ascii_xor (ascii_xor a b) b = a.
Proof. destruct a, b; simpl. f_equal; by rewrite xorb_assoc, xorb_nilpotent, xorb_false_r. Qed.

Lemma XORKeyStream_app x s1 s2 :
  XORKeyStream x (s1 ++ s2) =
  let '(x1, d1) := XORKeyStream x s1 in
  let '(x2, d2) := XORKeyStream x1 s2 in
  (x2, d1 ++ d2).
Proof.
  revert x; induction s1 as [|s s1 IH]; intros x; cbn [app XORKeyStream].
  - by destruct (XORKeyStream x s2).
  - destruct (xorByte x s) as [x1 d]. rewrite IH. destruct (XORKeyStream x1 s1) as [x2 d2].
    by destruct (XORKeyStream x2 s2).
Qed.

Lemma length_XORKeyStream x s x' d : XORKeyStream x s = (x', d) -> length d = length s.
Proof.
  revert x x' d; induction s as [|a s IH]; intros x x' d E; simplify_eq/=; [done|].
  destruct (XORKeyStream _ s) as [x2 ds] eqn:E2. simplify_eq/=. f_equal. eauto.
Qed.

(** An encrypting stream and the decrypting stream at the same place. *)
Definition paired (e d : cfb) : Prop :=
  decrypt e = false /\ decrypt d = true /\
  cfb_b e = cfb_b d /\ next e = next d /\ out e = out d /\ outUsed e = outUsed d.

Lemma paired_new block iv : paired (NewCFBEncrypter block iv) (NewCFBDecrypter block iv).
Proof. done. Qed.

Lemma paired_refill e d : paired e d -> paired (refill e) (refill d).
Proof.
  destruct e, d. unfold paired, refill. simpl. intros (-> & -> & -> & -> & -> & ->). by case_match.
Qed.

Lemma paired_byte e d s e1 c :
  paired e d -> xorByte e s = (e1, c) -> exists d1, xorByte d c = (d1, s) /\ paired e1 d1.
Proof.
  intros Hp%paired_refill. unfold xorByte. intros E. simplify_eq.
  destruct (refill e), (refill d). unfold paired in *. simpl in *.
  destruct Hp as (-> & -> & -> & -> & -> & ->).
  eexists. split; [by rewrite ascii_xor_cancel | done].
Qed.

(** What one stream encrypts the other decrypts. *)
Lemma paired_stream e d s e1 c :
  paired e d -> XORKeyStream e s = (e1, c) -> exists d1, XORKeyStream d c = (d1, s) /\ paired e1 d1.
Proof.
  revert e d e1 c; induction s as [|a s IH]; intros e d e1 c Hp E; simplify_eq/=; [by exists d|].
  destruct (XORKeyStream _ s) as [e2 cs] eqn:E2. simplify_eq/=.
  destruct (paired_byte _ _ a _ _ Hp eq_refl) as (d1 & Hd & Hp1).
  destruct (IH _ _ _ _ Hp1 E2) as (d2 & Hd2 & Hp2).
  unfold xorByte in Hd. injection Hd as <- Ha. exists d2. simpl. rewrite Hd2. split; [|done].
  by rewrite Ha.
Qed.
