(* ===== verification/Streams.v ===== *)
(** * Byte streams: [io.Reader], [io.ReadFull], and sequences of writes

    [io.Writer] is the class [Writer] of [Bufio]. Here is its counterpart for
    reading, and what several reads or writes in a row do; the layers of a
    work connection ([Crypto], [Wrap]) are readers and writers built on
    readers and writers. *)

From S2P Require Import Prelude Json Wire Bufio.

(** ** Sequences of successful writes *)

Section writes.
Context {W : Type} `{Writer W}.

(** The writer after writing the chunks one after the other; [None] when one
    of the writes fails. *)
Fixpoint writes (w : W) (ps : list bytes) : option W :=
  match ps with
  | [] => Some w
  | p :: ps' => match write w p with (w', None) => writes w' ps' | (_, Some _) => None end
  end.

Lemma writes_app w ps qs : writes w (ps ++ qs) = writes w ps ≫= fun w' => writes w' qs.
Proof.
  revert w; induction ps as [|p ps IH]; intros w; simpl; [done|].
  destruct (write w p) as [w' [e|]]; [done | apply IH].
Qed.

Lemma writes_delivered `{!WriterSpec W} w ps w' :
  writes w ps = Some w' -> delivered w' = delivered w ++ concat ps.
Proof.
  revert w; induction ps as [|p ps IH]; intros w E; simplify_eq/=; [by rewrite app_nil_r|].
  destruct (write w p) as [w1 [e|]] eqn:Ew; [done|].
  by rewrite (IH _ E), (write_all _ _ _ Ew), app_assoc.
Qed.
End writes.

(** ** [io.Reader] *)

(** [Read(p)] with [len(p) = n]: the bytes read and the error, if any; [None]
    for a call that never returns because nothing arrives. *)
Class Reader (R : Type) := read : R -> nat -> option (R * bytes * option string).

(** The bytes that are still to come, up to the first error. A read brings a
    byte or an error, as the documentation of [io.Reader] asks. *)
Class ReaderSpec (R : Type) `{Reader R} := {
  pending : R -> bytes;
  read_data r n r' d e : read r n = Some (r', d, e) -> pending r = d ++ pending r' /\ (length d <= n)%nat;
  read_progress r n r' d : read r n = Some (r', d, None) -> (0 < n)%nat -> d <> [];
  read_live r n : pending r <> [] -> (0 < n)%nat ->
    exists r' d e, read r n = Some (r', d, e) /\ d <> [] /\ (e <> None -> pending r' = [])
}.

Section reader.
Context {R : Type} `{Reader R}.

(** The loop of [io.ReadAtLeast] that fills a buffer of [need] bytes. Every
    read that returns without an error brings a byte, so [need] rounds are
    enough ([readLoop_fuel]). *)
Fixpoint readLoop (fuel need : nat) (r : R) : option (R * bytes * option string) :=
  match need, fuel with
  | O, _ => Some (r, [], None)
  | _, O => None
  | _, S fuel' =>
      match read r need with
      | None => None
      | Some (r', d, e) =>
          if Nat.leb need (length d) then Some (r', d, None)
          else match e with
               | Some e => Some (r', d, Some e)
               | None =>
                   match readLoop fuel' (need - length d) r' with
                   | Some (r2, d2, e2) => Some (r2, d ++ d2, e2)
                   | None => None
                   end
               end
      end
  end.

(** [io.ReadFull(r, buf)] with [len(buf) = n]. *)
Definition ReadFullFrom (r : R) (n : nat) : option (R * bytes * option string) :=
  match readLoop n n r with
  | Some (r', d, Some e) =>
      Some (r', d, Some (if String.eqb e "EOF" && negb (Nat.eqb (length d) 0) then "unexpected EOF" else e))
  | o => o
  end.

(** Reads with buffers of the given sizes, as long as none fails: the data of
    each. *)
Fixpoint reads (r : R) (ns : list nat) : option (list bytes * R) :=
  match ns with
  | [] => Some ([], r)
  | n :: ns' =>
      match read r n with
      | Some (r', d, None) =>
          match reads r' ns' with Some (ds, r2) => Some (d :: ds, r2) | None => None end
      | _ => None
      end
  end.
End reader.

Section reader_laws.
Context {R : Type} `{ReaderSpec R}.

Lemma reads_pending r ns ds r' : reads r ns = Some (ds, r') -> pending r = concat ds ++ pending r'.
Proof.
  revert r ds; induction ns as [|n ns IH]; intros r ds E; simplify_eq/=; [done|].
  destruct (read r n) as [ [[r1 d] [e|]]|] eqn:Er; [done| |done].
  destruct (reads r1 ns) as [ [ds1 r2]|] eqn:E1; simplify_eq/=.
  destruct (read_data _ _ _ _ _ Er) as [-> _]. by rewrite (IH _ _ E1), app_assoc.
Qed.

(** More fuel changes nothing. *)
Lemma readLoop_fuel n fuel r : (n <= fuel)%nat -> readLoop fuel n r = readLoop n n r.
Proof.
  revert fuel r; induction n as [n IH] using lt_wf_ind; intros fuel r Hf.
  destruct n as [|n]; [by destruct fuel|]. destruct fuel as [|fuel]; [lia|]. cbn [readLoop].
  destruct (read r (S n)) as [ [[r1 d] [e|]]|] eqn:Er; [done| |done]. case_match; [done|].
  destruct d as [|a d]; [by destruct (read_progress _ _ _ _ Er ltac:(lia))|].
  assert (Hm : (S n - length (a :: d) <= n)%nat) by (simpl; lia).
  revert Hm. generalize (S n - length (a :: d))%nat. intros m Hm.
  by rewrite (IH m ltac:(lia) fuel), (IH m ltac:(lia) n) by lia.
Qed.

(** A stream that brings at least [n] bytes fills a buffer of [n]. *)
Lemma readLoop_enough n r :
  (n <= length (pending r))%nat ->
  exists r', readLoop n n r = Some (r', take n (pending r), None) /\ pending r' = drop n (pending r).
Proof.
  revert r; induction n as [n IH] using lt_wf_ind; intros r Hp. destruct n as [|n]; [by exists r|].
  destruct (read_live r (S n)) as (r1 & d & e & Er & Hd & He);
    [by intros E; rewrite E in Hp; simpl in Hp; lia | lia|].
  cbn [readLoop]. rewrite Er. destruct (read_data _ _ _ _ _ Er) as [E Hl]. rewrite E in Hp |- *.
  rewrite length_app in Hp. destruct (Nat.leb_spec (S n) (length d)).
  - exists r1. replace (S n) with (length d) by lia. by rewrite take_app_length, drop_app_length.
  - destruct e as [e|]; [rewrite He in Hp by done; simpl in Hp; lia|].
    destruct d as [|a d]; [done|]. rewrite readLoop_fuel by (simpl; lia).
    destruct (IH (S n - length (a :: d))%nat) with (r := r1) as (r2 & E2 & Hr2); [simpl in *; lia..|].
    exists r2. rewrite E2, Hr2, take_app_ge, drop_app_ge by lia. done.
Qed.

Lemma readLoop_data n r r' d e :
  readLoop n n r = Some (r', d, e) ->
  pending r = d ++ pending r' /\ (e = None -> length d = n).
Proof.
  revert r d; induction n as [n IH] using lt_wf_ind; intros r d E.
  destruct n as [|n]; [by simplify_eq/=|]. cbn [readLoop] in E.
  destruct (read r (S n)) as [ [[r1 d1] e1]|] eqn:Er; [|done].
  destruct (read_data _ _ _ _ _ Er) as [-> Hl]. destruct (Nat.leb_spec (S n) (length d1)).
  { simplify_eq. split; [done | lia]. }
  destruct e1; [by simplify_eq|]. destruct d1 as [|a d1]; [by destruct (read_progress _ _ _ _ Er ltac:(lia))|].
  rewrite readLoop_fuel in E by (simpl; lia).
  destruct (readLoop _ _ r1) as [ [[r2 d2] e2]|] eqn:E2; simplify_eq.
  destruct (IH (S n - length (a :: d1))%nat ltac:(simpl; lia) _ _ E2) as [-> Hd2].
  split; [by rewrite app_assoc | intros He; cbn [length app] in *; rewrite length_app, (Hd2 He); lia].
Qed.

Lemma ReadFullFrom_enough r n :
  (n <= length (pending r))%nat ->
  exists r', ReadFullFrom r n = Some (r', take n (pending r), None) /\ pending r' = drop n (pending r).
Proof.
  intros Hp. unfold ReadFullFrom. destruct (readLoop_enough n r Hp) as (r' & E & Hr). exists r'. by rewrite E.
Qed.

Lemma ReadFullFrom_ok r n r' d :
  ReadFullFrom r n = Some (r', d, None) -> pending r = d ++ pending r' /\ length d = n.
Proof.
  unfold ReadFullFrom. destruct (readLoop n n r) as [ [[r1 d1] [e|]]|] eqn:E; intros; simplify_eq.
  destruct (readLoop_data _ _ _ _ _ E). auto.
Qed.
End reader_laws.

(** ** Deadlines

    [net.Conn]: with a deadline a read that would wait for ever fails when the
    deadline has passed. Deadlines are absolute, so that every later read that
    would wait fails too. *)

Definition timeoutError : string := "i/o timeout".

(** The answer [o] of a read that leaves [c] as it was when nothing arrives,
    under a deadline. *)
Definition by_deadline {C} (deadline : option Z) (c : C) (o : option (C * bytes * option string))
    : option (C * bytes * option string) :=
  match o, deadline with
  | None, Some _ => Some (c, [], Some timeoutError)
  | _, _ => o
  end.

(** A stream read under a deadline. *)
Record timed (R : Type) := mkTimed { tm_R : R; tm_deadline : option Z }.
Arguments mkTimed {R} _ _.
Arguments tm_R {R} _.
Arguments tm_deadline {R} _.

#[export] Instance timed_Reader {R} `{Reader R} : Reader (timed R) := fun x n =>
  by_deadline (tm_deadline x) x
    (match read (tm_R x) n with Some (r', d, e) => Some (mkTimed r' (tm_deadline x), d, e) | None => None end).

Section timed.
Context {R : Type} `{ReaderSpec R}.

Lemma readLoop_timed n (r : R) dl :
  match readLoop n n r with
  | Some (r', d, e) => readLoop n n (mkTimed r dl) = Some (mkTimed r' dl, d, e)
  | None => match dl with
            | None => readLoop n n (mkTimed r dl) = None
            | Some _ => exists x d, readLoop n n (mkTimed r dl) = Some (x, d, Some timeoutError)
            end
  end.
Proof.
  enough (forall f, (n <= f)%nat -> match readLoop f n r with
    | Some (r', d, e) => readLoop f n (mkTimed r dl) = Some (mkTimed r' dl, d, e)
    | None => match dl with
              | None => readLoop f n (mkTimed r dl) = None
              | Some _ => exists x d, readLoop f n (mkTimed r dl) = Some (x, d, Some timeoutError)
              end
    end) as Hn by (by apply Hn).
  intros f. revert n r; induction f as [|f IH]; intros [|n] r Hf; [done|lia|done|].
  cbn [readLoop].
  change (read (mkTimed r dl) (S n)) with (by_deadline dl (mkTimed r dl)
    (match read r (S n) with Some (r', d, e) => Some (mkTimed r' dl, d, e) | None => None end)).
  destruct (read r (S n)) as [ [[r1 d] e]|] eqn:Er; cbn [by_deadline].
  - destruct (Nat.leb_spec (S n) (length d)); [done|]. destruct e as [e|]; [done|].
    destruct d as [|a d]; [by destruct (read_progress _ _ _ _ Er ltac:(lia))|].
    specialize (IH (S n - length (a :: d))%nat r1). destruct (readLoop f _ r1) as [ [[r2 d2] e2]|].
    + by rewrite IH by (simpl; lia).
    + destruct dl as [t|]; [|by rewrite IH by (simpl; lia)].
      destruct IH as (x & d2 & ->); [simpl; lia|]. eauto.
  - destruct dl; [by eexists _, _|done].
Qed.

Lemma ReadFullFrom_timed (r : R) n dl :
  match ReadFullFrom r n with
  | Some (r', d, e) => ReadFullFrom (mkTimed r dl) n = Some (mkTimed r' dl, d, e)
  | None => match dl with
            | None => ReadFullFrom (mkTimed r dl) n = None
            | Some _ => exists x d, ReadFullFrom (mkTimed r dl) n = Some (x, d, Some timeoutError)
            end
  end.
Proof.
  pose proof (readLoop_timed n r dl) as Hl. unfold ReadFullFrom.
  destruct (readLoop n n r) as [ [[r' d] [e|]]|]; [by rewrite Hl..|].
  destruct dl; [|by rewrite Hl]. destruct Hl as (x & d & ->). eauto.
Qed.
End timed.

(** ** Silence *)

(** The stream brings fewer than [n] bytes and then nothing, not even an
    error. *)
Inductive silent_before {R} `{Reader R} : nat -> R -> Prop :=
  | sb_now n r : (0 < n)%nat -> read r n = None -> silent_before n r
  | sb_later n r r' d : read r n = Some (r', d, None) -> (length d < n)%nat -> silent_before (n - length d) r' ->
      silent_before n r.

(** [io.ReadFull] waits for ever exactly then. *)
Lemma silent_ReadFullFrom {R} `{ReaderSpec R} (r : R) n : silent_before n r <-> ReadFullFrom r n = None.
Proof.
  transitivity (readLoop n n r = None).
  2:{ unfold ReadFullFrom. by destruct (readLoop n n r) as [ [[? ?] [?|]]|]. }
  split.
  - induction 1 as [n r Hn Hr|n r r' d Hr Hl _ IH].
    + destruct n; [lia|]. cbn [readLoop]. by rewrite Hr.
    + destruct n as [|n]; [lia|]. cbn [readLoop]. rewrite Hr, (proj2 (Nat.leb_gt _ _)) by done.
      destruct d as [|a d]; [by destruct (read_progress _ _ _ _ Hr ltac:(lia))|].
      rewrite readLoop_fuel by (simpl; lia). by rewrite IH.
  - revert r; induction n as [n IH] using lt_wf_ind; intros r E. destruct n as [|n]; [done|]. cbn [readLoop] in E.
    destruct (read r (S n)) as [ [[r1 d] e]|] eqn:Er; [|by apply sb_now; [lia|] ].
    destruct (Nat.leb_spec (S n) (length d)); [done|]. destruct e; [done|].
    destruct d as [|a d]; [by destruct (read_progress _ _ _ _ Er ltac:(lia))|].
    rewrite readLoop_fuel in E by (simpl; lia).
    eapply sb_later; [exact Er|done|]. apply IH; [simpl; lia|]. by destruct (readLoop _ _ r1) as [ [[? ?] ?]|].
Qed.

(** ** An in-memory stream

    The segments that have arrived, and what follows them: an error, or
    nothing yet. *)

Record memStream := mkStream { s_segs : list bytes; s_end : option string }.

Fixpoint next_seg (l : list bytes) : option (bytes * list bytes) :=
  match l with
  | [] => None
  | [] :: l' => next_seg l'
  | d :: l' => Some (d, l')
  end.

#[export] Instance memStream_Reader : Reader memStream := fun r n =>
  match next_seg (s_segs r) with
  | Some (d, l) => Some (mkStream (drop n d :: l) (s_end r), take n d, None)
  | None => match s_end r with Some e => Some (mkStream [] (Some e), [], Some e) | None => None end
  end.

Lemma next_seg_spec l :
  match next_seg l with
  | Some (d, l') => d <> [] /\ concat l = d ++ concat l'
  | None => concat l = []
  end.
Proof. induction l as [|[|a d] l IH]; simpl; [done | exact IH | done]. Qed.

#[export] Instance memStream_ReaderSpec : ReaderSpec memStream.
Proof.
  refine {| pending r := concat (s_segs r) |}; unfold read, memStream_Reader; intros r n;
    pose proof (next_seg_spec (s_segs r)) as Hs; destruct (next_seg (s_segs r)) as [ [s l]|].
  - destruct Hs as [_ Hs]. intros r' d e E. simplify_eq/=. rewrite Hs, app_assoc, take_drop.
    split; [done|]. rewrite length_take. lia.
  - intros r' d e E. destruct (s_end r); simplify_eq/=. rewrite Hs. split; [done | lia].
  - destruct Hs as [Hne _]. intros r' d E Hn. simplify_eq. by destruct n, s; try lia.
  - intros r' d E. by destruct (s_end r); simplify_eq.
  - destruct Hs as [Hne _]. intros _ Hn. eexists _, _, None. split; [done|]. split; [|done].
    by destruct n, s; try lia.
  - by intros.
Defined.
