(* ===== verification/Crypto.v ===== *)
(** * Encryption and compression of work connections:
    [src/internal/crypto/crypto.go] and [src/internal/crypto/snappy.go]

    PBKDF2 ([golang.org/x/crypto]) and snappy ([github.com/golang/snappy]) are
    third-party code: the first is a parameter, the second the classes
    [SnappyWriter] and [SnappyReader] with their documented behaviour as laws.
    Random bytes are an argument. *)

From S2P Require Import Prelude GoStrings Json Wire Bufio Streams Aes.

(** ** Keys *)

Definition salt : string := "frp".
Definition iterations : Z := 64.

(** [pbkdf2.Key(password, salt, iter, keyLen, sha1.New)] is the argument. *)
Definition DeriveKey (pbkdf2_Key : bytes -> bytes -> Z -> Z -> bytes) (token : string) : bytes :=
  pbkdf2_Key (bytes_of token) (bytes_of salt) iterations (Z.of_nat BlockSize).

(** ** AES-CFB streams *)

(** [cipher.StreamWriter]. *)
Record StreamWriter (W : Type) := mkSW { sw_S : cfb; sw_W : W }.
Arguments mkSW {W} _ _.
Arguments sw_S {W} _.
Arguments sw_W {W} _.

#[export] Instance StreamWriter_Writer {W} `{Writer W} : Writer (StreamWriter W) := fun x src =>
  let '(s', c) := XORKeyStream (sw_S x) src in
  let '(w', r) := write (sw_W x) c in
  (mkSW s' w', r).

(** [cipher.StreamReader]. *)
Record StreamReader (R : Type) := mkSR { sr_S : cfb; sr_R : R }.
Arguments mkSR {R} _ _.
Arguments sr_S {R} _.
Arguments sr_R {R} _.

#[export] Instance StreamReader_Reader {R} `{Reader R} : Reader (StreamReader R) := fun x n =>
  match read (sr_R x) n with
  | None => None
  | Some (r', c, e) =>
      let '(s', d) := XORKeyStream (sr_S x) c in
      Some (mkSR s' r', d, e)
  end.

(** [NewCryptoWriter(w, key)]; [random] is what [rand.Read] of a block gives. *)
Definition NewCryptoWriter {W} `{Writer W} (w : W) (key : bytes) (random : result bytes)
    : W * result (StreamWriter W) :=
  match NewCipher key with
  | Err e => (w, Err ("aes.NewCipher: " +:+ e))
  | Ok block =>
      match random with
      | Err e => (w, Err ("rand.Read: " +:+ e))
      | Ok iv =>
          match write w iv with
          | (w', Some (_, e)) => (w', Err ("write IV: " +:+ e))
          | (w', None) => (w', Ok (mkSW (NewCFBEncrypter block iv) w'))
          end
      end
  end.

(** [NewCryptoReader(r, key)]: [None] while the block does not arrive. *)
Definition NewCryptoReader {R} `{Reader R} (r : R) (key : bytes) : option (R * result (StreamReader R)) :=
  match NewCipher key with
  | Err e => Some (r, Err ("aes.NewCipher: " +:+ e))
  | Ok block =>
      match ReadFullFrom r BlockSize with
      | None => None
      | Some (r', _, Some e) => Some (r', Err ("read IV: " +:+ e))
      | Some (r', iv, None) => Some (r', Ok (mkSR (NewCFBDecrypter block iv) r'))
      end
  end.

(** ** Snappy *)

(** [snappy.Writer] over a writer [W], and what its format decodes to. *)
Class SnappyWriter (W Z : Type) := {
  NewBufferedWriter : W -> Z;
  sz_Write : Z -> bytes -> Z * option (nat * string);
  sz_Flush : Z -> Z * option string;
  sz_Close : Z -> Z * option string;
  sz_under : Z -> W;
  sz_decode : bytes -> bytes
}.

Inductive szOp := OWrite (p : bytes) | OFlush.

Definition szInput (o : szOp) : bytes := match o with OWrite p => p | OFlush => [] end.

(** A sequence of calls none of which fails. *)
Fixpoint szRun {W Z} `{SnappyWriter W Z} (z : Z) (ops : list szOp) : option Z :=
  match ops with
  | [] => Some z
  | OWrite p :: ops' => match sz_Write z p with (z', None) => szRun z' ops' | _ => None end
  | OFlush :: ops' => match sz_Flush z with (z', None) => szRun z' ops' | _ => None end
  end.

(** Nothing is written before the first call, and after a [Flush] all the
    data has been forwarded to the underlying writer in the framing format. *)
Class SnappyWriterSpec (W Z : Type) `{Writer W, SnappyWriter W Z} := {
  sz_new w : sz_under (NewBufferedWriter w) = w;
  sz_flushed w ops z : szRun (NewBufferedWriter w) (ops ++ [OFlush]) = Some z ->
    exists zs, writes w zs = Some (sz_under z) /\ sz_decode (concat zs) = concat (List.map szInput ops);
  sz_decode_nil : sz_decode [] = []
}.

(** [snappy.NewReader]: a reader of the data its input decodes to. *)
Class SnappyReader (R Zr : Type) := { snappy_NewReader : R -> Zr }.
Class SnappyReaderSpec (R Zr : Type) (decode : bytes -> bytes)
    `{ReaderSpec R, ReaderSpec Zr, !SnappyReader R Zr} :=
  sz_reader r : pending (snappy_NewReader r) = decode (pending r).

Record autoFlushSnappyWriter (Z : Type) := mkAF { af_w : Z }.
Arguments mkAF {Z} _.
Arguments af_w {Z} _.

Definition NewSnappyWriter {W Z} `{SnappyWriter W Z} (w : W) : autoFlushSnappyWriter Z :=
  mkAF (NewBufferedWriter w).

(** [Write]: the count is that of the inner [Write] even when [Flush] fails. *)
#[export] Instance autoFlush_Write {W Z} `{SnappyWriter W Z} : Writer (autoFlushSnappyWriter Z) := fun s p =>
  match sz_Write (af_w s) p with
  | (z1, Some (n, e)) => (mkAF z1, Some (n, e))
  | (z1, None) =>
      match sz_Flush z1 with
      | (z2, Some e) => (mkAF z2, Some (length p, e))
      | (z2, None) => (mkAF z2, None)
      end
  end.

Definition autoFlush_Close {W Z} `{SnappyWriter W Z} (s : autoFlushSnappyWriter Z)
    : autoFlushSnappyWriter Z * option string :=
  let '(z, e) := sz_Close (af_w s) in (mkAF z, e).

Definition NewSnappyReader {R Zr} `{SnappyReader R Zr} (r : R) : Zr := snappy_NewReader r.

(** ** Lemmas *)

(** The writer of a finished [NewCryptoWriter] has sent exactly the IV. *)
Lemma NewCryptoWriter_ok {W} `{Writer W} (w w' : W) key random x :
  NewCryptoWriter w key random = (w', Ok x) ->
  exists block iv, NewCipher key = Ok block /\ random = Ok iv /\
    writes w [iv] = Some w' /\ x = mkSW (NewCFBEncrypter block iv) w'.
Proof.
  unfold NewCryptoWriter. destruct (NewCipher key) as [block|]; [|done].
  destruct random as [iv|]; [|done]. destruct (write w iv) as [w1 [ [n e]|]] eqn:Ew; intros; simplify_eq.
  exists block, iv. simpl. by rewrite Ew.
Qed.

Lemma StreamWriter_write {W} `{Writer W} (x : StreamWriter W) p :
  write x p = let '(s', c) := XORKeyStream (sw_S x) p in let '(w', r) := write (sw_W x) c in (mkSW s' w', r).
Proof. done. Qed.

Lemma StreamWriter_writes {W} `{Writer W} (x x' : StreamWriter W) ps :
  writes x ps = Some x' ->
  exists cs, writes (sw_W x) cs = Some (sw_W x') /\ XORKeyStream (sw_S x) (concat ps) = (sw_S x', concat cs).
Proof.
  revert x; induction ps as [|p ps IH]; intros x E.
  { simpl in E. simplify_eq. by exists []. }
  cbn [writes] in E. rewrite StreamWriter_write in E.
  destruct (XORKeyStream (sw_S x) p) as [s1 c] eqn:Es. destruct (write (sw_W x) c) as [w1 [e|]] eqn:Ew; [done|].
  destruct (IH _ E) as (cs & Hw & Hs). exists (c :: cs). cbn [writes sw_W sw_S concat] in *.
  rewrite XORKeyStream_app, Es, Hs, Ew. done.
Qed.

(** What a [StreamReader] brings is the decryption of what is to come. *)
#[export] Instance StreamReader_ReaderSpec {R} `{ReaderSpec R} : ReaderSpec (StreamReader R).
Proof.
  refine {| pending x := snd (XORKeyStream (sr_S x) (pending (sr_R x))) |}; unfold read, StreamReader_Reader.
  - intros x n x' d e E. destruct (read (sr_R x) n) as [ [[r' c] e']|] eqn:Er; [|done].
    destruct (read_data _ _ _ _ _ Er) as [Hp Hl]. destruct (XORKeyStream (sr_S x) c) as [s' d'] eqn:Es.
    simplify_eq. rewrite Hp, XORKeyStream_app, Es. cbn [sr_S sr_R].
    rewrite (length_XORKeyStream _ _ _ _ Es). by destruct (XORKeyStream s' _).
  - intros x n x' d E Hn. destruct (read (sr_R x) n) as [ [[r' c] e']|] eqn:Er; [|done].
    destruct (XORKeyStream (sr_S x) c) as [s' d'] eqn:Es. simplify_eq.
    apply length_XORKeyStream in Es. pose proof (read_progress _ _ _ _ Er Hn). by destruct c, d.
  - intros x n Hne Hn. destruct (read_live (sr_R x) n) as (r' & c & e & Er & Hc & He); [|done|].
    { intros E. by rewrite E in Hne. }
    rewrite Er. destruct (XORKeyStream (sr_S x) c) as [s' d'] eqn:Es. eexists _, _, _. split; [done|].
    apply length_XORKeyStream in Es. split; [by destruct c, d'|]. intros. cbn. by rewrite He.
Defined.

Lemma NewCryptoReader_enough {R} `{ReaderSpec R} (r : R) key block :
  NewCipher key = Ok block -> (BlockSize <= length (pending r))%nat ->
  exists r', NewCryptoReader r key = Some (r', Ok (mkSR (NewCFBDecrypter block (take BlockSize (pending r))) r')) /\
    pending r' = drop BlockSize (pending r).
Proof.
  intros Hb Hn. unfold NewCryptoReader. rewrite Hb.
  destruct (ReadFullFrom_enough r BlockSize Hn) as (r' & E & Hr). exists r'. by rewrite E.
Qed.

(** Under a deadline the reader is the same, but does not wait for ever for
    the block. *)
Lemma NewCryptoReader_timed {R} `{ReaderSpec R} (r : R) key dl :
  match NewCryptoReader r key with
  | Some (r', Ok y) => NewCryptoReader (mkTimed r dl) key = Some (mkTimed r' dl, Ok (mkSR (sr_S y) (mkTimed (sr_R y) dl)))
  | Some (r', Err e) => NewCryptoReader (mkTimed r dl) key = Some (mkTimed r' dl, Err e)
  | None => match dl with
            | None => NewCryptoReader (mkTimed r dl) key = None
            | Some _ => exists x, NewCryptoReader (mkTimed r dl) key = Some (x, Err ("read IV: " +:+ timeoutError))
            end
  end.
Proof.
  unfold NewCryptoReader. destruct (NewCipher key) as [block|e]; [|done].
  pose proof (ReadFullFrom_timed r BlockSize dl) as Hf.
  destruct (ReadFullFrom r BlockSize) as [ [[r' d] [e|]]|]; [by rewrite Hf..|].
  destruct dl; [|by rewrite Hf]. destruct Hf as (x & d & ->). eauto.
Qed.

(** A reader over the bytes a writer sent decrypts what was written. *)
Lemma crypto_pending {W R} `{Writer W, ReaderSpec R} (w w1 : W) key random x x' ps :
  NewCryptoWriter w key random = (w1, Ok x) -> (forall iv, random = Ok iv -> length iv = BlockSize) ->
  writes x ps = Some x' ->
  exists zs, writes w zs = Some (sw_W x') /\
    forall r : R, pending r = concat zs ->
      exists r' y, NewCryptoReader r key = Some (r', Ok y) /\ pending y = concat ps.
Proof.
  intros (block & iv & Hb & Hiv & Hw & ->)%NewCryptoWriter_ok Hlen (cs & Hcs & Hs)%StreamWriter_writes.
  specialize (Hlen _ Hiv). exists (iv :: cs). split.
  { change (iv :: cs) with ([iv] ++ cs). by rewrite writes_app, Hw. }
  intros r Hr. simpl in Hr. destruct (NewCryptoReader_enough r key block Hb) as (r' & E & Hp).
  { rewrite Hr, length_app. lia. }
  eexists _, _. split; [done|]. cbn [pending StreamReader_ReaderSpec sr_S sr_R].
  rewrite Hp, Hr, <- Hlen, take_app_length, drop_app_length.
  by destruct (paired_stream _ _ _ _ _ (paired_new block iv) Hs) as (d1 & -> & _).
Qed.

(** The key the program derives is always accepted. *)
Lemma DeriveKey_valid pbkdf2_Key token :
  (forall p s i n, length (pbkdf2_Key p s i n) = Z.to_nat n) ->
  exists block, NewCipher (DeriveKey pbkdf2_Key token) = Ok block.
Proof. intros H. unfold NewCipher, DeriveKey. rewrite H. by eexists. Qed.

(** Every write has been forwarded when it returns. *)
Lemma autoFlush_writes {W Z} `{SnappyWriterSpec W Z} (w : W) ps s :
  writes (NewSnappyWriter w) ps = Some s ->
  exists zs, writes w zs = Some (sz_under (af_w s)) /\ sz_decode (concat zs) = concat ps.
Proof.
  intros Hw. destruct (decide (ps = [])) as [->|Hne].
  { simpl in Hw. simplify_eq. exists []. simpl. by rewrite sz_new, sz_decode_nil. }
  assert (Hrun : forall ps s0, writes s0 ps = Some s ->
            szRun (af_w s0) (ps ≫= fun p => [OWrite p; OFlush]) = Some (af_w s)).
  { clear. intros ps; induction ps as [|p ps IH]; intros s0 E; simplify_eq/=; [done|].
    unfold write, autoFlush_Write in E. destruct (sz_Write (af_w s0) p) as [z1 [ [n e]|]]; [done|].
    destruct (sz_Flush z1) as [z2 [e|]]; [done|]. by apply (IH (mkAF z2)). }
  apply Hrun in Hw. destruct (exists_last Hne) as (qs & q & ->).
  rewrite bind_snoc in Hw.
  change [OWrite q; OFlush] with ([OWrite q] ++ [OFlush]) in Hw. rewrite app_assoc in Hw.
  destruct (sz_flushed _ _ _ Hw) as (zs & Hz & Hd). exists zs. split; [done|]. rewrite Hd.
  rewrite List.map_app, !concat_app. simpl. f_equal. clear.
  induction qs as [|p qs IH]; simpl; [done|]. by rewrite <- IH.
Qed.

(** ** The property *)

(** C24: Round trip of the encryption layer. Whatever the sizes of the writes
    and of the reads, a reader with the same key over the bytes an encrypting
    writer has sent returns exactly what was written, in order, and returns
    data as long as some is left. *)
Theorem crypto_roundtrip {W R} `{WriterSpec W, ReaderSpec R} (w w1 : W) (r : R) (key : bytes)
    (random : result bytes) (x x' : StreamWriter W) (ps : list bytes)
    (Hnew : NewCryptoWriter w key random = (w1, Ok x))
    (Hiv : forall iv, random = Ok iv -> length iv = BlockSize)
    (Hps : writes x ps = Some x')
    (Hr : delivered (sw_W x') = delivered w ++ pending r) :
  exists r' y, NewCryptoReader r key = Some (r', Ok y) /\
    forall ns ds y', reads y ns = Some (ds, y') ->
      concat ps = concat ds ++ pending y' /\
      (concat ps <> concat ds -> forall n, (0 < n)%nat ->
         exists y2 d e, read y' n = Some (y2, d, e) /\ d <> []).
Proof.
  destruct (crypto_pending (R := R) _ _ _ _ _ _ _ Hnew Hiv Hps) as (zs & Hz & Hp).
  rewrite (writes_delivered _ _ _ Hz) in Hr. apply app_inv_head in Hr.
  destruct (Hp r (eq_sym Hr)) as (r' & y & E & Hy). exists r', y. split; [done|].
  intros ns ds y' Hrd. assert (concat ps = concat ds ++ pending y') as Heq.
  { by rewrite <- Hy, <- (reads_pending _ _ _ _ Hrd). }
  split; [done|]. intros Hne n Hn.
  destruct (read_live y' n) as (y2 & d & e & Er & Hd & _); [|done|eauto].
  intros E'. by rewrite Heq, E', app_nil_r in Hne.
Qed.

(** ** A witness *)

Definition is_Some_b {A} (o : option A) : bool := match o with Some _ => true | None => false end.

Definition demo_key : bytes := bytes_of "0123456789abcdef".
Definition demo_iv : bytes := bytes_of "IV-IV-IV-IV-IV-!".
Definition demo_writes : list bytes := [bytes_of "GET / HTTP/1.1"; []; bytes_of " and the rest of it"].

Definition no_cfb : cfb := NewCFBEncrypter id [].

Definition demo_x : StreamWriter memConn :=
  match NewCryptoWriter (mkMem [] 1000) demo_key (Ok demo_iv) with (_, Ok x) => x | (w, _) => mkSW no_cfb w end.
Definition demo_x' : StreamWriter memConn := default demo_x (writes demo_x demo_writes).

(** The bytes sent, arriving in four segments. *)
Definition demo_r : memStream :=
  let bs := m_got (sw_W demo_x') in
  mkStream [take 7 bs; take 21 (drop 7 bs); take 8 (drop 28 bs); drop 36 bs] (Some "EOF").
Definition demo_y : StreamReader memStream :=
  match NewCryptoReader demo_r demo_key with Some (_, Ok y) => y | _ => mkSR no_cfb demo_r end.

Lemma crypto_roundtrip_witness :
  NewCryptoWriter (mkMem [] 1000) demo_key (Ok demo_iv) = (sw_W demo_x, Ok demo_x) /\
  writes demo_x demo_writes = Some demo_x' /\
  exists r' y, NewCryptoReader demo_r demo_key = Some (r', Ok y) /\
    fst <$> reads y [20; 20; 20]%nat
      = Some [bytes_of "GET / HTTP/1"; bytes_of ".1 and t"; bytes_of "he rest of it"].
Proof.
  assert (En : NewCryptoWriter (mkMem [] 1000) demo_key (Ok demo_iv) = (sw_W demo_x, Ok demo_x)) by reflexivity.
  assert (Ew : writes demo_x demo_writes = Some demo_x').
  { assert (is_Some_b (writes demo_x demo_writes) = true) as Hs by (vm_compute; reflexivity).
    unfold demo_x'. by destruct (writes demo_x demo_writes). }
  assert (Hiv : forall iv, Ok demo_iv = Ok iv -> length iv = BlockSize) by (intros iv E; by injection E as <-).
  assert (Hr : delivered (sw_W demo_x') = delivered (mkMem [] 1000) ++ pending demo_r) by (vm_compute; reflexivity).
  destruct (crypto_roundtrip _ _ demo_r _ _ _ _ _ En Hiv Ew Hr) as (r' & y & Hy & _).
  assert (Hyd : reads y [20; 20; 20]%nat = reads demo_y [20; 20; 20]%nat) by (unfold demo_y; by rewrite Hy).
  split; [done|]. split; [done|]. exists r', y. split; [done|]. rewrite Hyd. vm_compute. reflexivity.
Defined.
