(* ===== verification/Wrap.v ===== *)
(** * Work connections as HTTP sees them: [src/internal/wrap/wrap.go]

    [Wrap] announces the proxy on the connection and stacks the encryption
    and compression layers. A [net.Conn] is a writer and a reader (the two
    directions are independent), a deadline and a flag for [Close]; reads wait
    until the deadline, or for ever when there is none; writes never wait. The
    [io.Writer] and [io.Reader] variables of the code are the sums of what
    they can hold. *)

From S2P Require Import Prelude GoStrings Json Msg MsgProofs Wire WireSpec Bufio.
From S2P Require Import Streams Aes Crypto.

(** ** Connections and layers *)

Record netConn (W R : Type) := mkConn {
  cn_W : W;
  cn_R : R;
  cn_deadline : option Z;
  cn_closed : bool
}.
Arguments mkConn {W R} _ _ _ _.
Arguments cn_W {W R} _.
Arguments cn_R {W R} _.
Arguments cn_deadline {W R} _.
Arguments cn_closed {W R} _.

Definition setW {W R} (c : netConn W R) (w : W) : netConn W R := mkConn w (cn_R c) (cn_deadline c) (cn_closed c).
Definition setR {W R} (c : netConn W R) (r : R) : netConn W R := mkConn (cn_W c) r (cn_deadline c) (cn_closed c).

(** [conn.SetDeadline]. *)
Definition connSetDeadline {W R} (c : netConn W R) (t : Z) : netConn W R := mkConn (cn_W c) (cn_R c) (Some t) (cn_closed c).

(** What [w io.Writer] and [r io.Reader] hold before the compression layer. *)
Inductive ioWriter (W : Type) :=
  | ConnW (w : W)
  | EncW (x : StreamWriter W).
Arguments ConnW {W} _.
Arguments EncW {W} _.

Inductive ioReader (R : Type) :=
  | ConnR (r : R)
  | EncR (x : StreamReader R).
Arguments ConnR {R} _.
Arguments EncR {R} _.

#[export] Instance ioWriter_Writer {W} `{Writer W} : Writer (ioWriter W) := fun x p =>
  match x with
  | ConnW w => let '(w', r) := write w p in (ConnW w', r)
  | EncW x => let '(x', r) := write x p in (EncW x', r)
  end.

#[export] Instance ioReader_Reader {R} `{Reader R} : Reader (ioReader R) := fun x n =>
  match x with
  | ConnR r => match read r n with Some (r', d, e) => Some (ConnR r', d, e) | None => None end
  | EncR x => match read x n with Some (x', d, e) => Some (EncR x', d, e) | None => None end
  end.

(** What the fields [w] and [r] of a [wrappedConn] hold. *)
Inductive wcWriter (W Z : Type) :=
  | PlainW (w : ioWriter W)
  | CompW (s : autoFlushSnappyWriter Z).
Arguments PlainW {W Z} _.
Arguments CompW {W Z} _.

Inductive wcReader (R Zr : Type) :=
  | PlainR (r : ioReader R)
  | CompR (s : Zr).
Arguments PlainR {R Zr} _.
Arguments CompR {R Zr} _.

(** [c io.Closer]: the connection, or a [compCloser]. *)
Inductive closer := ConnCloser | CompCloser.

(** A [wrappedConn]; what is left of its [conn] besides the two directions,
    which the layers hold, is the deadline and the flag. *)
Record wrappedConn (W R Z Zr : Type) := mkWC {
  wc_r : wcReader R Zr;
  wc_w : wcWriter W Z;
  wc_c : closer;
  wc_deadline : option BinInt.Z;
  wc_closed : bool
}.
Arguments mkWC {W R Z Zr} _ _ _ _ _.
Arguments wc_r {W R Z Zr} _.
Arguments wc_w {W R Z Zr} _.
Arguments wc_c {W R Z Zr} _.
Arguments wc_deadline {W R Z Zr} _.
Arguments wc_closed {W R Z Zr} _.

(** The [net.Conn] that [Wrap] returns. *)
Inductive wrapped (W R Z Zr : Type) :=
  | RawConn (c : netConn W R)
  | Layered (wc : wrappedConn W R Z Zr).
Arguments RawConn {W R Z Zr} _.
Arguments Layered {W R Z Zr} _.

(** ** [Wrap] *)

Definition startWorkConn (proxyName : string) : Message :=
  MStartWorkConn (mkStartWorkConn proxyName "" "" 0 0 "").

(** [conn.Write] as [WriteMsg] uses it. *)
Definition connWrite {W} `{Writer W} (w : W) (p : bytes) : W * option string :=
  let '(w', r) := write w p in (w', snd <$> r).

Section wrap.
Context {W R Z Zr : Type} `{Writer W, Reader R}.
Context `{!SnappyWriter (ioWriter W) Z, !SnappyReader (ioReader R) Zr, !Reader Zr}.

(** The layer over the stream of the connection; reads of the wrapped
    connection are under its deadline ([wrapped_Reader]). *)
Definition untime (x : StreamReader (timed R)) : StreamReader R := mkSR (sr_S x) (tm_R (sr_R x)).

(** The encryption layer: the new [r] and [w], or the connection and the
    error; [None] while the peer's block does not arrive and the connection
    has no deadline. *)
Definition encLayer (conn : netConn W R) (aesKey : bytes) (random : result bytes)
    : option ((ioReader R * ioWriter W) + (netConn W R * string)) :=
  match NewCryptoWriter (cn_W conn) aesKey random with
  | (w', Err e) => Some (inr (setW conn w', e))
  | (w', Ok encWriter) =>
      match NewCryptoReader (mkTimed (cn_R conn) (cn_deadline conn)) aesKey with
      | None => None
      | Some (r', Err e) => Some (inr (setR (setW conn w') (tm_R r'), e))
      | Some (_, Ok encReader) => Some (inl (EncR (untime encReader), EncW encWriter))
      end
  end.

(** The compression layer and the returned connection. *)
Definition compLayer (conn : netConn W R) (r : ioReader R) (w : ioWriter W) (comp : bool) : wrapped W R Z Zr :=
  if comp
  then Layered (mkWC (CompR (NewSnappyReader r)) (CompW (NewSnappyWriter w)) CompCloser
                  (cn_deadline conn) (cn_closed conn))
  else Layered (mkWC (PlainR r) (PlainW w) ConnCloser (cn_deadline conn) (cn_closed conn)).

(** [Wrap]: the wrapped connection, or what became of the connection and the
    error; [None] when it never returns. *)
Definition Wrap (pooled : bytes) (conn : netConn W R) (aesKey : bytes) (proxyName : string)
    (enc comp : bool) (random : result bytes) : option (wrapped W R Z Zr + (netConn W R * string)) :=
  match WriteMsg connWrite pooled (cn_W conn) (startWorkConn proxyName) with
  | (w1, Some e) => Some (inr (setW conn w1, e))
  | (w1, None) =>
      let conn := setW conn w1 in
      if negb enc && negb comp then Some (inl (RawConn conn))
      else if enc then
        match encLayer conn aesKey random with
        | None => None
        | Some (inr err) => Some (inr err)
        | Some (inl (r, w)) => Some (inl (compLayer conn r w comp))
        end
      else Some (inl (compLayer conn (ConnR (cn_R conn)) (ConnW (cn_W conn)) comp))
  end.

(** ** The methods of the returned connection *)

#[export] Instance wcWriter_Writer : Writer (wcWriter W Z) := fun x p =>
  match x with
  | PlainW w => let '(w', r) := write w p in (PlainW w', r)
  | CompW s => let '(s', r) := write s p in (CompW s', r)
  end.

#[export] Instance wcReader_Reader : Reader (wcReader R Zr) := fun x n =>
  match x with
  | PlainR r => match read r n with Some (r', d, e) => Some (PlainR r', d, e) | None => None end
  | CompR s => match read s n with Some (s', d, e) => Some (CompR s', d, e) | None => None end
  end.

#[export] Instance wrapped_Writer : Writer (wrapped W R Z Zr) := fun c p =>
  match c with
  | RawConn c => let '(w', r) := write (cn_W c) p in (RawConn (setW c w'), r)
  | Layered wc => let '(w', r) := write (wc_w wc) p in
      (Layered (mkWC (wc_r wc) w' (wc_c wc) (wc_deadline wc) (wc_closed wc)), r)
  end.

#[export] Instance wrapped_Reader : Reader (wrapped W R Z Zr) := fun c n =>
  match c with
  | RawConn c =>
      by_deadline (cn_deadline c) (RawConn c)
        (match read (cn_R c) n with Some (r', d, e) => Some (RawConn (setR c r'), d, e) | None => None end)
  | Layered wc =>
      by_deadline (wc_deadline wc) (Layered wc)
        (match read (wc_r wc) n with
         | Some (r', d, e) => Some (Layered (mkWC r' (wc_w wc) (wc_c wc) (wc_deadline wc) (wc_closed wc)), d, e)
         | None => None
         end)
  end.

Definition Close (c : wrapped W R Z Zr) : wrapped W R Z Zr :=
  match c with
  | RawConn c => RawConn (mkConn (cn_W c) (cn_R c) (cn_deadline c) true)
  | Layered wc =>
      let w' := match wc_c wc, wc_w wc with
                | CompCloser, CompW s => CompW (fst (autoFlush_Close s))
                | _, w => w
                end in
      Layered (mkWC (wc_r wc) w' (wc_c wc) (wc_deadline wc) true)
  end.

Definition SetDeadline (c : wrapped W R Z Zr) (t : BinInt.Z) : wrapped W R Z Zr :=
  match c with
  | RawConn c => RawConn (connSetDeadline c t)
  | Layered wc => Layered (mkWC (wc_r wc) (wc_w wc) (wc_c wc) (Some t) (wc_closed wc))
  end.

(** The connection's own writer, under the layers. *)
Definition under_io (w : ioWriter W) : W := match w with ConnW w => w | EncW x => sw_W x end.
Definition under (c : wrapped W R Z Zr) : W :=
  match c with
  | RawConn c => cn_W c
  | Layered wc =>
      match wc_w wc with PlainW w => under_io w | CompW s => under_io (sz_under (af_w s)) end
  end.

Definition is_closed (c : wrapped W R Z Zr) : bool :=
  match c with RawConn c => cn_closed c | Layered wc => wc_closed wc end.
Definition deadline (c : wrapped W R Z Zr) : option BinInt.Z :=
  match c with RawConn c => cn_deadline c | Layered wc => wc_deadline wc end.
End wrap.
