(* ===== verification/WrapSpec.v ===== *)
(** * What a wrapped work connection promises

    The bytes on the wire are the plaintext [StartWorkConn] frame followed by
    a stream that an end with the same key and the same flags reads back as
    what was written; no layer keeps data back. *)

From S2P Require Import Prelude GoStrings Json Msg MsgProofs Wire WireSpec Bufio.
From S2P Require Import Streams Aes Crypto Wrap.

(** ** Layers that pass calls through *)

Lemma writes_map {A B} `{Writer A, Writer B} (f : A -> B) :
  (forall a p, write (f a) p = let '(a', r) := write a p in (f a', r)) ->
  forall ps a, writes (f a) ps = f <$> writes a ps.
Proof.
  intros Hf ps. induction ps as [|p ps IH]; intros a; cbn [writes]; [done|]. rewrite Hf.
  destruct (write a p) as [a' [e|]]; [done | apply IH].
Qed.

(** The laws of [ReaderSpec] at one reader. *)
Definition reader_at {B} `{Reader B} (pd : B -> bytes) (b : B) : Prop := forall n,
  (forall b' d e, read b n = Some (b', d, e) -> pd b = d ++ pd b' /\ (length d <= n)%nat) /\
  (forall b' d, read b n = Some (b', d, None) -> (0 < n)%nat -> d <> []) /\
  (pd b <> [] -> (0 < n)%nat ->
     exists b' d e, read b n = Some (b', d, e) /\ d <> [] /\ (e <> None -> pd b' = [])).

Definition reader_at_spec {B} `{Reader B} (pd : B -> bytes) : (forall b, reader_at pd b) -> ReaderSpec B.
Proof.
  intros H'. refine {| pending := pd |}; intros b n; destruct (H' b n) as (H1 & H2 & H3); eauto.
Defined.

Lemma reader_at_map {A B} `{ReaderSpec A, Reader B} (f : A -> B) (pd : B -> bytes) :
  (forall a n, read (f a) n = match read a n with Some (a', d, e) => Some (f a', d, e) | None => None end) ->
  (forall a, pd (f a) = pending a) ->
  forall a, reader_at pd (f a).
Proof.
  intros Hread Hpd a n. rewrite Hread, Hpd. split_and!.
  - intros b' d e E. destruct (read a n) as [ [[a' d'] e']|] eqn:Ea; simplify_eq.
    rewrite Hpd. by eapply read_data.
  - intros b' d E. destruct (read a n) as [ [[a' d'] e']|] eqn:Ea; simplify_eq. by eapply read_progress.
  - intros Hne Hn. destruct (read_live a n Hne Hn) as (a' & d & e & -> & Hd & He).
    eexists _, _, _. rewrite Hpd. eauto.
Qed.

Lemma reader_at_deadline {A B} `{ReaderSpec A, Reader B} (f : A -> B) (pd : B -> bytes) dl :
  (forall a n, read (f a) n = by_deadline dl (f a)
     (match read a n with Some (a', d, e) => Some (f a', d, e) | None => None end)) ->
  (forall a, pd (f a) = pending a) ->
  forall a, reader_at pd (f a).
Proof.
  intros Hread Hpd a n. rewrite Hread, Hpd. split_and!.
  - intros b' d e E. destruct (read a n) as [ [[a' d'] e']|] eqn:Ea; [|destruct dl]; simplify_eq/=.
    + rewrite Hpd. by eapply read_data.
    + rewrite Hpd. split; [done | lia].
  - intros b' d E. destruct (read a n) as [ [[a' d'] e']|] eqn:Ea; [|destruct dl]; simplify_eq/=. by eapply read_progress.
  - intros Hne Hn. destruct (read_live a n Hne Hn) as (a' & d & e & -> & Hd & He).
    eexists _, _, _. rewrite Hpd. eauto.
Qed.

Section spec.
Context {W R Z Zr : Type} `{WriterSpec W, ReaderSpec R}.
Context `{!SnappyWriter (ioWriter W) Z, !SnappyWriterSpec (ioWriter W) Z}.
Context `{!SnappyReader (ioReader R) Zr, !Reader Zr, !ReaderSpec Zr}.

#[export] Instance ioReader_ReaderSpec : ReaderSpec (ioReader R).
Proof.
  apply (reader_at_spec (fun x => match x with ConnR r => pending r | EncR x => pending x end)).
  intros [r|x]; [apply (reader_at_map ConnR) | apply (reader_at_map EncR)]; done.
Defined.

#[export] Instance wcReader_ReaderSpec : ReaderSpec (wcReader R Zr).
Proof.
  apply (reader_at_spec (fun x => match x with PlainR r => pending r | CompR s => pending s end)).
  intros [r|s]; [apply (reader_at_map PlainR) | apply (reader_at_map CompR)]; done.
Defined.

#[export] Instance wrapped_ReaderSpec : ReaderSpec (wrapped W R Z Zr).
Proof.
  apply (reader_at_spec (fun c => match c with RawConn c => pending (cn_R c) | Layered wc => pending (wc_r wc) end)).
  intros [ [w r t b] | [r w c t b] ].
  - by apply (reader_at_deadline (fun r => RawConn (mkConn w r t b)) _ t).
  - by apply (reader_at_deadline (fun r => Layered (mkWC r w c t b)) _ t).
Defined.

Context {SR : SnappyReaderSpec (ioReader R) Zr sz_decode}.

(** ** Sending *)

Lemma connWrite_ok (w w' : W) p : connWrite w p = (w', None) -> writes w [p] = Some w'.
Proof. unfold connWrite. simpl. destruct (write w p) as [w1 [e|]]; intros; by simplify_eq. Qed.

(** What the encryption layer sends decodes to what it was given. *)
Definition io_carries (w1 : W) (key : bytes) (enc : bool) (w : ioWriter W) : Prop :=
  forall cs w', writes w cs = Some w' -> exists zs, writes w1 zs = Some (under_io w') /\
    forall r : R, pending r = concat zs ->
      if enc then exists r' y, NewCryptoReader r key = Some (r', Ok y) /\ pending y = concat cs
      else pending r = concat cs.

Lemma plain_carries w1 key : io_carries w1 key false (ConnW w1).
Proof.
  intros cs w' Hw. rewrite (writes_map ConnW) in Hw by done.
  destruct (writes w1 cs) as [w2|] eqn:E; simplify_eq/=. exists cs. by rewrite E.
Qed.

Lemma enc_carries w w1 key random x :
  NewCryptoWriter w key random = (w1, Ok x) -> (forall iv, random = Ok iv -> length iv = BlockSize) ->
  io_carries w key true (EncW x).
Proof.
  intros Hn Hiv cs w' Hw. rewrite (writes_map EncW) in Hw by done.
  destruct (writes x cs) as [x'|] eqn:E; simplify_eq/=.
  by eapply crypto_pending.
Qed.

(** What an end whose reader is [r] reads, with the given key and flags. *)
Definition receives (r : R) (key : bytes) (enc comp : bool) (d : bytes) : Prop :=
  exists y : ioReader R,
    (if enc then exists r' x, NewCryptoReader r key = Some (r', Ok x) /\ y = EncR x else y = ConnR r) /\
    (if comp then sz_decode (pending y) else pending y) = d.

Lemma write_CompW r (s : autoFlushSnappyWriter Z) k t b p :
  write (Layered (mkWC r (CompW s) k t b) : wrapped W R Z Zr) p =
  let '(s', e) := write s p in (Layered (mkWC r (CompW s') k t b), e).
Proof. unfold write at 1, wrapped_Writer. cbn. by destruct (write s p). Qed.

Lemma write_PlainW r (w : ioWriter W) k t b p :
  write (Layered (mkWC r (PlainW w) k t b) : wrapped W R Z Zr) p =
  let '(w', e) := write w p in (Layered (mkWC r (PlainW w') k t b), e).
Proof. unfold write at 1, wrapped_Writer. cbn. by destruct (write w p). Qed.

Lemma comp_sends (conn : netConn W R) r w1 key (w : ioWriter W) enc comp ps (c' : wrapped W R Z Zr) :
  io_carries w1 key enc w -> writes (compLayer conn r w comp) ps = Some c' ->
  exists zs, writes w1 zs = Some (under c') /\
    forall r : R, pending r = concat zs -> receives r key enc comp (concat ps).
Proof.
  intros Hc Hw. assert (exists cs w', writes w cs = Some w' /\ under c' = under_io w' /\
    (if comp then sz_decode (concat cs) else concat cs) = concat ps) as (cs & w' & Hcs & -> & <-).
  { unfold compLayer in Hw. destruct comp.
    - rewrite (writes_map (fun s => Layered (mkWC _ (CompW s) _ _ _))) in Hw by (intros; apply write_CompW).
      destruct (writes (NewSnappyWriter w) ps) as [s|] eqn:E; simplify_eq/=.
      destruct (autoFlush_writes _ _ _ E) as (cs & Hcs & Hd). eauto.
    - rewrite (writes_map (fun w => Layered (mkWC _ (PlainW w) _ _ _))) in Hw by (intros; apply write_PlainW).
      destruct (writes w ps) as [w'|] eqn:E; simplify_eq/=. eauto. }
  destruct (Hc _ _ Hcs) as (zs & Hz & Hr). exists zs. split; [done|]. intros r0 Hp.
  specialize (Hr r0 Hp). unfold receives. destruct enc.
  - destruct Hr as (r' & y & E & Hy). exists (EncR y). split; [eauto|]. rewrite <- Hy. by destruct comp.
  - exists (ConnR r0). split; [done|]. rewrite <- Hr. by destruct comp.
Qed.

Lemma Wrap_sends pooled (conn : netConn W R) key name enc comp random (c : wrapped W R Z Zr) :
  Wrap pooled conn key name enc comp random = Some (inl c) ->
  (forall iv, random = Ok iv -> length iv = BlockSize) ->
  exists w1, writes (cn_W conn) [frame (startWorkConn name)] = Some w1 /\
    forall ps c', writes c ps = Some c' -> exists zs, writes w1 zs = Some (under c') /\
      forall r : R, pending r = concat zs -> receives r key enc comp (concat ps).
Proof.
  unfold Wrap, WriteMsg. rewrite frameInto_frame. intros Hw Hiv.
  destruct (connWrite (cn_W conn) _) as [w1 [e|]] eqn:E1; [done|]. apply connWrite_ok in E1.
  exists w1. split; [done|]. intros ps c' Hps.
  destruct enc.
  - rewrite andb_false_l in Hw. unfold encLayer in Hw. simpl in Hw.
    destruct (NewCryptoWriter w1 key random) as [w2 [x|e]] eqn:En; [|done].
    destruct (NewCryptoReader _ key) as [ [r' [y|e]]|]; simplify_eq.
    eapply comp_sends; [by eapply enc_carries | exact Hps].
  - destruct comp; simpl in Hw; simplify_eq.
    + eapply comp_sends; [apply plain_carries | exact Hps].
    + rewrite (writes_map (fun w => RawConn (setW conn w))) in Hps by done.
      destruct (writes w1 ps) as [w2|] eqn:E; simplify_eq/=. exists ps. split; [done|].
      intros r Hr. by exists (ConnR r).
Qed.

(** ** Receiving *)

Lemma Wrap_receives pooled (conn : netConn W R) key name enc comp random (c : wrapped W R Z Zr) d :
  Wrap pooled conn key name enc comp random = Some (inl c) -> receives (cn_R conn) key enc comp d ->
  pending c = d.
Proof.
  intros Hw (y & Hy & Hd). unfold Wrap in Hw.
  destruct (WriteMsg _ _ _ _) as [w1 [e|]]; [done|].
  assert (Hcomp : forall w, pending (compLayer (setW conn w1) y w comp) = d).
  { intros w. subst d. destruct comp; [|done]. cbn. by rewrite sz_reader. }
  destruct enc.
  - rewrite andb_false_l in Hw. destruct Hy as (r' & x & E & ->). unfold encLayer in Hw. simpl in Hw.
    pose proof (NewCryptoReader_timed (cn_R conn) key (cn_deadline conn)) as Ht. rewrite E in Ht. rewrite Ht in Hw.
    destruct (NewCryptoWriter w1 key random) as [w2 [x'|e]]; simplify_eq.
    destruct x. apply Hcomp.
  - subst y. destruct comp; simpl in Hw; simplify_eq; [apply Hcomp | done].
Qed.

Lemma writes_connWrite (w : W) p (ps : list bytes) : writes w (p :: ps) <> None ->
  exists w', connWrite w p = (w', None) /\ writes w' ps <> None.
Proof. unfold connWrite. simpl. destruct (write w p) as [w' [e|]]; [done|]. eauto. Qed.

(** An end whose writes succeed and whose peer has sent something readable
    gets its wrapped connection. *)
Lemma Wrap_returns pooled (conn : netConn W R) key name (enc comp : bool) iv d :
  writes (cn_W conn) (frame (startWorkConn name) :: (if (enc : bool) then [iv] else [])) <> None ->
  receives (cn_R conn) key enc comp d ->
  exists c : wrapped W R Z Zr, Wrap pooled conn key name enc comp (Ok iv) = Some (inl c).
Proof.
  intros (w1 & E1 & Hiv)%writes_connWrite (y & Hy & _). unfold Wrap, WriteMsg.
  rewrite frameInto_frame, E1. destruct enc.
  - rewrite andb_false_l. destruct Hy as (r' & x & E & _).
    assert (exists block, NewCipher key = Ok block) as [block Hb].
    { unfold NewCryptoReader in E. destruct (NewCipher key); [eauto|done]. }
    pose proof (NewCryptoReader_timed (cn_R conn) key (cn_deadline conn)) as Ht. rewrite E in Ht.
    unfold encLayer, NewCryptoWriter. rewrite Hb. cbn [cn_W setW cn_R cn_deadline]. rewrite Ht.
    simpl in Hiv. destruct (write w1 iv) as [w2 [e|]]; [done|]. by eexists.
  - destruct comp; by eexists.
Qed.

(** ** The properties *)

(** C14: A work connection carries what is written to it. After [Wrap] and any
    successful writes, the connection has been sent the plaintext
    [StartWorkConn] frame, which [ReadMsg] reads back, and then bytes from
    which an end that wraps its connection with the same key and flags gets a
    connection that reads exactly what was written, in order, whatever the
    sizes of the reads; no layer holds back anything of a write that has
    returned. *)
Theorem wrap_carries pooled (conn : netConn W R) key name (enc comp : bool) random (c c' : wrapped W R Z Zr) (ps : list bytes)
    (Hw : Wrap pooled conn key name enc comp random = Some (inl c))
    (Hiv : forall iv, random = Ok iv -> length iv = BlockSize)
    (Hname : msg_ok (startWorkConn name)) (Hfits : fits (startWorkConn name))
    (Hps : writes c ps = Some c') :
  exists zs, delivered (under c') = delivered (cn_W conn) ++ frame (startWorkConn name) ++ zs /\
    (forall pr, ReadMsg pr (frame (startWorkConn name) ++ zs) = inr (startWorkConn name, zs)) /\
    forall pooled2 (peer : netConn W R) name2 iv2,
      pending (cn_R peer) = zs ->
      writes (cn_W peer) (frame (startWorkConn name2) :: if enc then [iv2] else []) <> None ->
      exists c2 : wrapped W R Z Zr, Wrap pooled2 peer key name2 enc comp (Ok iv2) = Some (inl c2) /\
        forall ns ds c2', reads c2 ns = Some (ds, c2') -> concat ps = concat ds ++ pending c2'.
Proof.
  destruct (Wrap_sends _ _ _ _ _ _ _ _ Hw Hiv) as (w1 & Hw1 & Hs).
  destruct (Hs _ _ Hps) as (zs & Hz & Hr). exists (concat zs). split_and!.
  - rewrite (writes_delivered _ _ _ Hz), (writes_delivered _ _ _ Hw1), <- app_assoc. simpl. by rewrite app_nil_r.
  - intros pr. by apply ReadMsg_frame_fits.
  - intros pooled2 peer name2 iv2 Hp Hpw. specialize (Hr _ Hp).
    destruct (Wrap_returns pooled2 peer key name2 enc comp iv2 _ Hpw Hr) as [c2 Hc2].
    exists c2. split; [done|]. intros ns ds c2' Hrd. rewrite <- (reads_pending _ _ _ _ Hrd). symmetry.
    by eapply Wrap_receives.
Qed.
End spec.

(** ** A concrete codec: data kept in a buffer until it is flushed, and
    stored as it is *)

Record storeWriter (W : Type) := mkStore { st_w : W; st_buf : bytes }.
Arguments mkStore {W} _ _.
Arguments st_w {W} _.
Arguments st_buf {W} _.

Definition store_Flush {W} `{Writer W} (z : storeWriter W) : storeWriter W * option string :=
  let '(w', r) := write (st_w z) (st_buf z) in
  match r with None => (mkStore w' [], None) | Some (_, e) => (mkStore w' (st_buf z), Some e) end.

#[export] Instance store_Snappy {W} `{Writer W} : SnappyWriter W (storeWriter W) := {|
  NewBufferedWriter w := mkStore w [];
  sz_Write z p := (mkStore (st_w z) (st_buf z ++ p), None);
  sz_Flush := store_Flush;
  sz_Close := store_Flush;
  sz_under := st_w;
  sz_decode b := b
|}.

Lemma store_run {W} `{Writer W} ops (z z' : storeWriter W) :
  szRun z ops = Some z' ->
  exists zs, writes (st_w z) zs = Some (st_w z') /\
    concat zs ++ st_buf z' = st_buf z ++ concat (List.map szInput ops).
Proof.
  revert z; induction ops as [|[p|] ops IH]; intros z E.
  - simpl in E. simplify_eq. exists []. simpl. by rewrite app_nil_r.
  - destruct (IH _ E) as (zs & Hw & Hc). exists zs. split; [done|]. simpl in *. by rewrite Hc, app_assoc.
  - cbn [szRun] in E. simpl in E. unfold store_Flush in E.
    destruct (write (st_w z) (st_buf z)) as [w' [ [n e]|]] eqn:Ew; [done|].
    destruct (IH _ E) as (zs & Hw & Hc). exists (st_buf z :: zs). simpl. rewrite Ew. split; [done|].
    simpl in Hc. by rewrite <- app_assoc, Hc.
Qed.

#[export] Instance store_SnappySpec {W} `{Writer W} : SnappyWriterSpec W (storeWriter W).
Proof.
  split; [done| |done]. intros w ops z E.
  assert (exists z1, szRun (NewBufferedWriter w) ops = Some z1 /\ szRun z1 [OFlush] = Some z) as (z1 & E1 & E2).
  { revert E. generalize (NewBufferedWriter (Z := storeWriter W) w).
    induction ops as [|[p|] ops IH]; intros z0 E; [eauto|by apply IH|].
    cbn [app szRun] in *. destruct (sz_Flush z0) as [z2 [e|]]; [done|]. by apply IH. }
  destruct (store_run _ _ _ E1) as (zs & Hw & Hc). simpl in E2, Hw, Hc. unfold store_Flush in E2.
  destruct (write (st_w z1) (st_buf z1)) as [w' [ [n e]|]] eqn:Ew; simplify_eq.
  exists (zs ++ [st_buf z1]). rewrite writes_app, Hw. simpl. rewrite Ew, concat_app. simpl.
  by rewrite app_nil_r.
Qed.

#[export] Instance store_Reader {R} : SnappyReader R R := {| snappy_NewReader r := r |}.
#[export] Instance store_ReaderSpec {R} `{ReaderSpec R} : SnappyReaderSpec R R (fun b => b).
Proof. by intros r. Qed.

(** ** A witness *)

Definition demoConn := netConn memConn memStream.
Definition demoWrapped := wrapped memConn memStream (storeWriter (ioWriter memConn)) (ioReader memStream).
Definition demo_conn : demoConn := mkConn (mkMem [] 1000) (mkStream [demo_iv] None) None false.

Definition demo_c : demoWrapped :=
  match Wrap [] demo_conn demo_key "web" true true (Ok demo_iv) with Some (inl c) => c | _ => RawConn demo_conn end.
Definition demo_c' : demoWrapped := default demo_c (writes demo_c demo_writes).

(** The peer's connection: what was sent after the frame has arrived. *)
Definition demo_peer : demoConn :=
  mkConn (mkMem [] 1000)
    (mkStream [drop (length (frame (startWorkConn "web"))) (m_got (under demo_c'))] (Some "EOF")) None false.

Lemma pending_one d e : pending (mkStream [d] e) = d.
Proof. exact (app_nil_r d). Qed.

Lemma m_got_delivered (w : memConn) : m_got w = delivered w.
Proof. done. Qed.

Lemma wrap_carries_witness :
  Wrap [] demo_conn demo_key "web" true true (Ok demo_iv) = Some (inl demo_c) /\
  writes demo_c demo_writes = Some demo_c' /\
  exists c2 : demoWrapped, Wrap [] demo_peer demo_key "peer" true true (Ok demo_iv) = Some (inl c2).
Proof.
  assert (Ew : Wrap [] demo_conn demo_key "web" true true (Ok demo_iv) = Some (inl demo_c)) by reflexivity.
  assert (Ep : writes demo_c demo_writes = Some demo_c').
  { assert (is_Some_b (writes demo_c demo_writes) = true) as Hs by (vm_compute; reflexivity).
    unfold demo_c'. by destruct (writes demo_c demo_writes). }
  assert (Hiv : forall iv, Ok demo_iv = Ok iv -> length iv = BlockSize) by (intros iv E; by injection E as <-).
  assert (Hok : msg_ok (startWorkConn "web")) by (apply msg_okb_ok; vm_compute; reflexivity).
  assert (Hfit : fits (startWorkConn "web")) by (vm_compute; discriminate).
  destruct (wrap_carries _ _ _ _ _ _ _ _ _ _ Ew Hiv Hok Hfit Ep) as (zs & Hzs & _ & Hpeer).
  assert (Hp : pending (cn_R demo_peer) = zs).
  { unfold demo_peer. cbn [cn_R]. rewrite pending_one, m_got_delivered, Hzs. exact (drop_app_length _ _). }
  destruct (Hpeer [] demo_peer "peer" demo_iv Hp) as (c2 & Hc2 & _); [vm_compute; discriminate|].
  split; [done|]. split; [done|]. by exists c2.
Defined.
