(* ===== verification/Http.v ===== *)
(** * The parts of [net/http], [net/textproto] and [encoding/base64] the
    proxy uses

    Headers with their canonical names, [http.Error], and
    [Request.BasicAuth]. *)

From S2P Require Import Prelude GoStrings Json JsonProofs Wire.

(** ** Headers *)

(** A [http.Header]: canonical names to lists of values. *)
Abbreviation Header := (gmap string (list string)) (only parsing).

Definition in_range (c : ascii) (lo hi : Z) : bool := (lo <=? code c) && (code c <=? hi).
Definition isUpper (c : ascii) : bool := in_range c 65 90.
Definition isLower (c : ascii) : bool := in_range c 97 122.
Definition toUpper (c : ascii) : ascii := if isLower c then chr (code c - 32) else c.
Definition toLower (c : ascii) : ascii := if isUpper c then chr (code c + 32) else c.

(** The bytes of an RFC 7230 token. *)
Definition validHeaderFieldByte (c : ascii) : bool :=
  isUpper c || isLower c || in_range c 48 57 ||
  existsb (Ascii.eqb c) ["!"; "#"; "$"; "%"; "&"; "'"; "*"; "+"; "-"; "."; "^"; "_"; "`"; "|"; "~"]%char.

(** Upper case at the start and after each hyphen, lower case elsewhere. *)
Fixpoint canonicalFrom (upper : bool) (s : string) : string :=
  match s with
  | EmptyString => EmptyString
  | String c s' =>
      String (if upper then toUpper c else toLower c) (canonicalFrom (Ascii.eqb c "-") s')
  end.

(** [textproto.CanonicalMIMEHeaderKey]: names with other bytes stay as they
    are. *)
Definition CanonicalMIMEHeaderKey (s : string) : string :=
  if forallb validHeaderFieldByte (bytes_of s) then canonicalFrom true s else s.

Definition header_Get (h : Header) (key : string) : string :=
  match h !! CanonicalMIMEHeaderKey key with Some (v :: _) => v | _ => "" end.
Definition header_Set (h : Header) (key value : string) : Header :=
  <[CanonicalMIMEHeaderKey key := [value]]> h.
Definition header_Del (h : Header) (key : string) : Header := delete (CanonicalMIMEHeaderKey key) h.

(** ** Responses *)

Record Response := mkResponse { rs_Status : Z; rs_Header : Header; rs_Body : string }.

Definition newline : string := String (chr 10) "".
Definition dquote : string := String quote "".

(** [http.Error(w, error, code)] on a writer whose header so far is [h]. *)
Definition http_Error (h : Header) (error : string) (code : Z) : Response :=
  let h := header_Del h "Content-Length" in
  let h := header_Set h "Content-Type" "text/plain; charset=utf-8" in
  let h := header_Set h "X-Content-Type-Options" "nosniff" in
  mkResponse code h (error +:+ newline).

(** ** Base 64 *)

Definition b64_char (v : Z) : ascii :=
  if v <? 26 then chr (65 + v) else if v <? 52 then chr (71 + v) else if v <? 62 then chr (v - 4)
  else if v =? 62 then "+" else "/".

Definition b64_val (c : ascii) : option Z :=
  if isUpper c then Some (code c - 65) else if isLower c then Some (code c - 71)
  else if in_range c 48 57 then Some (code c + 4)
  else if Ascii.eqb c "+" then Some 62 else if Ascii.eqb c "/" then Some 63 else None.

Definition is_pad (c : ascii) : bool := Ascii.eqb c "=".

(** The quanta of four characters, the last one possibly padded. *)
Fixpoint b64_quanta (l : bytes) : option bytes :=
  match l with
  | [] => Some []
  | a :: b :: c :: d :: l' =>
      match b64_val a, b64_val b with
      | Some v0, Some v1 =>
          let b0 := chr (v0 * 4 + v1 / 16) in
          if is_pad c then
            if is_pad d && Nat.eqb (length l') 0 then Some [b0] else None
          else
            match b64_val c with
            | None => None
            | Some v2 =>
                let b1 := chr (v1 mod 16 * 16 + v2 / 4) in
                if is_pad d then if Nat.eqb (length l') 0 then Some [b0; b1] else None
                else
                  match b64_val d with
                  | None => None
                  | Some v3 =>
                      match b64_quanta l' with
                      | Some r => Some (b0 :: b1 :: chr (v2 mod 4 * 64 + v3) :: r)
                      | None => None
                      end
                  end
            end
      | _, _ => None
      end
  | _ => None
  end.

(** [base64.StdEncoding.DecodeString]: line breaks are ignored, padding is
    required, spare bits are not looked at. *)
Definition DecodeString (s : string) : option string :=
  string_of <$> b64_quanta (List.filter (fun c => negb (Ascii.eqb c (chr 10) || Ascii.eqb c (chr 13))) (bytes_of s)).

(** [base64.StdEncoding.EncodeToString]. *)
Fixpoint b64_encode (l : bytes) : bytes :=
  match l with
  | [] => []
  | [a] => [b64_char (code a / 4); b64_char (code a mod 4 * 16); "="; "="]%char
  | [a; b] =>
      [b64_char (code a / 4); b64_char (code a mod 4 * 16 + code b / 16); b64_char (code b mod 16 * 4); "="%char]
  | a :: b :: c :: l' =>
      b64_char (code a / 4) :: b64_char (code a mod 4 * 16 + code b / 16)
      :: b64_char (code b mod 16 * 4 + code c / 64) :: b64_char (code c mod 64) :: b64_encode l'
  end.
Definition EncodeToString (s : string) : string := string_of (b64_encode (bytes_of s)).

(** ** [Request.BasicAuth] *)

Definition parseBasicAuth (auth : string) : option (string * string) :=
  if String.eqb (string_of (List.map toLower (bytes_of (String.substring 0 6 auth)))) "basic " then
    match DecodeString (string_drop 6 auth) with
    | Some cs => Cut cs ":"
    | None => None
    end
  else None.

Definition BasicAuth (h : Header) : option (string * string) :=
  let auth := header_Get h "Authorization" in
  if String.eqb auth "" then None else parseBasicAuth auth.

(** [Request.SetBasicAuth]. *)
Definition basicAuthHeader (user pass : string) : string :=
  "Basic " +:+ EncodeToString (user +:+ ":" +:+ pass).

Example encode_example : basicAuthHeader "Aladdin" "open sesame" = "Basic QWxhZGRpbjpvcGVuIHNlc2FtZQ==".
Proof. vm_compute. reflexivity. Qed.

Example parse_example : parseBasicAuth "bAsIC QWxhZGRpbjpvcGVuIHNlc2FtZQ==" = Some ("Aladdin", "open sesame").
Proof. vm_compute. reflexivity. Qed.

(** ** Lemmas *)

Lemma b64_char_ok v : 0 <= v < 64 ->
  b64_val (b64_char v) = Some v /\ is_pad (b64_char v) = false /\
  b64_char v <> chr 10 /\ b64_char v <> chr 13.
Proof.
  intros Hv. assert (forallb (fun i => let c := b64_char (Z.of_nat i) in
    (match b64_val c with Some w => w =? Z.of_nat i | None => false end) && negb (is_pad c) &&
    negb (Ascii.eqb c (chr 10)) && negb (Ascii.eqb c (chr 13))) (seq 0 64) = true) as H by reflexivity.
  rewrite forallb_forall in H. specialize (H (Z.to_nat v)). rewrite in_seq, Z2Nat.id in H by lia.
  specialize (H ltac:(lia)). cbv zeta in H. rewrite !andb_true_iff, !negb_true_iff, !Ascii.eqb_neq in H.
  destruct H as [ [ [H ?] ?] ?]. split; [|done]. destruct (b64_val _); [|done].
  apply Z.eqb_eq in H. by subst.
Qed.

Lemma b64_digits a b c : 0 <= a < 256 -> 0 <= b < 256 -> 0 <= c < 256 ->
  (0 <= a / 4 < 64 /\ 0 <= a mod 4 * 16 + b / 16 < 64 /\ 0 <= b mod 16 * 4 + c / 64 < 64 /\ 0 <= c mod 64 < 64) /\
  a / 4 * 4 + (a mod 4 * 16 + b / 16) / 16 = a /\
  (a mod 4 * 16 + b / 16) mod 16 * 16 + (b mod 16 * 4 + c / 64) / 4 = b /\
  (b mod 16 * 4 + c / 64) mod 4 * 64 + c mod 64 = c.
Proof. intros. split_and!; Z.div_mod_to_equations; lia. Qed.

Lemma chr_code c : chr (code c) = c.
Proof. apply code_inj, code_chr, code_range. Qed.

Lemma b64_quanta_3 a b c l r : b64_quanta l = Some r ->
  b64_quanta (b64_char (code a / 4) :: b64_char (code a mod 4 * 16 + code b / 16)
      :: b64_char (code b mod 16 * 4 + code c / 64) :: b64_char (code c mod 64) :: l) = Some (a :: b :: c :: r).
Proof.
  intros E. destruct (b64_digits (code a) (code b) (code c)) as ((H0 & H1 & H2 & H3) & E0 & E1 & E2);
    [apply code_range..|]. cbn [b64_quanta].
  destruct (b64_char_ok _ H0) as (-> & _), (b64_char_ok _ H1) as (-> & _),
    (b64_char_ok _ H2) as (-> & -> & _), (b64_char_ok _ H3) as (-> & -> & _).
  by rewrite E, E0, E1, E2, !chr_code.
Qed.

Lemma b64_quanta_encode l : b64_quanta (b64_encode l) = Some l.
Proof.
  remember (length l) as n eqn:En. revert l En; induction n as [n IH] using lt_wf_ind; intros l En.
  destruct l as [|a [|b [|c l]]]; cbn [b64_encode].
  - done.
  - destruct (b64_digits (code a) 0 0) as ((H0 & H1 & _) & E0 & _); [apply code_range|lia|lia|].
    rewrite Z.div_0_l, Z.add_0_r in * by lia. cbn [b64_quanta].
    destruct (b64_char_ok _ H0) as (-> & _), (b64_char_ok _ H1) as (-> & _). simpl. by rewrite E0, chr_code.
  - destruct (b64_digits (code a) (code b) 0) as ((H0 & H1 & H2 & _) & E0 & E1 & _); [apply code_range..|lia|].
    rewrite Z.div_0_l, Z.add_0_r in * by lia. cbn [b64_quanta].
    destruct (b64_char_ok _ H0) as (-> & _), (b64_char_ok _ H1) as (-> & _), (b64_char_ok _ H2) as (-> & -> & _).
    simpl. by rewrite E0, E1, !chr_code.
  - apply b64_quanta_3, (IH (length l)); [simpl in En; lia | done].
Qed.

Lemma b64_encode_clean l :
  List.filter (fun c => negb (Ascii.eqb c (chr 10) || Ascii.eqb c (chr 13))) (b64_encode l) = b64_encode l.
Proof.
  assert (Hf : forall v l, 0 <= v < 64 ->
    List.filter (fun c => negb (Ascii.eqb c (chr 10) || Ascii.eqb c (chr 13))) (b64_char v :: l)
    = b64_char v :: List.filter (fun c => negb (Ascii.eqb c (chr 10) || Ascii.eqb c (chr 13))) l).
  { intros v l' Hv. destruct (b64_char_ok v Hv) as (_ & _ & H1 & H2). cbn [List.filter].
    apply Ascii.eqb_neq in H1, H2. by rewrite H1, H2. }
  remember (length l) as n eqn:En. revert l En; induction n as [n IH] using lt_wf_ind; intros l En.
  destruct l as [|a [|b [|c l]]]; cbn [b64_encode]; [done|..].
  - destruct (b64_digits (code a) 0 0) as ((H0 & H1 & _) & _); [apply code_range|lia|lia|].
    rewrite Z.div_0_l, Z.add_0_r in * by lia. by rewrite !Hf.
  - destruct (b64_digits (code a) (code b) 0) as ((H0 & H1 & H2 & _) & _); [apply code_range..|lia|].
    rewrite Z.div_0_l, Z.add_0_r in * by lia. by rewrite !Hf.
  - destruct (b64_digits (code a) (code b) (code c)) as ((H0 & H1 & H2 & H3) & _); [apply code_range..|].
    rewrite !Hf by done. do 4 f_equal. apply (IH (length l)); [simpl in En; lia | done].
Qed.

Lemma bytes_of_string_of l : bytes_of (string_of l) = l.
Proof. apply String.list_ascii_of_string_of_list_ascii. Qed.

Lemma bytes_of_app a b : bytes_of (a +:+ b) = bytes_of a ++ bytes_of b.
Proof. induction a; simpl; [done | by f_equal]. Qed.

(** What [SetBasicAuth] encodes [BasicAuth] decodes, up to the first colon. *)
Lemma DecodeString_Encode s : DecodeString (EncodeToString s) = Some s.
Proof.
  unfold DecodeString, EncodeToString. rewrite bytes_of_string_of, b64_encode_clean, b64_quanta_encode.
  simpl. by rewrite string_of_bytes_of.
Qed.

Lemma parseBasicAuth_header user pass : parseBasicAuth (basicAuthHeader user pass) = Cut (user +:+ ":" +:+ pass) ":".
Proof.
  unfold parseBasicAuth, basicAuthHeader. generalize (user +:+ ":" +:+ pass). intros s.
  assert (String.substring 0 6 ("Basic " +:+ EncodeToString s) = "Basic ") as ->.
  { by destruct (EncodeToString s). }
  change (string_drop 6 ("Basic " +:+ EncodeToString s)) with (EncodeToString s).
  by rewrite DecodeString_Encode.
Qed.

(** The user name that [BasicAuth] answers has no colon. *)
Lemma parseBasicAuth_user auth user pass : parseBasicAuth auth = Some (user, pass) -> Cut user ":" = None.
Proof.
  unfold parseBasicAuth. case_match; [|done]. destruct (DecodeString _) as [cs|]; [|done]. intros Hc.
  revert user Hc. induction cs as [|a cs IH]; intros user Hc; simplify_eq/=.
  destruct (Ascii.eqb_spec a ":"); simplify_eq/=; [done|].
  destruct (Cut cs ":") as [[u p]|]; simplify_eq/=. destruct (Ascii.eqb_spec a ":"); [done|].
  by rewrite (IH u).
Qed.
