(* ===== verification/BufferPool.v ===== *)
(** * The copy buffers of the reverse proxy: [bufferPool] of
    [src/internal/proxy/proxy.go]

    Buffers are references into a heap. [sync.Pool] may hand out any buffer it
    has or make one, and may forget buffers at any time: a call of [Get] says
    which. [held] are the buffers the copying goroutines have. *)

From S2P Require Import Prelude GoStrings Json Wire.

Definition reverseProxyBufSize : nat := 32 * 1024.

Record bufferPool := mkBufferPool {
  bp_size : nat;
  bp_free : list nat;
  bp_heap : list bytes
}.

Definition newBufferPool (size : nat) : bufferPool := mkBufferPool size [] [].

(** [Get], from the pool at index [i] or made by [New]. *)
Definition Get (bp : bufferPool) (i : option nat) : bufferPool * nat :=
  match i ≫= fun i => (bp_free bp !! i) ≫= fun b => Some (i, b) with
  | Some (i, b) => (mkBufferPool (bp_size bp) (delete i (bp_free bp)) (bp_heap bp), b)
  | None => (mkBufferPool (bp_size bp) (bp_free bp) (bp_heap bp ++ [replicate (bp_size bp) Ascii.zero]), length (bp_heap bp))
  end.

Definition Put (bp : bufferPool) (b : nat) : bufferPool :=
  mkBufferPool (bp_size bp) (bp_free bp ++ [b]) (bp_heap bp).

(** The garbage collector drops the buffer at index [i] of the pool. *)
Definition collect (bp : bufferPool) (i : nat) : bufferPool :=
  mkBufferPool (bp_size bp) (delete i (bp_free bp)) (bp_heap bp).

(** A goroutine fills a buffer it has in place, or puts it back. *)
Inductive bstep : bufferPool * list nat -> bufferPool * list nat -> Prop :=
  | bs_get bp held i bp' b : Get bp i = (bp', b) -> bstep (bp, held) (bp', b :: held)
  | bs_put bp held j b : held !! j = Some b -> bstep (bp, held) (Put bp b, delete j held)
  | bs_fill bp held b old new :
      b ∈ held -> bp_heap bp !! b = Some old -> length new = length old ->
      bstep (bp, held) (mkBufferPool (bp_size bp) (bp_free bp) (<[b := new]> (bp_heap bp)), held)
  | bs_collect bp held i : bstep (bp, held) (collect bp i, held).

(** Every buffer is in one pair of hands at most, exists, and has the size. *)
Record buffers_ok (size : nat) (s : bufferPool * list nat) : Prop := {
  bo_size : bp_size (fst s) = size;
  bo_once : NoDup (snd s ++ bp_free (fst s));
  bo_heap : forall b, b ∈ snd s ++ bp_free (fst s) -> (b < length (bp_heap (fst s)))%nat;
  bo_len : Forall (fun d => length d = size) (bp_heap (fst s))
}.

Lemma buffers_ok_perm size bp bp' held held' :
  buffers_ok size (bp, held) -> bp_size bp' = bp_size bp -> bp_heap bp' = bp_heap bp ->
  held' ++ bp_free bp' ⊆+ held ++ bp_free bp -> buffers_ok size (bp', held').
Proof.
  intros [H1 H2 H3 H4] Es Eh Hp. split; simpl in *; rewrite ?Es, ?Eh; try done.
  - apply submseteq_Permutation in Hp as (k & Hk). rewrite Hk in H2. by apply NoDup_app in H2 as [? _].
  - intros b Hb. apply H3. by eapply elem_of_submseteq.
Qed.

Lemma bstep_ok size s s' : buffers_ok size s -> bstep s s' -> buffers_ok size s'.
Proof.
  intros Hok Hs. destruct Hs as [bp held i bp' b E|bp held j b Hj|bp held b old new Hb Ho Hn|bp held i].
  - unfold Get in E. destruct (i ≫= _) as [ [i' b']|] eqn:Ei; simplify_eq.
    + apply bind_Some in Ei as (i1 & _ & (b1 & Hi & ?)%bind_Some). simplify_eq.
      eapply buffers_ok_perm; [exact Hok|done..|]. simpl. apply Permutation_submseteq.
      rewrite (delete_Permutation (bp_free bp) _ _ Hi) at 2. solve_Permutation.
    + destruct Hok as [H1 H2 H3 H4]. split; simpl in *; [done| | |].
      * constructor; [|done]. intros Hin%H3. lia.
      * intros b. rewrite length_app, elem_of_cons. simpl. intros [->|?%H3]; lia.
      * apply Forall_app_2; [done|]. constructor; [|done]. by rewrite length_replicate.
  - eapply buffers_ok_perm; [exact Hok|done..|]. simpl. apply Permutation_submseteq.
    rewrite (delete_Permutation held _ _ Hj) at 2. solve_Permutation.
  - destruct Hok as [H1 H2 H3 H4]. split; simpl in *; [done..| |].
    + intros b'. rewrite length_insert. by apply H3.
    + apply Forall_insert; [done|]. rewrite Hn. by eapply (Forall_lookup_1 _ _ _ _ H4).
  - eapply buffers_ok_perm; [exact Hok|done..|]. simpl. apply submseteq_app; [done|].
    apply sublist_submseteq, sublist_delete.
Qed.

(** Copies never share a buffer: from a new pool, whatever the goroutines, the
    pool and the collector do, no buffer is in two hands or in hand and in the
    pool, and every buffer has the size the pool was made with. *)
Lemma bufferPool_exclusive (size : nat) (s : bufferPool * list nat)
    (Hreach : rtc bstep (newBufferPool size, []) s) :
  NoDup (snd s ++ bp_free (fst s)) /\ Forall (fun d => length d = size) (bp_heap (fst s)).
Proof.
  assert (buffers_ok size s) as [_ ? _ ?]; [|done].
  revert Hreach. apply (rtc_ind_r (fun s => buffers_ok size s)).
  - split; simpl; [done | constructor | by intros b ?%not_elem_of_nil | constructor].
  - intros s1 s2 _ Hs IH. by eapply bstep_ok.
Qed.
