(* ===== verification/Proxy.v ===== *)
(** * The HTTP data path: [src/internal/proxy/proxy.go]

    [ServeHTTP] with its two refusals, the hooks of the reverse proxy, and
    [dialWorkConn]. The request context is the route stored in it, if any; a
    hook that finds none panics, which is [None] here. Which connection a
    request travels on is in [Transport], the buffer pool in [BufferPool]. *)

From S2P Require Import Prelude GoStrings Json Msg Wire Router Bufio Streams.
From S2P Require Import Aes Crypto Wrap Http.

(** Durations are in nanoseconds. *)
Definition second : Z := 1000000000.
Definition workConnTimeout : Z := 10 * second.

(** An [http.Request]: the host and the path as received, the headers, and
    the value under [routeCtxKey{}] of its context. *)
Record Request := mkRequest {
  rq_Host : string;
  rq_Path : string;
  rq_Header : Header;
  rq_ctx : option RouteConfig
}.

Record Handler := mkHandler {
  h_router : Router;
  h_aesKey : bytes;
  h_WorkConnTimeout : Z;
  h_ResponseTimeout : Z
}.

(** [NewHandler]; [poolLookup] is an argument of [dialWorkConn], and the
    reverse proxy is the hooks below. *)
Definition NewHandler (rt : Router) (aesKey : bytes) : Handler := mkHandler rt aesKey workConnTimeout 0.

(** ** Serving *)

(** [r.WithContext(context.WithValue(r.Context(), routeCtxKey{}, cfg))]. *)
Definition withRoute (r : Request) (cfg : RouteConfig) : Request :=
  mkRequest (rq_Host r) (rq_Path r) (rq_Header r) (Some cfg).

Definition realm : string := "Basic realm=" +:+ dquote +:+ "Authorization Required" +:+ dquote.

Definition unauthorized (w : Header) : Response :=
  http_Error (header_Set w "WWW-Authenticate" realm) "Unauthorized" 401.

(** [ServeHTTP] on a response writer whose header so far is [w]: the answer,
    or the request that is handed to the reverse proxy. *)
Definition ServeHTTP (h : Handler) (w : Header) (r : Request) : Response + Request :=
  match Lookup (h_router h) (rq_Host r) (rq_Path r) with
  | None => inl (http_Error w "not found" 404)
  | Some cfg =>
      if negb (String.eqb (rc_HTTPUser cfg) "") then
        match BasicAuth (rq_Header r) with
        | None => inl (unauthorized w)
        | Some (user, pass) =>
            if negb (String.eqb user (rc_HTTPUser cfg)) || negb (String.eqb pass (rc_HTTPPwd cfg))
            then inl (unauthorized w)
            else inr (withRoute r cfg)
        end
      else inr (withRoute r cfg)
  end.

(** ** The hooks *)

(** [routeFromCtx]; [None] is its panic. *)
Definition routeFromCtx (ctx : option RouteConfig) : option RouteConfig := ctx.

Definition routeDialKey (cfg : RouteConfig) : string :=
  rc_Domain cfg +:+ "." +:+ rc_Location cfg +:+ "." +:+ rc_ProxyName cfg +:+ ".drps".

(** The request the reverse proxy is going to send. *)
Record OutRequest := mkOut {
  o_Scheme : string;
  o_URLHost : string;
  o_Host : string;
  o_Header : Header
}.

(** [for k, v := range m { h.Set(k, v) }] with the entries of the map in the
    given order. *)
Definition setAll (order : list (string * string)) (h : Header) : Header :=
  foldl (fun h kv => header_Set h (fst kv) (snd kv)) h order.

Definition rewriteRequest (order : list (string * string)) (ctx : option RouteConfig) (out : OutRequest)
    : option OutRequest :=
  match routeFromCtx ctx with
  | None => None
  | Some cfg =>
      let host := if negb (String.eqb (rc_HostHeaderRewrite cfg) "") then rc_HostHeaderRewrite cfg else o_Host out in
      Some (mkOut "http" (routeDialKey cfg) host (setAll order (o_Header out)))
  end.

Definition applyResponseHeaders (order : list (string * string)) (ctx : option RouteConfig) (h : Header)
    : option Header :=
  match routeFromCtx ctx with
  | None => None
  | Some cfg => Some (setAll order h)
  end.

(** [proxyErrorHandler]: [netErr] is the answer of [Timeout()] for an error
    that is a [net.Error]. *)
Definition proxyErrorHandler (w : Header) (netErr : option bool) : Response :=
  match netErr with
  | Some true => http_Error w "gateway timeout" 504
  | _ => http_Error w "bad gateway" 502
  end.

(** ** Dialing *)

(** The [Err] of the [net.OpError] that [dialWorkConn] answers. *)
Inductive dialErr :=
  | PoolNotFound (runID : string)
  | GetErr (e : string)
  | WrapErr (e : string).

(** [OpError.Timeout]: errors made by [fmt.Errorf] have no [Timeout]
    method; whether an error of the connection is a timeout is the
    connection's affair. *)
Definition OpError_Timeout (conn_timeout : string -> bool) (e : dialErr) : bool :=
  match e with
  | WrapErr e => conn_timeout e
  | _ => false
  end.

(** How [dialWorkConn] ends; the work connection after a failure, if one had
    been taken from the pool. *)
Inductive dialed (C N : Type) :=
  | Dialed (c : C)
  | DialFailed (e : dialErr) (conn : option N)
  | DialPanic.
Arguments Dialed {C N} _.
Arguments DialFailed {C N} _ _.
Arguments DialPanic {C N}.

Section dial.
Context {W R Z Zr P : Type} `{Writer W, Reader R}.
Context `{!SnappyWriter (ioWriter W) Z, !SnappyReader (ioReader R) Zr, !Reader Zr}.

(** [workConn.Close()]. *)
Definition closeConn (c : netConn W R) : netConn W R := mkConn (cn_W c) (cn_R c) (cn_deadline c) true.

(** [poolLookup] finds pools, [Get] is the answer of the pool's [Get] to the
    given timeout, [now] the time after [Wrap]; [None] when the call never
    returns. *)
Definition dialWorkConn (h : Handler) (poolLookup : string -> option P)
    (Get : P -> BinInt.Z -> result (netConn W R)) (pooled : bytes) (random : result bytes) (now : BinInt.Z)
    (ctx : option RouteConfig) : option (dialed (wrapped W R Z Zr) (netConn W R)) :=
  match routeFromCtx ctx with
  | None => Some DialPanic
  | Some cfg =>
      match poolLookup (rc_RunID cfg) with
      | None => Some (DialFailed (PoolNotFound (rc_RunID cfg)) None)
      | Some p =>
          match Get p (h_WorkConnTimeout h) with
          | Err e => Some (DialFailed (GetErr e) None)
          | Ok workConn =>
              match Wrap pooled workConn (h_aesKey h) (rc_ProxyName cfg) (rc_UseEncryption cfg)
                      (rc_UseCompression cfg) random with
              | None => None
              | Some (inr (workConn, e)) => Some (DialFailed (WrapErr e) (Some (closeConn workConn)))
              | Some (inl c) =>
                  Some (Dialed (if 0 <? h_ResponseTimeout h then SetDeadline c (now + h_ResponseTimeout h) else c))
              end
          end
      end
  end.
End dial.
