(* ===== verification/Transport.v ===== *)
(** * Requests and the connections that carry them

    [newReverseProxy] and [newTransport] of [src/internal/proxy/proxy.go] hand
    the requests [ServeHTTP] lets through to an [http.Transport], which keeps
    idle connections per [URL.Host] and dials with [dialWorkConn] when it has
    none. An execution is a sequence of events: routes come and go, requests
    arrive, connections are dialed, reused, kept and closed, in any order. Of
    [http.Transport] this is what decides which connection carries which
    request; the program's own choices are the key ([routeDialKey]), the
    route in the context of the dial, and [MaxIdleConnsPerHost]. *)

From S2P Require Import Prelude GoStrings Router Http Proxy.

Definition transportMaxIdleConnsPerHost : nat := 5.

(** A persistent connection: the work connection, the key it was dialed
    under, and the route in the context of its [dialWorkConn], whose pool it
    comes from and whose proxy name it has announced. *)
Record pconn := mkPC {
  pc_id : nat;
  pc_key : string;
  pc_route : RouteConfig
}.

(** Where a request is in [http.Transport]: about to ask for a connection,
    waiting for the dial it has started or for a connection of its key to
    become idle, on a connection (that has carried requests before, or not),
    answered. *)
Inductive fstate :=
  | Asking
  | Waiting (k : nat)
  | Carried (c : pconn) (reused : bool)
  | Answered.

(** A request in the reverse proxy: the request [ServeHTTP] let through, its
    outbound form, and where it is. *)
Record flight := mkFlight {
  f_req : Request;
  f_out : OutRequest;
  f_state : fstate
}.

Definition f_conn (f : flight) : option pconn := match f_state f with Carried c _ => Some c | _ => None end.

(** A dial: the request it has been started for, and whether it has ended. A
    dial goes on when its request has found another connection or has been
    given up. *)
Record dial := mkDial { dl_flight : nat; dl_over : bool }.

(** [px_idle]: oldest first, each under its key; [px_dials]: in the order they
    were started, which is the order of the queue of waiting requests;
    [px_closed]: the work connections that have been closed. *)
Record px := mkPx {
  px_h : Handler;
  px_idle : list pconn;
  px_flights : list flight;
  px_dials : list dial;
  px_closed : list nat
}.

Definition initPx (h : Handler) : px := mkPx h [] [] [] [].

Inductive event :=
  (* the server changes the routing table *)
  | EvAdd (cfg : RouteConfig)
  | EvRemove (name : string)
  (* a request arrives; the outbound copy of it, and the order in which its
     route's headers are set *)
  | EvRequest (r : Request) (out : OutRequest) (order : list (string * string))
  (* a request asks for a connection: the most recent idle one of its key, or
     a dial when there is none *)
  | EvGetConn (i : nat)
  (* a dial returns a connection, or fails *)
  | EvDialed (k : nat) (id : nat)
  | EvDialErr (k : nat)
  (* the client of a waiting request goes away *)
  | EvCancel (i : nat)
  (* the connection of a request, not its first, breaks before it answers *)
  | EvRetry (i : nat)
  (* a request is answered; its connection is kept or not *)
  | EvFinish (i : nat) (keep : bool)
  (* an idle connection is closed *)
  | EvEvict (j : nat).

Definition setRouter (s : px) (r : Router) : px :=
  mkPx (mkHandler r (h_aesKey (px_h s)) (h_WorkConnTimeout (px_h s)) (h_ResponseTimeout (px_h s)))
    (px_idle s) (px_flights s) (px_dials s) (px_closed s).
Definition setIdle (s : px) (l : list pconn) : px := mkPx (px_h s) l (px_flights s) (px_dials s) (px_closed s).
Definition setFlights (s : px) (l : list flight) : px := mkPx (px_h s) (px_idle s) l (px_dials s) (px_closed s).
Definition setDials (s : px) (l : list dial) : px := mkPx (px_h s) (px_idle s) (px_flights s) l (px_closed s).
Definition closePc (s : px) (c : pconn) : px :=
  mkPx (px_h s) (px_idle s) (px_flights s) (px_dials s) (px_closed s ++ [pc_id c]).

Definition move (f : flight) (st : fstate) : flight := mkFlight (f_req f) (f_out f) st.
Definition setFlight (s : px) (i : nat) (f : flight) : px := setFlights s (<[i := f]> (px_flights s)).
Definition endDial (s : px) (k : nat) (d : dial) : px := setDials s (<[k := mkDial (dl_flight d) true]> (px_dials s)).

Definition has_key (key : string) (c : pconn) : bool := String.eqb (pc_key c) key.

(** The request waits for dial [k]. *)
Definition waits (k : nat) (f : flight) : bool := match f_state f with Waiting k' => Nat.eqb k' k | _ => false end.

(** The first request in the queue that waits for a connection of the key. *)
Fixpoint first_waiter (fs : list flight) (key : string) (k : nat) (ds : list dial) : option (nat * flight) :=
  match ds with
  | [] => None
  | d :: ds' =>
      match fs !! dl_flight d with
      | Some f => if waits k f && String.eqb (o_URLHost (f_out f)) key then Some (dl_flight d, f) else first_waiter fs key (S k) ds'
      | None => first_waiter fs key (S k) ds'
      end
  end.

(** [putOrCloseIdleConn]: a connection goes to the first request that waits
    for one of its key; otherwise it is kept, when there is room. *)
Definition putIdle (s : px) (c : pconn) : px :=
  match first_waiter (px_flights s) (pc_key c) 0 (px_dials s) with
  | Some (i, f) => setFlight s i (move f (Carried c true))
  | None =>
      if Nat.ltb (length (List.filter (has_key (pc_key c)) (px_idle s))) transportMaxIdleConnsPerHost
      then setIdle s (px_idle s ++ [c])
      else closePc s c
  end.

(** The last element that satisfies [f], and the list without it. *)
Fixpoint take_last {A} (f : A -> bool) (l : list A) : option (A * list A) :=
  match l with
  | [] => None
  | x :: l' =>
      match take_last f l' with
      | Some (y, r) => Some (y, x :: r)
      | None => if f x then Some (x, l') else None
      end
  end.

(** [getConn]. *)
Definition getConn (s : px) (i : nat) (f : flight) : px :=
  match take_last (has_key (o_URLHost (f_out f))) (px_idle s) with
  | Some (c, rest) => setFlight (setIdle s rest) i (move f (Carried c true))
  | None => setDials (setFlight s i (move f (Waiting (length (px_dials s))))) (px_dials s ++ [mkDial i false])
  end.

(** A dial in progress, with its number, and its request. *)
Definition open_dial (s : px) (k : nat) : option (dial * flight) :=
  match px_dials s !! k with
  | Some d => if dl_over d then None else match px_flights s !! dl_flight d with Some f => Some (d, f) | None => None end
  | None => None
  end.

Definition pstep (s : px) (e : event) : option px :=
  match e with
  | EvAdd cfg => Some (setRouter s (fst (Add (h_router (px_h s)) cfg)))
  | EvRemove name => Some (setRouter s (Remove (h_router (px_h s)) name))
  | EvRequest r out order =>
      match ServeHTTP (px_h s) ∅ r with
      | inl _ => Some s
      | inr r' =>
          match rewriteRequest order (rq_ctx r') out with
          | None => None
          | Some out' => Some (setFlights s (px_flights s ++ [mkFlight r' out' Asking]))
          end
      end
  | EvGetConn i =>
      match px_flights s !! i with
      | Some f => match f_state f with Asking => Some (getConn s i f) | _ => None end
      | None => None
      end
  | EvDialed k id =>
      match open_dial s k with
      | Some (d, f) =>
          match routeFromCtx (rq_ctx (f_req f)) with
          | None => None
          | Some cfg =>
              let c := mkPC id (o_URLHost (f_out f)) cfg in
              let s := endDial s k d in
              Some (if waits k f then setFlight s (dl_flight d) (move f (Carried c false)) else putIdle s c)
          end
      | None => None
      end
  | EvDialErr k =>
      match open_dial s k with
      | Some (d, f) =>
          let s := endDial s k d in
          Some (if waits k f then setFlight s (dl_flight d) (move f Answered) else s)
      | None => None
      end
  | EvCancel i =>
      match px_flights s !! i with
      | Some f => match f_state f with Waiting _ => Some (setFlight s i (move f Answered)) | _ => None end
      | None => None
      end
  | EvRetry i =>
      match px_flights s !! i with
      | Some f => match f_state f with Carried c true => Some (closePc (setFlight s i (move f Asking)) c) | _ => None end
      | None => None
      end
  | EvFinish i keep =>
      match px_flights s !! i with
      | Some f =>
          match f_state f with
          | Carried c _ =>
              let s := setFlight s i (move f Answered) in
              Some (if keep then putIdle s c else closePc s c)
          | _ => None
          end
      | None => None
      end
  | EvEvict j =>
      match px_idle s !! j with
      | Some c => Some (closePc (setIdle s (delete j (px_idle s))) c)
      | None => None
      end
  end.

Fixpoint prun (s : px) (es : list event) : option px :=
  match es with
  | [] => Some s
  | e :: es' => match pstep s e with Some s' => prun s' es' | None => None end
  end.

(** The work connections that have been dialed. *)
Definition dialed_ids (es : list event) : list nat :=
  es ≫= fun e => match e with EvDialed _ id => [id] | _ => [] end.

(** The work connections that carry a request, are kept, or are closed. *)
Definition conn_ids (f : flight) : list nat := match f_conn f with Some c => [pc_id c] | None => [] end.
Definition carried_ids (s : px) : list nat := px_flights s ≫= conn_ids.
Definition all_ids (s : px) : list nat := carried_ids s ++ (pc_id <$> px_idle s) ++ px_closed s.
