(* ===== verification/TransportSpec.v ===== *)
(** * What the data path promises about connections

    A request travels on a connection dialed under its own key; the key
    identifies the route only when proxy names have no dots, and never
    identifies the session. A dialed connection is carrying, kept or closed,
    once ([pstep_ids]), which [SystemSpec] uses. *)

From S2P Require Import Prelude GoStrings Json Wire Router RouterSpec Http Proxy Transport.

(** ** Dial keys *)

(** Two splittings of a list at the first, or at the last, occurrence of an
    element are the same. *)
Lemma split_first {A} (x : A) l1 l2 r1 r2 :
  x ∉ l1 -> x ∉ l2 -> l1 ++ x :: r1 = l2 ++ x :: r2 -> l1 = l2 /\ r1 = r2.
Proof.
  revert l2; induction l1 as [|a l1 IH]; intros [|b l2] H1 H2 E; simplify_eq/=; [done|set_solver..|].
  destruct (IH l2) as [-> ->]; set_solver.
Qed.

Lemma split_last {A} (x : A) l1 l2 r1 r2 :
  x ∉ r1 -> x ∉ r2 -> l1 ++ x :: r1 = l2 ++ x :: r2 -> l1 = l2 /\ r1 = r2.
Proof.
  intros H1 H2 E%(f_equal reverse). rewrite !reverse_app, !reverse_cons, <- !app_assoc in E. simpl in E.
  apply split_first in E as [E1 E2]; [|by rewrite elem_of_reverse..].
  by rewrite <- (reverse_involutive l1), E2, <- (reverse_involutive r1), E1, !reverse_involutive.
Qed.

(** The domain has no slash, the location starts with one, the proxy name has
    no dot. *)
Record separable (cfg : RouteConfig) : Prop := {
  sep_domain : "/"%char ∉ bytes_of (rc_Domain cfg);
  sep_location : HasPrefix (rc_Location cfg) "/" = true;
  sep_name : "."%char ∉ bytes_of (rc_ProxyName cfg)
}.

Lemma routeDialKey_bytes c la : rc_Location c = "/" +:+ la ->
  bytes_of (routeDialKey c) =
  (bytes_of (rc_Domain c) ++ ["."%char]) ++ "/"%char ::
    (bytes_of la ++ "."%char :: bytes_of (rc_ProxyName c)) ++ bytes_of ".drps".
Proof.
  intros E. unfold routeDialKey. rewrite E, !bytes_of_app. simpl.
  by rewrite <- !app_assoc.
Qed.

Lemma routeDialKey_inj a b :
  separable a -> separable b -> routeDialKey a = routeDialKey b ->
  rc_Domain a = rc_Domain b /\ rc_Location a = rc_Location b /\ rc_ProxyName a = rc_ProxyName b.
Proof.
  intros [Da [la La]%HasPrefix_spec Na] [Db [lb Lb]%HasPrefix_spec Nb] E%(f_equal bytes_of).
  rewrite (routeDialKey_bytes a la), (routeDialKey_bytes b lb) in E by done.
  apply split_first in E as [ED E]; [|set_solver..].
  apply app_inj_tail in ED as [ED%bytes_of_inj _].
  apply app_inv_tail in E. apply split_last in E as [EL%bytes_of_inj EN%bytes_of_inj]; [|done..].
  by rewrite La, Lb, EL.
Qed.

(** ** Executions *)

Lemma prun_snoc s es e : prun s (es ++ [e]) = prun s es ≫= fun s' => pstep s' e.
Proof.
  revert s; induction es as [|e' es IH]; intros s; simpl.
  - by destruct (pstep s e).
  - destruct (pstep s e'); [apply IH | done].
Qed.

(** Rule induction: a property of the events so far and the state. *)
Lemma prun_invariant (P : list event -> px -> Prop) s0 :
  P [] s0 ->
  (forall es s e s', prun s0 es = Some s -> P es s -> pstep s e = Some s' -> P (es ++ [e]) s') ->
  forall es s, prun s0 es = Some s -> P es s.
Proof.
  intros H0 Hs es. induction es as [|e es IH] using rev_ind; intros s; [intros; by simplify_eq/=|].
  rewrite prun_snoc. intros (s1 & E1 & E2)%bind_Some. eauto.
Qed.

Lemma take_last_Some {A} (f : A -> bool) l x r :
  take_last f l = Some (x, r) -> l ≡ₚ x :: r /\ f x = true.
Proof.
  revert r; induction l as [|y l IH]; intros r E; simplify_eq/=.
  destruct (take_last f l) as [ [z r']|]; simplify_eq.
  - destruct (IH _ eq_refl) as [-> ?]. by rewrite Permutation_swap.
  - by destruct (f y) eqn:?; simplify_eq.
Qed.

Lemma first_waiter_Some fs key k ds i f :
  first_waiter fs key k ds = Some (i, f) ->
  fs !! i = Some f /\ o_URLHost (f_out f) = key /\ f_conn f = None.
Proof.
  revert k; induction ds as [|d ds IH]; intros k E; simpl in E; [done|].
  destruct (fs !! dl_flight d) as [f0|] eqn:Ef; [|by eapply IH].
  destruct (waits k f0 && _) eqn:Ew; [|by eapply IH]. simplify_eq.
  apply andb_true_iff in Ew as [Hw Hk%String.eqb_eq]. split_and!; [done..|].
  unfold waits, f_conn in *. by destruct (f_state f).
Qed.

Lemma open_dial_Some s k d f :
  open_dial s k = Some (d, f) ->
  px_dials s !! k = Some d /\ dl_over d = false /\ px_flights s !! dl_flight d = Some f.
Proof. unfold open_dial. intros. repeat case_match; by simplify_eq. Qed.

Lemma ServeHTTP_ctx h w r r' : ServeHTTP h w r = inr r' ->
  exists cfg, Lookup (h_router h) (rq_Host r) (rq_Path r) = Some cfg /\ r' = withRoute r cfg.
Proof.
  unfold ServeHTTP. destruct (Lookup _ _ _) as [cfg|]; [|done]. exists cfg. split; [done|].
  destruct (negb _); [|congruence]. destruct (BasicAuth _) as [ [u p]|]; [|done].
  destruct (_ || _); congruence.
Qed.

(** *** What one event keeps

    [P] holds of the requests in the reverse proxy, [Q] of the connections. *)

Definition flight_ok (P : Request -> Prop) (Q : pconn -> Prop) (f : flight) : Prop :=
  P (f_req f) /\
  (exists cfg, rq_ctx (f_req f) = Some cfg /\ o_URLHost (f_out f) = routeDialKey cfg) /\
  forall c, f_conn f = Some c -> Q c /\ pc_key c = o_URLHost (f_out f).

Definition data_ok (P : Request -> Prop) (Q : pconn -> Prop) (s : px) : Prop :=
  Forall (flight_ok P Q) (px_flights s) /\ Forall Q (px_idle s).

Lemma data_ok_mono (P P' : Request -> Prop) (Q Q' : pconn -> Prop) s :
  (forall q, P q -> P' q) -> (forall c, Q c -> Q' c) -> data_ok P Q s -> data_ok P' Q' s.
Proof.
  intros HP HQ [Hf Hi]. split; [|by eapply Forall_impl; [exact Hi|]].
  eapply Forall_impl; [exact Hf|]. intros f (H1 & H2 & H3). split_and!; [auto | done |].
  intros c Hc. destruct (H3 c Hc). auto.
Qed.

Section data_path.
Context (P : Request -> Prop) (Q : pconn -> Prop).

Lemma flight_ok_carry f c b :
  flight_ok P Q f -> Q c -> pc_key c = o_URLHost (f_out f) -> flight_ok P Q (move f (Carried c b)).
Proof. intros (H1 & H2 & _) Hc Hk. split_and!; try done. intros c'. simpl. by intros [= <-]. Qed.

Lemma flight_ok_move f st :
  flight_ok P Q f -> f_conn (move f st) = None -> flight_ok P Q (move f st).
Proof. intros (H1 & H2 & _) Hn. split_and!; try done. intros c. by rewrite Hn. Qed.

Lemma setFlight_ok s i f : data_ok P Q s -> flight_ok P Q f -> data_ok P Q (setFlight s i f).
Proof. intros [Hf Hi] Hok. split; [|done]. by apply Forall_insert. Qed.

Lemma putIdle_ok s c : data_ok P Q s -> Q c -> data_ok P Q (putIdle s c).
Proof.
  intros Hok Hc. unfold putIdle. destruct (first_waiter _ _ _ _) as [ [i f]|] eqn:Ew.
  - apply first_waiter_Some in Ew as (Hf & Hk & _). apply setFlight_ok; [done|].
    apply flight_ok_carry; [by eapply Forall_lookup_1; [apply Hok|] | done..].
  - destruct Hok as [Hf Hi]. case_match; (split; [done|]); [|done]. by apply Forall_app_2; [|constructor].
Qed.

(** What the event has to bring: the requests it lets through satisfy [P], the
    connection it dials satisfies [Q]. *)
Definition event_ok (s : px) (e : event) : Prop :=
  match e with
  | EvRequest r _ _ => forall q, ServeHTTP (px_h s) ∅ r = inr q -> P q
  | EvDialed k id => forall d f cfg, open_dial s k = Some (d, f) -> rq_ctx (f_req f) = Some cfg ->
      P (f_req f) -> o_URLHost (f_out f) = routeDialKey cfg -> Q (mkPC id (o_URLHost (f_out f)) cfg)
  | _ => True
  end.

Lemma getConn_ok s i f : data_ok P Q s -> px_flights s !! i = Some f -> data_ok P Q (getConn s i f).
Proof.
  intros [Hf Hi] Ef. pose proof (Forall_lookup_1 _ _ _ _ Hf Ef) as Hok. unfold getConn.
  destruct (take_last _ _) as [ [c rest]|] eqn:Et.
  - apply take_last_Some in Et as [Hp Hk%String.eqb_eq]. rewrite Hp in Hi. apply Forall_cons in Hi as [Hc Hr].
    apply setFlight_ok; [by split|]. by apply flight_ok_carry.
  - apply (setFlight_ok s i (move f (Waiting _))); [done|]. by apply flight_ok_move.
Qed.

Lemma pstep_data_ok s e s' : data_ok P Q s -> event_ok s e -> pstep s e = Some s' -> data_ok P Q s'.
Proof.
  intros Hok He Hs. pose proof Hok as [Hf Hi].
  assert (forall i f, px_flights s !! i = Some f -> flight_ok P Q f) as Hl by (intros; by eapply Forall_lookup_1).
  destruct e as [cfg|name|r out order|i|k id|k|i|i|i keep|j]; simpl in Hs, He; try (by simplify_eq).
  - destruct (ServeHTTP _ _ r) as [rs|r'] eqn:Es; [by simplify_eq|].
    destruct (rewriteRequest _ _ out) as [out'|] eqn:Er; simplify_eq. split; [|done]. simpl.
    apply Forall_app_2; [done|]. constructor; [|done].
    destruct (ServeHTTP_ctx _ _ _ _ Es) as (cfg & _ & Hr). split_and!; [by apply He|exists cfg|done].
    rewrite Hr in *. unfold rewriteRequest in Er. simpl in Er. by simplify_eq.
  - destruct (px_flights s !! i) as [f|] eqn:Ef; [|done]. destruct (f_state f); simplify_eq. by apply getConn_ok.
  - destruct (open_dial s k) as [ [d f]|] eqn:Eo; [|done]. destruct (open_dial_Some _ _ _ _ Eo) as (_ & _ & Ef).
    destruct (Hl _ _ Ef) as (H1 & (cfg & Hcfg & Hk) & _). rewrite Hcfg in Hs. simpl in Hs. simplify_eq.
    specialize (He d f cfg eq_refl Hcfg H1 Hk). case_match; [|by apply putIdle_ok].
    apply setFlight_ok; [done|]. apply flight_ok_carry; [by eapply Hl | done..].
  - destruct (open_dial s k) as [ [d f]|] eqn:Eo; [|done]. destruct (open_dial_Some _ _ _ _ Eo) as (_ & _ & Ef).
    simplify_eq. case_match; [|done]. apply setFlight_ok; [done|]. apply flight_ok_move; [by eapply Hl | done].
  - destruct (px_flights s !! i) as [f|] eqn:Ef; [|done]. destruct (f_state f); simplify_eq.
    apply setFlight_ok; [done|]. apply flight_ok_move; [by eapply Hl | done].
  - destruct (px_flights s !! i) as [f|] eqn:Ef; [|done]. destruct (f_state f) as [| |c [|]|]; simplify_eq.
    apply (setFlight_ok s i (move f Asking)); [done|]. apply flight_ok_move; [by eapply Hl | done].
  - destruct (px_flights s !! i) as [f|] eqn:Ef; [|done]. destruct (f_state f) as [| |c b|] eqn:Es; simplify_eq.
    assert (data_ok P Q (setFlight s i (move f Answered))) as Hok2.
    { apply setFlight_ok; [done|]. apply flight_ok_move; [by eapply Hl | done]. }
    destruct keep; [|exact Hok2]. apply putIdle_ok; [done|]. apply (Hl _ _ Ef). unfold f_conn. by rewrite Es.
  - destruct (px_idle s !! j) as [c|] eqn:Ej; simplify_eq. split; [done|]. by apply Forall_delete.
Qed.
End data_path.

(** *** Executions from the start *)

(** [ServeHTTP] let the request through when it arrived. *)
Definition let_through (h : Handler) (es : list event) (q : Request) : Prop :=
  exists es1 r out order es2 s1, es = es1 ++ EvRequest r out order :: es2 /\
    prun (initPx h) es1 = Some s1 /\ ServeHTTP (px_h s1) ∅ r = inr q.

Lemma let_through_snoc h es e q : let_through h es q -> let_through h (es ++ [e]) q.
Proof.
  intros (es1 & r & out & order & es2 & s1 & -> & H1 & H2).
  exists es1, r, out, order, (es2 ++ [e]), s1. by rewrite <- app_assoc.
Qed.

Definition conn_ok (c : pconn) : Prop := pc_key c = routeDialKey (pc_route c).

Lemma data_ok_run h es s : prun (initPx h) es = Some s -> data_ok (let_through h es) conn_ok s.
Proof.
  revert es s. apply (prun_invariant (fun es => data_ok (let_through h es) conn_ok)); [by split; constructor|].
  intros es s e s' Hrun Hok Hs. apply (pstep_data_ok _ _ s e); [|destruct e; simpl; try done|done].
  - eapply data_ok_mono; [|done|exact Hok]. intros. by apply let_through_snoc.
  - intros q Hq. by exists es, r, out, order, [], s.
Qed.

(** ** Conservation *)

Lemma closePc_ids s c : all_ids (closePc s c) ≡ₚ pc_id c :: all_ids s.
Proof. unfold all_ids, carried_ids. simpl. solve_Permutation. Qed.

Lemma setFlight_ids s i f f' : px_flights s !! i = Some f ->
  conn_ids f ++ all_ids (setFlight s i f') ≡ₚ conn_ids f' ++ all_ids s.
Proof.
  intros E. unfold all_ids, carried_ids. cbn [px_flights px_idle px_closed setFlight setFlights].
  rewrite (app_assoc (conn_ids f)), (app_assoc (conn_ids f')), (bind_insert_perm _ _ _ _ f' E). done.
Qed.

(** A request that has no connection gets one, or gets none. *)
Lemma setFlight_ids_from s i f f' : px_flights s !! i = Some f -> f_conn f = None ->
  all_ids (setFlight s i f') ≡ₚ conn_ids f' ++ all_ids s.
Proof. intros E Hn. pose proof (setFlight_ids s i f f' E) as H. unfold conn_ids at 1 in H. by rewrite Hn in H. Qed.

Lemma putIdle_ids s c : all_ids (putIdle s c) ≡ₚ pc_id c :: all_ids s.
Proof.
  unfold putIdle. destruct (first_waiter _ _ _ _) as [ [i f]|] eqn:Ew.
  { apply first_waiter_Some in Ew as (Hf & _ & Hn). by rewrite (setFlight_ids_from _ _ _ _ Hf Hn). }
  case_match; [|apply closePc_ids]. unfold all_ids, carried_ids. simpl. rewrite fmap_app. simpl. solve_Permutation.
Qed.

Lemma waits_conn k f : waits k f = true -> f_conn f = None.
Proof. unfold waits, f_conn. by destruct (f_state f). Qed.

Lemma getConn_ids s i f : px_flights s !! i = Some f -> f_conn f = None -> all_ids (getConn s i f) ≡ₚ all_ids s.
Proof.
  intros Ef Hn. unfold getConn. destruct (take_last _ _) as [ [c rest]|] eqn:Et.
  - apply take_last_Some in Et as [Hp _]. rewrite (setFlight_ids_from (setIdle s rest) _ _ _ Ef Hn).
    unfold all_ids, carried_ids. simpl. rewrite Hp. simpl. solve_Permutation.
  - exact (setFlight_ids_from s i f (move f (Waiting (length (px_dials s)))) Ef Hn).
Qed.

Lemma pstep_ids s e s' : pstep s e = Some s' -> all_ids s' ≡ₚ dialed_ids [e] ++ all_ids s.
Proof.
  intros Hs. destruct e as [cfg|name|r out order|i|k id|k|i|i|i keep|j]; simpl in Hs; simpl; try (by simplify_eq).
  - destruct (ServeHTTP _ _ r); [by simplify_eq|]. destruct (rewriteRequest _ _ _); simplify_eq.
    unfold all_ids, carried_ids. simpl. rewrite bind_app. simpl. by rewrite app_nil_r.
  - destruct (px_flights s !! i) as [f|] eqn:Ef; [|done]. destruct (f_state f) eqn:Es; simplify_eq.
    apply getConn_ids; [done|]. unfold f_conn. by rewrite Es.
  - destruct (open_dial s k) as [ [d f]|] eqn:Eo; [|done]. apply open_dial_Some in Eo as (_ & _ & Ef).
    destruct (routeFromCtx _) as [cfg|]; simplify_eq. destruct (waits k f) eqn:Ew; [|by rewrite putIdle_ids].
    by rewrite (setFlight_ids_from (endDial s k d) _ f _ Ef (waits_conn _ _ Ew)).
  - destruct (open_dial s k) as [ [d f]|] eqn:Eo; [|done]. apply open_dial_Some in Eo as (_ & _ & Ef). simplify_eq.
    destruct (waits k f) eqn:Ew; [|done]. by rewrite (setFlight_ids_from (endDial s k d) _ f _ Ef (waits_conn _ _ Ew)).
  - destruct (px_flights s !! i) as [f|] eqn:Ef; [|done]. destruct (f_state f) eqn:Es; simplify_eq.
    rewrite (setFlight_ids_from s i f _ Ef); [done|]. unfold f_conn. by rewrite Es.
  - destruct (px_flights s !! i) as [f|] eqn:Ef; [|done]. destruct (f_state f) as [| |c [|]|] eqn:Es; simplify_eq.
    rewrite closePc_ids. pose proof (setFlight_ids s i f (move f Asking) Ef) as H. unfold conn_ids at 1, f_conn in H.
    rewrite Es in H. exact H.
  - destruct (px_flights s !! i) as [f|] eqn:Ef; [|done]. destruct (f_state f) as [| |c b|] eqn:Es; simplify_eq.
    pose proof (setFlight_ids s i f (move f Answered) Ef) as H. unfold conn_ids at 1, f_conn in H. rewrite Es in H.
    simpl in H. destruct keep; by rewrite ?putIdle_ids, ?closePc_ids.
  - destruct (px_idle s !! j) as [c|] eqn:Ej; simplify_eq. rewrite closePc_ids.
    pose proof (delete_Permutation _ _ _ Ej) as Hp. revert Hp. generalize (delete j (px_idle s)). intros l Hp.
    unfold all_ids, carried_ids. simpl. rewrite Hp. simpl. solve_Permutation.
Qed.

(** ** What an event leaves as it is *)

Definition changes_routes (e : event) : bool := match e with EvAdd _ | EvRemove _ => true | _ => false end.

Lemma putIdle_h s c : px_h (putIdle s c) = px_h s.
Proof. unfold putIdle. by repeat case_match. Qed.

Lemma pstep_h s e s' : pstep s e = Some s' -> changes_routes e = false -> px_h s' = px_h s.
Proof.
  intros Hs He. destruct e; simpl in Hs, He; repeat case_match; simplify_eq; try done; try by rewrite putIdle_h.
  unfold getConn. by destruct (take_last _ _) as [ [? ?]|].
Qed.

(** Requests and dials stay, each with what it was made for. *)
Record px_le (s s' : px) : Prop := {
  le_flights : forall i f, px_flights s !! i = Some f -> exists f', px_flights s' !! i = Some f' /\ f_req f' = f_req f;
  le_dials : forall k d, px_dials s !! k = Some d -> exists d', px_dials s' !! k = Some d' /\ dl_flight d' = dl_flight d
}.

(** An event that moves no request and no dial. *)
Local Ltac same_px := split; intros ? x ?; exists x.

#[export] Instance px_le_preorder : PreOrder px_le.
Proof.
  split; [by intros s; same_px|]. intros s1 s2 s3 [F1 D1] [F2 D2]. split.
  - intros i f (f1 & Hf1 & E1)%F1. apply F2 in Hf1 as (f2 & ? & E2). exists f2. split; [done | congruence].
  - intros k d (d1 & Hd1 & E1)%D1. apply D2 in Hd1 as (d2 & ? & E2). exists d2. split; [done | congruence].
Qed.

Lemma setFlight_le s i f st : px_flights s !! i = Some f -> px_le s (setFlight s i (move f st)).
Proof.
  intros Hi. split; [|by intros ? x ?; exists x]. intros j g Hj. simpl. destruct (decide (i = j)) as [<-|Hne].
  - rewrite list_lookup_insert_eq by (by eapply lookup_lt_Some). simplify_eq. by eexists.
  - rewrite list_lookup_insert_ne by done. eauto.
Qed.

Lemma endDial_le s k d : px_dials s !! k = Some d -> px_le s (endDial s k d).
Proof.
  intros Hk. split; [by intros ? x ?; exists x|]. intros j g Hj. simpl. destruct (decide (k = j)) as [<-|Hne].
  - rewrite list_lookup_insert_eq by (by eapply lookup_lt_Some). simplify_eq. by eexists.
  - rewrite list_lookup_insert_ne by done. eauto.
Qed.

Lemma putIdle_le s c : px_le s (putIdle s c).
Proof.
  unfold putIdle. destruct (first_waiter _ _ _ _) as [ [i f]|] eqn:Ew.
  - apply first_waiter_Some in Ew as (Hf & _). by apply setFlight_le.
  - by case_match; same_px.
Qed.

Lemma getConn_le s i f : px_flights s !! i = Some f -> px_le s (getConn s i f).
Proof.
  intros Hf. unfold getConn. destruct (take_last _ _) as [ [c rest]|].
  - transitivity (setIdle s rest); [by same_px | by apply (setFlight_le (setIdle s rest))].
  - transitivity (setFlight s i (move f (Waiting (length (px_dials s))))); [by apply setFlight_le|].
    split; [by intros ? x ?; exists x|]. intros k d Hk. exists d. split; [|done]. simpl. by apply lookup_app_l_Some.
Qed.

Lemma pstep_le s e s' : pstep s e = Some s' -> px_le s s'.
Proof.
  intros Hs. destruct e as [cfg|name|r out order|i|k id|k|i|i|i keep|j]; simpl in Hs; try (simplify_eq; by same_px).
  - destruct (ServeHTTP _ _ r); [by simplify_eq|]. destruct (rewriteRequest _ _ _); simplify_eq.
    split; [|by intros ? x ?; exists x]. intros i f Hf. exists f. split; [|done]. simpl. by apply lookup_app_l_Some.
  - destruct (px_flights s !! i) as [f|] eqn:Ef; [|done]. destruct (f_state f); simplify_eq. by apply getConn_le.
  - destruct (open_dial s k) as [ [d f]|] eqn:Eo; [|done]. apply open_dial_Some in Eo as (Ed & _ & Ef).
    destruct (routeFromCtx _); simplify_eq. etrans; [by apply endDial_le|]. case_match; [by apply setFlight_le | apply putIdle_le].
  - destruct (open_dial s k) as [ [d f]|] eqn:Eo; [|done]. apply open_dial_Some in Eo as (Ed & _ & Ef). simplify_eq.
    etrans; [by apply endDial_le|]. case_match; [by apply setFlight_le | done].
  - destruct (px_flights s !! i) as [f|] eqn:Ef; [|done]. destruct (f_state f); simplify_eq. by apply setFlight_le.
  - destruct (px_flights s !! i) as [f|] eqn:Ef; [|done]. destruct (f_state f) as [| |c [|]|]; simplify_eq.
    etrans; [by apply (setFlight_le s i f Asking)|]. by same_px.
  - destruct (px_flights s !! i) as [f|] eqn:Ef; [|done]. destruct (f_state f); simplify_eq.
    etrans; [by apply (setFlight_le s i f Answered)|]. destruct keep; [apply putIdle_le | by same_px].
  - destruct (px_idle s !! j); simplify_eq. by same_px.
Qed.

(** ** The properties *)

(** C15: A request is carried only by a connection dialed under its own key.
    In every execution, a request on a connection was let through by
    [ServeHTTP] under the routing table of the moment it arrived, for the
    route in its context; the connection was dialed for a route with the same
    dial key, and when neither proxy name has a dot (and locations start with
    a slash, domains have none) that route has the same domain, the same
    location and the same proxy name. *)
Theorem request_carried_by_route (h : Handler) es s i f c
    (Hrun : prun (initPx h) es = Some s) (Hf : px_flights s !! i = Some f) (Hc : f_conn f = Some c) :
  exists cfg, rq_ctx (f_req f) = Some cfg /\
    (exists es1 r out order es2 s1, es = es1 ++ EvRequest r out order :: es2 /\
       prun (initPx h) es1 = Some s1 /\ ServeHTTP (px_h s1) ∅ r = inr (f_req f) /\
       Lookup (h_router (px_h s1)) (rq_Host r) (rq_Path r) = Some cfg) /\
    routeDialKey (pc_route c) = routeDialKey cfg /\
    (separable cfg -> separable (pc_route c) ->
       rc_Domain (pc_route c) = rc_Domain cfg /\ rc_Location (pc_route c) = rc_Location cfg /\
       rc_ProxyName (pc_route c) = rc_ProxyName cfg).
Proof.
  destruct (data_ok_run h es s Hrun) as [Hfs _].
  destruct (Forall_lookup_1 _ _ _ _ Hfs Hf) as ((es1 & r & out & order & es2 & s1 & He & H1 & Hs) & (cfg & Hcfg & Hk) & Hcs).
  destruct (Hcs c Hc) as [Hok Hkey]. exists cfg.
  assert (E : routeDialKey (pc_route c) = routeDialKey cfg) by congruence.
  split_and!; try done.
  - exists es1, r, out, order, es2, s1. split_and!; try done.
    destruct (ServeHTTP_ctx _ _ _ _ Hs) as (cfg' & Hl & Hr). rewrite Hr in Hcfg. simpl in Hcfg. by simplify_eq.
  - intros. by apply routeDialKey_inj.
Qed.

(** C20: Dial keys collide. When the location of one route is that of another
    route of the same domain followed by a dot and a text with which the proxy
    name of the other begins (locations ["/v1"] and ["/v1.0"], proxy names
    ["0.web"] and ["web"]), a request for the one is carried by a connection
    dialed for the other, to whatever session and proxy that one belongs. *)
Theorem dial_keys_collide (h : Handler) (ra rb qa qb : Request) (a b : RouteConfig) (x : string) (id : nat)
    (outa outb : OutRequest) (ordera orderb : list (string * string))
    (Ha : ServeHTTP h ∅ ra = inr qa) (Hqa : rq_ctx qa = Some a)
    (Hb : ServeHTTP h ∅ rb = inr qb) (Hqb : rq_ctx qb = Some b)
    (Hd : rc_Domain a = rc_Domain b)
    (Hl : rc_Location b = rc_Location a +:+ "." +:+ x)
    (Hn : rc_ProxyName a = x +:+ "." +:+ rc_ProxyName b) :
  exists s f c,
    prun (initPx h) [EvRequest ra outa ordera; EvGetConn 0; EvDialed 0 id; EvFinish 0 true;
                    EvRequest rb outb orderb; EvGetConn 1]
      = Some s /\
    px_flights s !! 1%nat = Some f /\ f_req f = qb /\ f_conn f = Some c /\ pc_id c = id /\ pc_route c = a.
Proof.
  assert (Hk : routeDialKey b = routeDialKey a).
  { apply bytes_of_inj. unfold routeDialKey. rewrite Hd, Hl, Hn, !bytes_of_app.
    by rewrite <- !app_assoc. }
  cbn [prun pstep]. change (px_h (initPx h)) with h. rewrite Ha. unfold rewriteRequest at 1.
  rewrite Hqa. simpl. rewrite Hqa. simpl. rewrite Hb. unfold rewriteRequest. rewrite Hqb. simpl.
  unfold getConn, putIdle. simpl. unfold has_key. simpl. rewrite Hk, String.eqb_refl. simpl.
  eexists _, _, _. by split_and!.
Qed.

(** ** Witnesses *)

Definition demo_route (loc name run user pwd : string) : RouteConfig :=
  mkRouteConfig "app.example.com" loc name run false false user pwd "" ∅ ∅.

(** Two sessions with a proxy each, at [/v1] and at [/v1.0]. *)
Definition demo_table : Router :=
  fst (Add (fst (Add New (demo_route "/v1" "0.web" "run-A" "" ""))) (demo_route "/v1.0" "web" "run-B" "bob" "pw")).

Definition demo_handler : Handler := NewHandler demo_table [].

Definition demo_get (path auth : string) : Request :=
  mkRequest "app.example.com" path (if String.eqb auth "" then ∅ else {["Authorization" := [auth]]}) None.

Definition demo_out : OutRequest := mkOut "" "" "app.example.com" ∅.

Lemma dial_keys_collide_witness :
  exists s f c,
    prun (initPx demo_handler)
      [EvRequest (demo_get "/v1/x" "") demo_out []; EvGetConn 0; EvDialed 0 7; EvFinish 0 true;
       EvRequest (demo_get "/v1.0/y" (basicAuthHeader "bob" "pw")) demo_out []; EvGetConn 1] = Some s /\
    px_flights s !! 1%nat = Some f /\ rc_RunID <$> rq_ctx (f_req f) = Some "run-B" /\
    f_conn f = Some c /\ rc_RunID (pc_route c) = "run-A".
Proof.
  set (ra := demo_get "/v1/x" ""). set (rb := demo_get "/v1.0/y" (basicAuthHeader "bob" "pw")).
  set (a := demo_route "/v1" "0.web" "run-A" "" ""). set (b := demo_route "/v1.0" "web" "run-B" "bob" "pw").
  destruct (dial_keys_collide demo_handler ra rb (withRoute ra a) (withRoute rb b) a b "0" 7
              demo_out demo_out [] []) as (s & f & c & H1 & H2 & H3 & H4 & _ & H6);
    [vm_compute; reflexivity..|].
  exists s, f, c. rewrite H3, H6. repeat split; assumption.
Defined.

Definition demo_events : list event :=
  [EvRequest (demo_get "/v1/x" "") demo_out []; EvRequest (demo_get "/v1/z" "") demo_out [];
   EvGetConn 0; EvGetConn 1; EvDialed 0 7; EvDialed 1 8; EvRemove "0.web"; EvFinish 0 true;
   EvRequest (demo_get "/v1.0/y" (basicAuthHeader "bob" "pw")) demo_out []; EvGetConn 2; EvRetry 2; EvGetConn 2;
   EvFinish 1 true].

Lemma request_carried_by_route_witness :
  exists s f c cfg, prun (initPx demo_handler) demo_events = Some s /\ px_flights s !! 2%nat = Some f /\
    f_conn f = Some c /\ pc_id c = 8%nat /\ rq_ctx (f_req f) = Some cfg /\ rc_ProxyName cfg = "web" /\
    routeDialKey (pc_route c) = routeDialKey cfg.
Proof.
  destruct (prun (initPx demo_handler) demo_events) as [s|] eqn:E; [|vm_compute in E; discriminate].
  destruct (px_flights s !! 2%nat) as [f|] eqn:Ef.
  2:{ vm_compute in E. injection E as <-. vm_compute in Ef. discriminate. }
  destruct (f_conn f) as [c|] eqn:Ec.
  2:{ vm_compute in E. injection E as <-. vm_compute in Ef. injection Ef as <-. vm_compute in Ec. discriminate. }
  destruct (request_carried_by_route demo_handler demo_events s 2 f c E Ef Ec) as (cfg & Hcfg & _ & Hk & _).
  exists s, f, c, cfg. split; [done|]. split; [done|]. split; [done|].
  vm_compute in E. injection E as <-. vm_compute in Ef. injection Ef as <-. vm_compute in Ec. injection Ec as <-.
  vm_compute in Hcfg. injection Hcfg as <-. repeat split; reflexivity.
Defined.
