(* ===== verification/ProxySpec.v ===== *)
(** * What the HTTP handler promises

    The gate in front of the reverse proxy, what the hooks send, and what
    dialing leaves behind. *)

From S2P Require Import Prelude GoStrings Json Msg MsgProofs Wire WireSpec Router RouterSpec.
From S2P Require Import Bufio Streams Aes Crypto Wrap WrapSpec Http Proxy Transport TransportSpec.

(** ** The gate *)

Lemma BasicAuth_user h user pass : BasicAuth h = Some (user, pass) -> Cut user ":" = None.
Proof. unfold BasicAuth. case_match; [done|]. apply parseBasicAuth_user. Qed.

Lemma BasicAuth_header h u p :
  header_Get h "Authorization" = basicAuthHeader u p -> BasicAuth h = Cut (u +:+ ":" +:+ p) ":".
Proof. unfold BasicAuth. intros ->. rewrite parseBasicAuth_header. done. Qed.

Lemma unauthorized_spec w :
  rs_Status (unauthorized w) = 401 /\ rs_Header (unauthorized w) !! "Www-Authenticate" = Some [realm].
Proof.
  split; [done|]. unfold unauthorized, http_Error, header_Set, header_Del. cbn [rs_Header].
  rewrite !lookup_insert_ne, lookup_delete_ne by (vm_compute; discriminate).
  change (CanonicalMIMEHeaderKey "WWW-Authenticate") with "Www-Authenticate". apply lookup_insert_eq.
Qed.

Lemma ServeHTTP_auth h w r cfg :
  Lookup (h_router h) (rq_Host r) (rq_Path r) = Some cfg -> rc_HTTPUser cfg <> "" ->
  ServeHTTP h w r =
    if decide (BasicAuth (rq_Header r) = Some (rc_HTTPUser cfg, rc_HTTPPwd cfg))
    then inr (withRoute r cfg) else inl (unauthorized w).
Proof.
  intros Hl Hu. unfold ServeHTTP. rewrite Hl. destruct (String.eqb_spec (rc_HTTPUser cfg) ""); [done|]. simpl.
  destruct (BasicAuth _) as [ [u p]|]; [|by rewrite decide_False].
  destruct (String.eqb_spec u (rc_HTTPUser cfg)), (String.eqb_spec p (rc_HTTPPwd cfg)); simpl; subst;
    by first [rewrite decide_True by done | rewrite decide_False by congruence].
Qed.

(** ** Hosts with a port *)

Lemma colon_after_dot d port a p :
  "."%char ∉ bytes_of port -> d +:+ ":" +:+ port = a +:+ String "."%char p -> ":"%char ∈ bytes_of p.
Proof.
  intros Hp E%(f_equal bytes_of). rewrite !bytes_of_app in E. cbn [bytes_of String.list_ascii_of_string] in E.
  apply app_eq_inv in E as [ (k & _ & E) | (k & _ & E) ]; destruct k as [|c k]; try discriminate E;
    injection E as _ E; fold (bytes_of p) (bytes_of port) in E.
  - rewrite E. set_solver.
  - rewrite E in Hp. set_solver.
Qed.

Lemma Lookup_port r d port path :
  wf r -> (forall rc, registered r rc -> ":"%char ∉ bytes_of (rc_Domain rc)) ->
  "."%char ∉ bytes_of port -> Lookup r (d +:+ ":" +:+ port) path = None.
Proof.
  intros Hwf Hr Hp. rewrite Lookup_slots by done.
  assert (Hslot : forall dom, ":"%char ∈ bytes_of dom -> matchRoutes (slot r dom) path = None).
  { intros dom Hin. apply slot_match_None; [done|]. intros rc (Hreg & Hdom & _). subst dom. by eapply Hr. }
  rewrite Hslot by (rewrite !bytes_of_app; simpl; set_solver).
  destruct (Cut _ _) as [ [a p]|] eqn:Ec; [|done]. apply Cut_spec in Ec. apply Hslot.
  rewrite bytes_of_app. apply elem_of_app. right. by eapply colon_after_dot.
Qed.

(** ** Headers *)

Definition canonical_keys (order : list (string * string)) : list string :=
  (fun kv => CanonicalMIMEHeaderKey (fst kv)) <$> order.

Lemma setAll_other order h n : n ∉ canonical_keys order -> setAll order h !! n = h !! n.
Proof.
  revert h; induction order as [|[k v] order IH]; intros h Hn; [done|]. cbn [setAll foldl fst snd].
  unfold canonical_keys in *. rewrite fmap_cons, not_elem_of_cons in Hn. destruct Hn as [Hk Hn].
  fold (setAll order (header_Set h k v)). rewrite IH by done. unfold header_Set. by rewrite lookup_insert_ne.
Qed.

Lemma setAll_set order h k v :
  NoDup (canonical_keys order) -> (k, v) ∈ order -> setAll order h !! CanonicalMIMEHeaderKey k = Some [v].
Proof.
  revert h; induction order as [|[k' v'] order IH]; intros h Hnd Hin; [by apply elem_of_nil in Hin|].
  unfold canonical_keys in *. rewrite fmap_cons, NoDup_cons in Hnd. destruct Hnd as [Hk Hnd].
  cbn [setAll foldl fst snd]. fold (setAll order (header_Set h k' v')).
  apply elem_of_cons in Hin as [ [= <- <-] |Hin]; [|by apply IH].
  rewrite setAll_other by done. unfold header_Set. by rewrite lookup_insert_eq.
Qed.

(** ** Dialing *)

Section dial.
Context {W R Z Zr P : Type} `{WriterSpec W, ReaderSpec R}.
Context `{!SnappyWriter (ioWriter W) Z, !SnappyWriterSpec (ioWriter W) Z}.
Context `{!SnappyReader (ioReader R) Zr, !Reader Zr, !ReaderSpec Zr, SR : !SnappyReaderSpec (ioReader R) Zr sz_decode}.

Lemma Wrap_keeps pooled (conn : netConn W R) key name enc comp random (c : wrapped W R Z Zr) :
  Wrap pooled conn key name enc comp random = Some (inl c) ->
  deadline c = cn_deadline conn /\ is_closed c = cn_closed conn.
Proof.
  unfold Wrap. destruct (WriteMsg _ _ _ _) as [w1 [e|]]; [done|].
  assert (Hcomp : forall r w, deadline (compLayer (Z := Z) (Zr := Zr) (setW conn w1) r w comp) = cn_deadline conn /\
            is_closed (compLayer (Z := Z) (Zr := Zr) (setW conn w1) r w comp) = cn_closed conn).
  { intros r w. by destruct comp. }
  destruct enc.
  - rewrite andb_false_l. destruct (encLayer _ _ _) as [ [ [r w]|err]|]; intros; simplify_eq. apply Hcomp.
  - destruct comp; simpl; intros; simplify_eq; [apply Hcomp | done].
Qed.

Lemma under_SetDeadline (c : wrapped W R Z Zr) t : under (SetDeadline c t) = under c.
Proof. by destruct c. Qed.

(** C18: What dialing leaves behind. A connection that [dialWorkConn] answers
    comes from the pool of the route's session and has been sent the
    [StartWorkConn] of the route's proxy before anything else; it is open, and
    has the response deadline exactly when one is configured. When it fails
    after taking a connection, that connection is closed; when it fails
    without, there was no pool or the pool had none in time, and the answer to
    the client is a 502. It panics only without a route. *)
Theorem dialWorkConn_spec (h : Handler) (poolLookup : string -> option P)
    (Get : P -> BinInt.Z -> result (netConn W R)) pooled random now ctx
    (d : dialed (wrapped W R Z Zr) (netConn W R))
    (Hd : dialWorkConn h poolLookup Get pooled random now ctx = Some d)
    (Hiv : forall iv, random = Ok iv -> length iv = BlockSize) :
  match d with
  | Dialed c => exists cfg p conn zs,
      ctx = Some cfg /\ poolLookup (rc_RunID cfg) = Some p /\ Get p (h_WorkConnTimeout h) = Ok conn /\
      delivered (under c) = delivered (cn_W conn) ++ frame (startWorkConn (rc_ProxyName cfg)) ++ zs /\
      is_closed c = cn_closed conn /\
      deadline c = (if 0 <? h_ResponseTimeout h then Some (now + h_ResponseTimeout h) else cn_deadline conn)
  | DialFailed e (Some conn) => cn_closed conn = true
  | DialFailed e None => exists cfg, ctx = Some cfg /\
      (forall p, poolLookup (rc_RunID cfg) = Some p -> exists err, Get p (h_WorkConnTimeout h) = Err err) /\
      forall conn_timeout w, rs_Status (proxyErrorHandler w (Some (OpError_Timeout conn_timeout e))) = 502
  | DialPanic => ctx = None
  end.
Proof.
  unfold dialWorkConn in Hd. destruct ctx as [cfg|]; simpl in Hd; [|by simplify_eq].
  destruct (poolLookup _) as [p|] eqn:Ep; [|simplify_eq; exists cfg; split_and!; [done | intros; congruence | done]].
  destruct (Get p _) as [conn|err] eqn:Eg; [|simplify_eq; exists cfg; split_and!; [done | intros; simplify_eq; eauto | done]].
  destruct (Wrap _ _ _ _ _ _ _) as [ [c|[conn' e]]|] eqn:Ew; simplify_eq; [|done].
  destruct (Wrap_sends _ _ _ _ _ _ _ _ Ew Hiv) as (w1 & Hw1 & Hs).
  destruct (Hs [] c eq_refl) as (zs & Hz & _). destruct (Wrap_keeps _ _ _ _ _ _ _ _ Ew) as [Hdl Hcl].
  exists cfg, p, conn, (concat zs). split_and!; try done.
  - replace (under (if 0 <? h_ResponseTimeout h then SetDeadline c (now + h_ResponseTimeout h) else c))
      with (under c) by (case_match; by rewrite ?under_SetDeadline).
    rewrite (writes_delivered _ _ _ Hz), (writes_delivered _ _ _ Hw1), <- app_assoc. simpl. by rewrite app_nil_r.
  - case_match; [|done]. by destruct c.
  - case_match; [|done]. by destruct c.
Qed.

Lemma encLayer_silent (conn : netConn W R) key block iv :
  NewCipher key = Ok block -> writes (cn_W conn) [iv] <> None -> silent_before BlockSize (cn_R conn) ->
  match cn_deadline conn with
  | None => encLayer conn key (Ok iv) = None
  | Some _ => exists conn', encLayer conn key (Ok iv) = Some (inr (conn', "read IV: " +:+ timeoutError))
  end.
Proof.
  intros Hkey Hw Hs%silent_ReadFullFrom. unfold encLayer, NewCryptoWriter. rewrite Hkey. simpl in Hw.
  destruct (write (cn_W conn) iv) as [w2 [e|]]; [done|].
  pose proof (NewCryptoReader_timed (cn_R conn) key (cn_deadline conn)) as Ht.
  assert (NewCryptoReader (cn_R conn) key = None) as Hn by (unfold NewCryptoReader; by rewrite Hkey, Hs).
  rewrite Hn in Ht. destruct (cn_deadline conn); [|by rewrite Ht]. destruct Ht as [x Ht]. rewrite Ht. eauto.
Qed.

Lemma Dialed_deadline (h : Handler) (poolLookup : string -> option P) (Get : P -> BinInt.Z -> result (netConn W R))
    pooled random now ctx (c : wrapped W R Z Zr) :
  dialWorkConn h poolLookup Get pooled random now ctx = Some (Dialed c) -> 0 < h_ResponseTimeout h ->
  deadline c = Some (now + h_ResponseTimeout h).
Proof.
  unfold dialWorkConn. intros Hd Ht%Z.ltb_lt. rewrite Ht in Hd.
  repeat case_match; simplify_eq. by destruct w.
Qed.

(** Under a deadline no read waits for ever. *)
Lemma read_deadline (c : wrapped W R Z Zr) t n : deadline c = Some t -> read c n <> None.
Proof.
  destruct c as [c|wc]; simpl; intros E; unfold read, wrapped_Reader; rewrite E;
    [destruct (read (cn_R c) n) as [ [[? ?] ?]|] | destruct (read (wc_r wc) n) as [ [[? ?] ?]|] ]; done.
Qed.

(** C21: The response deadline comes too late. Let the route use encryption and
    the client send fewer than the 16 bytes of its block and then nothing.
    [Wrap] waits for the block before [dialWorkConn] sets a deadline, and a
    connection from the pool has none: the dial never returns, whatever
    [WorkConnTimeout] and [ResponseTimeout] are. With a deadline on the
    connection the same dial fails and closes it; and on a connection that has
    been dialed under a response timeout every read returns. *)
Theorem dial_waits_for_peer (rt : Router) (key : bytes) (poolLookup : string -> option P) pooled iv block
    (cfg : RouteConfig) p (conn : netConn W R)
    (Hp : poolLookup (rc_RunID cfg) = Some p) (Henc : rc_UseEncryption cfg = true) (Hkey : NewCipher key = Ok block)
    (Hw : writes (cn_W conn) [frame (startWorkConn (rc_ProxyName cfg)); iv] <> None)
    (Hsilent : silent_before BlockSize (cn_R conn)) (Hnone : cn_deadline conn = None) :
  (forall workConnTimeout responseTimeout now,
     let dial (conn : netConn W R) := dialWorkConn (Z := Z) (Zr := Zr) (mkHandler rt key workConnTimeout responseTimeout)
       poolLookup (fun _ _ => Ok conn) pooled (Ok iv) now (Some cfg) in
     dial conn = None /\
     forall t, exists conn', dial (connSetDeadline conn t) = Some (DialFailed (WrapErr "read IV: i/o timeout") (Some conn')) /\
       cn_closed conn' = true) /\
  (forall (h : Handler) (Get : P -> BinInt.Z -> result (netConn W R)) pooled random now ctx (c : wrapped W R Z Zr) n,
     dialWorkConn h poolLookup Get pooled random now ctx = Some (Dialed c) -> 0 < h_ResponseTimeout h -> read c n <> None).
Proof.
  split; [|intros; by eapply read_deadline, Dialed_deadline].
  intros wt ti now. cbv zeta. unfold dialWorkConn. cbn [routeFromCtx]. rewrite Hp, Henc.
  unfold Wrap, WriteMsg. rewrite frameInto_frame. apply writes_connWrite in Hw as (w1 & Hw1 & Hw).
  assert (forall dl, connWrite (cn_W (mkConn (cn_W conn) (cn_R conn) dl (cn_closed conn))) (frame (startWorkConn (rc_ProxyName cfg)))
    = (w1, None)) as Hw1' by done.
  pose proof (encLayer_silent (setW conn w1) key block iv Hkey Hw Hsilent) as Hs. simpl in Hs. rewrite Hnone in Hs.
  split; [by rewrite Hw1, andb_false_l; cbn [h_aesKey]; rewrite Hs|].
  intros t. pose proof (encLayer_silent (setW (connSetDeadline conn t) w1) key block iv Hkey Hw Hsilent) as [conn' Ht].
  exists (closeConn conn'). split; [|done]. unfold connSetDeadline at 1. rewrite Hw1', andb_false_l. cbn [h_aesKey]. by rewrite Ht.
Qed.
End dial.

(** ** The properties of the gate and of the hooks *)

(** C16: Basic authentication. A request for a route with a user name reaches
    the reverse proxy only with an [Authorization] header that decodes to
    exactly the route's user name and password, and then with the route in
    its context; every other request for it is answered 401 with a
    [WWW-Authenticate] challenge. A client that encodes its credentials in
    the standard way gets through exactly with the right ones, and a route
    whose user name contains a colon lets nobody through. *)
Theorem basic_auth_gate (h : Handler) (w : Header) (r : Request) (cfg : RouteConfig)
    (Hl : Lookup (h_router h) (rq_Host r) (rq_Path r) = Some cfg) (Hu : rc_HTTPUser cfg <> "") :
  match ServeHTTP h w r with
  | inr q => q = withRoute r cfg /\ BasicAuth (rq_Header r) = Some (rc_HTTPUser cfg, rc_HTTPPwd cfg)
  | inl resp => rs_Status resp = 401 /\ rs_Header resp !! "Www-Authenticate" = Some [realm]
  end /\
  (forall u p, header_Get (rq_Header r) "Authorization" = basicAuthHeader u p -> Cut u ":" = None ->
     (ServeHTTP h w r = inr (withRoute r cfg) <-> u = rc_HTTPUser cfg /\ p = rc_HTTPPwd cfg)) /\
  (Cut (rc_HTTPUser cfg) ":" <> None -> ServeHTTP h w r = inl (unauthorized w)).
Proof.
  rewrite (ServeHTTP_auth h w r cfg Hl Hu). split_and!.
  - case_decide; [done | apply unauthorized_spec].
  - intros u p Hh Hc. rewrite (BasicAuth_header _ _ _ Hh), (Cut_unique (u +:+ ":" +:+ p) ":" u p Hc eq_refl).
    case_decide as Hd; [by simplify_eq|]. split; [done|]. intros [-> ->]. done.
  - intros Hc. case_decide as Hd; [|done]. by apply BasicAuth_user in Hd.
Qed.

(** C37: A [Host] header with a port matches no route: the handler looks the
    host up as it was sent, port included, and answers 404 unless a domain
    with a colon has been registered. *)
Theorem host_with_port_not_found (h : Handler) (w : Header) (r : Request) (host port : string)
    (Hwf : wf (h_router h)) (Hr : forall rc, registered (h_router h) rc -> ":"%char ∉ bytes_of (rc_Domain rc))
    (Hhost : rq_Host r = host +:+ ":" +:+ port) (Hport : "."%char ∉ bytes_of port) :
  exists resp, ServeHTTP h w r = inl resp /\ rs_Status resp = 404.
Proof. unfold ServeHTTP. rewrite Hhost, Lookup_port by done. by eexists. Qed.

(** The headers that are sent. When no two of the route's header names
    have the same canonical form, the outbound request has each of them once,
    under its canonical name, with the route's value, and every other header
    as it was, in whatever order the map is iterated; the host is the route's
    rewritten one, if any, and the URL host is the route's dial key. *)
Lemma headers_sent (cfg : RouteConfig) (out : OutRequest) (order : list (string * string))
    (Ho : order ≡ₚ map_to_list (rc_Headers cfg)) (Hnd : NoDup (canonical_keys order)) :
  exists out', rewriteRequest order (Some cfg) out = Some out' /\
    (forall k v, rc_Headers cfg !! k = Some v -> o_Header out' !! CanonicalMIMEHeaderKey k = Some [v]) /\
    (forall n, (forall k, is_Some (rc_Headers cfg !! k) -> CanonicalMIMEHeaderKey k <> n) ->
       o_Header out' !! n = o_Header out !! n) /\
    o_Scheme out' = "http" /\ o_URLHost out' = routeDialKey cfg /\
    o_Host out' = (if decide (rc_HostHeaderRewrite cfg = "") then o_Host out else rc_HostHeaderRewrite cfg).
Proof.
  eexists. split; [done|]. cbn [o_Header o_Scheme o_URLHost o_Host]. split_and!; try done.
  - intros k v Hk%elem_of_map_to_list. rewrite <- Ho in Hk. by apply setAll_set.
  - intros n Hn. apply setAll_other. unfold canonical_keys. intros ([k v] & -> & Hin)%list_elem_of_fmap.
    rewrite Ho in Hin. apply elem_of_map_to_list in Hin. by eapply (Hn k).
  - case_decide as Hd; [by rewrite Hd|]. by destruct (String.eqb_spec (rc_HostHeaderRewrite cfg) "").
Qed.

(** ** Witnesses *)

Lemma basic_auth_gate_witness :
  ServeHTTP demo_handler ∅ (demo_get "/v1.0/y" (basicAuthHeader "bob" "pw"))
    = inr (withRoute (demo_get "/v1.0/y" (basicAuthHeader "bob" "pw")) (demo_route "/v1.0" "web" "run-B" "bob" "pw")).
Proof.
  set (r := demo_get "/v1.0/y" (basicAuthHeader "bob" "pw")).
  assert (Hl : Lookup (h_router demo_handler) (rq_Host r) (rq_Path r)
               = Some (demo_route "/v1.0" "web" "run-B" "bob" "pw")) by (vm_compute; reflexivity).
  assert (Hu : rc_HTTPUser (demo_route "/v1.0" "web" "run-B" "bob" "pw") <> "") by done.
  destruct (basic_auth_gate demo_handler ∅ r _ Hl Hu) as (_ & H & _).
  apply (H "bob" "pw"); [vm_compute; reflexivity..|]. split; reflexivity.
Defined.

(** The demo table: its routes are the two that were added. *)
Lemma demo_table_ok :
  wf demo_table /\ forall rc, registered demo_table rc -> rc_Domain rc = "app.example.com".
Proof.
  set (r1 := fst (Add New (demo_route "/v1" "0.web" "run-A" "" ""))).
  assert (E1 : Add New (demo_route "/v1" "0.web" "run-A" "" "") = (r1, None)) by reflexivity.
  assert (E2 : Add r1 (demo_route "/v1.0" "web" "run-B" "bob" "pw") = (demo_table, None)) by reflexivity.
  assert (Hwf : wf r1) by (eapply Add_wf; [apply New_wf | exact E1]).
  split; [by eapply Add_wf|]. intros rc.
  rewrite (registered_Add _ _ _ rc Hwf E2), (registered_Add _ _ _ rc New_wf E1).
  intros [-> | [-> | []%registered_New] ]; reflexivity.
Qed.

Lemma host_with_port_not_found_witness :
  exists resp, ServeHTTP demo_handler ∅ (mkRequest "app.example.com:18080" "/v1/x" ∅ None) = inl resp /\
    rs_Status resp = 404.
Proof.
  destruct demo_table_ok as [Hwf Hr].
  apply (host_with_port_not_found demo_handler ∅ _ "app.example.com" "18080"); [exact Hwf| |reflexivity|].
  - intros rc Hreg. rewrite (Hr rc Hreg). vm_compute. set_solver.
  - vm_compute. set_solver.
Defined.

Definition demo_headers_route : RouteConfig :=
  mkRouteConfig "a.com" "/" "web" "run" false false "" "" "inner.local" {["x-token" := "1"; "X-ENV" := "prod"]} ∅.

Lemma headers_sent_witness :
  exists out', rewriteRequest (map_to_list (rc_Headers demo_headers_route)) (Some demo_headers_route) demo_out = Some out' /\
    o_Header out' !! "X-Token" = Some ["1"] /\ o_Host out' = "inner.local".
Proof.
  assert (Hnd : NoDup (canonical_keys (map_to_list (rc_Headers demo_headers_route)))).
  { apply (bool_decide_unpack _). vm_compute. exact I. }
  destruct (headers_sent demo_headers_route demo_out _ (Permutation_refl _) Hnd) as (out' & H1 & H2 & _ & _ & _ & H3).
  exists out'. split; [exact H1|]. split; [apply (H2 "x-token" "1"); vm_compute; reflexivity | exact H3].
Defined.

(** ** Witnesses of dialing: a pool with one connection *)

Definition demo_dial_route (enc : bool) : RouteConfig :=
  mkRouteConfig "a.com" "/" "web" "run-A" enc true "" "" "" ∅ ∅.
Definition demo_lookup (runID : string) : option unit := if String.eqb runID "run-A" then Some tt else None.
Definition demo_Get (c : demoConn) (p : unit) (t : Z) : result demoConn := Ok c.
(** A client that sends three bytes of its block. *)
Definition silent_conn : demoConn := mkConn (mkMem [] 1000) (mkStream [bytes_of "IV-"] None) None false.

Definition demo_dialed : option (dialed demoWrapped demoConn) :=
  dialWorkConn (mkHandler New demo_key 10 5) demo_lookup (demo_Get demo_conn) [] (Ok demo_iv) 100
    (Some (demo_dial_route true)).

Lemma dialWorkConn_spec_witness :
  exists c, demo_dialed = Some (Dialed c) /\ deadline c = Some 105 /\
    exists zs, delivered (under c) = frame (startWorkConn "web") ++ zs.
Proof.
  assert (Hs : match demo_dialed with Some (Dialed _) => true | _ => false end = true) by reflexivity.
  destruct demo_dialed as [ [c|e conn|]|] eqn:E; try discriminate Hs.
  assert (Hiv : forall iv, Ok demo_iv = Ok iv -> length iv = BlockSize) by (intros iv Ei; by injection Ei as <-).
  destruct (dialWorkConn_spec _ _ _ _ _ _ _ _ E Hiv) as (cfg & p & conn & zs & Hc & Hp & Hg & Hd & _ & Hdl).
  exists c. split; [done|]. split; [exact Hdl|]. exists zs.
  injection Hc as <-. injection Hg as <-. exact Hd.
Defined.

Definition silent_dial (c : demoConn) : option (dialed demoWrapped demoConn) :=
  dialWorkConn (mkHandler New demo_key workConnTimeout second) demo_lookup (fun _ _ => Ok c) [] (Ok demo_iv) 0
    (Some (demo_dial_route true)).

Lemma dial_waits_for_peer_witness :
  silent_dial silent_conn = None /\
  exists c', silent_dial (connSetDeadline silent_conn 100) = Some (DialFailed (WrapErr "read IV: i/o timeout") (Some c')).
Proof.
  destruct (NewCipher demo_key) as [block|] eqn:Eb; [|discriminate Eb].
  destruct (dial_waits_for_peer (W := memConn) (R := memStream) (Z := storeWriter (ioWriter memConn)) (Zr := ioReader memStream)
              New demo_key demo_lookup [] demo_iv block (demo_dial_route true) tt silent_conn) as [H _];
    [reflexivity | reflexivity | exact Eb | vm_compute; discriminate | | reflexivity |].
  - eapply (sb_later _ _ _ (bytes_of "IV-")); [reflexivity | vm_compute; lia|]. apply sb_now; [vm_compute; lia | reflexivity].
  - destruct (H workConnTimeout second 0) as [H1 H2]. split; [exact H1|].
    destruct (H2 100) as (c' & Hc & _). exists c'. exact Hc.
Defined.
