(* ===== verification/Strconv.v ===== *)
(** * The parts of Go's [strconv] and [flag] the configuration uses

    Errors are not told apart: a value is accepted or it is not. *)

From S2P Require Import Prelude GoStrings Json JsonProofs Wire Http.

(** ** [strconv] *)

Definition is_digit (c : ascii) : bool := in_range c 48 57.

(** The value of a digit in any base up to 36. *)
Definition digit_val (c : ascii) : option Z :=
  let c := toLower c in
  if is_digit c then Some (code c - 48) else if isLower c then Some (code c - 87) else None.

(** The digits of [ParseUint]; underscores are skipped when the base was
    given by the text. *)
Fixpoint uint_digits (base : Z) (base0 : bool) (acc : Z) (s : bytes) : option Z :=
  match s with
  | [] => Some acc
  | c :: s' =>
      if Ascii.eqb c "_" && base0 then uint_digits base base0 acc s'
      else match digit_val c with
           | Some d => if d <? base then uint_digits base base0 (acc * base + d) s' else None
           | None => None
           end
  end.

(** [underscoreOK] after the sign and the base prefix: [i] is the kind of the
    last character seen. *)
Inductive uclass := UStart | UDigit | UUnder | UOther.

Fixpoint underscores (hex : bool) (i : uclass) (s : bytes) : bool :=
  match s with
  | [] => match i with UUnder => false | _ => true end
  | c :: s' =>
      if is_digit c || hex && in_range (toLower c) 97 102 then underscores hex UDigit s'
      else if Ascii.eqb c "_" then match i with UDigit => underscores hex UUnder s' | _ => false end
      else match i with UUnder => false | _ => underscores hex UOther s' end
  end.

Definition underscoreOK (s : bytes) : bool :=
  match s with
  | z :: b :: s' =>
      if Ascii.eqb z "0" && existsb (Ascii.eqb (toLower b)) ["b"; "o"; "x"]%char
      then underscores (Ascii.eqb (toLower b) "x") UDigit s'
      else underscores false UStart s
  | _ => underscores false UStart s
  end.

(** The base that the prefix of a text gives, and the text after it. *)
Definition base_prefix (s : bytes) : Z * bytes :=
  match s with
  | z :: rest =>
      if Ascii.eqb z "0" then
        match rest with
        | b :: ((_ :: _) as digits) =>
            if Ascii.eqb (toLower b) "b" then (2, digits)
            else if Ascii.eqb (toLower b) "o" then (8, digits)
            else if Ascii.eqb (toLower b) "x" then (16, digits)
            else (8, rest)
        | _ => (8, rest)
        end
      else (10, s)
  | [] => (10, s)
  end.

Definition ParseUint (s : bytes) (base : Z) : option Z :=
  match s with
  | [] => None
  | _ =>
      let '(b, ds) := if base =? 0 then base_prefix s else (base, s) in
      match uint_digits b (base =? 0) 0 ds with
      | Some n =>
          if two64 <=? n then None
          else if (base =? 0) && existsb (Ascii.eqb "_") ds && negb (underscoreOK s) then None
          else Some n
      | None => None
      end
  end.

(** [strconv.ParseInt(s, base, 64)]. *)
Definition ParseInt (s : string) (base : Z) : option Z :=
  let '(neg, ds) :=
    match bytes_of s with
    | c :: ds => if Ascii.eqb c "+" then (false, ds) else if Ascii.eqb c "-" then (true, ds) else (false, c :: ds)
    | [] => (false, [])
    end in
  match ParseUint ds base with
  | Some un =>
      if neg : bool then if two63 <? un then None else Some (- un)
      else if two63 <=? un then None else Some un
  | None => None
  end.

Definition Atoi (s : string) : option Z := ParseInt s 10.

Definition ParseBool (s : string) : option bool :=
  if existsb (String.eqb s) ["1"; "t"; "T"; "TRUE"; "true"; "True"] then Some true
  else if existsb (String.eqb s) ["0"; "f"; "F"; "FALSE"; "false"; "False"] then Some false
  else None.

(** ** [flag]: a flag set over a configuration [C] *)

(** What a flag does with its value; a boolean flag takes none from the next
    argument. *)
Record Flag (C : Type) := mkFlag {
  fl_name : string;
  fl_bool : bool;
  fl_set : C -> string -> option C
}.
Arguments mkFlag {C} _ _ _.
Arguments fl_name {C} _.
Arguments fl_bool {C} _.
Arguments fl_set {C} _ _ _.

(** [StringVar], [IntVar] and [BoolVar] of a field. *)
Definition StringVar {C} (set : C -> string -> C) (name : string) : Flag C :=
  mkFlag name false (fun c v => Some (set c v)).
Definition IntVar {C} (set : C -> Z -> C) (name : string) : Flag C :=
  mkFlag name false (fun c v => set c <$> ParseInt v 0).
Definition BoolVar {C} (set : C -> bool -> C) (name : string) : Flag C :=
  mkFlag name true (fun c v => set c <$> ParseBool v).

(** An argument: not a flag (parsing ends), the terminator, an error, or a
    flag's name and value. *)
Inductive arg :=
  | ArgOther
  | ArgEnd
  | ArgBad
  | ArgFlag (name : string) (value : option string).

Definition parseArg (s : string) : arg :=
  match s with
  | String "-" (String c rest) =>
      let name := if Ascii.eqb c "-" then rest else String c rest in
      match name with
      | EmptyString => ArgEnd
      | String n0 n' =>
          if Ascii.eqb n0 "-" || Ascii.eqb n0 "=" then ArgBad
          else match Cut n' "=" with
               | Some (a, b) => ArgFlag (String n0 a) (Some b)
               | None => ArgFlag name None
               end
      end
  | _ => ArgOther
  end.

(** [flag.Parse] with [ExitOnError]: [None] when the process exits. Every
    round takes an argument. *)
Fixpoint flag_Parse {C} (flags : list (Flag C)) (c : C) (args : list string) {struct args} : option C :=
  match args with
  | [] => Some c
  | s :: rest =>
      match parseArg s with
      | ArgOther | ArgEnd => Some c
      | ArgBad => None
      | ArgFlag name value =>
          match List.find (fun f => String.eqb (fl_name f) name) flags with
          | None => None
          | Some f =>
              match value with
              | Some v => match fl_set f c v with Some c' => flag_Parse flags c' rest | None => None end
              | None =>
                  if fl_bool f then
                    match fl_set f c "true" with Some c' => flag_Parse flags c' rest | None => None end
                  else
                    match rest with
                    | v :: rest' => match fl_set f c v with Some c' => flag_Parse flags c' rest' | None => None end
                    | [] => None
                    end
              end
          end
      end
  end.

(** ** Examples and lemmas *)

Example ParseInt_examples :
  List.map (fun s => ParseInt s 0) ["0x1F"; "017"; "-9223372036854775808"; "9223372036854775808"; "1_000"; "1__0"; "0b"; ""]
  = [Some 31; Some 15; Some (-9223372036854775808); None; Some 1000; None; None; None].
Proof. vm_compute. reflexivity. Qed.

Example Atoi_examples :
  List.map Atoi ["64"; "+5"; "-5"; "007"; "1_0"; "0x1"; " 1"] = [Some 64; Some 5; Some (-5); Some 7; None; None; None].
Proof. vm_compute. reflexivity. Qed.

Lemma uint_digits_nonneg base base0 acc s n :
  0 <= base -> 0 <= acc -> uint_digits base base0 acc s = Some n -> 0 <= n.
Proof.
  intros Hb. revert acc; induction s as [|c s IH]; intros acc Ha E; simplify_eq/=; [done|].
  case_match; [by eapply IH|]. destruct (digit_val c) as [d|] eqn:Ed; [|done].
  case_match; [|done]. apply (IH (acc * base + d)); [|done].
  assert (0 <= d); [|nia]. unfold digit_val in Ed. pose proof (code_range (toLower c)).
  unfold is_digit, isLower, in_range in Ed. repeat case_match; simplify_eq;
    rewrite ?andb_true_iff, ?Z.leb_le in *; lia.
Qed.

(** What [ParseInt] accepts is a 64-bit integer. *)
Lemma ParseInt_range s base n : 0 <= base -> ParseInt s base = Some n -> int64_ok n.
Proof.
  intros Hb. unfold ParseInt. set (p := match bytes_of s with [] => _ | _ => _ end).
  destruct p as [neg ds]. destruct (ParseUint ds base) as [un|] eqn:Eu; [|done].
  assert (0 <= un).
  { unfold ParseUint in Eu. destruct ds as [|c ds]; [done|].
    destruct (if base =? 0 then _ else _) as [b l] eqn:Ebl.
    destruct (uint_digits b _ 0 l) as [m|] eqn:Em; [|done]. apply uint_digits_nonneg in Em; [|clear -Hb Ebl|lia].
    - repeat case_match; by simplify_eq.
    - destruct (base =? 0); [|by simplify_eq]. unfold base_prefix in Ebl. repeat case_match; simplify_eq; lia. }
  unfold int64_ok. destruct neg; case_match; intros; simplify_eq;
    rewrite ?Z.ltb_ge, ?Z.leb_gt in *; unfold two63 in *; lia.
Qed.
