(* ===== verification/Config.v ===== *)
(** * Configuration: [src/internal/config/config.go]

    [Load] from the command line and the environment: defaults, then flags,
    then the environment variables that are set to an acceptable value. *)

From S2P Require Import Prelude GoStrings Json Wire Strconv.

Record Config := mkConfig {
  Token : string;
  FrpcAddr : string;
  HTTPAddr : string;
  PoolCapacity : Z;
  ResponseTimeoutSec : Z;
  YamuxAcceptBacklog : Z;
  YamuxEnableKeepAlive : bool;
  YamuxKeepAliveSeconds : Z;
  YamuxWriteTimeoutSec : Z;
  YamuxMaxStreamWindow : Z
}.

Definition setToken (c : Config) v := mkConfig v (FrpcAddr c) (HTTPAddr c) (PoolCapacity c) (ResponseTimeoutSec c)
  (YamuxAcceptBacklog c) (YamuxEnableKeepAlive c) (YamuxKeepAliveSeconds c) (YamuxWriteTimeoutSec c) (YamuxMaxStreamWindow c).
Definition setFrpcAddr (c : Config) v := mkConfig (Token c) v (HTTPAddr c) (PoolCapacity c) (ResponseTimeoutSec c)
  (YamuxAcceptBacklog c) (YamuxEnableKeepAlive c) (YamuxKeepAliveSeconds c) (YamuxWriteTimeoutSec c) (YamuxMaxStreamWindow c).
Definition setHTTPAddr (c : Config) v := mkConfig (Token c) (FrpcAddr c) v (PoolCapacity c) (ResponseTimeoutSec c)
  (YamuxAcceptBacklog c) (YamuxEnableKeepAlive c) (YamuxKeepAliveSeconds c) (YamuxWriteTimeoutSec c) (YamuxMaxStreamWindow c).
Definition setPoolCapacity (c : Config) v := mkConfig (Token c) (FrpcAddr c) (HTTPAddr c) v (ResponseTimeoutSec c)
  (YamuxAcceptBacklog c) (YamuxEnableKeepAlive c) (YamuxKeepAliveSeconds c) (YamuxWriteTimeoutSec c) (YamuxMaxStreamWindow c).
Definition setResponseTimeoutSec (c : Config) v := mkConfig (Token c) (FrpcAddr c) (HTTPAddr c) (PoolCapacity c) v
  (YamuxAcceptBacklog c) (YamuxEnableKeepAlive c) (YamuxKeepAliveSeconds c) (YamuxWriteTimeoutSec c) (YamuxMaxStreamWindow c).
Definition setYamuxAcceptBacklog (c : Config) v := mkConfig (Token c) (FrpcAddr c) (HTTPAddr c) (PoolCapacity c) (ResponseTimeoutSec c)
  v (YamuxEnableKeepAlive c) (YamuxKeepAliveSeconds c) (YamuxWriteTimeoutSec c) (YamuxMaxStreamWindow c).
Definition setYamuxEnableKeepAlive (c : Config) v := mkConfig (Token c) (FrpcAddr c) (HTTPAddr c) (PoolCapacity c) (ResponseTimeoutSec c)
  (YamuxAcceptBacklog c) v (YamuxKeepAliveSeconds c) (YamuxWriteTimeoutSec c) (YamuxMaxStreamWindow c).
Definition setYamuxKeepAliveSeconds (c : Config) v := mkConfig (Token c) (FrpcAddr c) (HTTPAddr c) (PoolCapacity c) (ResponseTimeoutSec c)
  (YamuxAcceptBacklog c) (YamuxEnableKeepAlive c) v (YamuxWriteTimeoutSec c) (YamuxMaxStreamWindow c).
Definition setYamuxWriteTimeoutSec (c : Config) v := mkConfig (Token c) (FrpcAddr c) (HTTPAddr c) (PoolCapacity c) (ResponseTimeoutSec c)
  (YamuxAcceptBacklog c) (YamuxEnableKeepAlive c) (YamuxKeepAliveSeconds c) v (YamuxMaxStreamWindow c).
Definition setYamuxMaxStreamWindow (c : Config) v := mkConfig (Token c) (FrpcAddr c) (HTTPAddr c) (PoolCapacity c) (ResponseTimeoutSec c)
  (YamuxAcceptBacklog c) (YamuxEnableKeepAlive c) (YamuxKeepAliveSeconds c) (YamuxWriteTimeoutSec c) v.

(** [c := &Config{...}]. *)
Definition defaultConfig : Config :=
  mkConfig "test-token" ":17000" ":18080" 64 0 256 true 30 10 (6 * 1024 * 1024).

(** The ten [flag.*Var] calls; a flag that is not given leaves the field. *)
Definition configFlags : list (Flag Config) :=
  [StringVar setToken "token"; StringVar setFrpcAddr "frpc-addr"; StringVar setHTTPAddr "http-addr";
   IntVar setPoolCapacity "pool-capacity"; IntVar setResponseTimeoutSec "response-timeout-sec";
   IntVar setYamuxAcceptBacklog "yamux-accept-backlog"; BoolVar setYamuxEnableKeepAlive "yamux-keepalive-enable";
   IntVar setYamuxKeepAliveSeconds "yamux-keepalive-sec"; IntVar setYamuxWriteTimeoutSec "yamux-write-timeout-sec";
   IntVar setYamuxMaxStreamWindow "yamux-max-stream-window"].

(** [if v := os.Getenv(name); v != "" { ... }] with the three bodies the code
    has: a string, an integer with its check, a boolean. *)
Definition envString (Getenv : string -> string) (name : string) (set : Config -> string -> Config) (c : Config) : Config :=
  let v := Getenv name in if String.eqb v "" then c else set c v.

Definition envInt (Getenv : string -> string) (name : string) (ok : Z -> bool) (set : Config -> Z -> Config)
    (c : Config) : Config :=
  let v := Getenv name in
  if String.eqb v "" then c
  else match Atoi v with
       | Some n => if ok n then set c n else c
       | None => c
       end.

Definition envBool (Getenv : string -> string) (name : string) (set : Config -> bool -> Config) (c : Config) : Config :=
  let v := Getenv name in
  if String.eqb v "" then c
  else match ParseBool v with Some b => set c b | None => c end.

Definition applyEnv (Getenv : string -> string) (c : Config) : Config :=
  let c := envString Getenv "DRPS_TOKEN" setToken c in
  let c := envString Getenv "DRPS_FRPC_ADDR" setFrpcAddr c in
  let c := envString Getenv "DRPS_HTTP_ADDR" setHTTPAddr c in
  let c := envInt Getenv "DRPS_POOL_CAPACITY" (fun n => 0 <? n) setPoolCapacity c in
  let c := envInt Getenv "DRPS_RESPONSE_TIMEOUT_SEC" (fun n => 0 <=? n) setResponseTimeoutSec c in
  let c := envInt Getenv "DRPS_YAMUX_ACCEPT_BACKLOG" (fun n => 0 <? n) setYamuxAcceptBacklog c in
  let c := envBool Getenv "DRPS_YAMUX_KEEPALIVE_ENABLE" setYamuxEnableKeepAlive c in
  let c := envInt Getenv "DRPS_YAMUX_KEEPALIVE_SEC" (fun n => 0 <? n) setYamuxKeepAliveSeconds c in
  let c := envInt Getenv "DRPS_YAMUX_WRITE_TIMEOUT_SEC" (fun n => 0 <? n) setYamuxWriteTimeoutSec c in
  envInt Getenv "DRPS_YAMUX_MAX_STREAM_WINDOW" (fun n => 256 * 1024 <=? n) setYamuxMaxStreamWindow c.

(** [Load] with the arguments of the process and its environment; [None] when
    [flag.Parse] ends the process. *)
Definition Load (args : list string) (Getenv : string -> string) : option Config :=
  match flag_Parse configFlags defaultConfig args with
  | None => None
  | Some c => Some (applyEnv Getenv c)
  end.

(** ** Properties *)

(** The ranges the program checks in the environment. *)
Record valid (c : Config) : Prop := {
  valid_cap : 0 < PoolCapacity c < two63;
  valid_timeout : 0 <= ResponseTimeoutSec c < two63;
  valid_backlog : 0 < YamuxAcceptBacklog c < two63;
  valid_keepalive : 0 < YamuxKeepAliveSeconds c < two63;
  valid_write : 0 < YamuxWriteTimeoutSec c < two63;
  valid_window : 256 * 1024 <= YamuxMaxStreamWindow c < two63
}.

(** The flags that set an integer. *)
Definition int_flag (name : string) : bool :=
  existsb (String.eqb name) ["pool-capacity"; "response-timeout-sec"; "yamux-accept-backlog"; "yamux-keepalive-sec";
                             "yamux-write-timeout-sec"; "yamux-max-stream-window"].

Lemma valid_default : valid defaultConfig.
Proof. by split. Qed.

Lemma valid_envString Getenv name set c :
  (forall c v, valid c -> valid (set c v)) -> valid c -> valid (envString Getenv name set c).
Proof. intros Hs Hc. unfold envString. case_match; auto. Qed.

Lemma valid_envBool Getenv name set c :
  (forall c v, valid c -> valid (set c v)) -> valid c -> valid (envBool Getenv name set c).
Proof. intros Hs Hc. unfold envBool. case_match; [done|]. case_match; auto. Qed.

Lemma valid_envInt Getenv name (ok : Z -> bool) set c :
  (forall c n, int64_ok n -> ok n = true -> valid c -> valid (set c n)) -> valid c -> valid (envInt Getenv name ok set c).
Proof.
  intros Hs Hc. unfold envInt. case_match; [done|]. destruct (Atoi _) as [n|] eqn:En; [|done].
  destruct (ok n) eqn:Eo; [|done]. apply Hs; [|done..]. by eapply ParseInt_range; [|exact En].
Qed.

Ltac valid_set :=
  intros ? ?; unfold int64_ok, two63; intros; rewrite ?Z.ltb_lt, ?Z.leb_le in *;
  match goal with H : valid ?c |- _ => destruct H; destruct c end; split; simpl in *; unfold two63 in *; lia.

(** What the environment can set keeps the configuration valid. *)
Lemma applyEnv_valid Getenv c : valid c -> valid (applyEnv Getenv c).
Proof.
  intros Hc. unfold applyEnv.
  repeat first [apply valid_envInt; [valid_set|] | apply valid_envString; [valid_set|]
               | apply valid_envBool; [valid_set|] ]. done.
Qed.

(** A field after one assignment from the environment. *)
Section fields.
Context {A : Type} (f : Config -> A) (Getenv : string -> string) (name : string) (c : Config).

Lemma envString_other set : (forall c v, f (set c v) = f c) -> f (envString Getenv name set c) = f c.
Proof. intros Hs. unfold envString. by case_match. Qed.

Lemma envInt_other ok set : (forall c n, f (set c n) = f c) -> f (envInt Getenv name ok set c) = f c.
Proof. intros Hs. unfold envInt. by repeat case_match. Qed.

Lemma envBool_other set : (forall c b, f (set c b) = f c) -> f (envBool Getenv name set c) = f c.
Proof. intros Hs. unfold envBool. by repeat case_match. Qed.
End fields.

(** The value a field gets from a variable, and the one it had. *)
Definition envStr (Getenv : string -> string) (name old : string) : string :=
  if decide (Getenv name = "") then old else Getenv name.
Definition envNum (Getenv : string -> string) (name : string) (ok : Z -> bool) (old : Z) : Z :=
  match Atoi (Getenv name) with Some n => if ok n then n else old | None => old end.

Lemma envString_same f Getenv name set c :
  (forall c v, f (set c v) = v) -> f (envString Getenv name set c) = envStr Getenv name (f c).
Proof. intros Hs. unfold envString, envStr. destruct (String.eqb_spec (Getenv name) ""); by case_decide. Qed.

Lemma envInt_same f Getenv name ok set c :
  (forall c n, f (set c n) = n) -> f (envInt Getenv name ok set c) = envNum Getenv name ok (f c).
Proof.
  intros Hs. unfold envInt, envNum. destruct (String.eqb_spec (Getenv name) "") as [->|_]; [done|].
  destruct (Atoi _) as [n|]; [|done]. by destruct (ok n).
Qed.

Lemma envBool_same f Getenv name set c :
  (forall c b, f (set c b) = b) -> f (envBool Getenv name set c) = default (f c) (ParseBool (Getenv name)).
Proof.
  intros Hs. unfold envBool. destruct (String.eqb_spec (Getenv name) "") as [->|_]; [done|].
  by destruct (ParseBool _).
Qed.

Ltac env_field :=
  unfold applyEnv; cbv zeta;
  repeat first
    [ reflexivity
    | rewrite envInt_other by done | rewrite envString_other by done | rewrite envBool_other by done
    | rewrite envInt_same by done | rewrite envString_same by done | rewrite envBool_same by done ].

(** C19: The loaded configuration. Whenever the flags parse to a configuration
    in range, [Load] answers one in range: every environment variable with an
    acceptable value wins over the flag, every other one (unset, malformed, out
    of range, beyond 64 bits) leaves the flag's value. *)
Theorem Load_valid (args : list string) (Getenv : string -> string) (c0 : Config)
    (Hflags : flag_Parse configFlags defaultConfig args = Some c0) (Hv : valid c0) :
  exists c, Load args Getenv = Some c /\ valid c /\
    Token c = envStr Getenv "DRPS_TOKEN" (Token c0) /\
    FrpcAddr c = envStr Getenv "DRPS_FRPC_ADDR" (FrpcAddr c0) /\
    HTTPAddr c = envStr Getenv "DRPS_HTTP_ADDR" (HTTPAddr c0) /\
    PoolCapacity c = envNum Getenv "DRPS_POOL_CAPACITY" (Z.ltb 0) (PoolCapacity c0) /\
    ResponseTimeoutSec c = envNum Getenv "DRPS_RESPONSE_TIMEOUT_SEC" (Z.leb 0) (ResponseTimeoutSec c0) /\
    YamuxAcceptBacklog c = envNum Getenv "DRPS_YAMUX_ACCEPT_BACKLOG" (Z.ltb 0) (YamuxAcceptBacklog c0) /\
    YamuxEnableKeepAlive c = default (YamuxEnableKeepAlive c0) (ParseBool (Getenv "DRPS_YAMUX_KEEPALIVE_ENABLE")) /\
    YamuxKeepAliveSeconds c = envNum Getenv "DRPS_YAMUX_KEEPALIVE_SEC" (Z.ltb 0) (YamuxKeepAliveSeconds c0) /\
    YamuxWriteTimeoutSec c = envNum Getenv "DRPS_YAMUX_WRITE_TIMEOUT_SEC" (Z.ltb 0) (YamuxWriteTimeoutSec c0) /\
    YamuxMaxStreamWindow c = envNum Getenv "DRPS_YAMUX_MAX_STREAM_WINDOW" (Z.leb 262144) (YamuxMaxStreamWindow c0).
Proof.
  exists (applyEnv Getenv c0). unfold Load. rewrite Hflags. split; [done|].
  split; [by apply applyEnv_valid|]. split_and!; env_field.
Qed.

(** Flags are not checked: a window of zero is accepted. *)
Lemma flags_unchecked :
  exists c, Load ["-yamux-max-stream-window"; "0"; "--pool-capacity=-1"] (fun _ => "") = Some c /\
    YamuxMaxStreamWindow c = 0 /\ PoolCapacity c = -1.
Proof. eexists. split; [vm_compute; reflexivity | done]. Qed.

Definition demo_env (name : string) : string :=
  if String.eqb name "DRPS_POOL_CAPACITY" then "128"
  else if String.eqb name "DRPS_RESPONSE_TIMEOUT_SEC" then "-3"
  else if String.eqb name "DRPS_YAMUX_MAX_STREAM_WINDOW" then "1000" else "".

Lemma Load_valid_witness :
  exists c, Load ["--token=secret"; "-response-timeout-sec"; "0x1e"; "-yamux-keepalive-enable"] demo_env = Some c /\
    Token c = "secret" /\ PoolCapacity c = 128 /\ ResponseTimeoutSec c = 30 /\ YamuxMaxStreamWindow c = 6291456.
Proof.
  destruct (Load_valid ["--token=secret"; "-response-timeout-sec"; "0x1e"; "-yamux-keepalive-enable"] demo_env
              (setResponseTimeoutSec (setToken defaultConfig "secret") 30))
    as (c & H & _ & Ht & _ & _ & Hp & Hr & _ & _ & _ & _ & Hw); [vm_compute; reflexivity | by split |].
  exists c. rewrite Ht, Hp, Hr, Hw. split; [exact H|]. repeat split; vm_compute; reflexivity.
Defined.
