(* ===== verification/Mux.v ===== *)
(** * The HTTP mux: [buildHTTPMux] of [src/cmd/drps/main.go]

    [http.ServeMux] (of Go 1.25, the version [go.mod] asks for) for the
    patterns the program registers: paths, without methods, hosts or named
    wildcards. It matches the escaped path of the request segment by segment,
    unescaping each; [url.URL] is modelled as far as that needs. *)

From S2P Require Import Prelude GoStrings Json Wire Http.

(** ** Clean paths *)

Definition slash : ascii := "/"%char.

(** The segments between slashes. *)
Fixpoint segments (s : string) : list string :=
  match s with
  | EmptyString => [""]
  | String c s' =>
      if Ascii.eqb c slash then "" :: segments s'
      else match segments s' with
           | seg :: rest => String c seg :: rest
           | [] => [String c ""]
           end
  end.

(** [path.Clean] of a rooted path: the segments that stay, last first. *)
Definition clean_step (acc : list string) (seg : string) : list string :=
  if String.eqb seg "" || String.eqb seg "." then acc
  else if String.eqb seg ".." then tl acc
  else seg :: acc.

Definition join_rooted (segs : list string) : string :=
  match segs with
  | [] => "/"
  | _ => foldr (fun seg s => "/" +:+ seg +:+ s) "" segs
  end.

Definition path_Clean (p : string) : string := join_rooted (rev (foldl clean_step [] (segments p))).

Definition ends_slash (p : string) : bool :=
  match List.last (segments p) "x" with "" => true | _ => false end.

(** [cleanPath] of net/http. *)
Definition cleanPath (p : string) : string :=
  if String.eqb p "" then "/"
  else
    let p := if HasPrefix p "/" then p else "/" +:+ p in
    let np := path_Clean p in
    if ends_slash p && negb (String.eqb np "/") then np +:+ "/" else np.

(** The path ends in a slash; [ends_slash] is of a path that is not empty. *)
Definition has_slash_suffix (p : string) : bool := negb (String.eqb p "") && ends_slash p.

(** ** Paths of a [url.URL] *)

Definition is_alnum (c : ascii) : bool :=
  let n := N_of_ascii c in
  (48 <=? n)%N && (n <=? 57)%N || (65 <=? n)%N && (n <=? 90)%N || (97 <=? n)%N && (n <=? 122)%N.

Definition one_of (c : ascii) (s : string) : bool := existsb (Ascii.eqb c) (bytes_of s).

(** [shouldEscape(c, encodePath)]. *)
Definition shouldEscape (c : ascii) : bool := negb (is_alnum c || one_of c "-_.~" || one_of c "$&+,/:;=@").

(** [validEncoded(s, encodePath)]. *)
Definition validEncoded (s : string) : bool :=
  forallb (fun c => one_of c "!$&'()*+,;=:@[]%" || negb (shouldEscape c)) (bytes_of s).

Definition unhex (c : ascii) : option N :=
  let n := N_of_ascii c in
  if (48 <=? n)%N && (n <=? 57)%N then Some (n - 48)%N
  else if (97 <=? n)%N && (n <=? 102)%N then Some (n - 87)%N
  else if (65 <=? n)%N && (n <=? 70)%N then Some (n - 55)%N
  else None.

Definition upperhex (n : N) : ascii := ascii_of_N (if (n <? 10)%N then n + 48 else n + 55)%N.

(** [unescape] in the path modes; [None] for an [EscapeError]. *)
Fixpoint unescape (s : string) : option string :=
  match s with
  | EmptyString => Some ""
  | String c s' =>
      if Ascii.eqb c "%"
      then match s' with
           | String a (String b s2) =>
               match unhex a, unhex b, unescape s2 with
               | Some h, Some l, Some r => Some (String (ascii_of_N (h * 16 + l)) r)
               | _, _, _ => None
               end
           | _ => None
           end
      else match unescape s' with Some r => Some (String c r) | None => None end
  end.

(** [escape(s, encodePath)]. *)
Fixpoint escape (s : string) : string :=
  match s with
  | EmptyString => ""
  | String c s' =>
      if shouldEscape c
      then let n := N_of_ascii c in String "%" (String (upperhex (n / 16)) (String (upperhex (n mod 16)) (escape s')))
      else String c (escape s')
  end.

(** The fields [Path] and [RawPath] of a [url.URL]. *)
Record URL := mkURL { u_Path : string; u_RawPath : string }.

(** [setPath]: the path of a request line. *)
Definition setPath (p : string) : option URL :=
  match unescape p with
  | None => None
  | Some path => Some (mkURL path (if String.eqb p (escape path) then "" else p))
  end.

Definition EscapedPath (u : URL) : string :=
  if negb (String.eqb (u_RawPath u) "") && validEncoded (u_RawPath u) &&
     match unescape (u_RawPath u) with Some p => String.eqb p (u_Path u) | None => false end
  then u_RawPath u
  else if String.eqb (u_Path u) "*" then "*" else escape (u_Path u).

(** [pathUnescape] of net/http. *)
Definition pathUnescape (s : string) : string := default s (unescape s).

(** ** [http.ServeMux] *)

Section mux.
Context {T : Type}.

(** A pattern: its literal segments, and whether it ends in a slash, that is
    stands for the subtree below. *)
Record pattern := mkPattern { pat_segs : list string; pat_multi : bool }.

Definition parsePattern (s : string) : pattern :=
  let segs := segments (string_drop 1 s) in
  if String.eqb (List.last segs "x") "" then mkPattern (List.removelast segs) true else mkPattern segs false.

(** [pattern.segments]: the slash at the end is one. *)
Definition pat_length (p : pattern) : nat := (length (pat_segs p) + if pat_multi p then 1 else 0)%nat.

(** The segments [firstSegment] finds, one after the other: unescaped, and
    ["/"] for a slash at the end. *)
Fixpoint seg_keys (segs : list string) : list string :=
  match segs with
  | [] => []
  | [seg] => [if String.eqb seg "" then "/" else pathUnescape seg]
  | seg :: rest => pathUnescape seg :: seg_keys rest
  end.

Definition path_keys (path : string) : list string :=
  if String.eqb path "" then [] else seg_keys (segments (string_drop 1 path)).

(** A [routingNode]: the patterns below it, each with the literal segments
    that are left. *)
Definition node : Type := list (list string * (pattern * T)).

Definition root (pats : list (string * T)) : node :=
  (fun pt => let p := parsePattern (fst pt) in (pat_segs p, (p, snd pt))) <$> pats.

Definition findChild (key : string) (n : node) : node :=
  omap (fun e => match fst e with s :: l => if String.eqb s key then Some (l, snd e) else None | [] => None end) n.

(** The pattern that ends at the node, and the one of its subtree. *)
Definition ends_here (multi : bool) (n : node) : option (pattern * T) :=
  head (omap (fun e => match fst e with
                       | [] => if Bool.eqb (pat_multi (fst (snd e))) multi then Some (snd e) else None
                       | _ :: _ => None
                       end) n).

(** [matchPath]: literal segments first, then the subtree. *)
Fixpoint matchPath (n : node) (keys : list string) : option (pattern * T) :=
  match keys with
  | [] => ends_here false n
  | key :: rest =>
      match matchPath (findChild key n) rest with
      | Some m => Some m
      | None => ends_here true n
      end
  end.

Definition exactMatch (m : option (pattern * T)) (path : string) : bool :=
  match m with
  | None => false
  | Some (p, _) =>
      if negb (pat_multi p) then true
      else if has_slash_suffix path || String.eqb path ""
           then Nat.eqb (pat_length p) (length (segments path) - 1) else false
  end.

(** [matchOrRedirect]: [inr] for a redirection to the path with a slash;
    [redirect] says whether it has been asked for. *)
Definition matchOrRedirect (n : node) (path : string) (redirect : bool) : option (pattern * T) + unit :=
  let m := matchPath n (path_keys path) in
  let slashed := path +:+ "/" in
  if negb (exactMatch m path) && redirect && negb (has_slash_suffix path) &&
     exactMatch (matchPath n (path_keys slashed)) slashed
  then inr () else inl m.

(** What answers a request; the [Location] of a redirection is left out. *)
Inductive served := Serve (t : T) | Redirect | NotFound | BadRequest.

Record muxRequest := mkMuxRequest { mr_CONNECT : bool; mr_RequestURI : string; mr_URL : URL }.

(** [findHandler]: the path of a CONNECT request is not cleaned. *)
Definition findHandler (n : node) (r : muxRequest) : served :=
  let escapedPath := EscapedPath (mr_URL r) in
  let path := if mr_CONNECT r then escapedPath else cleanPath escapedPath in
  match matchOrRedirect n path true with
  | inr _ => Redirect
  | inl m =>
      if negb (String.eqb path escapedPath) then Redirect
      else match m with Some (_, t) => Serve t | None => NotFound end
  end.

(** [ServeMux.ServeHTTP]. *)
Definition mux_serve (pats : list (string * T)) (r : muxRequest) : served :=
  if String.eqb (mr_RequestURI r) "*" then BadRequest else findHandler (root pats) r.
End mux.
Arguments served : clear implicits.

(** ** The program's table *)

Inductive target := Metrics | Pprof (name : string) | ProxyHandler.

(** [registerPprofEndpoints]. *)
Definition registerPprofEndpoints : list (string * target) :=
  [("/debug/pprof/", Pprof "Index"); ("/debug/pprof/cmdline", Pprof "Cmdline"); ("/debug/pprof/profile", Pprof "Profile");
   ("/debug/pprof/symbol", Pprof "Symbol"); ("/debug/pprof/trace", Pprof "Trace")].

(** [buildHTTPMux]; [pprof] is [DRPS_PPROF=1]. *)
Definition buildHTTPMux (pprof : bool) : list (string * target) :=
  [("/__drps/metrics", Metrics)] ++ (if pprof then registerPprofEndpoints else []) ++ [("/", ProxyHandler)].

(** A GET request with the given path on the request line. *)
Definition get (p : string) : muxRequest := mkMuxRequest false p (default (mkURL "" "") (setPath p)).

Example mux_examples :
  List.map (fun p => mux_serve (buildHTTPMux true) (get p))
    ["/"; "/a/b"; "/a//b/"; "/a/../__drps/metrics"; "/__drps/metrics"; "/__drps/%6Detrics"; "/__drps/metrics/"; "/debug/pprof";
     "/debug/pprof/heap"; "/debug/pprof/tr%61ce"; "/debug%2Fpprof/"; ""; "/."; "/a/%2e%2e/b"; "*"]
  = [Serve ProxyHandler; Serve ProxyHandler; Redirect; Redirect; Serve Metrics; Serve Metrics; Serve ProxyHandler; Redirect;
     Serve (Pprof "Index"); Serve (Pprof "Trace"); Serve ProxyHandler; Redirect; Redirect; Serve ProxyHandler; BadRequest].
Proof. vm_compute. reflexivity. Qed.

(** ** Lemmas *)

Lemma segments_nonempty s : segments s <> [].
Proof. destruct s as [|c s]; simpl; [done|]. by repeat case_match. Qed.

Lemma segments_snoc s : segments (s +:+ "/") = segments s ++ [""].
Proof.
  induction s as [|c s IH]; [done|]. cbn [String.append segments]. rewrite IH. case_match; [done|].
  pose proof (segments_nonempty s). by destruct (segments s).
Qed.

Lemma rooted_segments p : HasPrefix p "/" = true ->
  segments p = "" :: segments (string_drop 1 p) /\ p <> "" /\ path_keys p = seg_keys (segments (string_drop 1 p)).
Proof. by intros [t ->]%HasPrefix_spec. Qed.

Lemma length_seg_keys l : length (seg_keys l) = length l.
Proof. induction l as [|s [|s' l] IH]; [done..|]. by apply (f_equal S). Qed.

Lemma seg_keys_snoc l : List.last l "" <> "" -> seg_keys (l ++ [""]) = seg_keys l ++ ["/"].
Proof.
  induction l as [|s [|s' l] IH]; intros Hl; [done| |].
  - simpl in *. by rewrite (proj2 (String.eqb_neq _ _)).
  - change (pathUnescape s :: seg_keys ((s' :: l) ++ [""]) = (pathUnescape s :: seg_keys (s' :: l)) ++ ["/"]).
    by rewrite IH.
Qed.

Lemma seg_keys_last l : List.last l "x" = "" -> exists ks, seg_keys l = ks ++ ["/"].
Proof.
  induction l as [|s [|s' l] IH]; intros Hl; [done| |].
  - simpl in *. subst s. by exists [].
  - destruct IH as [ks E]; [done|]. exists (pathUnescape s :: ks).
    change (pathUnescape s :: seg_keys (s' :: l) = (pathUnescape s :: ks) ++ ["/"]). by rewrite E.
Qed.

Lemma last_default {A} (l : list A) d d' : l <> [] -> List.last l d = List.last l d'.
Proof. induction l as [|x [|y l] IH]; intros; [done..|]. by apply IH. Qed.

Lemma ends_slash_last p : ends_slash p = true <-> List.last (segments p) "x" = "".
Proof. unfold ends_slash. case_match; naive_solver. Qed.

(** The keys of a rooted path, and of the path with a slash at the end. *)
Lemma slash_suffix_rooted p : HasPrefix p "/" = true ->
  has_slash_suffix p = String.eqb (List.last (segments (string_drop 1 p)) "x") "".
Proof.
  intros Hp. destruct (rooted_segments p Hp) as (E & Hne & _). unfold has_slash_suffix, ends_slash.
  rewrite (proj2 (String.eqb_neq _ _) Hne), E. pose proof (segments_nonempty (string_drop 1 p)) as Hs.
  destruct (segments (string_drop 1 p)) as [|s l]; [done|]. cbn [negb andb List.last]. by destruct (match l with [] => s | _ => _ end).
Qed.

Lemma slashed_keys p : HasPrefix p "/" = true -> has_slash_suffix p = false ->
  path_keys (p +:+ "/") = path_keys p ++ ["/"].
Proof.
  intros Hp Hs. rewrite slash_suffix_rooted in Hs by done. apply String.eqb_neq in Hs.
  assert (HasPrefix (p +:+ "/") "/" = true) as Hp'.
  { apply HasPrefix_spec in Hp as [t ->]. by apply HasPrefix_spec; exists (t +:+ "/"). }
  destruct (rooted_segments _ Hp) as (_ & _ & ->), (rooted_segments _ Hp') as (_ & _ & ->).
  replace (string_drop 1 (p +:+ "/")) with (string_drop 1 p +:+ "/") by (apply HasPrefix_spec in Hp as [t ->]; done).
  rewrite segments_snoc. apply seg_keys_snoc. rewrite (last_default _ "" "x"); [done | apply segments_nonempty].
Qed.

Lemma slash_suffix_keys p : HasPrefix p "/" = true -> has_slash_suffix p = true -> exists ks, path_keys p = ks ++ ["/"].
Proof.
  intros Hp Hs. rewrite slash_suffix_rooted in Hs by done. apply String.eqb_eq in Hs.
  destruct (rooted_segments _ Hp) as (_ & _ & ->). by apply seg_keys_last.
Qed.

Lemma rooted_keys p : HasPrefix p "/" = true -> path_keys p <> [].
Proof.
  intros Hp. destruct (rooted_segments _ Hp) as (_ & _ & ->). intros E%(f_equal length). rewrite length_seg_keys in E.
  pose proof (segments_nonempty (string_drop 1 p)). by destruct (segments _).
Qed.

Lemma rooted_count p : HasPrefix p "/" = true -> (length (segments p) - 1)%nat = length (path_keys p).
Proof. intros Hp. destruct (rooted_segments _ Hp) as (-> & _ & ->). rewrite length_seg_keys. simpl. lia. Qed.

Lemma cleanPath_rooted p : HasPrefix (cleanPath p) "/" = true.
Proof.
  unfold cleanPath. destruct (String.eqb p ""); [done|].
  set (q := if HasPrefix p "/" then p else _).
  assert (forall l, HasPrefix (join_rooted l) "/" = true) as Hj by by intros [].
  assert (forall s t, HasPrefix s "/" = true -> HasPrefix (s +:+ t) "/" = true) as Ha.
  { intros s t [u ->]%HasPrefix_spec. by apply HasPrefix_spec; exists (u +:+ t). }
  case_match; [apply Ha|]; apply Hj.
Qed.

(** *** The program's table *)

Lemma matchPath_nil {T} keys : matchPath ([] : node (T := T)) keys = None.
Proof. induction keys as [|k keys IH]; simpl; [done | by rewrite IH]. Qed.

Definition metrics_keys : list string := ["__drps"; "metrics"].
Definition pprof_keys : list string := ["debug"; "pprof"].

(** Closes the cases where the subtree of the root is what matches. *)
Local Ltac root_case := unfold metrics_keys, pprof_keys; simpl; split_and!; try done; try congruence; intros; congruence.

Lemma matchPath_step (n : node (T := target)) k ks :
  matchPath n (k :: ks) = match matchPath (findChild k n) ks with Some m => Some m | None => ends_here true n end.
Proof. done. Qed.

(** No child below a node for a segment that none of its literals is. *)
Lemma findChild_none (n : node (T := target)) k :
  Forall (fun e => match fst e with s :: _ => s <> k | [] => True end) n -> findChild k n = [].
Proof.
  induction 1 as [|[l x] n Hl Hn IH]; [done|]. unfold findChild in *. cbn [omap list_omap fst snd] in *. rewrite IH.
  destruct l as [|s l]; [done|]. simpl in Hl. by rewrite (proj2 (String.eqb_neq _ _)).
Qed.

Definition metrics_node : node (T := target) := [(["metrics"], (mkPattern metrics_keys false, Metrics))].
Definition pprof_node : node (T := target) := findChild "pprof" (findChild "debug" (root (buildHTTPMux true))).

Lemma table_match pprof keys :
  match matchPath (root (buildHTTPMux pprof)) keys with
  | None => keys = []
  | Some (p, Metrics) => keys = metrics_keys /\ pat_multi p = false
  | Some (p, Pprof _) => pprof = true /\ exists k r, keys = pprof_keys ++ k :: r /\
      (if pat_multi p then pat_length p = 3%nat else k <> "/" /\ r = [])
  | Some (p, ProxyHandler) => keys <> [] /\ p = mkPattern [] true /\ keys <> metrics_keys /\
      (pprof = true -> forall k r, keys <> pprof_keys ++ k :: r)
  end.
Proof.
  destruct keys as [|k1 keys]; [by destruct pprof|]. rewrite matchPath_step.
  destruct (String.eqb_spec "__drps" k1) as [<-|H1].
  { replace (findChild "__drps" (root (buildHTTPMux pprof))) with metrics_node by (by destruct pprof).
    destruct keys as [|k2 keys]; [destruct pprof; root_case|]. rewrite matchPath_step.
    destruct (String.eqb_spec "metrics" k2) as [<-|H2].
    - destruct keys as [|k3 keys]; [done|].
      rewrite matchPath_step, findChild_none, matchPath_nil by (by repeat constructor). destruct pprof; root_case.
    - rewrite findChild_none, matchPath_nil by (by repeat constructor). destruct pprof; root_case. }
  destruct pprof; [|rewrite findChild_none, matchPath_nil by (by repeat constructor); root_case].
  destruct (String.eqb_spec "debug" k1) as [<-|H2]; [|rewrite findChild_none, matchPath_nil by (by repeat constructor); root_case].
  destruct keys as [|k2 keys]; [root_case|]. rewrite matchPath_step.
  destruct (String.eqb_spec "pprof" k2) as [<-|H2]; [|rewrite findChild_none, matchPath_nil by (by repeat constructor); root_case].
  destruct keys as [|k3 keys]; [root_case|]. fold pprof_node. rewrite (matchPath_step pprof_node).
  destruct (matchPath (findChild k3 pprof_node) keys) as [ [p t]|] eqn:E.
  2:{ simpl. split_and!; [done|]. by exists k3, keys. }
  assert (Hin : In k3 ["cmdline"; "profile"; "symbol"; "trace"]).
  { destruct (in_dec String.string_dec k3 ["cmdline"; "profile"; "symbol"; "trace"]) as [|Hn]; [done|].
    rewrite findChild_none, matchPath_nil in E; [done|]. simpl in Hn. repeat constructor; simpl; intros <-; tauto. }
  destruct keys as [|k4 keys].
  - simpl in Hin. repeat destruct Hin as [<-|Hin]; [injection E as <- <-; (split; [done|]); eexists _, _; split; [reflexivity | by split]..|done].
  - rewrite matchPath_step in E. simpl in Hin.
    repeat destruct Hin as [<-|Hin]; [rewrite findChild_none, matchPath_nil in E by (by repeat constructor); done..|done].
Qed.

(** The only redirection for a missing slash is that of the profiling tree. *)
Lemma table_slashed pprof q : HasPrefix q "/" = true -> has_slash_suffix q = false ->
  exactMatch (matchPath (root (buildHTTPMux pprof)) (path_keys (q +:+ "/"))) (q +:+ "/") = true <->
  pprof = true /\ path_keys q = pprof_keys.
Proof.
  intros Hp Hs. pose proof (slashed_keys q Hp Hs) as Hk.
  assert (HasPrefix (q +:+ "/") "/" = true) as Hp'.
  { apply HasPrefix_spec in Hp as [t ->]. by apply HasPrefix_spec; exists (t +:+ "/"). }
  assert (has_slash_suffix (q +:+ "/") = true) as Hs'.
  { rewrite slash_suffix_rooted by done.
    replace (string_drop 1 (q +:+ "/")) with (string_drop 1 q +:+ "/") by (apply HasPrefix_spec in Hp as [t ->]; done).
    by rewrite segments_snoc, last_last. }
  pose proof (table_match pprof (path_keys (q +:+ "/"))) as H. unfold exactMatch. rewrite rooted_count, Hs' by done.
  rewrite Hk, length_app in *. simpl (length ["/"]).
  destruct (matchPath _ _) as [ [p [|name|]]|]; [| | |by destruct (path_keys q)].
  - destruct H as [H _]. by apply (app_inj_tail _ ["__drps"]) in H as [_ [=] ].
  - destruct H as (-> & k & r & H & Hm). destruct (pat_multi p).
    + simpl. rewrite Hm. destruct (path_keys q) as [|k1 [|k2 [|k3 ks] ] ]; simplify_eq/=; [done|].
      rewrite Nat.add_1_r. by split; [|intros [_ [=] ] ].
    + destruct Hm as [Hne ->]. change (pprof_keys ++ [k]) with ((["debug"; "pprof"]) ++ [k]) in H.
      apply app_inj_tail in H as [_ H]. congruence.
  - destruct H as (Hne & -> & Hm & Hd). assert (path_keys q <> []) as Hq by (by apply rooted_keys).
    rewrite Nat.add_1_r. split; [by destruct (path_keys q)|].
    intros [Hpp E]. rewrite E in Hd. by destruct (Hd Hpp "/" []).
Qed.

Lemma table_redirect pprof q : HasPrefix q "/" = true ->
  matchOrRedirect (root (buildHTTPMux pprof)) q true =
    if decide (pprof = true /\ path_keys q = pprof_keys) then inr ()
    else inl (matchPath (root (buildHTTPMux pprof)) (path_keys q)).
Proof.
  intros Hp. unfold matchOrRedirect. rewrite andb_true_r. destruct (has_slash_suffix q) eqn:Hs.
  - rewrite andb_false_r. rewrite decide_False; [done|]. intros [_ E].
    destruct (slash_suffix_keys q Hp Hs) as [ks Ek]. rewrite E in Ek. by apply (app_inj_tail ["debug"]) in Ek as [_ [=] ].
  - rewrite andb_true_r. pose proof (table_slashed pprof q Hp Hs) as Hsl. case_decide as Hd.
    + rewrite (proj2 Hsl Hd), andb_true_r. destruct Hd as [-> ->]. simpl.
      rewrite Hs. destruct (rooted_segments q Hp) as (_ & Hne & _). by rewrite (proj2 (String.eqb_neq _ _)).
    + rewrite (not_true_is_false _ (fun E => Hd (proj1 Hsl E))). by rewrite andb_false_r.
Qed.

(** The segments are not those of the program's own pages. *)
Definition table_target (pprof : bool) (keys : list string) : Prop :=
  keys <> metrics_keys /\ (pprof = true -> take 2 keys <> pprof_keys).

Lemma table_serves pprof q : HasPrefix q "/" = true ->
  (exists p, matchOrRedirect (root (buildHTTPMux pprof)) q true = inl (Some (p, ProxyHandler))) <->
  table_target pprof (path_keys q).
Proof.
  intros Hp. rewrite table_redirect by done. unfold table_target. case_decide as Hd.
  - destruct Hd as [-> ->]. split; [by intros [? ?] | by intros [_ H]; destruct (H eq_refl)].
  - pose proof (table_match pprof (path_keys q)) as H. assert (path_keys q <> []) as Hne.
    { by apply rooted_keys. }
    destruct (matchPath _ _) as [ [p [|name|]]|]; [| | |done].
    + split; [by intros [? ?]|]. destruct H as [-> _]. by intros [? _].
    + split; [by intros [? ?]|]. destruct H as (Hpp & k & r & -> & _). intros [_ H]. by destruct (H Hpp).
    + split; [|by eexists]. intros _. destruct H as (_ & _ & Hm & Hk). split; [done|]. intros Hpp E.
      destruct (path_keys q) as [|k1 [|k2 [|k3 ks] ] ]; try done; injection E as -> ->; [by apply Hd|].
      by apply (Hk Hpp k3 ks).
Qed.

(** The segments of a rooted path, each unescaped. *)
Definition unescaped (p : string) : list string := pathUnescape <$> segments (string_drop 1 p).

(** The keys of the mux are those, up to the slash at the end. *)
Definition same_key (a b : string) : Prop := a = b \/ a = "/" /\ b = "".

Lemma seg_keys_unescaped segs : Forall2 same_key (seg_keys segs) (pathUnescape <$> segs).
Proof.
  induction segs as [|seg [|seg' segs] IH]; [constructor | |constructor; [by left | exact IH] ].
  constructor; [|constructor]. destruct (String.eqb_spec seg "") as [->|]; [by right | by left].
Qed.

Lemma same_keys_eq ks l l' :
  Forall (fun k => k <> "/" /\ k <> "") ks -> Forall2 same_key l l' -> l = ks <-> l' = ks.
Proof.
  intros Hks Hl. revert ks Hks. induction Hl as [|a b l l' Hab _ IH]; intros ks Hks; [done|].
  destruct Hks as [|k ks [Hk Hk'] Hks]; [done|]. specialize (IH ks Hks).
  destruct Hab as [->|[-> ->] ]; split; intros [= ? ?]; f_equal; naive_solver.
Qed.

Lemma table_target_keys pprof p : HasPrefix p "/" = true -> table_target pprof (path_keys p) <-> table_target pprof (unescaped p).
Proof.
  intros Hp. unfold table_target, path_keys, unescaped. destruct (String.eqb_spec p "") as [->|_]; [done|].
  pose proof (seg_keys_unescaped (segments (string_drop 1 p))) as Hk.
  by rewrite (same_keys_eq metrics_keys _ _ ltac:(repeat constructor; done) Hk),
    (same_keys_eq pprof_keys _ _ ltac:(repeat constructor; done) (Forall2_take _ _ _ 2 Hk)).
Qed.

(** A path of the request line that is escaped in a valid way is what the mux
    matches; the handlers see it decoded. *)
Lemma setPath_EscapedPath p u :
  setPath p = Some u -> validEncoded p = true -> HasPrefix p "/" = true -> EscapedPath u = p /\ unescape p = Some (u_Path u).
Proof.
  unfold setPath. destruct (unescape p) as [path|] eqn:E; [|done]. intros [= <-] Hv Hr. split; [|done].
  unfold EscapedPath. cbn [u_Path u_RawPath]. destruct (String.eqb_spec p (escape path)) as [Hp|Hp].
  - simpl. destruct (String.eqb_spec path "*") as [->|]; [|done]. by rewrite Hp in Hr.
  - destruct (String.eqb_spec p "") as [->|]; [by vm_compute in E; simplify_eq|].
    by rewrite Hv, E, String.eqb_refl.
Qed.

(** C23: What the HTTP port serves. The mux hands a request to the proxy exactly
    when its escaped path is clean (that of a CONNECT request need not be) and
    its segments, each unescaped, are not those of the metrics path nor, with
    profiling enabled, below the profiling tree. So percent-encoding does not
    hide the internal paths, and every other path that is not clean is
    redirected and never proxied. The escaped path is the path of the request
    line, when that is validly encoded; the handlers see it decoded, and then
    it may have dot segments that were not cleaned ([/a/%2e%2e/b]). *)
Theorem mux_proxies_iff (pprof connect : bool) (uri : string) (u : URL) (Hp : HasPrefix (EscapedPath u) "/" = true) :
  let answer := mux_serve (buildHTTPMux pprof) (mkMuxRequest connect uri u) in
  let e := EscapedPath u in
  (answer = Serve ProxyHandler <->
     uri <> "*" /\ (connect = true \/ cleanPath e = e) /\ table_target pprof (unescaped e)) /\
  (uri <> "*" -> connect = false -> cleanPath e <> e -> answer = Redirect) /\
  (forall p, setPath p = Some u -> validEncoded p = true -> HasPrefix p "/" = true -> e = p /\ unescape p = Some (u_Path u)).
Proof.
  cbv zeta. unfold mux_serve, findHandler. cbn [mr_RequestURI mr_URL mr_CONNECT].
  split; [|split; [|intros; by apply setPath_EscapedPath] ]; generalize dependent (EscapedPath u); intros p Hp;
    (destruct (String.eqb_spec uri "*") as [->|Hne]; [first [by intros ? | split; [done | by intros [? _] ] ] |]);
    set (q := if connect then p else cleanPath p);
    assert (HasPrefix q "/" = true) as Hq by (subst q; destruct connect; [done | apply cleanPath_rooted]).
  - pose proof (table_serves pprof q Hq) as Hs. rewrite (table_target_keys pprof q Hq) in Hs. destruct (String.eqb_spec q p) as [E|E].
    + rewrite E in *. assert (connect = true \/ cleanPath p = p) as Hc by (destruct connect; auto).
      rewrite <- Hs. destruct (matchOrRedirect _ _ _) as [ [ [p' t]|]|]; simpl.
      * split; [intros [= ->]; eauto | by intros (_ & _ & ? & [= -> ->])].
      * split; [done | by intros (_ & _ & ? & ?)].
      * split; [done | by intros (_ & _ & ? & ?)].
    + simpl. assert (~ (connect = true \/ cleanPath p = p)) as Hc by (subst q; destruct connect; naive_solver).
      split; [by destruct (matchOrRedirect _ _ _) | by intros (_ & ? & _)].
  - intros _ -> Hcl. subst q. cbv iota. rewrite (proj2 (String.eqb_neq _ _) Hcl). by destruct (matchOrRedirect _ _ _).
Qed.

Lemma mux_proxies_iff_witness :
  mux_serve (buildHTTPMux true) (get "/a/%2e%2e/b") = Serve ProxyHandler /\
  mux_serve (buildHTTPMux true) (get "/__drps/%6Detrics") <> Serve ProxyHandler /\
  u_Path (mr_URL (get "/a/%2e%2e/b")) = "/a/../b".
Proof.
  destruct (mux_proxies_iff true false "/a/%2e%2e/b" (mr_URL (get "/a/%2e%2e/b"))) as (H & _ & Hd); [reflexivity|].
  destruct (mux_proxies_iff true false "/__drps/%6Detrics" (mr_URL (get "/__drps/%6Detrics"))) as (H2 & _); [reflexivity|].
  split; [|split].
  - apply H. split; [done|]. split; [right; reflexivity|]. split; vm_compute; done.
  - intros E. apply H2 in E as (_ & _ & Hm & _). apply Hm. reflexivity.
  - destruct (Hd "/a/%2e%2e/b") as [_ E]; [reflexivity..|]. exact (f_equal (default "") (eq_trans (eq_sym E) eq_refl)).
Defined.
