(* ===== verification/Main.v ===== *)
(** * The process: [src/cmd/drps/main.go] and [src/internal/server/metrics.go]

    How the configuration reaches the components and how they are wired: one
    router and one registry shared by the sessions and the HTTP handler. The
    callbacks [OnWorkConn] and [OnControlClose] are in [Registry], the mux in
    [Mux]. [yamux] and the listeners are third-party: the accept loops take
    them as parameters. *)

From S2P Require Import Prelude GoStrings Wire Router Pool Control Registry Crypto.
From S2P Require Import Config Http Mux.
From S2P Require Proxy Server.

(** ** Conversions *)

Definition second : Z := Proxy.second.

(** [time.Duration(n) * time.Second] in 64-bit arithmetic. *)
Definition durationSeconds (n : Z) : Z := wrap64 (n * second).

(** [uint32(n)]. *)
Definition uint32 (n : Z) : Z := n mod 2 ^ 32.

(** ** [openYamuxSession] *)

(** The fields of [yamux.Config] the program sets. *)
Record yamuxConfig := mkYamux {
  MaxStreamWindowSize : Z;
  AcceptBacklog : Z;
  EnableKeepAlive : bool;
  KeepAliveInterval : Z;
  ConnectionWriteTimeout : Z
}.

Definition yamuxConfigOf (appCfg : Config) : yamuxConfig :=
  mkYamux (uint32 (YamuxMaxStreamWindow appCfg)) (YamuxAcceptBacklog appCfg) (YamuxEnableKeepAlive appCfg)
    (durationSeconds (YamuxKeepAliveSeconds appCfg)) (durationSeconds (YamuxWriteTimeoutSec appCfg)).

(** ** [buildServerStack] *)

(** The live objects; the [Router] and the counters are shared by reference
    in the program, here they are the initial states of the server and of the
    HTTP handler. *)
Record serverStack := mkStack {
  ss_router : Router;
  ss_registry : rstate;
  ss_handler : Server.Handler;
  ss_reqStats : ReqWorkConnStats;
  ss_proxyHandler : Proxy.Handler
}.

Definition buildServerStack (pbkdf2_Key : bytes -> bytes -> Z -> Z -> bytes) (cfg : Config) : serverStack :=
  let rt := Router.New in
  let aesKey := DeriveKey pbkdf2_Key (Token cfg) in
  let h := Server.mkHandler (Token cfg) 0 0 true true in
  let p := Proxy.NewHandler rt aesKey in
  let p := if 0 <? ResponseTimeoutSec cfg
           then Proxy.mkHandler (Proxy.h_router p) (Proxy.h_aesKey p) (Proxy.h_WorkConnTimeout p)
                  (durationSeconds (ResponseTimeoutSec cfg))
           else p in
  mkStack rt initR h zeroStats p.

(** ** Accepting: [runFrpcAccept] and [handleFrpcConnection]

    The listener and [yamux] are third-party: TCP connections, sessions and
    streams are abstract, [yamux_Server] opens a session or fails, and
    [AcceptStream] answers with a stream or an error and the session after
    the call. *)

Section accept.
Context {TCP Sess Stream : Type}.
Variable yamux_Server : TCP -> yamuxConfig -> result Sess.
Variable AcceptStream : Sess -> result Stream * Sess.

Definition openYamuxSession (conn : TCP) (appCfg : Config) : result Sess := yamux_Server conn (yamuxConfigOf appCfg).

(** What the goroutine of a connection does besides logging. *)
Inductive connEffect :=
  | CloseTCP (conn : TCP)
  | GoHandleConnection (stream : Stream).

(** The loop over the streams, for [calls] calls of [AcceptStream]: the
    streams dispatched, and whether the goroutine has returned. *)
Fixpoint acceptStreams (calls : nat) (session : Sess) : list connEffect * bool :=
  match calls with
  | O => ([], false)
  | S calls' =>
      match AcceptStream session with
      | (Err _, _) => ([], true)
      | (Ok stream, session') =>
          let '(es, returned) := acceptStreams calls' session' in (GoHandleConnection stream :: es, returned)
      end
  end.

Definition handleFrpcConnection (calls : nat) (conn : TCP) (appCfg : Config) : list connEffect * bool :=
  match openYamuxSession conn appCfg with
  | Err _ => ([CloseTCP conn], true)
  | Ok session => acceptStreams calls session
  end.

(** The connections [runFrpcAccept] starts a goroutine for, given what
    [Accept] answered so far. *)
Fixpoint runFrpcAccept (accepts : list (result TCP)) : list TCP :=
  match accepts with
  | [] => []
  | Err _ :: accepts' => runFrpcAccept accepts'
  | Ok conn :: accepts' => conn :: runFrpcAccept accepts'
  end.
End accept.

(** ** [main] *)

Definition httpReadHeaderTimeout : Z := 60 * second.

Record httpServer := mkHTTPServer {
  Addr : string;
  hs_Handler : list (string * target);
  ReadHeaderTimeout : Z
}.

(** [main] until it serves: [flag.Parse] has ended the process, [log.Fatalf]
    has, or it serves [frpc] on a listener and HTTP with the server. *)
Inductive started :=
  | Usage
  | Fatal (msg : string)
  | Serving (stack : serverStack) (frpcAddr : string) (srv : httpServer).

Definition main (pbkdf2_Key : bytes -> bytes -> Z -> Z -> bytes) (listen : string -> result unit)
    (args : list string) (Getenv : string -> string) : started :=
  match Load args Getenv with
  | None => Usage
  | Some cfg =>
      let stack := buildServerStack pbkdf2_Key cfg in
      let mux := buildHTTPMux (String.eqb (Getenv "DRPS_PPROF") "1") in
      match listen (FrpcAddr cfg) with
      | Err e => Fatal ("frpc listen: " +:+ e)
      | Ok _ => Serving stack (FrpcAddr cfg) (mkHTTPServer (HTTPAddr cfg) mux httpReadHeaderTimeout)
      end
  end.

(** ** The HTTP handler's view of the registry *)

(** The [poolLookup] closure. *)
Definition poolLookup (s : rstate) (runID : string) : option ref := Registry.Get s runID.

(** [Get] of a pool with an idle connection, or whose wait ends without
    one. *)
Definition poolGet {C} (conns : Conn -> C) (s : rstate) (p : ref) (timeout : Z) : result C :=
  match objs s !! p with
  | Some o =>
      match snd (Take o) with
      | Some c => Ok (conns c)
      | None => Err (if p_closed o then "pool closed" else "get work conn timeout")
      end
  | None => Err "pool closed"
  end.

(** ** The metrics endpoint: [metrics.go] *)

Record Snapshot := mkSnapshot {
  Timestamp : Z;
  ReqWorkConn : ReqWorkConnSnapshot;
  PoolStats : AggregateStats
}.

(** [MetricsHandler]: the snapshot it encodes, at time [now], for possibly
    nil counters and aggregation function. *)
Definition MetricsHandler (reqStats : option ReqWorkConnStats) (poolAgg : option AggregateStats) (now : Z) : Snapshot :=
  mkSnapshot now
    (match reqStats with Some s => Control.Snapshot (Some s) | None => mkRSnap 0 0 0 0 0 end)
    (match poolAgg with Some a => a | None => mkAgg 0 0 0 0 0 0 end).
