(* ===== verification/MainSpec.v ===== *)
(** * What the wiring promises *)

From S2P Require Import Prelude GoStrings Json Wire Router Pool Control Registry RegistrySpec.
From S2P Require Import Bufio Streams Aes Crypto Wrap WrapSpec Http Proxy Config Main.

(** ** Conversions *)

Lemma uint32_exact n : 0 <= n -> uint32 n = n <-> n < 2 ^ 32.
Proof. intros Hn. unfold uint32. rewrite Z.mod_small_iff by done. lia. Qed.

Lemma durationSeconds_exact n : 0 <= n < two63 -> durationSeconds n = n * Main.second <-> n <= 9223372036.
Proof.
  intros Hn. unfold durationSeconds, Main.second, Proxy.second. split.
  - intros E. pose proof (wrap64_range (n * 1000000000)) as Hr. unfold int64_ok, two63 in *. rewrite E in Hr. lia.
  - intros Hb. apply wrap64_id. unfold int64_ok, two63. lia.
Qed.

(** C22: Configured values reach yamux and the proxy unchanged exactly within
    these bounds: stream windows below 2^32 bytes, intervals and timeouts of
    at most 9223372036 seconds. [Load] accepts values beyond them: a window of
    2^32 becomes 0, and a response timeout of 9223372037 seconds becomes
    negative, that is none. *)
Theorem conversions_exact (pbkdf2_Key : bytes -> bytes -> Z -> Z -> bytes) (c : Config) (Hv : valid c) :
  (MaxStreamWindowSize (yamuxConfigOf c) = YamuxMaxStreamWindow c <-> YamuxMaxStreamWindow c < 2 ^ 32) /\
  (KeepAliveInterval (yamuxConfigOf c) = YamuxKeepAliveSeconds c * Main.second <-> YamuxKeepAliveSeconds c <= 9223372036) /\
  (ConnectionWriteTimeout (yamuxConfigOf c) = YamuxWriteTimeoutSec c * Main.second <-> YamuxWriteTimeoutSec c <= 9223372036) /\
  (h_ResponseTimeout (ss_proxyHandler (buildServerStack pbkdf2_Key c)) = ResponseTimeoutSec c * Main.second
     <-> ResponseTimeoutSec c <= 9223372036) /\
  (YamuxMaxStreamWindow c = 2 ^ 32 -> MaxStreamWindowSize (yamuxConfigOf c) = 0) /\
  (ResponseTimeoutSec c = 9223372037 -> h_ResponseTimeout (ss_proxyHandler (buildServerStack pbkdf2_Key c)) < 0).
Proof.
  destruct Hv as [_ Ht _ Hk Hw Hs]. split_and!.
  - apply uint32_exact. lia.
  - apply durationSeconds_exact. lia.
  - apply durationSeconds_exact. lia.
  - unfold buildServerStack. cbn [ss_proxyHandler]. destruct (Z.ltb_spec 0 (ResponseTimeoutSec c)).
    + apply durationSeconds_exact. lia.
    + replace (ResponseTimeoutSec c) with 0 by lia. done.
  - simpl. by intros ->.
  - unfold buildServerStack. cbn [ss_proxyHandler]. by intros ->.
Qed.

Definition demo_big_env (name : string) : string :=
  if String.eqb name "DRPS_RESPONSE_TIMEOUT_SEC" then "9223372037"
  else if String.eqb name "DRPS_YAMUX_MAX_STREAM_WINDOW" then "4294967296" else "".

Lemma conversions_exact_witness :
  exists c, Load [] demo_big_env = Some c /\ MaxStreamWindowSize (yamuxConfigOf c) = 0 /\
    h_ResponseTimeout (ss_proxyHandler (buildServerStack (fun _ _ _ _ => []) c)) < 0.
Proof.
  assert (Hv : valid (applyEnv demo_big_env defaultConfig)) by (apply applyEnv_valid, valid_default).
  destruct (conversions_exact (fun _ _ _ _ => []) _ Hv) as (_ & _ & _ & _ & Hw & Ht).
  exists (applyEnv demo_big_env defaultConfig). split; [reflexivity|].
  split; [apply Hw | apply Ht]; vm_compute; reflexivity.
Defined.

(** ** Accepting *)

(** An error of [Accept] costs one round of the loop and no connection. *)
Lemma runFrpcAccept_ok {TCP} (accepts : list (result TCP)) :
  runFrpcAccept accepts = omap (fun r => match r with Ok c => Some c | Err _ => None end) accepts.
Proof. induction accepts as [|[c|e] accepts IH]; simpl; [done | by rewrite IH | done]. Qed.

Section accept.
Context {TCP Sess Stream : Type}.
Variable yamux_Server : TCP -> yamuxConfig -> result Sess.
Variable AcceptStream : Sess -> result Stream * Sess.

(** The session after the calls that answered with these streams. *)
Inductive accepted : Sess -> list Stream -> Sess -> Prop :=
  | accepted_nil s : accepted s [] s
  | accepted_cons s st s1 sts s2 : AcceptStream s = (Ok st, s1) -> accepted s1 sts s2 -> accepted s (st :: sts) s2.

(** Every stream is dispatched once, in order, until the first error, which
    ends the goroutine; the connection is only closed when no session could be
    opened. *)
Lemma handleFrpcConnection_spec (calls : nat) conn cfg :
  let run := handleFrpcConnection yamux_Server AcceptStream calls conn cfg in
  match openYamuxSession yamux_Server conn cfg with
  | Err _ => run = ([CloseTCP conn], true)
  | Ok s => exists sts s', accepted s sts s' /\
      (length sts = calls /\ run = (GoHandleConnection <$> sts, false) \/
       (length sts < calls)%nat /\ (exists e s2, AcceptStream s' = (Err e, s2)) /\
       run = (GoHandleConnection <$> sts, true))
  end.
Proof.
  cbv zeta. unfold handleFrpcConnection. destruct (openYamuxSession _ _ _) as [s|e]; [|done].
  revert s; induction calls as [|calls IH]; intros s; simpl.
  - exists [], s. split; [constructor|]. by left.
  - destruct (AcceptStream s) as [ [st|e] s1] eqn:E.
    + destruct (IH s1) as (sts & s' & Ha & [ [Hl ->]|(Hl & He & ->) ]); exists (st :: sts), s';
        (split; [by econstructor|]); [left|right]; simpl; split_and!; try done; lia.
    + exists [], s. split; [constructor|]. right. split_and!; [simpl; lia | by eexists _, _ | done].
Qed.
End accept.

(** ** From a work connection to a request *)

Section data_path.
Context {W R Z Zr : Type} `{WriterSpec W, ReaderSpec R}.
Context `{!SnappyWriter (ioWriter W) Z, !SnappyReader (ioReader R) Zr, !Reader Zr}.
Variable conns : Conn -> netConn W R.

(** C17: A work connection serves the requests of its session, and only those.
    After a client of a session delivers a work connection whose pool is
    empty, a dial for any route of that session wraps exactly that connection;
    the pools of the other sessions are as before. *)
Theorem work_conn_reaches_request (s : rstate) (cap : BinInt.Z) (c : Conn) (cfg : RouteConfig)
    (h : Proxy.Handler) pooled random now (Hok : registry_ok s)
    (Hempty : forall p o, poolLookup s (rc_RunID cfg) = Some p -> objs s !! p = Some o -> p_conns o = [] /\ 0 < p_cap o) :
  let s1 := fst (OnWorkConn cap s (rc_RunID cfg) c) in
  dialWorkConn (Z := Z) (Zr := Zr) h (poolLookup s1) (poolGet conns s1) pooled random now (Some cfg) =
    match Wrap (Z := Z) (Zr := Zr) pooled (conns c) (h_aesKey h) (rc_ProxyName cfg) (rc_UseEncryption cfg)
            (rc_UseCompression cfg) random with
    | None => None
    | Some (inr (conn, e)) => Some (DialFailed (WrapErr e) (Some (closeConn conn)))
    | Some (inl w) => Some (Dialed (if 0 <? h_ResponseTimeout h then SetDeadline w (now + h_ResponseTimeout h) else w))
    end /\
  forall runID, runID <> rc_RunID cfg -> poolLookup s1 runID = poolLookup s runID /\
    forall p, poolLookup s runID = Some p -> objs s1 !! p = objs s !! p.
Proof.
  set (run := rc_RunID cfg) in *. cbv zeta.
  destruct (GetOrCreate s run [cap]) as [s0 p] eqn:Eg.
  destruct (GetOrCreate_ok _ _ _ _ _ Hok Eg) as (Hok0 & Hp & _ & o & Ho & (Hc1 & Hc2 & Hc3) & Hother).
  assert (Hroom : p_conns o = [] /\ 0 < p_cap o /\ forall q, (q < length (objs s))%nat -> objs s0 !! q = objs s !! q).
  { unfold GetOrCreate in Eg. fold (Registry.Get s run) in Eg. destruct (Registry.Get s run) as [q|] eqn:E; simplify_eq.
    - by destruct (Hempty p o E Ho).
    - simpl in Ho. rewrite lookup_app_r, Nat.sub_diag in Ho by lia. simplify_eq/=. split; [done|]. split.
      + simpl. case_match; [by apply Z.ltb_lt | reflexivity].
      + intros q Hq. simpl. by rewrite lookup_app_l. }
  destruct Hroom as (Hnil & Hcap & Hold).
  unfold OnWorkConn. fold run. rewrite Eg, Ho. unfold Put. rewrite Hc1, Hnil. cbn [length].
  rewrite (proj2 (Z.ltb_lt _ _)) by lia. cbn [fst]. split.
  - unfold dialWorkConn, routeFromCtx, poolLookup, Registry.Get. cbn [reg]. fold run. fold (Registry.Get s0 run).
    rewrite Hp. unfold poolGet. cbn [objs]. rewrite list_lookup_insert_eq by (by eapply lookup_lt_Some).
    unfold Take. cbn. rewrite Hc1. done.
  - intros run' Hne. split; [by apply Hother|]. intros q Hq. cbn [objs].
    pose proof (ro_dom _ Hok _ _ Hq). rewrite list_lookup_insert_ne; [by apply Hold|]. intros ->.
    apply Hne, (ro_inj _ Hok0 _ _ q); [|done]. by rewrite Hother.
Qed.
End data_path.

Lemma work_conn_reaches_request_witness :
  exists c : demoWrapped, dialWorkConn (Proxy.mkHandler Router.New demo_key 10 5)
      (poolLookup (fst (OnWorkConn 4 initR "run-A" 7%nat))) (poolGet (fun _ => demo_conn) (fst (OnWorkConn 4 initR "run-A" 7%nat)))
      [] (Ok demo_iv) 100 (Some (mkRouteConfig "a.com" "/" "web" "run-A" true true "" "" "" ∅ ∅)) = Some (Dialed c).
Proof.
  destruct (work_conn_reaches_request (Z := storeWriter (ioWriter memConn)) (Zr := ioReader memStream)
    (fun _ => demo_conn) initR 4 7%nat (mkRouteConfig "a.com" "/" "web" "run-A" true true "" "" "" ∅ ∅)
    (Proxy.mkHandler Router.New demo_key 10 5) [] (Ok demo_iv) 100) as [E _].
  - split; unfold Registry.Get; simpl; intros *; rewrite ?lookup_empty; done.
  - intros p o Hp. by vm_compute in Hp.
  - eexists. etrans; [exact E|]. reflexivity.
Defined.
