(* ===== verification/System.v ===== *)
(** * The whole process: sessions, registry and HTTP data path together

    [buildServerStack] of [src/cmd/drps/main.go] gives the sessions
    ([Server]), the pool registry ([Registry]) and the HTTP handler
    ([Transport]) one router and one registry. A step of the process is a
    step of one of them, with the callbacks between them: [OnWorkConn] puts a
    delivered connection into the pool of its run ID, [OnControlClose] removes
    the pool. A dial of the transport runs [dialWorkConn] of
    [src/internal/proxy/proxy.go], whose three calls are steps of their own:
    looking the pool up, [Get], and [Wrap], which may never return. *)

From S2P Require Import Prelude GoStrings Json Msg Wire Bufio Pool Router.
From S2P Require Import Streams Crypto Wrap Registry Main Server Http Proxy.
From S2P Require Import Transport.

(** Where the goroutine of a dial is once it has found its pool: in [Get] of
    that pool, or in [Wrap] of the connection it got. *)
Inductive dphase :=
  | PGet (p : ref)
  | PWrap (c : Conn).

Section process.
Context {W : Type} `{Writer W}.
Context {Wc R Zw Zr : Type} `{Writer Wc, Reader R}.
Context `{!SnappyWriter (ioWriter Wc) Zw, !SnappyReader (ioReader R) Zr, !Reader Zr}.
(** The work connections as they are delivered. *)
Variable conns : Conn -> netConn Wc R.
(** The sessions' handler and [cfg.PoolCapacity]. *)
Variable h : Server.Handler.
Variable poolCapacity : Z.

Record drps := mkDrps {
  d_server : server W;
  d_registry : rstate;
  d_px : px;
  d_dials : gmap nat dphase
}.

(** The state [buildServerStack] makes. *)
Definition initDrps (stack : serverStack) : drps :=
  mkDrps (initServer (Some (ss_router stack)) (Some (ss_reqStats stack))) (ss_registry stack)
    (initPx (ss_proxyHandler stack)) ∅.

Inductive dlabel :=
  | DServer (l : glabel)
  | DWork (runID : string) (c : Conn)
  | DHttp (e : event)
  | DLookup (k : nat)
  | DGet (k : nat) (c : Conn)
  | DDial (k : nat) (c : Conn)
  | DFail (k : nat).

(** The HTTP handler looks routes up in the sessions' router. *)
Definition shareRouter (p : px) (g : server W) : px :=
  match g_router g with Some r => setRouter p r | None => p end.

(** What the callbacks of [buildServerStack] do to the registry. *)
Definition callback (rs : rstate) (l : glabel) : rstate :=
  match l with GOnControlClose runID => fst (OnControlClose rs runID) | _ => rs end.

Definition is_workConn (l : glabel) : bool := match l with GOnWorkConn _ => true | _ => false end.

(** The events that only concern the HTTP side; routes change by steps of
    the sessions, and dials end by steps of [dialWorkConn]. *)
Definition http_event (e : event) : bool :=
  match e with EvAdd _ | EvRemove _ | EvDialed _ _ | EvDialErr _ => false | _ => true end.

(** The route in the context of a dial in progress. *)
Definition dial_route (p : px) (k : nat) : option RouteConfig :=
  match open_dial p k with Some (_, f) => routeFromCtx (rq_ctx (f_req f)) | None => None end.

(** [Wrap] of the dialed connection for the route. *)
Definition dial_wrap (p : px) (cfg : RouteConfig) (c : Conn) (pooled : bytes) (random : result bytes)
    : option (wrapped Wc R Zw Zr + (netConn Wc R * string)) :=
  Wrap pooled (conns c) (h_aesKey (px_h p)) (rc_ProxyName cfg) (rc_UseEncryption cfg) (rc_UseCompression cfg) random.

Inductive dstep : drps -> dlabel -> drps -> Prop :=
  | ds_server g rs p m l g' :
      gstep h g l g' -> is_workConn l = false ->
      dstep (mkDrps g rs p m) (DServer l) (mkDrps g' (callback rs l) (shareRouter p g') m)
  | ds_work g rs p m w c g' :
      gstep h g (GOnWorkConn w) g' ->
      dstep (mkDrps g rs p m) (DWork (nw_RunID w) c)
        (mkDrps g' (fst (OnWorkConn poolCapacity rs (nw_RunID w) c)) (shareRouter p g') m)
  | ds_http g rs p m e p' :
      http_event e = true -> pstep p e = Some p' ->
      dstep (mkDrps g rs p m) (DHttp e) (mkDrps g rs p' m)
  (* the pool of the route's session is looked up; there may be none *)
  | ds_lookup g rs p m k cfg q :
      m !! k = None -> dial_route p k = Some cfg -> poolLookup rs (rc_RunID cfg) = Some q ->
      dstep (mkDrps g rs p m) (DLookup k) (mkDrps g rs p (<[k := PGet q]> m))
  | ds_noPool g rs p m k cfg p' :
      m !! k = None -> dial_route p k = Some cfg -> poolLookup rs (rc_RunID cfg) = None ->
      pstep p (EvDialErr k) = Some p' ->
      dstep (mkDrps g rs p m) (DFail k) (mkDrps g rs p' m)
  (* [Get] takes a connection, or ends without: time out, or pool closed *)
  | ds_get g rs p m k q c rs' :
      m !! k = Some (PGet q) -> rstep poolCapacity rs (OpTake q) = (rs', [], Some c) ->
      dstep (mkDrps g rs p m) (DGet k c) (mkDrps g rs' p (<[k := PWrap c]> m))
  | ds_noConn g rs p m k q p' :
      m !! k = Some (PGet q) -> pstep p (EvDialErr k) = Some p' ->
      dstep (mkDrps g rs p m) (DFail k) (mkDrps g rs p' (delete k m))
  (* [Wrap] succeeds, or fails and the connection is closed *)
  | ds_wrapped g rs p m k c cfg pooled random w p' :
      m !! k = Some (PWrap c) -> dial_route p k = Some cfg -> dial_wrap p cfg c pooled random = Some (inl w) ->
      pstep p (EvDialed k c) = Some p' ->
      dstep (mkDrps g rs p m) (DDial k c) (mkDrps g rs p' (delete k m))
  | ds_wrapErr g rs p m k c cfg pooled random e p' :
      m !! k = Some (PWrap c) -> dial_route p k = Some cfg -> dial_wrap p cfg c pooled random = Some (inr e) ->
      pstep p (EvDialErr k) = Some p' ->
      dstep (mkDrps g rs p m) (DFail k) (mkDrps g rs p' (delete k m)).

(** One scheduling decision, and the execution a schedule drives. *)
Inductive dchoice :=
  | DcServer (c : gchoice (W := W))
  | DcWork (m : NewWorkConn) (c : Conn)
  | DcHttp (e : event)
  | DcLookup (k : nat)
  | DcGet (k : nat)
  | DcTimeout (k : nat)
  | DcWrap (k : nat) (pooled : bytes) (random : result bytes).

Definition sched_dial (d : drps) (c : dchoice) : option (dlabel * drps) :=
  let '(mkDrps g rs p m) := d in
  match c with
  | DcLookup k =>
      match m !! k, dial_route p k with
      | None, Some cfg =>
          match poolLookup rs (rc_RunID cfg) with
          | Some q => Some (DLookup k, mkDrps g rs p (<[k := PGet q]> m))
          | None => match pstep p (EvDialErr k) with Some p' => Some (DFail k, mkDrps g rs p' m) | None => None end
          end
      | _, _ => None
      end
  | DcGet k =>
      match m !! k with
      | Some (PGet q) =>
          match rstep poolCapacity rs (OpTake q) with
          | (rs', [], Some c) => Some (DGet k c, mkDrps g rs' p (<[k := PWrap c]> m))
          | _ => None
          end
      | _ => None
      end
  | DcTimeout k =>
      match m !! k, pstep p (EvDialErr k) with
      | Some (PGet _), Some p' => Some (DFail k, mkDrps g rs p' (delete k m))
      | _, _ => None
      end
  | DcWrap k pooled random =>
      match m !! k, dial_route p k with
      | Some (PWrap c), Some cfg =>
          match dial_wrap p cfg c pooled random with
          | Some (inl _) =>
              match pstep p (EvDialed k c) with Some p' => Some (DDial k c, mkDrps g rs p' (delete k m)) | None => None end
          | Some (inr _) =>
              match pstep p (EvDialErr k) with Some p' => Some (DFail k, mkDrps g rs p' (delete k m)) | None => None end
          | None => None
          end
      | _, _ => None
      end
  | _ => None
  end.

Definition dsched_step (d : drps) (c : dchoice) : option (dlabel * drps) :=
  let '(mkDrps g rs p m) := d in
  match c with
  | DcServer c =>
      match gsched_step h g c with
      | Some (l, g') =>
          if is_workConn l then None
          else Some (DServer l, mkDrps g' (callback rs l) (shareRouter p g') m)
      | None => None
      end
  | DcWork w c =>
      match HandleConnection h (inr (MNewWorkConn w)) [] true with
      | ([], FWorkConn w') =>
          Some (DWork (nw_RunID w') c,
                mkDrps g (fst (OnWorkConn poolCapacity rs (nw_RunID w') c)) (shareRouter p g) m)
      | _ => None
      end
  | DcHttp e =>
      if http_event e then
        match pstep p e with Some p' => Some (DHttp e, mkDrps g rs p' m) | None => None end
      else None
  | _ => sched_dial d c
  end.

Fixpoint dsched_run (d : drps) (cs : list dchoice) : option (list dlabel * drps) :=
  match cs with
  | [] => Some ([], d)
  | c :: cs' =>
      match dsched_step d c with
      | Some (l, d1) =>
          match dsched_run d1 cs' with Some (tr, d2) => Some (l :: tr, d2) | None => None end
      | None => None
      end
  end.

Lemma sched_dial_sound d c l d' : sched_dial d c = Some (l, d') -> dstep d l d'.
Proof.
  destruct d as [g rs p m], c as [|w c|e|k|k|k|k pooled random]; cbn [sched_dial]; intros Hs; try done.
  - destruct (m !! k) eqn:Em; [done|]. destruct (dial_route p k) as [cfg|] eqn:Er; [|done].
    destruct (poolLookup _ _) as [q|] eqn:Eq; [simplify_eq; by eapply ds_lookup|].
    destruct (pstep p _) as [p'|] eqn:Ep; simplify_eq. by eapply ds_noPool.
  - destruct (m !! k) as [ [q|]|] eqn:Em; [|done..].
    destruct (rstep poolCapacity rs (OpTake q)) as [ [rs' cl] [c|] ] eqn:Et; [|by destruct cl].
    destruct cl; simplify_eq. by eapply ds_get.
  - destruct (m !! k) as [ [q|]|] eqn:Em; [|done..]. destruct (pstep p _) as [p'|] eqn:Ep; simplify_eq. by eapply ds_noConn.
  - destruct (m !! k) as [ [|c]|] eqn:Em; [done| |done]. destruct (dial_route p k) as [cfg|] eqn:Er; [|done].
    destruct (dial_wrap _ _ _ _ _) as [ [w|e]|] eqn:Ew; [| |done].
    + destruct (pstep p _) as [p'|] eqn:Ep; simplify_eq. by eapply ds_wrapped.
    + destruct (pstep p _) as [p'|] eqn:Ep; simplify_eq. by eapply ds_wrapErr.
Qed.

Lemma dsched_step_sound d c l d' : dsched_step d c = Some (l, d') -> dstep d l d'.
Proof.
  destruct d as [g rs p m], c as [c|w c|e|k|k|k|k pooled random]; try apply sched_dial_sound; simpl; intros Hs.
  - destruct (gsched_step h g c) as [ [l0 g']|] eqn:E; [|done]. destruct (is_workConn l0) eqn:El; simplify_eq.
    constructor; [by eapply gsched_step_sound | done].
  - destruct (h_OnWorkConn h) eqn:E; simplify_eq. constructor.
    eapply (gs_workConn _ _ (inr (MNewWorkConn w)) []). simpl. by rewrite E.
  - destruct (http_event e) eqn:E; [|done]. destruct (pstep p e) as [p'|] eqn:Ep; simplify_eq. by constructor.
Qed.

Lemma dsched_run_sound d cs tr d' : dsched_run d cs = Some (tr, d') -> exec dstep d tr d'.
Proof.
  revert d tr; induction cs as [|c cs IH]; intros d tr E; simplify_eq/=; [constructor|].
  destruct (dsched_step d c) as [ [l d1]|] eqn:Es; [|done].
  destruct (dsched_run d1 cs) as [ [tr' d2]|] eqn:Er; simplify_eq.
  econstructor; [by eapply dsched_step_sound | by apply IH].
Qed.
End process.
Arguments drps _ : clear implicits.
