(* ===== verification/SystemSpec.v ===== *)
(** * What the whole process promises

    A request only ever travels on a work connection that was delivered for a
    run ID of an authenticated session, every work connection is in one place
    at a time, and a connection that waits reaches a request. *)

From S2P Require Import Prelude GoStrings Json Msg Wire WireSpec Auth Bufio Control.
From S2P Require Import Pool Router RouterSpec ControlWriter ControlWriterSpec ProxyRegister.
From S2P Require Import Server ServerProofs ServerSpec Teardown Registry RegistrySpec.
From S2P Require Import Streams Aes Crypto Wrap WrapSpec Config Main.
From S2P Require Import Http Proxy Transport TransportSpec System.

(** ** Dials *)

(** Dial [k] was started for a request with the route. *)
Definition dial_of (p : px) (k : nat) (cfg : RouteConfig) : Prop :=
  exists dl f, px_dials p !! k = Some dl /\ px_flights p !! dl_flight dl = Some f /\ rq_ctx (f_req f) = Some cfg.

Lemma dial_route_of p k cfg : dial_route p k = Some cfg -> dial_of p k cfg.
Proof.
  unfold dial_route. destruct (open_dial p k) as [ [d f]|] eqn:E; [|done].
  apply open_dial_Some in E as (Hd & _ & Hf). intros Hr. by exists d, f.
Qed.

Lemma dial_of_det p k cfg cfg' : dial_of p k cfg -> dial_of p k cfg' -> cfg = cfg'.
Proof. intros (d & f & H1 & H2 & H3) (d' & f' & H1' & H2' & H3'). congruence. Qed.

Lemma dial_of_le p p' k cfg : px_le p p' -> dial_of p k cfg -> dial_of p' k cfg.
Proof.
  intros [HF HD] (d & f & (d' & Hd' & Ed)%HD & (f' & Hf' & Ef)%HF & H3). exists d', f'.
  rewrite Ed, Ef. done.
Qed.

(** The connections dials have taken and not yet wrapped. *)
Definition phase_ids (ph : dphase) : list Conn := match ph with PWrap c => [c] | PGet _ => [] end.
Definition wrapping (m : gmap nat dphase) : list Conn := map_to_list m ≫= fun kp => phase_ids (snd kp).

Lemma wrapping_insert m k ph : m !! k = None -> wrapping (<[k := ph]> m) ≡ₚ phase_ids ph ++ wrapping m.
Proof. intros Hk. unfold wrapping. by rewrite map_to_list_insert. Qed.

Lemma wrapping_delete m k ph : m !! k = Some ph -> wrapping m ≡ₚ phase_ids ph ++ wrapping (delete k m).
Proof. intros Hk. rewrite <- (insert_delete_id m k ph Hk) at 1. apply wrapping_insert, lookup_delete_eq. Qed.

(** A request that has just arrived asks for a connection: it gets the idle
    one that is taken, or the next connection its dial returns. *)
Lemma new_request_served (p : px) (f : flight) :
  f_state f = Asking ->
  let p1 := getConn (setFlights p (px_flights p ++ [f])) (length (px_flights p)) f in
  let k := length (px_dials p) in
  match take_last (has_key (o_URLHost (f_out f))) (px_idle p) with
  | Some (idle, others) => px_flights p1 = px_flights p ++ [move f (Carried idle true)] /\ px_idle p1 = others
  | None => forall c route, rq_ctx (f_req f) = Some route ->
      dial_route p1 k = rq_ctx (f_req f) /\ px_h p1 = px_h p /\ exists p2, pstep p1 (EvDialed k c) = Some p2 /\
      px_flights p2 = px_flights p ++ [move f (Carried (mkPC c (o_URLHost (f_out f)) route) false)] /\ px_idle p2 = px_idle p
  end.
Proof.
  intros Hf p1 k. unfold p1, getConn. cbn [setFlights px_idle].
  assert (forall g : flight, <[length (px_flights p) := g]> (px_flights p ++ [f]) = px_flights p ++ [g]) as Hset.
  { intros g. by rewrite insert_app_r_alt, Nat.sub_diag by lia. }
  destruct (take_last _ _) as [ [idle others]|]; [simpl; by rewrite Hset|]. intros c route Hr.
  set (p2 := setDials _ _). assert (open_dial p2 k = Some (mkDial (length (px_flights p)) false, move f (Waiting k))) as Hd.
  { unfold open_dial, p2. simpl. rewrite list_lookup_middle by done. cbn [dl_over dl_flight]. by rewrite Hset, list_lookup_middle. }
  unfold dial_route. cbn [pstep]. rewrite Hd. cbn [move f_req dl_flight f_out waits f_state]. rewrite Hr. cbn [routeFromCtx].
  rewrite Nat.eqb_refl. split_and!; [done..|]. eexists. split_and!; [done| |done].
  simpl. by rewrite list_insert_insert_eq, Hset.
Qed.

Section process.
Context {W : Type} `{Writer W}.
Context {Wc R Zw Zr : Type} `{Writer Wc, Reader R}.
Context `{!SnappyWriter (ioWriter Wc) Zw, !SnappyReader (ioReader R) Zr, !Reader Zr}.
Variable conns : Conn -> netConn Wc R.
Variable h : Server.Handler.
Variable poolCapacity : Z.
Implicit Types (g : server W) (d : drps W) (tr : list dlabel).

(** A session has the run ID. *)
Definition known g (runID : string) : Prop := exists i s, g_sessions g !! i = Some s /\ ss_runID s = runID.

(** The work connections delivered. *)
Definition work_ids tr : list Conn := tr ≫= fun l => match l with DWork _ c => [c] | _ => [] end.

Definition req_ok g (q : Request) : Prop := exists cfg, rq_ctx q = Some cfg /\ known g (rc_RunID cfg).

(** A connection of the transport was dialed under the key of its route, for
    a session, with a work connection delivered for it. *)
Definition conn_from g tr (c : pconn) : Prop :=
  pc_key c = routeDialKey (pc_route c) /\ known g (rc_RunID (pc_route c)) /\
  DWork (rc_RunID (pc_route c)) (pc_id c) ∈ tr.

(** A dial waits at the pool of its route's session, which keeps its
    reference, or holds a connection delivered for that session. *)
Definition phase_ok tr (rs : rstate) (p : px) (k : nat) (ph : dphase) : Prop :=
  exists cfg, dial_of p k cfg /\
    match ph with
    | PGet q => (q < length (objs rs))%nat /\ forall a, Registry.Get rs a = Some q -> a = rc_RunID cfg
    | PWrap c => DWork (rc_RunID cfg) c ∈ tr
    end.

Record sys_ok tr d : Prop := {
  so_auth : auth_inv h (d_server d);
  so_router : g_router (d_server d) = Some (h_router (px_h (d_px d)));
  so_registry : registry_ok (d_registry d);
  so_pools : forall a c, pool_has (d_registry d) a c -> DWork a c ∈ tr;
  so_data : data_ok (req_ok (d_server d)) (conn_from (d_server d) tr) (d_px d);
  so_dials : map_Forall (phase_ok tr (d_registry d) (d_px d)) (d_dials d);
  so_once : held (d_registry d) ++ wrapping (d_dials d) ++ all_ids (d_px d) ⊆+ work_ids tr
}.

(** ** What steps keep *)

Lemma known_step g l g' a : gstep h g l g' -> known g a -> known g' a.
Proof.
  intros Hs (i & s & Hi & E). destruct (step_identity _ _ _ _ Hs _ _ Hi) as (s' & Hi' & E' & _).
  exists i, s'. split; [done|]. by rewrite E'.
Qed.

Lemma step_has_router g l g' r : auth_inv h g -> gstep h g l g' -> g_router g = Some r -> exists r', g_router g' = Some r'.
Proof.
  intros Ha Hs Hr. destruct (step_router _ _ _ _ Hs) as [|name|i s m Hi]; rewrite Hr; [by eexists..|].
  destruct (handleNewProxy_owner r m (ss_runID s) (ss_proxies s) (ai_router _ _ Ha _ Hr)) as (r' & E & _). by exists r'.
Qed.

Lemma data_step g g' tr l p :
  (forall a, known g a -> known g' a) -> data_ok (req_ok g) (conn_from g tr) p ->
  data_ok (req_ok g') (conn_from g' (tr ++ [l])) p.
Proof.
  intros Hk. apply data_ok_mono.
  - intros q (cfg & Hq & Ha). exists cfg. auto.
  - intros c (H1' & H2 & H3). split_and!; [done | auto | set_solver].
Qed.

Lemma phase_step tr l rs rs' p p' k ph :
  refs_le rs rs' -> px_le p p' -> phase_ok tr rs p k ph -> phase_ok (tr ++ [l]) rs' p' k ph.
Proof.
  intros [Hl Hg] Hp (cfg & Hd & Hph). exists cfg. split; [by eapply dial_of_le|].
  destruct ph as [q|c]; [|set_solver]. destruct Hph as [Hq Ha]. split; [lia|]. eauto.
Qed.

Lemma phases_step tr l rs rs' p p' (m : gmap nat dphase) :
  refs_le rs rs' -> px_le p p' -> map_Forall (phase_ok tr rs p) m -> map_Forall (phase_ok (tr ++ [l]) rs' p') m.
Proof. intros Hr Hp Hm k ph Hk. by eapply phase_step, Hm. Qed.

(** ** The invariant *)

(** The registry and the sessions move; the HTTP side only sees the new
    routing table. *)
Lemma sys_ok_server tr d g' rs' l lg :
  sys_ok tr d -> gstep h (d_server d) lg g' -> registry_ok rs' -> refs_le (d_registry d) rs' ->
  (forall a c, pool_has rs' a c -> pool_has (d_registry d) a c \/ l = DWork a c) ->
  held rs' ⊆+ held (d_registry d) ++ work_ids [l] ->
  sys_ok (tr ++ [l]) (mkDrps g' rs' (shareRouter (d_px d) g') (d_dials d)).
Proof.
  intros [Ha Hr Hreg Hp Hd Hm Ho] Hs Hreg' Hrefs Hhas Hheld.
  destruct (step_has_router _ _ _ _ Ha Hs Hr) as [r' Hr'].
  assert (shareRouter (d_px d) g' = Transport.setRouter (d_px d) r') as -> by (unfold shareRouter; by rewrite Hr').
  split; cbn [d_server d_registry d_px d_dials].
  - by eapply auth_inv_step.
  - done.
  - done.
  - intros a c [Hc| ->]%Hhas; set_solver.
  - apply (data_step _ g' _ l) in Hd; [exact Hd | intros a; by eapply known_step].
  - eapply phases_step; [exact Hrefs | | exact Hm]. by split; intros ? x ?; exists x.
  - change (all_ids (Transport.setRouter (d_px d) r')) with (all_ids (d_px d)).
    unfold work_ids in *. rewrite bind_app. etrans; [apply submseteq_app; [exact Hheld | reflexivity]|].
    etrans; [|apply submseteq_app; [exact Ho | reflexivity] ]. apply Permutation_submseteq. solve_Permutation.
Qed.

(** An event of the HTTP side, if any, with what the dials do; the sessions
    rest. *)
Definition px_event (p : px) (e : option event) (p' : px) : Prop :=
  match e with Some e => pstep p e = Some p' /\ changes_routes e = false | None => p' = p end.
Definition event_ids (e : option event) : list nat := match e with Some e => dialed_ids [e] | None => [] end.

Lemma sys_ok_http tr d rs' p' m' e l :
  sys_ok tr d -> px_event (d_px d) e p' -> registry_ok rs' -> refs_le (d_registry d) rs' ->
  (forall a c, pool_has rs' a c -> pool_has (d_registry d) a c) ->
  (forall k id cfg, e = Some (EvDialed k id) -> dial_of (d_px d) k cfg -> DWork (rc_RunID cfg) id ∈ tr) ->
  (forall k ph, m' !! k = Some ph -> d_dials d !! k = Some ph \/ phase_ok (tr ++ [l]) rs' p' k ph) ->
  held rs' ++ wrapping m' ++ event_ids e ⊆+ held (d_registry d) ++ wrapping (d_dials d) ->
  sys_ok (tr ++ [l]) (mkDrps (d_server d) rs' p' m').
Proof.
  intros [Ha Hr Hreg Hp Hd Hm Ho] He Hreg' Hrefs Hhas Hdial Hm' Hheld.
  assert (px_le (d_px d) p') as Hle by (destruct e as [e|]; [by eapply pstep_le, He | by rewrite He]).
  split; cbn [d_server d_registry d_px d_dials].
  - done.
  - rewrite Hr. destruct e as [e|]; [|by rewrite He]. destruct He as [Hs Hc]. by rewrite (pstep_h _ _ _ Hs Hc).
  - done.
  - intros a c Hc%Hhas. set_solver.
  - apply (data_step _ (d_server d) _ l) in Hd; [|done]. destruct e as [e|]; [|by rewrite He]. destruct He as [Hs Hc].
    eapply pstep_data_ok; [exact Hd| |exact Hs]. destruct e as [| |r out order|i|k id| | | | |]; try done.
    + intros q Hq. destruct (ServeHTTP_ctx _ _ _ _ Hq) as (cfg & Hl & ->). exists cfg. split; [done|].
      apply Lookup_registered in Hl; [|by eapply ai_router]. by eapply ai_routes.
    + intros dl f cfg Hf Hcfg (cfg' & Hcfg' & Hk) Hkey. rewrite Hcfg in Hcfg'. simplify_eq/=.
      split_and!; [done..|]. apply elem_of_app. left. eapply Hdial; [done|].
      apply open_dial_Some in Hf as (Hdl & _ & Hf). by exists dl, f.
  - intros k ph [Hk|Hk]%Hm'; [|done]. eapply phase_step; [exact Hrefs | exact Hle | by apply Hm].
  - assert (all_ids p' ≡ₚ event_ids e ++ all_ids (d_px d)) as Hids.
    { destruct e as [e|]; [by apply pstep_ids, He | by rewrite He]. }
    rewrite Hids. unfold work_ids. rewrite bind_app. etrans; [|apply submseteq_inserts_r; exact Ho].
    rewrite !app_assoc in *. by apply submseteq_app.
Qed.

Lemma callback_ok rs lg :
  registry_ok rs -> registry_ok (callback rs lg) /\ refs_le rs (callback rs lg) /\
  (forall a c, pool_has (callback rs lg) a c -> pool_has rs a c) /\ held (callback rs lg) ⊆+ held rs.
Proof.
  intros Hok. destruct lg; simpl; try (by split_and!; try apply refs_le_refl). unfold OnControlClose.
  pose proof (Remove_refs rs runID) as Hrefs.
  destruct (Registry.Remove rs runID) as [rs' closed] eqn:E. destruct (Remove_ok _ _ _ _ Hok E) as (Hok' & _ & _ & Hh).
  split; [done|]. split; [done|]. split.
  - intros a c Hc. eapply Remove_has; [exact Hok|]. by rewrite E.
  - cbn [fst]. rewrite Hh. by apply submseteq_inserts_l.
Qed.

(** A phase that is left. *)
Lemma delete_phases {A} (m : gmap nat A) k j ph (Q : Prop) : delete k m !! j = Some ph -> m !! j = Some ph \/ Q.
Proof. intros [_ ?]%lookup_delete_Some. by left. Qed.

Lemma sys_ok_step tr d l d' :
  sys_ok tr d -> dstep conns h poolCapacity (Zw := Zw) (Zr := Zr) d l d' -> sys_ok (tr ++ [l]) d'.
Proof.
  intros Hok Hs. pose proof (so_registry _ _ Hok) as Hreg. pose proof (so_dials _ _ Hok) as Hph.
  destruct Hs as [g rs p m lg g' Hg _ | g rs p m w c g' Hg | g rs p m e p' He Hp | g rs p m k cfg q Hm Hr Hq
    | g rs p m k cfg p' Hm Hr Hq Hp | g rs p m k q c rs' Hm Ht | g rs p m k q p' Hm Hp
    | g rs p m k c cfg pooled random w p' Hm Hr Hw Hp | g rs p m k c cfg pooled random e p' Hm Hr Hw Hp];
    cbn [d_registry d_dials d_px] in Hreg, Hph.
  - destruct (callback_ok rs lg Hreg) as (H1' & H2 & H3 & H4).
    eapply (sys_ok_server tr (mkDrps g rs p m)); cbn [d_server d_registry]; [done..|auto|].
    by rewrite app_nil_r.
  - pose proof (OnWorkConn_refs poolCapacity rs (nw_RunID w) c) as Hrefs.
    destruct (OnWorkConn poolCapacity rs (nw_RunID w) c) as [rs' closed] eqn:E.
    destruct (OnWorkConn_ok _ _ _ _ _ _ Hreg E) as (H1' & _ & H3).
    eapply (sys_ok_server tr (mkDrps g rs p m)); cbn [d_server d_registry]; [done..| |].
    + intros a b Hb. replace rs' with (fst (OnWorkConn poolCapacity rs (nw_RunID w) c)) in Hb by (by rewrite E).
      apply OnWorkConn_has in Hb as [?|[-> ->] ]; [by left|by right|done].
    + change (held rs' ⊆+ held rs ++ [c]). rewrite (Permutation_app_comm (held rs)). simpl. rewrite H3.
      by apply submseteq_inserts_l.
  - eapply (sys_ok_http tr (mkDrps g rs p m) rs p' m (Some e)); try done; [by destruct e | | by left |].
    + by intros ? ? ? [= ->].
    + assert (event_ids (Some e) = []) as -> by (by destruct e). by rewrite app_nil_r.
  - eapply (sys_ok_http tr (mkDrps g rs p m) rs p (<[k := PGet q]> m) None); try done; [|].
    + intros j ph [ [<- <-]|[_ ?] ]%lookup_insert_Some; [right|by left]. exists cfg. split; [by apply dial_route_of|].
      split; [by eapply ro_dom|]. intros a Ha'. by eapply ro_inj.
    + simpl. by rewrite wrapping_insert, app_nil_r.
  - eapply (sys_ok_http tr (mkDrps g rs p m) rs p' m (Some (EvDialErr k))); try done; [by left |].
    change (held rs ++ wrapping m ++ [] ⊆+ held rs ++ wrapping m). by rewrite app_nil_r.
  - destruct (OpTake_ok _ _ _ _ _ _ Hreg Ht) as (H1' & _ & H3).
    eapply (sys_ok_http tr (mkDrps g rs p m) rs' p (<[k := PWrap c]> m) None); try done.
    + pose proof (OpTake_refs poolCapacity rs q) as Hrefs. by rewrite Ht in Hrefs.
    + intros a b. by eapply OpTake_has.
    + intros j ph [ [<- <-]|[_ ?] ]%lookup_insert_Some; [right|by left].
      destruct (Hph _ _ Hm) as (cfg & Hd & _ & Ha). exists cfg. split; [done|]. apply elem_of_app. left.
      destruct (OpTake_registered _ _ _ _ _ _ Hreg Ht) as [a Ha'].
      rewrite <- (Ha _ Ha'). eapply (so_pools _ _ Hok). by eapply OpTake_from.
    + cbn [event_ids d_registry d_dials]. rewrite app_nil_r, H3, (wrapping_delete m k _ Hm).
      rewrite <- insert_delete_eq, wrapping_insert by apply lookup_delete_eq. apply Permutation_submseteq. simpl. solve_Permutation.
  - eapply (sys_ok_http tr (mkDrps g rs p m) rs p' (delete k m) (Some (EvDialErr k))); try done; [|].
    + intros j ph. apply delete_phases.
    + change (held rs ++ wrapping (delete k m) ++ [] ⊆+ held rs ++ wrapping m). by rewrite app_nil_r, (wrapping_delete m k _ Hm).
  - eapply (sys_ok_http tr (mkDrps g rs p m) rs p' (delete k m) (Some (EvDialed k c))); try done; [| |].
    + intros k' id cfg' [= <- <-] Hd. destruct (Hph _ _ Hm) as (cfg2 & Hd2 & Hw2). by rewrite (dial_of_det _ _ _ _ Hd Hd2).
    + intros j ph. apply delete_phases.
    + change (held rs ++ wrapping (delete k m) ++ [c] ⊆+ held rs ++ wrapping m). rewrite (wrapping_delete m k _ Hm).
      apply Permutation_submseteq. simpl. solve_Permutation.
  - eapply (sys_ok_http tr (mkDrps g rs p m) rs p' (delete k m) (Some (EvDialErr k))); try done; [|].
    + intros j ph. apply delete_phases.
    + change (held rs ++ wrapping (delete k m) ++ [] ⊆+ held rs ++ wrapping m). rewrite app_nil_r, (wrapping_delete m k _ Hm). simpl.
      apply submseteq_app; [done|]. by apply submseteq_cons.
Qed.
End process.

(** ** The process [buildServerStack] makes *)

Section built.
Context {W : Type} `{Writer W}.
Context {Wc R Zw Zr : Type} `{WriterSpec Wc, ReaderSpec R}.
Context `{!SnappyWriter (ioWriter Wc) Zw, !SnappyWriterSpec (ioWriter Wc) Zw}.
Context `{!SnappyReader (ioReader R) Zr, !Reader Zr, !ReaderSpec Zr, SR : !SnappyReaderSpec (ioReader R) Zr sz_decode}.
Variable conns : Conn -> netConn Wc R.
Variable pbkdf2_Key : bytes -> bytes -> Z -> Z -> bytes.
Variable cfg : Config.
Implicit Types (d : drps W) (tr : list dlabel).

(** An execution of the process from its start. *)
Definition drps_run tr d : Prop :=
  let stack := buildServerStack pbkdf2_Key cfg in
  exec (dstep (Zw := Zw) (Zr := Zr) conns (ss_handler stack) (PoolCapacity cfg)) (initDrps stack) tr d.

Lemma drps_run_ok tr d : drps_run tr d -> sys_ok (ss_handler (buildServerStack pbkdf2_Key cfg)) tr d.
Proof.
  revert tr d. apply exec_invariant.
  - split.
    + apply (auth_inv_holds _ Router.New (Some zeroStats) []); [apply New_wf | apply registered_New | constructor].
    + simpl. by case_match.
    + by split.
    + intros a c (q & o & Hq & _). unfold Registry.Get in Hq. simpl in Hq. by rewrite lookup_empty in Hq.
    + by split; constructor.
    + apply map_Forall_empty.
    + done.
  - intros tr d l d' _ Hok Hs. exact (sys_ok_step (Zw := Zw) (Zr := Zr) conns _ _ tr d l d' Hok Hs).
Qed.

(** A session of the server has the run ID, and was opened with the key of the
    configured token. *)
Definition token_session d (runID : string) : Prop :=
  exists j s, g_sessions (d_server d) !! j = Some s /\ ss_runID s = runID /\
    VerifyAuth (Token cfg) (lg_Timestamp (ss_login s)) (lg_PrivilegeKey (ss_login s)) = true.

Lemma known_token_session tr d a : drps_run tr d -> known (d_server d) a -> token_session d a.
Proof.
  intros Hok%drps_run_ok (j & s & Hj & E). exists j, s. split_and!; [done..|].
  by destruct (ai_sessions _ _ (so_auth _ _ _ Hok) _ _ Hj).
Qed.

(** ** The steps of a request *)

(** [dialWorkConn] run without interruption is its three steps. *)
Lemma dialWorkConn_steps (h : Server.Handler) cap (g : server W) rs p m k route pooled random now p' :
  m !! k = None -> dial_route p k = Some route -> registry_ok rs ->
  match dialWorkConn (Z := Zw) (Zr := Zr) (px_h p) (poolLookup rs) (poolGet conns rs) pooled random now (Some route) with
  | Some (Dialed _) => exists q o c rest, poolLookup rs (rc_RunID route) = Some q /\ objs rs !! q = Some o /\
      p_conns o = c :: rest /\
      (pstep p (EvDialed k c) = Some p' -> exists rs', p_conns <$> (objs rs' !! q) = Some rest /\
         exec (dstep (Zw := Zw) (Zr := Zr) conns h cap) (mkDrps g rs p m) [DLookup k; DGet k c; DDial k c] (mkDrps g rs' p' m))
  | Some (DialFailed _ _) =>
      pstep p (EvDialErr k) = Some p' -> exists ls rs',
         exec (dstep (Zw := Zw) (Zr := Zr) conns h cap) (mkDrps g rs p m) (ls ++ [DFail k]) (mkDrps g rs' p' m)
  | Some DialPanic => False
  | None => True
  end.
Proof.
  intros Hm Hr Hreg. unfold dialWorkConn. cbn [routeFromCtx].
  destruct (poolLookup rs (rc_RunID route)) as [q|] eqn:Eq.
  2:{ intros Hp. exists [], rs. by eapply exec_one, ds_noPool. }
  assert (dstep (Zw := Zw) (Zr := Zr) conns h cap (mkDrps g rs p m) (DLookup k) (mkDrps g rs p (<[k := PGet q]> m))) as H1'
    by (by eapply ds_lookup).
  assert (<[k := PGet q]> m !! k = Some (PGet q)) as Hk1 by apply lookup_insert_eq.
  unfold poolGet. destruct (objs rs !! q) as [o|] eqn:Ho.
  2:{ apply ro_dom, lookup_lt_is_Some_2 in Eq as [o Ho']; [congruence|done]. }
  destruct (ro_objs _ Hreg _ _ Ho) as [ [_ (Hcl & _)]|[Hn _] ]; [|by destruct (Hn (rc_RunID route))].
  unfold Take. rewrite Hcl. destruct (p_conns o) as [|c rest] eqn:Ec; cbn [snd].
  { intros Hp. exists [DLookup k], rs. eapply exec_cons; [exact H1'|].
    replace m with (delete k (<[k := PGet q]> m)) at 2 by (by rewrite delete_insert_id). by eapply exec_one, ds_noConn. }
  set (rs1 := mkR (reg rs) (<[q := Pool.addStats (setConns o rest) 1 0 0 0 0]> (objs rs))).
  assert (dstep (Zw := Zw) (Zr := Zr) conns h cap (mkDrps g rs p (<[k := PGet q]> m)) (DGet k c)
            (mkDrps g rs1 p (<[k := PWrap c]> m))) as H2'.
  { rewrite <- (insert_insert_eq m k (PWrap c) (PGet q)). eapply ds_get; [exact Hk1|]. cbn [rstep]. rewrite Ho.
    unfold Take. by rewrite Hcl, Ec. }
  assert (<[k := PWrap c]> m !! k = Some (PWrap c)) as Hk2 by apply lookup_insert_eq.
  assert (delete k (<[k := PWrap c]> m) = m) as Hd by (by rewrite delete_insert_id).
  destruct (Wrap pooled (conns c) _ _ _ _ random) as [ [w|[conn e]]|] eqn:Ew; [| |done].
  - exists q, o, c, rest. split_and!; [done..|]. intros Hp. exists rs1. split.
    + simpl. by rewrite list_lookup_insert_eq by (by eapply lookup_lt_Some).
    + eapply exec_cons; [exact H1'|]. eapply exec_cons; [exact H2'|]. rewrite <- Hd at 2. eapply exec_one, ds_wrapped; done.
  - intros Hp. exists [DLookup k; DGet k c], rs1. eapply exec_cons; [exact H1'|]. eapply exec_cons; [exact H2'|].
    rewrite <- Hd at 2. eapply exec_one, ds_wrapErr; done.
Qed.

(** ** The properties *)

(** C3: The tunnel is sound. In every execution of the process, from its start
    and whatever the interleaving of sessions, work connections, HTTP requests
    and dials, a request that is on a work connection is for a route of a
    session opened with the token; the connection was delivered as a work
    connection for the run ID of a route of such a session, with the same dial
    key; and when the two proxy names have no dots it is the same domain,
    location and proxy name. *)
Theorem tunnel_sound tr d i f c
    (Hrun : drps_run tr d) (Hf : px_flights (d_px d) !! i = Some f) (Hc : f_conn f = Some c) :
  exists route, rq_ctx (f_req f) = Some route /\
    token_session d (rc_RunID route) /\
    token_session d (rc_RunID (pc_route c)) /\
    DWork (rc_RunID (pc_route c)) (pc_id c) ∈ tr /\
    routeDialKey (pc_route c) = routeDialKey route /\
    (separable route -> separable (pc_route c) ->
       rc_Domain (pc_route c) = rc_Domain route /\ rc_Location (pc_route c) = rc_Location route /\
       rc_ProxyName (pc_route c) = rc_ProxyName route).
Proof.
  pose proof (drps_run_ok _ _ Hrun) as Hok. destruct (so_data _ _ _ Hok) as [Hfs _].
  destruct (Forall_lookup_1 _ _ _ _ Hfs Hf) as ((route & Hr & Hk) & (cfg' & Hr' & Hkey) & Hcs).
  rewrite Hr in Hr'. simplify_eq. destruct (Hcs c Hc) as ((Hq & Hkc & Hw) & Hqk). exists cfg'.
  assert (routeDialKey (pc_route c) = routeDialKey cfg') as E by congruence.
  split_and!; try done; try (by eapply known_token_session). intros. by apply routeDialKey_inj.
Qed.

(** C4: A work connection is in one place at a time. When the clients deliver
    distinct connections, then at every moment each of them is at most once in
    a pool, in the hands of a dial, under a request, idle in the transport, or
    closed by it, and there is no other connection; so no two requests share
    one, and none is both waiting in a pool and in use. *)
Theorem conns_exclusive tr d (Hrun : drps_run tr d) (Hnd : NoDup (work_ids tr)) :
  let places := held (d_registry d) ++ wrapping (d_dials d) ++ carried_ids (d_px d) ++
    (pc_id <$> px_idle (d_px d)) ++ px_closed (d_px d) in
  NoDup places /\ (forall c, c ∈ places -> exists runID, DWork runID c ∈ tr).
Proof.
  intros places. pose proof (so_once _ _ _ (drps_run_ok _ _ Hrun)) as Ho. split.
  - apply submseteq_Permutation in Ho as (k & Hk). rewrite Hk in Hnd. by apply NoDup_app in Hnd as [? _].
  - intros c Hc. pose proof (elem_of_submseteq _ _ _ Hc Ho) as Hin.
    apply list_elem_of_bind in Hin as (l & Hin & Hl). destruct l; set_solver.
Qed.

(** No dial has a phase before it has been started. *)
Lemma fresh_dial tr d : drps_run tr d -> d_dials d !! length (px_dials (d_px d)) = None.
Proof.
  intros Hok%drps_run_ok. destruct (d_dials d !! _) as [ph|] eqn:E; [|done].
  destruct (so_dials _ _ _ Hok _ _ E) as (cfg' & (dl & f & Hd%lookup_lt_Some & _) & _). lia.
Qed.

(** What [Wrap] needs of the connection of a dial: the writes of the
    [StartWorkConn] frame and of its own block succeed, and with encryption
    the peer has sent its block. *)
Definition peer_ready d (route : RouteConfig) (c : Conn) (iv : bytes) : Prop :=
  writes (cn_W (conns c)) (frame (startWorkConn (rc_ProxyName route)) :: (if rc_UseEncryption route then [iv] else [])) <> None /\
  (rc_UseEncryption route = true ->
     exists r x, NewCryptoReader (cn_R (conns c)) (h_aesKey (px_h (d_px d))) = Some (r, Ok x)).

Lemma peer_ready_Wrap d route c iv : peer_ready d route c iv ->
  exists w, dial_wrap (Zw := Zw) (Zr := Zr) conns (d_px d) route c [] (Ok iv) = Some (inl w).
Proof.
  intros [Hw Hr]. unfold dial_wrap. destruct (rc_UseEncryption route).
  - destruct (Hr eq_refl) as (r & x & E). eapply (Wrap_returns (Z := Zw)); [exact Hw|]. eexists. by eauto.
  - eapply (Wrap_returns (Z := Zw)); [exact Hw|]. eexists. by eauto.
Qed.

Lemma dial_gets_conn h cap (g : server W) rs p m k route q o c rest iv p' :
  registry_ok rs -> m !! k = None -> dial_route p k = Some route -> peer_ready (mkDrps g rs p m) route c iv ->
  poolLookup rs (rc_RunID route) = Some q -> objs rs !! q = Some o -> p_conns o = c :: rest ->
  pstep p (EvDialed k c) = Some p' ->
  exists rs', p_conns <$> (objs rs' !! q) = Some rest /\
    exec (dstep (Zw := Zw) (Zr := Zr) conns h cap) (mkDrps g rs p m) [DLookup k; DGet k c; DDial k c] (mkDrps g rs' p' m).
Proof.
  intros Hreg Hm Hr [w Ew]%peer_ready_Wrap Hq Ho Hc Hp.
  pose proof (dialWorkConn_steps h cap g rs p m k route [] (Ok iv) 0 p' Hm Hr Hreg) as Hs. revert Hs.
  unfold dialWorkConn. cbn [routeFromCtx]. rewrite Hq. unfold poolGet. rewrite Ho.
  destruct (ro_objs _ Hreg _ _ Ho) as [ [_ (Hcl & _)]|[Hn _] ]; [|by destruct (Hn (rc_RunID route))].
  unfold Take. rewrite Hcl, Hc. cbn [snd]. unfold dial_wrap in Ew. cbn [d_px] in Ew. rewrite Ew.
  intros (q' & o' & c' & rest' & ? & ? & Hc' & Hs). simplify_eq.
  rewrite Hc in Hc'. simplify_eq. by apply Hs.
Qed.

(** C5: A request gets a connection. From any state the process can reach,
    whatever else is in flight, when the handler lets a request through, the
    process can carry it in at most five steps. If the transport keeps idle
    connections of the dial key of the route, it is the most recent of them
    and there is no dial. Otherwise, if the pool of the route's session holds
    connections and the client of the oldest one does its part of [Wrap], it
    is that one, dialed for the route and taken out of the pool. Sessions,
    routes and other requests are left as they were. *)
Theorem request_gets_conn tr d (r q : Request) (route : RouteConfig) (p : ref) (o : Pool) (c : Conn) (rest : list Conn)
    (iv : bytes) (out : OutRequest) (order : list (string * string))
    (Hrun : drps_run tr d)
    (Hserve : ServeHTTP (px_h (d_px d)) ∅ r = inr q) (Hctx : rq_ctx q = Some route)
    (Hready : take_last (has_key (routeDialKey route)) (px_idle (d_px d)) = None ->
       poolLookup (d_registry d) (rc_RunID route) = Some p /\ objs (d_registry d) !! p = Some o /\
       p_conns o = c :: rest /\ peer_ready d route c iv) :
  exists tr' d' f pc, drps_run (tr ++ tr') d' /\ (length tr' <= 5)%nat /\
    d_server d' = d_server d /\ px_flights (d_px d') = px_flights (d_px d) ++ [f] /\
    f_req f = q /\ f_conn f = Some pc /\ pc_key pc = routeDialKey route /\
    match take_last (has_key (routeDialKey route)) (px_idle (d_px d)) with
    | Some (idle, others) => pc = idle /\ px_idle (d_px d') = others /\ d_registry d' = d_registry d
    | None => pc = mkPC c (routeDialKey route) route /\ px_idle (d_px d') = px_idle (d_px d) /\
        p_conns <$> (objs (d_registry d') !! p) = Some rest
    end.
Proof.
  pose proof (so_registry _ _ _ (drps_run_ok _ _ Hrun)) as Hreg. pose proof (fresh_dial _ _ Hrun) as Hm.
  assert (exists out', rewriteRequest order (rq_ctx q) out = Some out' /\ o_URLHost out' = routeDialKey route) as (out' & Er & Ek)
    by (rewrite Hctx; by eexists).
  destruct d as [g rs px m]. cbn [d_server d_registry d_px d_dials] in *.
  set (f0 := mkFlight q out' Asking). pose proof (new_request_served px f0 eq_refl) as Hnew.
  set (px1 := getConn (setFlights px (px_flights px ++ [f0])) (length (px_flights px)) f0) in *.
  assert (exec (dstep (Zw := Zw) (Zr := Zr) conns (ss_handler (buildServerStack pbkdf2_Key cfg)) (PoolCapacity cfg)) (mkDrps g rs px m)
    [DHttp (EvRequest r out order); DHttp (EvGetConn (length (px_flights px)))] (mkDrps g rs px1 m)) as Hasked.
  { eapply exec_cons; [|apply exec_one].
    - apply (ds_http _ _ _ g rs px m _ (setFlights px (px_flights px ++ [f0]))); [done|]. cbn [pstep]. by rewrite Hserve, Er.
    - apply ds_http; [done|]. cbn [pstep setFlights px_flights]. by rewrite list_lookup_middle. }
  cbn [f_out f_req f0] in Hnew. rewrite Ek in Hnew. destruct (take_last _ (px_idle px)) as [ [idle others]|] eqn:Et.
  - destruct Hnew as [Hf Hi]. eexists _, _, _, idle. split; [eapply exec_app; [exact Hrun | exact Hasked]|].
    split_and!; try done; [simpl; lia|]. apply take_last_Some in Et as [_ Hk]. by apply String.eqb_eq.
  - destruct (Hready eq_refl) as (Hpool & Ho & Hconns & Hpeer). destruct (Hnew c route Hctx) as (Hr & Hh & px2 & Hd & Hf & Hi). rewrite Hctx in Hr.
    destruct (dial_gets_conn (ss_handler (buildServerStack pbkdf2_Key cfg)) (PoolCapacity cfg) g rs px1 m _ route p o c rest iv px2
      Hreg Hm) as (rs' & Hrest & Hdialed); try done; [by unfold peer_ready in *; cbn [d_px] in *; rewrite Hh|].
    eexists _, _, _, _. split; [eapply exec_app; [exact Hrun|]; eapply exec_app; [exact Hasked | exact Hdialed]|].
    by split_and!.
Qed.
End built.

(** ** Witnesses: a client logs in, registers a proxy, delivers two work
    connections; a request arrives, its dial goes through, it is answered;
    then another, on the connection that is kept *)

Definition sys_cfg : Config := setToken defaultConfig "t".
Definition sys_kdf (_ _ : bytes) (_ _ : Z) : bytes := [].
Definition sys_get (path : string) : Request := mkRequest "a.com" path ∅ None.
Definition sys_out : OutRequest := mkOut "" "" "a.com" ∅.
Definition sys_conns (_ : Conn) : demoConn := demo_conn.

Definition sys_session : list (dchoice (W := memConn)) :=
  [DcServer (GcSession demo_login [] (mkMem [] 1000)); DcServer (GcMain 0); DcServer (GcMain 0);
   DcServer (GcRead 0 demo_web); DcWork (mkNewWorkConn "abc" "" 0) 7%nat; DcWork (mkNewWorkConn "abc" "" 0) 8%nat].
Definition sys_requests : list (dchoice (W := memConn)) :=
  [DcHttp (EvRequest (sys_get "/x") sys_out []); DcHttp (EvGetConn 0); DcLookup 0; DcGet 0; DcWrap 0 [] (Ok demo_iv);
   DcHttp (EvFinish 0 true); DcHttp (EvRequest (sys_get "/y") sys_out []); DcHttp (EvGetConn 1)].

Abbreviation sys_writer := (storeWriter (ioWriter memConn)).
Abbreviation sys_reader := (ioReader memStream).

Definition sys_drive (cs : list (dchoice (W := memConn))) : list dlabel * drps memConn :=
  let stack := buildServerStack sys_kdf sys_cfg in
  default ([], initDrps stack) (dsched_run (Zw := sys_writer) (Zr := sys_reader) sys_conns (ss_handler stack)
    (PoolCapacity sys_cfg) (initDrps stack) cs).

Lemma sys_drive_run cs :
  drps_run (Zw := sys_writer) (Zr := sys_reader) sys_conns sys_kdf sys_cfg (fst (sys_drive cs)) (snd (sys_drive cs)).
Proof.
  unfold sys_drive, drps_run. cbv zeta. destruct (dsched_run _ _ _ _ cs) as [ [tr d]|] eqn:E; [|constructor].
  by eapply dsched_run_sound.
Qed.

(** What is in the pools and in the transport. *)
Definition sys_ids (d : drps memConn) : list Conn * list nat * list nat :=
  (held (d_registry d), carried_ids (d_px d), pc_id <$> px_idle (d_px d)).

Lemma tunnel_sound_witness :
  let d := snd (sys_drive (sys_session ++ sys_requests)) in
  sys_ids d = ([8], [7], [])%nat /\
  forall f c, px_flights (d_px d) !! 1%nat = Some f -> f_conn f = Some c ->
    token_session sys_cfg d (rc_RunID (pc_route c)) /\
    DWork (rc_RunID (pc_route c)) (pc_id c) ∈ fst (sys_drive (sys_session ++ sys_requests)).
Proof.
  cbv zeta. split; [vm_compute; reflexivity|]. intros f c Hf Hc.
  destruct (tunnel_sound sys_conns sys_kdf sys_cfg _ _ 1 f c (sys_drive_run (sys_session ++ sys_requests)) Hf Hc)
    as (route & _ & _ & Ht & Hw & _).
  split; [exact Ht | exact Hw].
Defined.

Lemma conns_exclusive_witness :
  let d := snd (sys_drive (sys_session ++ sys_requests)) in
  sys_ids d = ([8], [7], [])%nat /\
  NoDup (held (d_registry d) ++ wrapping (d_dials d) ++ carried_ids (d_px d) ++ (pc_id <$> px_idle (d_px d)) ++ px_closed (d_px d)).
Proof.
  cbv zeta. split; [vm_compute; reflexivity|].
  refine (proj1 (conns_exclusive sys_conns sys_kdf sys_cfg _ _ (sys_drive_run (sys_session ++ sys_requests)) _)).
  replace (work_ids _) with [7; 8]%nat by (vm_compute; reflexivity).
  apply (proj1 (bool_decide_eq_true (NoDup [7; 8]%nat))). reflexivity.
Defined.

Lemma sys_peer_ready (d : drps memConn) route iv :
  rc_UseEncryption route = false -> rc_ProxyName route = "web" -> peer_ready sys_conns d route 7%nat iv.
Proof. intros He Hn. split; rewrite He; [rewrite Hn; vm_compute|]; discriminate. Qed.

Lemma request_gets_conn_witness :
  exists tr d' f pc, drps_run (Zw := sys_writer) (Zr := sys_reader) sys_conns sys_kdf sys_cfg tr d' /\
    px_flights (d_px d') !! 0%nat = Some f /\ f_conn f = Some pc /\ pc_id pc = 7%nat /\ rc_ProxyName (pc_route pc) = "web".
Proof.
  pose proof (sys_drive_run sys_session) as Hrun.
  set (d := snd (sys_drive sys_session)) in *.
  destruct (ServeHTTP (px_h (d_px d)) ∅ (sys_get "/x")) as [e|q] eqn:Es; [vm_compute in Es; discriminate|].
  destruct (rq_ctx q) as [route|] eqn:Eq; [|vm_compute in Es; injection Es as <-; discriminate].
  destruct (objs (d_registry d) !! 0%nat) as [o|] eqn:Eo; [|vm_compute in Eo; discriminate].
  destruct (request_gets_conn sys_conns sys_kdf sys_cfg _ d (sys_get "/x") q route 0 o 7%nat [8%nat] demo_iv sys_out [] Hrun Es Eq)
    as (tr' & d' & f & pc & H1 & _ & _ & H2 & _ & H3 & _ & H4).
  - intros _. split; [|split; [exact Eo|split] ].
    + vm_compute in Es. injection Es as <-. injection Eq as <-. vm_compute. reflexivity.
    + vm_compute in Eo. injection Eo as <-. reflexivity.
    + vm_compute in Es. injection Es as <-. injection Eq as <-. by apply sys_peer_ready.
  - eexists _, d', f, pc. split; [exact H1|]. split; [rewrite H2; vm_compute; reflexivity|]. split; [exact H3|].
    vm_compute in Es. injection Es as <-. injection Eq as <-.
    replace (px_idle (d_px d)) with (@nil pconn) in H4 by (vm_compute; reflexivity). destruct H4 as (-> & _). split; reflexivity.
Defined.
